(** * FUXA device drivers: MPSClient and EasyDrvClient

    A shallow embedding of the two TCP drivers of the repository
    (server/runtime/devices/mps and server/runtime/devices/easydrv):
    the frame parsers, the LuaEngine state read-back, the dotted-path tag
    resolver, the overload guard, connect(), disconnect() and the polling()
    cycle, the write path (makeLuaSetCmd, setValue) and the browse path of
    EasyDrvClient, the BrowseTags request of MPSClient and the accessors of
    the value cache.

    Conventions of the embedding.
    - A Node [Buffer] is a [list byte]; [buf[i]] is read as a number through
      [bz].  Every indexed read of the source is guarded by a length test, so
      the reads are written as pattern matches on the list.
    - JavaScript values are the inductive [JsVal].  Numbers are carried as
      integers: no property below does arithmetic on a tag value.  Objects
      hold their own properties only, in enumeration order.
    - Every driver variable captured by the closures of the constructor is a
      field of the driver's [State]; every observable action (an emitted
      event, a log line, a socket call, a DAQ hand-off) is appended to the
      [trace] of the state.
    - What an [await] receives from the network is an input of the model.
    - Library calls (zlib, iconv-lite, fengari's interpreter, JSON, the
      device-utils helpers) are Section variables. *)

From Stdlib Require Import ZArith Lia Bool List Sorted.
From Stdlib Require Import Strings.Byte Strings.Ascii.
From stdpp Require Import base option list strings gmap fin_maps pretty.

Set Warnings "-register-all".
Local Open Scope Z_scope.

(* ===================================================================== *)
(** * Bytes and 32-bit integers *)
(* ===================================================================== *)

(** [buf[i]] of a Buffer: the byte as a number in 0..255. *)
Definition bz (b : byte) : Z := Z.of_N (Byte.to_N b).

(** ToInt32 of ECMAScript: wrap into the signed 32-bit range. *)
Definition to_int32 (z : Z) : Z := (z + 2 ^ 31) mod 2 ^ 32 - 2 ^ 31.

(** [a << n] and [a | b] on int32 operands. *)
Definition js_shl (a n : Z) : Z := to_int32 (Z.shiftl (to_int32 a) n).
Definition js_or (a b : Z) : Z := to_int32 (Z.lor (to_int32 a) (to_int32 b)).

(** [buf.slice(a, b)] for [0 <= a <= b]; slicing stops at the end. *)
Definition slice (buf : list byte) (a b : Z) : list byte :=
  take (Z.to_nat (b - a)) (drop (Z.to_nat a) buf).

(** [buf.length]. *)
Definition blen (buf : list byte) : Z := Z.of_nat (length buf).

(** The unsigned big-endian reading of four bytes. *)
Definition be32 (b4 b5 b6 b7 : byte) : Z :=
  bz b4 * 2 ^ 24 + bz b5 * 2 ^ 16 + bz b6 * 2 ^ 8 + bz b7.

(** The unsigned big-endian reading of two bytes. *)
Definition be16 (hi lo : byte) : Z := bz hi * 256 + bz lo.

(* ===================================================================== *)
(** * JavaScript values *)
(* ===================================================================== *)

(** The built-in objects a property read can reach from data: the
    prototypes every value inherits from, and the functions they hold (a
    built-in function is named by its [name] property). *)
Inductive Builtin :=
| ObjectPrototype
| ArrayPrototype
| StringPrototype
| NumberPrototype
| BooleanPrototype
| FunctionPrototype
| BuiltinFunction (name : string).

(** A number is [JNumber] when its value is an integer and [JDouble]
    otherwise: a fraction, NaN or an infinity, held as the text ToString
    gives for it.  [JObject] is an object created by a literal or by
    JSON.parse, whose prototype is Object.prototype; [JDerived] is an object
    whose prototype was replaced by an assignment to [__proto__]. *)
Inductive JsVal : Type :=
| JUndefined
| JNull
| JBool (b : bool)
| JNumber (n : Z)
| JString (s : string)
| JArray (items : list JsVal)
| JObject (props : list (string * JsVal))
| JDouble (text : string)
| JDerived (proto : JsVal) (props : list (string * JsVal))
| JBuiltin (b : Builtin).

(** [typeof v]. *)
Inductive JsType :=
  TUndefined | TObject | TBoolean | TNumber | TString | TFunction.

Definition typeof (v : JsVal) : JsType :=
  match v with
  | JUndefined => TUndefined
  | JNull | JArray _ | JObject _ | JDerived _ _ => TObject
  | JBool _ => TBoolean
  | JNumber _ | JDouble _ => TNumber
  | JString _ => TString
  | JBuiltin (BuiltinFunction _) | JBuiltin FunctionPrototype => TFunction
  | JBuiltin _ => TObject
  end.

Definition is_object_type (v : JsVal) : bool :=
  match typeof v with TObject => true | _ => false end.

(** ToBoolean: what [if (v)], [!v] and [v && ...] test. *)
Definition truthy (v : JsVal) : bool :=
  match v with
  | JUndefined | JNull => false
  | JBool b => b
  | JNumber n => negb (n =? 0)
  | JDouble text => negb (String.eqb text "NaN")
  | JString s => negb (String.eqb s "")
  | JArray _ | JObject _ | JDerived _ _ | JBuiltin _ => true
  end.

Definition is_undefined (v : JsVal) : bool :=
  match v with JUndefined => true | _ => false end.

(** Own property of an object, by first match. *)
Fixpoint assoc {A} (k : string) (l : list (string * A)) : option A :=
  match l with
  | [] => None
  | (k', v) :: l' => if String.eqb k k' then Some v else assoc k l'
  end.

(** [obj[k] = v] on an own property: overwrite in place, or append. *)
Fixpoint assoc_set {A} (k : string) (v : A) (l : list (string * A))
  : list (string * A) :=
  match l with
  | [] => [(k, v)]
  | (k', v') :: l' =>
      if String.eqb k k' then (k, v) :: l' else (k', v') :: assoc_set k v l'
  end.

(** The array index a property key denotes, if any: the position [i] below
    the length whose canonical decimal spelling is the key. *)
Definition array_index (k : string) (len : nat) : option nat :=
  fst <$> list_find (fun i : nat => pretty i = k) (seq 0 len).

(** ** Inherited properties *)

(** The functions Object.prototype holds, by property name; [constructor]
    is the function [Object], the others are named like the property. *)
Definition object_prototype_methods : list string :=
  ["constructor"; "hasOwnProperty"; "isPrototypeOf";
   "propertyIsEnumerable"; "toLocaleString"; "toString"; "valueOf";
   "__defineGetter__"; "__defineSetter__"; "__lookupGetter__";
   "__lookupSetter__"].

(** [Object.prototype[k]] as a receiver whose prototype is [proto] sees it:
    the accessor [__proto__] answers with the prototype of the receiver. *)
Definition object_prototype_get (k : string) (proto : JsVal) : JsVal :=
  if String.eqb k "__proto__" then proto
  else if String.eqb k "constructor" then JBuiltin (BuiltinFunction "Object")
  else if bool_decide (k ∈ object_prototype_methods)
       then JBuiltin (BuiltinFunction k)
  else JUndefined.

(** What the embedding takes from the JavaScript runtime.  [builtin_own b k]
    is the property a built-in object other than Object.prototype holds
    itself under [k], if it has one: the methods of arrays, strings, numbers,
    booleans and functions, whose names vary with the version of the
    language.  [exponent_notation n] is ToString of a number of magnitude
    10^21 or more, whose digits are those of the shortest decimal that
    rounds to the number. *)
Class Runtime := {
  builtin_own : Builtin -> string -> option JsVal;
  exponent_notation : Z -> string
}.

(** The prototype of a built-in object. *)
Definition builtin_prototype (b : Builtin) : JsVal :=
  match b with
  | ObjectPrototype => JNull
  | BuiltinFunction _ => JBuiltin FunctionPrototype
  | _ => JBuiltin ObjectPrototype
  end.

(** [k] looked up from the built-in object [b] upwards. *)
Definition builtin_get `{Runtime} (b : Builtin) (k : string) (proto : JsVal)
  : JsVal :=
  match b with
  | ObjectPrototype => object_prototype_get k proto
  | BuiltinFunction _ =>
      match builtin_own b k with
      | Some v => v
      | None =>
          match builtin_own FunctionPrototype k with
          | Some v => v
          | None => object_prototype_get k proto
          end
      end
  | _ =>
      match builtin_own b k with
      | Some v => v
      | None => object_prototype_get k proto
      end
  end.

(** The prototype of a value that is not null or undefined (of the wrapper
    object, for a primitive). *)
Definition prototype_of (v : JsVal) : JsVal :=
  match v with
  | JUndefined | JNull => JNull
  | JBool _ => JBuiltin BooleanPrototype
  | JNumber _ | JDouble _ => JBuiltin NumberPrototype
  | JString _ => JBuiltin StringPrototype
  | JArray _ => JBuiltin ArrayPrototype
  | JObject _ => JBuiltin ObjectPrototype
  | JDerived proto _ => proto
  | JBuiltin b => builtin_prototype b
  end.

(** [k] looked up from [v] upwards, for a receiver whose prototype is
    [proto]: the own property when there is one, the prototype chain
    otherwise; a null prototype ends the chain.  Arrays and strings answer
    themselves to their indices and to [length]. *)
Fixpoint lookup_from `{Runtime} (v : JsVal) (k : string) (proto : JsVal)
  : JsVal :=
  match v with
  | JUndefined | JNull => JUndefined
  | JBool _ => builtin_get BooleanPrototype k proto
  | JNumber _ | JDouble _ => builtin_get NumberPrototype k proto
  | JString s =>
      if String.eqb k "length" then JNumber (Z.of_nat (String.length s))
      else match array_index k (String.length s) with
           | Some i =>
               match String.get i s with
               | Some c => JString (String c EmptyString)
               | None => JUndefined
               end
           | None => builtin_get StringPrototype k proto
           end
  | JArray items =>
      if String.eqb k "length" then JNumber (Z.of_nat (length items))
      else match array_index k (length items) with
           | Some i => default JUndefined (items !! i)
           | None => builtin_get ArrayPrototype k proto
           end
  | JObject props =>
      match assoc k props with
      | Some x => x
      | None => object_prototype_get k proto
      end
  | JDerived q props =>
      match assoc k props with
      | Some x => x
      | None => lookup_from q k proto
      end
  | JBuiltin b => builtin_get b k proto
  end.

(** [v[k]].  On null and undefined the access raises a TypeError, which is
    [None] here. *)
Definition getProp `{Runtime} (v : JsVal) (k : string) : option JsVal :=
  match v with
  | JUndefined | JNull => None
  | _ => Some (lookup_from v k (prototype_of v))
  end.

(** [obj[k] = value] on an object: an assignment to [__proto__] goes to the
    accessor Object.prototype holds, which replaces the prototype by an
    object or by null and ignores any other value; once the object no
    longer inherits from Object.prototype the name is a property like any
    other. *)
Definition own_props (v : JsVal) : list (string * JsVal) :=
  match v with
  | JObject props | JDerived _ props => props
  | _ => []
  end.

Fixpoint reaches_object_prototype (v : JsVal) : bool :=
  match v with
  | JUndefined | JNull => false
  | JDerived q _ => reaches_object_prototype q
  | _ => true
  end.

(** An assignment to [__proto__] finds the accessor: the object has no
    property of its own under the name and still inherits from
    Object.prototype. *)
Definition proto_accessor_applies (obj : JsVal) : bool :=
  match assoc "__proto__" (own_props obj) with
  | Some _ => false
  | None => reaches_object_prototype obj
  end.

Definition setProp (k : string) (value : JsVal) (obj : JsVal) : JsVal :=
  let derive proto props :=
    match proto with
    | JBuiltin ObjectPrototype => JObject props
    | _ => JDerived proto props
    end in
  match obj with
  | JObject _ | JDerived _ _ =>
      if String.eqb k "__proto__" && proto_accessor_applies obj then
        match typeof value with
        | TObject | TFunction => derive value (own_props obj)
        | _ => obj
        end
      else derive (prototype_of obj) (assoc_set k value (own_props obj))
  | _ => obj
  end.

(** [a !== b] negated, i.e. strict equality.  Two objects are equal only
    when they are the same reference: the trees compared by the drivers
    come from different places and compare unequal, a built-in object is
    the same wherever it is reached from.  NaN is equal to nothing. *)
Definition strict_eq (a b : JsVal) : bool :=
  match a, b with
  | JUndefined, JUndefined => true
  | JNull, JNull => true
  | JBool x, JBool y => Bool.eqb x y
  | JNumber x, JNumber y => x =? y
  | JDouble x, JDouble y => String.eqb x y && negb (String.eqb x "NaN")
  | JString x, JString y => String.eqb x y
  | JBuiltin x, JBuiltin y =>
      match x, y with
      | ObjectPrototype, ObjectPrototype
      | ArrayPrototype, ArrayPrototype
      | StringPrototype, StringPrototype
      | NumberPrototype, NumberPrototype
      | BooleanPrototype, BooleanPrototype
      | FunctionPrototype, FunctionPrototype => true
      | BuiltinFunction n, BuiltinFunction m => String.eqb n m
      | _, _ => false
      end
  | _, _ => false
  end.

(** [s.split('.')]: the parts between the dots, empty parts included. *)
Fixpoint split_dot (s : string) : list string :=
  match s with
  | EmptyString => [EmptyString]
  | String c s' =>
      if Ascii.eqb c "."%char then EmptyString :: split_dot s'
      else match split_dot s' with
           | part :: parts => String c part :: parts
           | [] => [String c EmptyString]
           end
  end.

(** [s.indexOf('.') > 0]. *)
Fixpoint index_of_dot (s : string) : option nat :=
  match s with
  | EmptyString => None
  | String c s' =>
      if Ascii.eqb c "."%char then Some 0%nat else S <$> index_of_dot s'
  end.

Definition dot_after_first (s : string) : bool :=
  match index_of_dot s with
  | Some (S _) => true
  | _ => false
  end.

(* ===================================================================== *)
(** * Configuration, samples, sockets and the trace *)
(* ===================================================================== *)

(** [tag.daq]: the DAQ settings of a tag. *)
Record Daq := {
  daq_enabled : bool;
  daq_interval : Z;
  daq_changed : bool
}.

(** One entry of [data.tags].  [address] and [name] are strings (an absent
    one is the empty string, which [||] treats alike); the scaling, format
    and deadband settings are read by device-utils only and stay in
    [tag_settings]. *)
Record Tag := {
  tag_name : string;
  tag_address : string;
  tag_type : string;
  tag_daq : Daq;
  tag_settings : JsVal
}.

(** [tag.address || tag.name || '']. *)
Definition tag_addr (tag : Tag) : string :=
  if negb (String.eqb (tag_address tag) "") then tag_address tag
  else tag_name tag.

(** One entry of [varsValue]:
    [{ id, value, rawValue, type, changed, timestamp, daq }]. *)
Record Sample := {
  s_id : string;
  s_value : JsVal;
  s_rawValue : JsVal;
  s_type : string;
  s_changed : bool;
  s_timestamp : Z;
  s_daq : Daq
}.

Definition set_value (v : JsVal) (s : Sample) : Sample :=
  {| s_id := s_id s; s_value := v; s_rawValue := s_rawValue s;
     s_type := s_type s; s_changed := s_changed s;
     s_timestamp := s_timestamp s; s_daq := s_daq s |}.

Definition set_changed (c : bool) (s : Sample) : Sample :=
  {| s_id := s_id s; s_value := s_value s; s_rawValue := s_rawValue s;
     s_type := s_type s; s_changed := c;
     s_timestamp := s_timestamp s; s_daq := s_daq s |}.

(** The value cache [varsValue], keyed by tag id. *)
Abbreviation Cache := (gmap string Sample).

(** A [net.Socket].  The three [throws_] flags say which of its methods
    raise when called: disconnect() wraps them in try/catch and has to
    survive each. *)
Record Socket := {
  destroyed : bool;
  throws_write : bool;
  throws_removeAllListeners : bool;
  throws_destroy : bool
}.

(** [!socket || socket.destroyed]. *)
Definition socket_unusable (s : option Socket) : bool :=
  match s with
  | None => true
  | Some sk => destroyed sk
  end.

Inductive LogLevel := LInfo | LWarn | LError.

(** Log lines, by the template that produces them. *)
Inductive LogMsg :=
| MsgTryConnect
| MsgConnected
| MsgConnectFailed (err : string)
| MsgDisconnectFailure
| MsgOverload                       (* working overload! polling too fast *)
| MsgOverloadCount (n : Z)          (* working overload! ${overloading} *)
| MsgQueryAllFailed (n : Z)
| MsgReadTagError (name : string) (err : string)
| MsgPollingError (err : string)
| MsgLoaded (count : nat)
| MsgIndexMismatch (got expected : Z)
| MsgAnswerTooLarge (size : Z)
| MsgHandshake (received : bool)
| MsgProtocolVersion (v : JsVal)
| MsgPacNameMismatch
| MsgPacInfo
| MsgPacInfoWarning (err : string)
| MsgPacStateWarning (err : string).

(** Everything a driver does that is visible outside its closure. *)
Inductive Event :=
| Log (lvl : LogLevel) (msg : LogMsg)
| EmitStatus (status : string)          (* 'device-status:changed' *)
| EmitValues (values : Cache)           (* 'device-value:changed'  *)
| AddDaq (changed : Cache)              (* this.addDaq(changed, ...) *)
| SockConnect                           (* socket.connect(port, address) *)
| SockWrite (bytes : list byte)         (* socket.write(bytes) *)
| SockRemoveAllListeners
| SockDestroy.

Definition is_network (e : Event) : bool :=
  match e with
  | SockConnect | SockWrite _ | SockRemoveAllListeners | SockDestroy => true
  | _ => false
  end.

(** What arrives on the socket while one request waits: the chunks of the
    'data' events, in order, and what ends the wait if no response was
    parsed out of them. *)
Inductive Ending := TimesOut | SocketFails (err : string).

Record Incoming := {
  chunks : list (list byte);
  ending : Ending
}.

Definition ending_error (e : Ending) : string :=
  match e with
  | TimesOut => "timeout"
  | SocketFails err => err
  end.

(** How the TCP connect of connect() ends. *)
Inductive TcpOutcome := TcpOpen | TcpTimeout | TcpError (err : string).

(* ===================================================================== *)
(** * Library interfaces *)
(* ===================================================================== *)

(** zlib: [inflateSync buf] is [None] when zlib throws. *)
Class Zlib := { inflateSync : list byte -> option (list byte) }.

(** Buffer and string codecs: [buf.toString('utf8')], and
    [JSON.stringify(cmd)] for a DeviceCommand
    [{ DeviceName, Command, Unit, Parameters }] with no parameters. *)
Class Codec := {
  toString_utf8 : list byte -> string;
  JSON_stringify_cmd : string -> string -> Z -> string
}.

(** The text [iconv.decode(payload, 'win1251')] yields, kept as the bytes
    it was decoded from. *)
Inductive Text := iconv_decode_win1251 (payload : list byte).

(** [JSON.parse]: [None] when it throws. *)
Class Json := { JSON_parse : Text -> option JsVal }.

(** device-utils.js is not among the sources.  [tagValueCompose] is the
    raw-to-engineering transform of the tag value pipeline, which may fail
    with a pipeline error; [tagDaqToSave] is its history-write-worthiness
    predicate. *)
Class DeviceUtils := {
  tagValueCompose : JsVal -> JsVal -> Tag -> JsVal + string;
  tagDaqToSave : Sample -> Z -> bool
}.

(* ===================================================================== *)
(** * LuaEngine: reading the interpreter state back *)
(* ===================================================================== *)

(** A Lua value as [lua_type] classifies it.  A number is [LNumber] when
    [lua_tonumber] gives an integer and [LFloat] otherwise, held like
    [JDouble]; a string is [LString] when [to_jsstring] can decode it and
    [LBytes] when it is not valid UTF-8, on which [to_jsstring] raises.  A
    table is a reference into the heap of the interpreter, so a table may
    contain itself.  [LOther] stands for functions, userdata and threads. *)
Inductive LuaVal :=
| LNil
| LBoolean (b : bool)
| LNumber (n : Z)
| LString (s : string)
| LTable (ref : nat)
| LOther
| LFloat (text : string)
| LBytes.

(** What a chunk can change: the globals, and for each table the key/value
    pairs in the order [lua_next] walks them. *)
Record LuaHeap := {
  lua_globals : gmap string LuaVal;
  lua_tables : gmap nat (list (LuaVal * LuaVal))
}.

(** The part of a [lua_State] the engine works on: the heap, the values on
    the stack of the host's frame (the top first), and the number of slots
    the frame may use ([L.ci.top], counted from the base of the frame). *)
Record LuaState := {
  lua_heap : LuaHeap;
  lua_stack : list LuaVal;
  lua_ci_top : nat
}.

(** The slots a frame of the host starts with. *)
Definition LUA_MINSTACK : nat := 20.

(** The fengari interpreter: the heap of a fresh state with the standard
    libraries opened, and what running a chunk behind the stub prefix of
    [execute] leaves behind: the heap, and the values [luaL_dostring]
    leaves on the stack (the results of the chunk, or the error message
    when it fails), which [execute] does not pop. *)
Class Fengari := {
  luaL_newstate : LuaHeap;
  luaL_dostring : LuaHeap -> string -> LuaHeap * list LuaVal
}.

(** An API call or a reader returns, or raises; either way it leaves a
    state. *)
Inductive Outcome (A : Type) :=
| Returns (a : A) (L : LuaState)
| Raises (L : LuaState).
Arguments Returns {A} a L.
Arguments Raises {A} L.

Definition set_stack (stack : list LuaVal) (L : LuaState) : LuaState :=
  {| lua_heap := lua_heap L; lua_stack := stack;
     lua_ci_top := lua_ci_top L |}.

(** A value is stored at the top, the top moves up, and the API check
    [L.top <= L.ci.top] raises 'stack overflow' when it fails: nothing
    grows the stack of the host's frame, [lua_checkstack] is never
    called. *)
Definition api_incr_top (v : LuaVal) (L : LuaState) : Outcome unit :=
  let L1 := set_stack (v :: lua_stack L) L in
  if (length (lua_stack L1) <=? lua_ci_top L1)%nat then Returns tt L1
  else Raises L1.

(** [lua_getglobal(L, name)]: the name is pushed, checked, and replaced by
    the value of the global, nil when there is none (the names the drivers
    read do not begin with two underscores, so the [__index] stub of
    [execute] does not answer for them). *)
Definition lua_getglobal (L : LuaState) (name : string) : Outcome unit :=
  match api_incr_top (LString name) L with
  | Returns _ L1 =>
      Returns tt
        (set_stack
           (default LNil (lua_globals (lua_heap L) !! name) :: lua_stack L)
           L)
  | Raises L1 => Raises L1
  end.

(** [lua_pushnil(L)]. *)
Definition lua_pushnil (L : LuaState) : Outcome unit := api_incr_top LNil L.

(** [lua_pop(L, 1)]. *)
Definition lua_pop (L : LuaState) : LuaState :=
  set_stack (tl (lua_stack L)) L.

(** [lua_type(L, -1)] and the value read there. *)
Definition lua_top (L : LuaState) : LuaVal := hd LNil (lua_stack L).

Definition lua_entries (L : LuaState) (ref : nat) : list (LuaVal * LuaVal) :=
  default [] (lua_tables (lua_heap L) !! ref).

(** [lua_next(L, absIdx)] when the table has a pair after the key on top:
    the key is replaced by the next one and its value is pushed. *)
Definition lua_next_pair (k v : LuaVal) (L : LuaState) : Outcome unit :=
  api_incr_top v (set_stack (k :: tl (lua_stack L)) L).

(** The property key of a table key: a string as [to_jsstring] decodes it,
    a number through the number-to-string conversion of property access.
    [None]: the loop skips the key. *)
Inductive TableKey := KeyName (key : string) | KeyRaises | KeySkipped.

Definition table_key `{Runtime} (k : LuaVal) : TableKey :=
  match k with
  | LString s => KeyName s
  | LBytes => KeyRaises
  | LNumber n =>
      KeyName (if Z.abs n <? 10 ^ 21 then pretty n else exponent_notation n)
  | LFloat text => KeyName text
  | _ => KeySkipped
  end.

(** The [while (lua_next(L, absIdx) !== 0)] loop of [_readTable], over the
    pairs still to visit, with the key of the last visit on top of the
    stack (nil at first) and [rd] reading the value on top of the stack.
    [None] stands for [rd] running out of fuel. *)
Fixpoint read_entries `{Runtime}
    (rd : LuaState -> option (Outcome JsVal))
    (entries : list (LuaVal * LuaVal)) (result : JsVal) (L : LuaState)
  : option (Outcome JsVal) :=
  match entries with
  | [] => Some (Returns result (lua_pop L))        (* lua_next returns 0 *)
  | (k, v) :: rest =>
      match lua_next_pair k v L with
      | Raises L1 => Some (Raises L1)
      | Returns _ L1 =>
          match table_key k with
          | KeySkipped => read_entries rd rest result (lua_pop L1)
          | KeyRaises => Some (Raises L1)
          | KeyName key =>
              match rd L1 with
              | None => None
              | Some (Raises L2) => Some (Raises L2)
              | Some (Returns value L2) =>
                  let result :=
                    if is_undefined value then result
                    else setProp key value result in
                  read_entries rd rest result (lua_pop L2)
              end
          end
      end
  end.

(** [_readStackValue(-1, depth)] and [_readTable(-1, depth)]: the value is
    the one on top of the stack.  [fuel] bounds the recursion for Rocq;
    [None] means the fuel ran out, never a result of the source (see
    [read_fuel_enough]). *)
Fixpoint _readStackValue `{Runtime} (fuel : nat) (depth : nat)
    (L : LuaState) : option (Outcome JsVal) :=
  match fuel with
  | O => None
  | S fuel' =>
      if (10 <? depth)%nat then Some (Returns JUndefined L)
      else match lua_top L with
           | LNil => Some (Returns JNull L)
           | LBoolean b => Some (Returns (JBool b) L)
           | LNumber n => Some (Returns (JNumber n) L)
           | LFloat text => Some (Returns (JDouble text) L)
           | LString s => Some (Returns (JString s) L)
           | LBytes => Some (Raises L)
           | LTable _ => _readTable fuel' (depth + 1) L
           | LOther => Some (Returns JUndefined L)
           end
  end
with _readTable `{Runtime} (fuel : nat) (depth : nat) (L : LuaState)
  : option (Outcome JsVal) :=
  match fuel with
  | O => None
  | S fuel' =>
      if (10 <? depth)%nat then Some (Returns JUndefined L)
      else
        let entries := match lua_top L with
                       | LTable ref => lua_entries L ref
                       | _ => []
                       end in
        match lua_pushnil L with
        | Raises L1 => Some (Raises L1)
        | Returns _ L1 =>
            read_entries (_readStackValue fuel' depth) entries (JObject [])
              L1
        end
  end.

(** Fuel that always suffices from depth 0. *)
Definition read_fuel : nat := 24.

(** The engine object: [this.L], null before [init] and after [close]. *)
Record LuaEngine := { engine_L : option LuaState }.

(** [init()]. *)
Definition engine_init `{Fengari} : LuaEngine :=
  {| engine_L := Some {| lua_heap := luaL_newstate; lua_stack := [];
                         lua_ci_top := LUA_MINSTACK |} |}.

(** [execute(luaStr)]: what the chunk leaves on the stack stays there, and
    [lua_pcall] with LUA_MULTRET moves [L.ci.top] up to the top when the
    results pass it. *)
Definition engine_execute `{Fengari} (e : LuaEngine) (luaStr : string)
  : LuaEngine :=
  match engine_L e with
  | None => e
  | Some L =>
      if String.eqb luaStr "" then e
      else
        let '(heap, leftover) := luaL_dostring (lua_heap L) luaStr in
        let stack := leftover ++ lua_stack L in
        {| engine_L :=
             Some {| lua_heap := heap; lua_stack := stack;
                     lua_ci_top := Nat.max (lua_ci_top L) (length stack) |}
        |}
  end.

(** [get(name)]: the value, and the engine as the call leaves it.  An
    exception is caught and answered with undefined, before the
    [lua_pop]. *)
Definition engine_get `{Runtime} (e : LuaEngine) (name : string)
  : JsVal * LuaEngine :=
  match engine_L e with
  | None => (JUndefined, e)
  | Some L =>
      match lua_getglobal L name with
      | Raises L1 => (JUndefined, {| engine_L := Some L1 |})
      | Returns _ L1 =>
          match _readStackValue read_fuel 0 L1 with
          | Some (Returns result L2) =>
              (result, {| engine_L := Some (lua_pop L2) |})
          | Some (Raises L2) => (JUndefined, {| engine_L := Some L2 |})
          | None => (JUndefined, {| engine_L := Some L1 |})
          end
      end
  end.

(** Leaves and shape of a read-back tree: no [undefined], no array, only
    null, boolean, number and string leaves under plain objects. *)
Fixpoint plain_tree (v : JsVal) : bool :=
  match v with
  | JUndefined | JArray _ | JDerived _ _ | JBuiltin _ => false
  | JNull | JBool _ | JNumber _ | JDouble _ | JString _ => true
  | JObject props =>
      (fix all (l : list (string * JsVal)) : bool :=
         match l with
         | [] => true
         | (_, x) :: l' => plain_tree x && all l'
         end) props
  end.

(** Nesting of a tree: a leaf has height 0, an object is one level above
    its deepest property. *)
Fixpoint height (v : JsVal) : nat :=
  match v with
  | JObject props =>
      S ((fix hmax (l : list (string * JsVal)) : nat :=
            match l with
            | [] => O
            | (_, x) :: l' => Nat.max (height x) (hmax l')
            end) props)
  | JDerived _ props =>
      S ((fix hmax (l : list (string * JsVal)) : nat :=
            match l with
            | [] => O
            | (_, x) :: l' => Nat.max (height x) (hmax l')
            end) props)
  | JArray items =>
      S ((fix hmax (l : list JsVal) : nat :=
            match l with
            | [] => O
            | x :: l' => Nat.max (height x) (hmax l')
            end) items)
  | _ => O
  end.

(** How the path loop of [_resolveTagValue] ends: by its
    [return undefined], or by running off the end of [parts] with [val]. *)
Inductive LoopExit := Returned (v : JsVal) | Finished (val : JsVal).

(** The loop
      [for (...; i < parts.length; i++)
         if (val && typeof val === 'object' && val[parts[i]] !== undefined)
           val = val[parts[i]]; else return undefined;]
    over the parts still to visit.  [None]: a property access raised. *)
Fixpoint walk `{Runtime} (val : JsVal) (parts : list string) : option LoopExit :=
  match parts with
  | [] => Some (Finished val)
  | k :: rest =>
      if truthy val && is_object_type val then
        child ← getProp val k;
        if is_undefined child then Some (Returned JUndefined)
        else walk child rest
      else Some (Returned JUndefined)
  end.

(** The path loop followed by the final
    [return (typeof val !== 'object') ? val : undefined]. *)
Definition resolve_from `{Runtime} (val : JsVal) (parts : list string) : option JsVal :=
  exit ← walk val parts;
  match exit with
  | Returned v => Some v
  | Finished val => Some (if is_object_type val then JUndefined else val)
  end.

(** The value a path of property names leads to in a state tree: every
    segment names a property that exists (is not undefined) of an object or
    array. *)
Inductive at_path `{Runtime} : JsVal -> list string -> JsVal -> Prop :=
| at_here v : at_path v [] v
| at_step v k child rest r :
    truthy v = true -> is_object_type v = true ->
    getProp v k = Some child -> child <> JUndefined ->
    at_path child rest r ->
    at_path v (k :: rest) r.

(** A boolean, a number or a string. *)
Definition is_scalar (v : JsVal) : bool :=
  match v with
  | JBool _ | JNumber _ | JDouble _ | JString _ => true
  | _ => false
  end.

(* ===================================================================== *)
(** * The per-tag loop of polling() *)
(* ===================================================================== *)

(** The tag loop is the same text in both drivers (the body of
    [for (var id in data.tags)]); they differ in [_resolveTagValue] only,
    which is passed in as [resolve].  [data.tags] is held as the list of its
    entries in enumeration order. *)

(** The variables the loop works on: [varsValue], the keys of the local
    [changed] object (its values are the very objects stored in
    [varsValue]), and the lines logged so far, newest first. *)
Record Cycle := {
  c_vars : Cache;
  c_changed : gset string;
  c_log : list Event
}.

(** [varsValue[id]] when the cache holds no entry under [id]: what
    Object.prototype holds under that name is found instead, a function or
    the prototype itself, which is truthy and has no [value]. *)
Definition inherited_entry (id : string) : bool :=
  truthy (object_prototype_get id (JBuiltin ObjectPrototype)).

(** [varsValue[id] ? varsValue[id].value : null]. *)
Definition previous_value (vars : Cache) (id : string) : JsVal :=
  match vars !! id with
  | Some s => s_value s
  | None => if inherited_entry id then JUndefined else JNull
  end.

(** [!varsValue[id] || varsValue[id].value !== value]. *)
Definition tag_changed (vars : Cache) (id : string) (value : JsVal) : bool :=
  match vars !! id with
  | Some s => negb (strict_eq (s_value s) value)
  | None =>
      if inherited_entry id then negb (strict_eq JUndefined value) else true
  end.

(** [utils.isEmptyObject(changed)]. *)
Definition isEmptyObject (changed : gset string) : bool :=
  bool_decide (changed = ∅).

(** The [changed] object as its receiver sees it: the entries of
    [varsValue] under the collected keys. *)
Definition changed_object (vars : Cache) (changed : gset string) : Cache :=
  filter (fun kv => kv.1 ∈ changed) vars.

Section TagLoop.
Context `{DeviceUtils}.
(** [_resolveTagValue]; [None] when it raises. *)
Variable resolve : Tag -> option JsVal.
(** [this.addDaq] is bound. *)
Variable addDaq : bool.
Variable timestamp : Z.

(** One iteration: the [try { ... } catch (err) { logger.error(...) }]
    around one tag. *)
Definition read_tag_error (c : Cycle) (tag : Tag) (err : string) : Cycle :=
  {| c_vars := c_vars c; c_changed := c_changed c;
     c_log := Log LError (MsgReadTagError (tag_name tag) err) :: c_log c |}.

Definition tag_step (c : Cycle) (entry : string * Tag) : Cycle :=
  let id := entry.1 in
  let tag := entry.2 in
  match resolve tag with
  | None => read_tag_error c tag "TypeError"
  | Some rawValue =>
      if is_undefined rawValue then c                     (* continue *)
      else
        match tagValueCompose rawValue (previous_value (c_vars c) id) tag with
        | inr err => read_tag_error c tag err
        | inl value =>
            let tagChanged := tag_changed (c_vars c) id value in
            let sample :=
              {| s_id := id; s_value := value; s_rawValue := rawValue;
                 s_type := tag_type tag; s_changed := tagChanged;
                 s_timestamp := timestamp; s_daq := tag_daq tag |} in
            let vars1 := <[id := sample]> (c_vars c) in
            let changed1 :=
              if addDaq && tagDaqToSave sample timestamp
              then {[id]} ∪ c_changed c else c_changed c in
            (* varsValue[id].changed = false *)
            {| c_vars := alter (set_changed false) id vars1;
               c_changed := changed1;
               c_log := c_log c |}
        end
  end.

Definition tag_loop (tags : list (string * Tag)) (c : Cycle) : Cycle :=
  fold_left tag_step tags c.
End TagLoop.

(** How an operation that returns a promise settles. *)
Inductive Settled := Resolved | Rejected (err : string).

(** A number stored into a Buffer cell: its low eight bits. *)
Definition byte_of_Z (z : Z) : byte :=
  default Byte.x00 (Byte.of_N (Z.to_N (Z.land z 255))).

(** The names a list of keys holds, first occurrences in order: the keys of
    an object filled by [obj[k] = true]. *)
Fixpoint dedup_keys (seen : list string) (l : list string) : list string :=
  match l with
  | [] => []
  | k :: l' =>
      if bool_decide (k ∈ seen) then dedup_keys seen l'
      else k :: dedup_keys (k :: seen) l'
  end.


(* ===================================================================== *)
(** * Strings, keys and the patterns of the write and browse paths *)
(* ===================================================================== *)

(** A string is held as the sequence of its code units, one [ascii] each:
    the addresses, keys, messages and Lua text handled below are taken in
    the range below 256, where the line terminators are LF and CR. *)

Definition code (c : ascii) : nat := nat_of_ascii c.

(** [\d], [[A-Za-z_]], [\w], and the characters [.] does not match. *)
Definition is_digit (c : ascii) : bool :=
  ((48 <=? code c) && (code c <=? 57))%nat.

Definition is_ident_start (c : ascii) : bool :=
  ((65 <=? code c) && (code c <=? 90)
   || (97 <=? code c) && (code c <=? 122) || (code c =? 95))%nat.

Definition is_word (c : ascii) : bool := is_ident_start c || is_digit c.

Definition is_line_terminator (c : ascii) : bool :=
  ((code c =? 10) || (code c =? 13))%nat.

(** The double quote, as a string of one character. *)
Definition dquote : string := String (ascii_of_nat 34) EmptyString.




(** ToString of a number: the decimal digits of an integer below 10^21 in
    magnitude, the exponent notation from there on, the text held for a
    number that is not an integer. *)
Definition number_to_string `{Runtime} (n : Z) : string :=
  if Z.abs n <? 10 ^ 21 then pretty n else exponent_notation n.

(** ToString, as a template literal, [String(v)] and [+] on a string
    apply it.  An array prints through [join], a built-in function prints
    its native-code text, and an object prints through
    Object.prototype.toString: the text given here is that of an object
    which holds no [toString] of its own.  *)
Fixpoint to_js_string `{Runtime} (v : JsVal) : string :=
  match v with
  | JUndefined => "undefined"
  | JNull => "null"
  | JBool b => if b then "true" else "false"
  | JNumber n => number_to_string n
  | JDouble text => text
  | JString s => s
  | JArray items =>
      (fix join (l : list JsVal) : string :=
         match l with
         | [] => ""
         | x :: l' =>
             let elem := match x with
                         | JUndefined | JNull => ""
                         | _ => to_js_string x
                         end in
             match l' with
             | [] => elem
             | _ :: _ => elem +:+ "," +:+ join l'
             end
         end) items
  | JObject _ | JDerived _ _ => "[object Object]"
  | JBuiltin ObjectPrototype => "[object Object]"
  | JBuiltin ArrayPrototype | JBuiltin StringPrototype => ""
  | JBuiltin NumberPrototype => "0"
  | JBuiltin BooleanPrototype => "false"
  | JBuiltin FunctionPrototype => "function () { [native code] }"
  | JBuiltin (BuiltinFunction name) =>
      "function " +:+ name +:+ "() { [native code] }"
  end.

(** ** Property enumeration *)

(** The array index a key spells canonically: integer keys are enumerated
    first, in ascending order, whatever the order of insertion. *)
Fixpoint parse_decimal (acc : N) (s : string) : option N :=
  match s with
  | EmptyString => Some acc
  | String c s' =>
      if is_digit c
      then parse_decimal (10 * acc + N.of_nat (code c - 48)) s'
      else None
  end.

Definition index_key (k : string) : option N :=
  match k with
  | EmptyString => None
  | _ =>
      n ← parse_decimal 0 k;
      if String.eqb (pretty n) k && (n <? 2 ^ 32 - 1)%N then Some n else None
  end.

Fixpoint insert_key (x : N * string) (l : list (N * string))
  : list (N * string) :=
  match l with
  | [] => [x]
  | y :: l' => if (x.1 <=? y.1)%N then x :: l else y :: insert_key x l'
  end.

(** [Object.keys(v)] for a value that is not null or undefined: the integer
    keys of an object in ascending order, then its other keys in the order
    of the list; the indices of an array or a string; nothing on a
    number or a boolean, nor on a built-in object, whose properties are not
    enumerable. *)
Definition own_keys (v : JsVal) : list string :=
  match v with
  | JObject props | JDerived _ props =>
      let keys := dedup_keys [] (fst <$> props) in
      let indexed :=
        omap (fun k => (fun n => (n, k)) <$> index_key k) keys in
      (snd <$> foldr insert_key [] indexed)
        ++ filter (fun k => index_key k = None) keys
  | JArray items => (fun i : nat => pretty i) <$> seq 0 (length items)
  | JString s => (fun i : nat => pretty i) <$> seq 0 (String.length s)
  | _ => []
  end.

(** ** The address pattern of makeLuaSetCmd *)







(** ** The fallback assignment of setValue *)



(** The right-hand side of the assignment: [raw] between double quotes
    when [typeof raw === 'string'], [raw] as the template literal prints it
    otherwise. *)
Definition lua_literal `{Runtime} (raw : JsVal) : string :=
  match raw with
  | JString s => dquote +:+ s +:+ dquote
  | _ => to_js_string raw
  end.


(** [Buffer.from(str, 'utf8')]. *)
Definition utf8_encode (s : string) : list byte :=
  flat_map
    (fun c : ascii =>
       let n := Z.of_nat (code c) in
       if n <? 128 then [byte_of_Z n]
       else [byte_of_Z (Z.lor 192 (Z.shiftr n 6));
             byte_of_Z (Z.lor 128 (Z.land n 63))])
    (String.list_ascii_of_string s).


(** ** What the write and browse calls report *)


(** The lines setValue() and browse() log, returned beside their result. *)
Inductive ApiLog :=
| LogSetValue (name : string) (raw : JsVal)     (* info: setValue(name, raw) *)
| LogSetValueError (err : string)               (* error: setValue error *)
| LogBrowseError (err : string).                (* error: browse error *)

(** A node of the browse tree: [{ id, name, class, type }], [type] absent on
    folders. *)
Record BrowseNode := {
  node_id : string;
  node_name : string;
  node_class : Z;
  node_type : option string
}.

Definition NODE_CLASS_OBJECT : Z := 1.
Definition NODE_CLASS_VARIABLE : Z := 2.
(* ===================================================================== *)
(** * MPSClient (server/runtime/devices/mps/index.js) *)
(* ===================================================================== *)

Module MPS.

Definition MAX_PAYLOAD_SIZE : Z := 10 * 1024 * 1024.
Definition MAX_ERRORS_COUNT : Z := 2.
Definition FRAME_PREFIX : list byte := [x50; x30; x30; x31].

(** The variables of the constructor's closure.  [tags] is [data.tags],
    [addDaq] says whether [this.addDaq] is bound, [trace] lists what the
    driver did, newest first. *)
Record State := {
  tags : list (string * Tag);
  socket : option Socket;
  connected : bool;
  working : bool;
  overloading : Z;
  lastStatus : string;
  lastTimestampValue : option Z;
  errRetryCount : Z;
  browseData : JsVal;
  deviceStates : list (string * JsVal);
  varsValue : Cache;
  addDaq : bool;
  trace : list Event
}.

Definition set_tags (v : list (string * Tag)) (st : State) : State :=
  {|
     tags := v;
     socket := socket st;
     connected := connected st;
     working := working st;
     overloading := overloading st;
     lastStatus := lastStatus st;
     lastTimestampValue := lastTimestampValue st;
     errRetryCount := errRetryCount st;
     browseData := browseData st;
     deviceStates := deviceStates st;
     varsValue := varsValue st;
     addDaq := addDaq st;
     trace := trace st |}.

Definition set_socket (v : option Socket) (st : State) : State :=
  {|
     tags := tags st;
     socket := v;
     connected := connected st;
     working := working st;
     overloading := overloading st;
     lastStatus := lastStatus st;
     lastTimestampValue := lastTimestampValue st;
     errRetryCount := errRetryCount st;
     browseData := browseData st;
     deviceStates := deviceStates st;
     varsValue := varsValue st;
     addDaq := addDaq st;
     trace := trace st |}.

Definition set_connected (v : bool) (st : State) : State :=
  {|
     tags := tags st;
     socket := socket st;
     connected := v;
     working := working st;
     overloading := overloading st;
     lastStatus := lastStatus st;
     lastTimestampValue := lastTimestampValue st;
     errRetryCount := errRetryCount st;
     browseData := browseData st;
     deviceStates := deviceStates st;
     varsValue := varsValue st;
     addDaq := addDaq st;
     trace := trace st |}.

Definition set_working (v : bool) (st : State) : State :=
  {|
     tags := tags st;
     socket := socket st;
     connected := connected st;
     working := v;
     overloading := overloading st;
     lastStatus := lastStatus st;
     lastTimestampValue := lastTimestampValue st;
     errRetryCount := errRetryCount st;
     browseData := browseData st;
     deviceStates := deviceStates st;
     varsValue := varsValue st;
     addDaq := addDaq st;
     trace := trace st |}.

Definition set_overloading (v : Z) (st : State) : State :=
  {|
     tags := tags st;
     socket := socket st;
     connected := connected st;
     working := working st;
     overloading := v;
     lastStatus := lastStatus st;
     lastTimestampValue := lastTimestampValue st;
     errRetryCount := errRetryCount st;
     browseData := browseData st;
     deviceStates := deviceStates st;
     varsValue := varsValue st;
     addDaq := addDaq st;
     trace := trace st |}.

Definition set_lastStatus (v : string) (st : State) : State :=
  {|
     tags := tags st;
     socket := socket st;
     connected := connected st;
     working := working st;
     overloading := overloading st;
     lastStatus := v;
     lastTimestampValue := lastTimestampValue st;
     errRetryCount := errRetryCount st;
     browseData := browseData st;
     deviceStates := deviceStates st;
     varsValue := varsValue st;
     addDaq := addDaq st;
     trace := trace st |}.

Definition set_lastTimestampValue (v : option Z) (st : State) : State :=
  {|
     tags := tags st;
     socket := socket st;
     connected := connected st;
     working := working st;
     overloading := overloading st;
     lastStatus := lastStatus st;
     lastTimestampValue := v;
     errRetryCount := errRetryCount st;
     browseData := browseData st;
     deviceStates := deviceStates st;
     varsValue := varsValue st;
     addDaq := addDaq st;
     trace := trace st |}.

Definition set_errRetryCount (v : Z) (st : State) : State :=
  {|
     tags := tags st;
     socket := socket st;
     connected := connected st;
     working := working st;
     overloading := overloading st;
     lastStatus := lastStatus st;
     lastTimestampValue := lastTimestampValue st;
     errRetryCount := v;
     browseData := browseData st;
     deviceStates := deviceStates st;
     varsValue := varsValue st;
     addDaq := addDaq st;
     trace := trace st |}.

Definition set_browseData (v : JsVal) (st : State) : State :=
  {|
     tags := tags st;
     socket := socket st;
     connected := connected st;
     working := working st;
     overloading := overloading st;
     lastStatus := lastStatus st;
     lastTimestampValue := lastTimestampValue st;
     errRetryCount := errRetryCount st;
     browseData := v;
     deviceStates := deviceStates st;
     varsValue := varsValue st;
     addDaq := addDaq st;
     trace := trace st |}.

Definition set_deviceStates (v : list (string * JsVal)) (st : State) : State :=
  {|
     tags := tags st;
     socket := socket st;
     connected := connected st;
     working := working st;
     overloading := overloading st;
     lastStatus := lastStatus st;
     lastTimestampValue := lastTimestampValue st;
     errRetryCount := errRetryCount st;
     browseData := browseData st;
     deviceStates := v;
     varsValue := varsValue st;
     addDaq := addDaq st;
     trace := trace st |}.

Definition set_varsValue (v : Cache) (st : State) : State :=
  {|
     tags := tags st;
     socket := socket st;
     connected := connected st;
     working := working st;
     overloading := overloading st;
     lastStatus := lastStatus st;
     lastTimestampValue := lastTimestampValue st;
     errRetryCount := errRetryCount st;
     browseData := browseData st;
     deviceStates := deviceStates st;
     varsValue := v;
     addDaq := addDaq st;
     trace := trace st |}.

Definition set_addDaq (v : bool) (st : State) : State :=
  {|
     tags := tags st;
     socket := socket st;
     connected := connected st;
     working := working st;
     overloading := overloading st;
     lastStatus := lastStatus st;
     lastTimestampValue := lastTimestampValue st;
     errRetryCount := errRetryCount st;
     browseData := browseData st;
     deviceStates := deviceStates st;
     varsValue := varsValue st;
     addDaq := v;
     trace := trace st |}.

Definition set_trace (v : list Event) (st : State) : State :=
  {|
     tags := tags st;
     socket := socket st;
     connected := connected st;
     working := working st;
     overloading := overloading st;
     lastStatus := lastStatus st;
     lastTimestampValue := lastTimestampValue st;
     errRetryCount := errRetryCount st;
     browseData := browseData st;
     deviceStates := deviceStates st;
     varsValue := varsValue st;
     addDaq := addDaq st;
     trace := v |}.

(** [new MPSClient(_data, ...)]. *)
Definition initial (data_tags : list (string * Tag)) : State :=
  {| tags := data_tags; socket := None; connected := false;
     working := false; overloading := 0; lastStatus := "";
     lastTimestampValue := None; errRetryCount := 0; browseData := JNull;
     deviceStates := []; varsValue := ∅; addDaq := false; trace := [] |}.

Definition record (e : Event) (st : State) : State :=
  set_trace (e :: trace st) st.

Definition logger (lvl : LogLevel) (msg : LogMsg) (st : State) : State :=
  record (Log lvl msg) st.

Definition _emitValues (values : Cache) (st : State) : State :=
  record (EmitValues values) st.

Definition _emitStatus (status : string) (st : State) : State :=
  record (EmitStatus status) (set_lastStatus status st).

Definition _clearVarsValue (st : State) : State :=
  let st1 := set_varsValue (set_value JNull <$> varsValue st) st in
  _emitValues (varsValue st1) st1.

Definition _checkWorking (flag : bool) (st : State) : bool * State :=
  if flag && working st then
    let st1 := set_overloading (overloading st + 1) st in
    let st2 :=
      if 3 <=? overloading st1 then
        set_overloading 0
          (logger LWarn MsgOverload (_emitStatus "connect-busy" st1))
      else st1 in
    (false, st2)
  else
    let st1 := set_working flag st in
    let st2 := if negb flag then set_overloading 0 st1 else st1 in
    (true, st2).

(** A frame of the protocol around a payload: P001, the length of the
    payload on four bytes, big-endian, and the payload.  The server frames
    its answers so. *)
Definition frame (payload : list byte) : list byte :=
  let n := blen payload in
  [x50; x30; x30; x31]
    ++ [byte_of_Z (Z.shiftr n 24); byte_of_Z (Z.shiftr n 16);
        byte_of_Z (Z.shiftr n 8); byte_of_Z n]
    ++ payload.

(** [_buildFrame(message)]: the frame around the UTF-8 bytes of the
    message. *)
Definition _buildFrame (message : string) : list byte :=
  let msgBuf := utf8_encode message in
  let n := blen msgBuf in
  [x50; x30; x30; x31]
    ++ [byte_of_Z (Z.land (Z.shiftr n 24) 255);
        byte_of_Z (Z.land (Z.shiftr n 16) 255);
        byte_of_Z (Z.land (Z.shiftr n 8) 255);
        byte_of_Z (Z.land n 255)]
    ++ msgBuf.

(** What the parser returns when it is not [null]:
    [{ error: 'invalid frame length: ' + payloadLen }] or
    [{ error: null, data }]. *)
Inductive Response :=
| FrameError (payloadLen : Z)
| FrameData (data : Text).

(** [(buf[4] << 24) | (buf[5] << 16) | (buf[6] << 8) | buf[7]]. *)
Definition payload_length (b4 b5 b6 b7 : byte) : Z :=
  js_or (js_or (js_or (js_shl (bz b4) 24) (js_shl (bz b5) 16))
           (js_shl (bz b6) 8))
    (bz b7).

Definition _tryParseFramedResponse (buf : list byte) : option Response :=
  match buf with
  | b0 :: b1 :: b2 :: b3 :: b4 :: b5 :: b6 :: b7 :: _ =>
      if (bz b0 =? 0x50) && (bz b1 =? 0x30) && (bz b2 =? 0x30)
         && (bz b3 =? 0x31)
      then
        let payloadLen := payload_length b4 b5 b6 b7 in
        if (payloadLen <? 0) || (MAX_PAYLOAD_SIZE <? payloadLen)
        then Some (FrameError payloadLen)
        else if blen buf <? 8 + payloadLen then None     (* need more data *)
        else Some (FrameData
                     (iconv_decode_win1251 (slice buf 8 (8 + payloadLen))))
      else
        (* no P001 prefix: legacy mode, the entire buffer is the response *)
        Some (FrameData (iconv_decode_win1251 buf))
  | _ => None                                             (* buf.length < 8 *)
  end.

(** The 'data' listener of one request over the chunks that arrive: append,
    parse, and resolve with the first result that is not [null] (the
    listener is removed then). *)
Fixpoint onData (recvBuffer : list byte) (incoming : list (list byte))
  : option Response :=
  match incoming with
  | [] => None
  | chunk :: rest =>
      let recvBuffer := recvBuffer ++ chunk in
      match _tryParseFramedResponse recvBuffer with
      | Some result => Some result
      | None => onData recvBuffer rest
      end
  end.

(** [_sendFramed]: the frame goes out, then the promise settles with the
    parsed response, or is rejected by the timer or a socket error. *)
Definition _sendFramed (message : string) (inc : Incoming) (st : State)
  : (Response + string) * State :=
  match socket st with
  | None => (inr "socket not connected", st)
  | Some sk =>
      if destroyed sk then (inr "socket not connected", st)
      else if throws_write sk then (inr "write failed", st)
      else
        let st1 := record (SockWrite (_buildFrame message)) st in
        match onData [] (chunks inc) with
        | Some result => (inl result, st1)
        | None => (inr (ending_error (ending inc)), st1)
        end
  end.

Definition _sendCommand (command : string) (inc : Incoming) (st : State)
  : (Text + string) * State :=
  match _sendFramed command inc st with
  | (inl (FrameError n), st1) =>
      (inr ("invalid frame length: " +:+ pretty n), st1)
  | (inl (FrameData data), st1) => (inl data, st1)
  | (inr err, st1) => (inr err, st1)
  end.

Definition _sendDeviceCommand `{Codec} `{Json} (deviceName command : string)
    (unit : Z) (inc : Incoming) (st : State) : (JsVal + string) * State :=
  match _sendCommand (JSON_stringify_cmd deviceName command unit) inc st with
  | (inl responseStr, st1) =>
      match JSON_parse responseStr with
      | Some v => (inl v, st1)
      | None => (inr "Failed to parse MPS response", st1)
      end
  | (inr err, st1) => (inr err, st1)
  end.

(** [result && result.Units]. *)
Definition has_units `{Runtime} (result : JsVal) : bool :=
  truthy result && truthy (default JUndefined (getProp result "Units")).

Definition _queryAll `{Codec} `{Json} `{Runtime} (deviceName : string) (inc : Incoming)
    (st : State) : (JsVal + string) * State :=
  match _sendDeviceCommand deviceName "QueryAll" 0 inc st with
  | (inl result, st1) =>
      if has_units result
      then (inl result,
            set_deviceStates (assoc_set deviceName result (deviceStates st1))
              st1)
      else (inl result, st1)
  | (inr err, st1) => (inr err, st1)
  end.

(** [_resolveTagValue]; [None] would be a raised TypeError. *)
Definition _resolveTagValue `{Runtime} (deviceStates : list (string * JsVal))
    (tag : Tag) : option JsVal :=
  let addr := tag_addr tag in
  match split_dot addr with
  | devName :: unitKey :: ((_ :: _) as rest) =>
      devState ← getProp (JObject deviceStates) devName;
      if negb (truthy devState) then Some JUndefined
      else
        units ← getProp devState "Units";
        if negb (truthy units) then Some JUndefined
        else
          unit ← getProp units unitKey;
          if negb (truthy unit) then Some JUndefined
          else resolve_from unit rest
  | _ => Some JUndefined                         (* parts.length < 3 *)
  end.

(** The object [deviceNames] the first loop of polling() fills: the first
    part of every tag address that is not empty is set to [true]. *)
Definition deviceNames (data_tags : list (string * Tag)) : JsVal :=
  fold_left
    (fun names (e : string * Tag) =>
       let devName := hd "" (split_dot (tag_addr e.2)) in
       if negb (String.eqb devName "") then setProp devName (JBool true) names
       else names)
    data_tags (JObject []).

(** The names [for (var dn in deviceNames)] visits, in the order it visits
    them. *)
Definition device_names (data_tags : list (string * Tag)) : list string :=
  own_keys (deviceNames data_tags).

(** A request nothing answers. *)
Definition silent : Incoming := {| chunks := []; ending := TimesOut |}.

(** [for (var dn in deviceNames) try { await _queryAll(dn) }
     catch { queryErrors++ }], the k-th request receiving the k-th
    element of [env]. *)
Fixpoint query_devices `{Codec} `{Json} `{Runtime} (names : list string)
    (env : list Incoming) (queryErrors : Z) (st : State) : Z * State :=
  match names with
  | [] => (queryErrors, st)
  | dn :: rest =>
      match _queryAll dn (hd silent env) st with
      | (inl _, st1) => query_devices rest (tl env) queryErrors st1
      | (inr _, st1) => query_devices rest (tl env) (queryErrors + 1) st1
      end
  end.

(** The cycle from [var timestamp = Date.now()] to the end of the [try]:
    the tag loop, then the emission and the DAQ hand-off. *)
Definition poll_cycle `{DeviceUtils} `{Runtime} (timestamp : Z) (st : State) : State :=
  let c := tag_loop (_resolveTagValue (deviceStates st)) (addDaq st)
             timestamp (tags st)
             {| c_vars := varsValue st; c_changed := ∅; c_log := [] |} in
  let st1 := set_trace (c_log c ++ trace st) (set_varsValue (c_vars c) st) in
  let st2 := set_errRetryCount 0
               (set_lastTimestampValue (Some timestamp) st1) in
  let st3 := _emitValues (varsValue st2) st2 in
  let st4 :=
    if addDaq st3 && negb (isEmptyObject (c_changed c))
    then record (AddDaq (changed_object (varsValue st3) (c_changed c))) st3
    else st3 in
  if negb (String.eqb (lastStatus st4) "connect-ok")
  then _emitStatus "connect-ok" st4 else st4.

(** The [catch (err)] branch of polling(). *)
Definition polling_failed (err : string) (st : State) : State :=
  let st1 := set_errRetryCount (errRetryCount st + 1) st in
  let st2 :=
    if MAX_ERRORS_COUNT <=? errRetryCount st1
    then _emitStatus "connect-error" (set_connected false st1)
    else st1 in
  logger LError (MsgPollingError err) st2.

(** What polling() meets: what the socket delivers to the successive
    QueryAll requests, and the exception the DAQ callback [this.addDaq]
    raises when the cycle calls it, if it raises one. *)
Record PollEnv := {
  answers : list Incoming;
  daq_raises : option string
}.

(** The keys the tag loop collects for the DAQ hand-off. *)
Definition poll_changed `{DeviceUtils} `{Runtime} (timestamp : Z)
    (st : State) : gset string :=
  c_changed
    (tag_loop (_resolveTagValue (deviceStates st)) (addDaq st) timestamp
       (tags st)
       {| c_vars := varsValue st; c_changed := ∅; c_log := [] |}).

(** The cycle up to a DAQ hand-off that raises: the tag loop, the
    emission, and the call. *)
Definition poll_cycle_to_daq `{DeviceUtils} `{Runtime} (timestamp : Z)
    (st : State) : State :=
  let c := tag_loop (_resolveTagValue (deviceStates st)) (addDaq st)
             timestamp (tags st)
             {| c_vars := varsValue st; c_changed := ∅; c_log := [] |} in
  let st1 := set_trace (c_log c ++ trace st) (set_varsValue (c_vars c) st) in
  let st2 := set_errRetryCount 0
               (set_lastTimestampValue (Some timestamp) st1) in
  let st3 := _emitValues (varsValue st2) st2 in
  record (AddDaq (changed_object (varsValue st3) (c_changed c))) st3.

(** The cycle inside its [try], with the [catch]: the hand-off is made
    when [this.addDaq] is bound and [changed] is not empty, and an
    exception of the callback ends the cycle there. *)
Definition poll_try `{DeviceUtils} `{Runtime} (raises : option string)
    (timestamp : Z) (st : State) : State :=
  match raises with
  | Some err =>
      if addDaq st && negb (isEmptyObject (poll_changed timestamp st))
      then polling_failed err (poll_cycle_to_daq timestamp st)
      else poll_cycle timestamp st
  | None => poll_cycle timestamp st
  end.

(** [polling()]; [now] is [Date.now()]. *)
Definition polling `{Codec} `{Json} `{DeviceUtils} `{Runtime}
    (env : PollEnv) (now : Z) (st : State) : State :=
  match _checkWorking true st with
  | (false, st1) => st1
  | (true, st1) =>
      if socket_unusable (socket st1) || negb (connected st1) then
        (_checkWorking false (_checkWorking false st1).2).2
      else
        let '(queryErrors, st2) :=
          query_devices (device_names (tags st1)) (answers env) 0 st1 in
        let st3 :=
          if 0 <? queryErrors
          then logger LWarn (MsgQueryAllFailed queryErrors) st2 else st2 in
        (_checkWorking false (poll_try (daq_raises env) now st3)).2
                                                                 (* finally *)
  end.

(** What connect() meets: the socket object it creates and how the TCP
    connect ends. *)
Record ConnectEnv := {
  fresh_socket : Socket;
  tcp : TcpOutcome
}.

(** [try { socket.removeAllListeners(); socket.destroy(); } catch (e) {}]. *)
Definition teardown (sk : Socket) (st : State) : State :=
  if throws_removeAllListeners sk then st
  else
    let st1 := record SockRemoveAllListeners st in
    if throws_destroy sk then st1 else record SockDestroy st1.

(** The [catch (err)] branch of connect(). *)
Definition connect_failed (err : string) (st : State) : Settled * State :=
  let st1 := _emitStatus "connect-error" (set_connected false st) in
  let st2 := (_checkWorking false (_clearVarsValue st1)).2 in
  let st3 :=
    match socket st2 with
    | Some sk => set_socket None (teardown sk st2)
    | None => st2
    end in
  (Rejected err, logger LError (MsgConnectFailed err) st3).

Definition connect (env : ConnectEnv) (st : State) : Settled * State :=
  match _checkWorking true st with
  | (false, st1) => (Rejected "busy", st1)
  | (true, st1) =>
      let st2 := logger LInfo MsgTryConnect st1 in
      let st3 := record SockConnect
                   (set_socket (Some (fresh_socket env)) st2) in
      match tcp env with
      | TcpOpen =>
          let st4 := set_errRetryCount 0 (set_connected true st3) in
          let st5 := logger LInfo MsgConnected
                       (_emitStatus "connect-ok" st4) in
          (Resolved, (_checkWorking false st5).2)
      | TcpTimeout =>
          (* the timer destroys the socket, then rejects *)
          let sk := fresh_socket env in
          let st4 := record SockDestroy
                       (set_socket
                          (Some {| destroyed := true;
                                   throws_write := throws_write sk;
                                   throws_removeAllListeners :=
                                     throws_removeAllListeners sk;
                                   throws_destroy := throws_destroy sk |})
                          st3) in
          connect_failed "connection timeout" st4
      | TcpError err => connect_failed err st3
      end
  end.

(** The best-effort Close command of disconnect():
    [try { socket.write(FRAME_PREFIX); ... socket.write(lenBuf);
           socket.write(closeBuf); } catch (e) {}]. *)
Definition closeBuf : list byte := [x43; x6c; x6f; x73; x65].

Definition lenBuf : list byte :=
  let n := blen closeBuf in
  [byte_of_Z (Z.shiftr n 24); byte_of_Z (Z.shiftr n 16);
   byte_of_Z (Z.shiftr n 8); byte_of_Z n].

Definition send_close (sk : Socket) (st : State) : State :=
  if throws_write sk then st
  else record (SockWrite closeBuf)
         (record (SockWrite lenBuf) (record (SockWrite FRAME_PREFIX) st)).

(** The [try] block of disconnect() with its [catch]: an exception of
    [removeAllListeners] skips the destroy and is logged. *)
Definition disconnect_try (st : State) : State :=
  let st1 := (_checkWorking false st).2 in
  match socket st1 with
  | None => st1
  | Some sk =>
      let st2 := send_close sk st1 in
      if throws_removeAllListeners sk
      then logger LError MsgDisconnectFailure st2
      else
        let st3 := record SockRemoveAllListeners st2 in
        if throws_destroy sk then st3 else record SockDestroy st3
  end.

(** The [finally] block of disconnect(). *)
Definition disconnect_finally (st : State) : Settled * State :=
  let st1 := set_errRetryCount 0
               (set_connected false (set_socket None st)) in
  let st2 := set_deviceStates [] (set_browseData JNull st1) in
  (Resolved, _clearVarsValue (_emitStatus "connect-off" st2)).

Definition disconnect (st : State) : Settled * State :=
  disconnect_finally (disconnect_try st).

(** [load(_data)]. *)
Definition load (data_tags : list (string * Tag)) (st : State) : State :=
  logger LInfo (MsgLoaded (length data_tags))
    (set_varsValue ∅ (set_tags data_tags st)).

Definition getValues (st : State) : Cache := varsValue st.

(** [getValue(id)]: [{ id, value, ts }] or null.  [varsValue[id]] is the
    entry of the cache, or what Object.prototype holds under the name when
    the cache has no entry, whose [value] is undefined. *)
Definition getValue (id : string) (st : State)
  : option (string * JsVal * option Z) :=
  match varsValue st !! id with
  | Some s => Some (id, s_value s, lastTimestampValue st)
  | None =>
      if inherited_entry id
      then Some (id, JUndefined, lastTimestampValue st)
      else None
  end.

(** [bindAddDaq(fnc)]: [bound] says whether [fnc] is a function. *)
Definition bindAddDaq (bound : bool) (st : State) : State :=
  set_addDaq bound st.

(** The calls the runtime makes on a driver instance. *)
Inductive Call :=
| CallConnect (env : ConnectEnv)
| CallDisconnect
| CallPolling (env : PollEnv) (now : Z)
| CallLoad (data_tags : list (string * Tag))
| CallBindAddDaq (bound : bool).

Definition perform `{Codec} `{Json} `{DeviceUtils} `{Runtime} (st : State)
    (c : Call)
  : State :=
  match c with
  | CallConnect env => (connect env st).2
  | CallDisconnect => (disconnect st).2
  | CallPolling env now => polling env now st
  | CallLoad data_tags => load data_tags st
  | CallBindAddDaq bound => bindAddDaq bound st
  end.

(** The state of an instance after a history of calls. *)
Definition after `{Codec} `{Json} `{DeviceUtils} `{Runtime}
    (data_tags : list (string * Tag)) (history : list Call) : State :=
  fold_left perform history (initial data_tags).


(** ** The temporary connection of BrowseTags *)

(** How the wait on the temporary socket ends when no response was parsed
    out of the 'data' events: the timer, an 'error' event, or the 'close'
    event (the server closes the connection after BrowseTags). *)
Inductive TempEnding :=
| TempTimesOut
| TempFails (err : string)
| TempCloses.

Record TempIncoming := {
  temp_chunks : list (list byte);
  temp_ending : TempEnding
}.

(** [_sendFramedOnTempSocket]: the 'data' listener resolves with the first
    result that is not [null]; the 'close' listener parses what has been
    received once more before it rejects. *)
Definition _sendFramedOnTempSocket (t : TempIncoming) : Response + string :=
  match onData [] (temp_chunks t) with
  | Some result => inl result
  | None =>
      match temp_ending t with
      | TempTimesOut => inr "timeout"
      | TempFails err => inr err
      | TempCloses =>
          let recvBuffer := concat (temp_chunks t) in
          let result :=
            if 0 <? blen recvBuffer then _tryParseFramedResponse recvBuffer
            else None in
          match result with
          | Some r => inl r
          | None => inr "connection closed before response"
          end
      end
  end.

(** [_browseTags]. *)
Definition _browseTags `{Json} (t : TempIncoming) (st : State)
  : (JsVal + string) * State :=
  match _sendFramedOnTempSocket t with
  | inr err => (inr err, st)
  | inl (FrameError n) => (inr ("invalid frame length: " +:+ pretty n), st)
  | inl (FrameData data) =>
      match JSON_parse data with
      | Some v => (inl v, set_browseData v st)
      | None => (inr "Failed to parse BrowseTags response", st)
      end
  end.

(** [getStatus()] and [lastReadTimestamp()]. *)
Definition getStatus (st : State) : string := lastStatus st.

Definition lastReadTimestamp (st : State) : option Z := lastTimestampValue st.

(** [isConnected()], as the condition it stands for:
    [connected && socket && !socket.destroyed]. *)
Definition isConnected (st : State) : bool :=
  connected st
  && match socket st with
     | Some sk => negb (destroyed sk)
     | None => false
     end.
End MPS.

(* ===================================================================== *)
(** * EasyDrvClient (server/runtime/devices/easydrv/index.js) *)
(* ===================================================================== *)

Module EasyDrv.

Definition CMD_GET_INFO : Z := 10.
Definition CMD_GET_STATES : Z := 101.
Definition REQ_ID_SIZE : Z := 2.
Definition SERVICE_ID : Z := 1.
Definition FRAME_SINGLE : Z := 1.
Definition FRAME_MARKER : Z := 0x73.
Definition HEADER_SIZE : Z := 6.
Definition RESP_HEADER_SIZE : Z := 5.
Definition MAX_BUFFER_SIZE : Z := 500 * 1024.
Definition MAX_ERRORS_COUNT : Z := 2.
Definition AKN_ERR : Z := 7.
Definition PROTO_QLZ : Z := 102.
Definition PROTO_NON_UNICODE : Z := 103.
Definition PROTO_CURRENT : Z := 104.
Definition PROTO_UNKNOWN : Z := 1.

(** [pacInfo = { name, version, paramsCRC }]. *)
Record PacInfo := {
  pac_name : JsVal;
  pac_version : JsVal;
  pac_paramsCRC : JsVal
}.

(** The variables of the constructor's closure.  [tags] is [data.tags],
    [pacName] is [data.property.pacName] (empty when absent), [luaEngine]
    is null or an engine object, [addDaq] says whether [this.addDaq] is
    bound, [trace] lists what the driver did, newest first. *)
Record State := {
  tags : list (string * Tag);
  pacName : string;
  socket : option Socket;
  connected : bool;
  working : bool;
  overloading : Z;
  lastStatus : string;
  lastTimestampValue : option Z;
  packetIndex : Z;
  errRetryCount : Z;
  protocolVersion : JsVal;
  gotDevices : bool;
  pacInfoReceived : bool;
  pacInfo : PacInfo;
  recvBuffer : list byte;
  varsValue : Cache;
  luaState : JsVal;
  luaEngine : option LuaEngine;
  lastStatesLua : string;
  addDaq : bool;
  trace : list Event
}.

Definition set_tags (v : list (string * Tag)) (st : State) : State :=
  {|
     tags := v;
     pacName := pacName st;
     socket := socket st;
     connected := connected st;
     working := working st;
     overloading := overloading st;
     lastStatus := lastStatus st;
     lastTimestampValue := lastTimestampValue st;
     packetIndex := packetIndex st;
     errRetryCount := errRetryCount st;
     protocolVersion := protocolVersion st;
     gotDevices := gotDevices st;
     pacInfoReceived := pacInfoReceived st;
     pacInfo := pacInfo st;
     recvBuffer := recvBuffer st;
     varsValue := varsValue st;
     luaState := luaState st;
     luaEngine := luaEngine st;
     lastStatesLua := lastStatesLua st;
     addDaq := addDaq st;
     trace := trace st |}.

Definition set_pacName (v : string) (st : State) : State :=
  {|
     tags := tags st;
     pacName := v;
     socket := socket st;
     connected := connected st;
     working := working st;
     overloading := overloading st;
     lastStatus := lastStatus st;
     lastTimestampValue := lastTimestampValue st;
     packetIndex := packetIndex st;
     errRetryCount := errRetryCount st;
     protocolVersion := protocolVersion st;
     gotDevices := gotDevices st;
     pacInfoReceived := pacInfoReceived st;
     pacInfo := pacInfo st;
     recvBuffer := recvBuffer st;
     varsValue := varsValue st;
     luaState := luaState st;
     luaEngine := luaEngine st;
     lastStatesLua := lastStatesLua st;
     addDaq := addDaq st;
     trace := trace st |}.

Definition set_socket (v : option Socket) (st : State) : State :=
  {|
     tags := tags st;
     pacName := pacName st;
     socket := v;
     connected := connected st;
     working := working st;
     overloading := overloading st;
     lastStatus := lastStatus st;
     lastTimestampValue := lastTimestampValue st;
     packetIndex := packetIndex st;
     errRetryCount := errRetryCount st;
     protocolVersion := protocolVersion st;
     gotDevices := gotDevices st;
     pacInfoReceived := pacInfoReceived st;
     pacInfo := pacInfo st;
     recvBuffer := recvBuffer st;
     varsValue := varsValue st;
     luaState := luaState st;
     luaEngine := luaEngine st;
     lastStatesLua := lastStatesLua st;
     addDaq := addDaq st;
     trace := trace st |}.

Definition set_connected (v : bool) (st : State) : State :=
  {|
     tags := tags st;
     pacName := pacName st;
     socket := socket st;
     connected := v;
     working := working st;
     overloading := overloading st;
     lastStatus := lastStatus st;
     lastTimestampValue := lastTimestampValue st;
     packetIndex := packetIndex st;
     errRetryCount := errRetryCount st;
     protocolVersion := protocolVersion st;
     gotDevices := gotDevices st;
     pacInfoReceived := pacInfoReceived st;
     pacInfo := pacInfo st;
     recvBuffer := recvBuffer st;
     varsValue := varsValue st;
     luaState := luaState st;
     luaEngine := luaEngine st;
     lastStatesLua := lastStatesLua st;
     addDaq := addDaq st;
     trace := trace st |}.

Definition set_working (v : bool) (st : State) : State :=
  {|
     tags := tags st;
     pacName := pacName st;
     socket := socket st;
     connected := connected st;
     working := v;
     overloading := overloading st;
     lastStatus := lastStatus st;
     lastTimestampValue := lastTimestampValue st;
     packetIndex := packetIndex st;
     errRetryCount := errRetryCount st;
     protocolVersion := protocolVersion st;
     gotDevices := gotDevices st;
     pacInfoReceived := pacInfoReceived st;
     pacInfo := pacInfo st;
     recvBuffer := recvBuffer st;
     varsValue := varsValue st;
     luaState := luaState st;
     luaEngine := luaEngine st;
     lastStatesLua := lastStatesLua st;
     addDaq := addDaq st;
     trace := trace st |}.

Definition set_overloading (v : Z) (st : State) : State :=
  {|
     tags := tags st;
     pacName := pacName st;
     socket := socket st;
     connected := connected st;
     working := working st;
     overloading := v;
     lastStatus := lastStatus st;
     lastTimestampValue := lastTimestampValue st;
     packetIndex := packetIndex st;
     errRetryCount := errRetryCount st;
     protocolVersion := protocolVersion st;
     gotDevices := gotDevices st;
     pacInfoReceived := pacInfoReceived st;
     pacInfo := pacInfo st;
     recvBuffer := recvBuffer st;
     varsValue := varsValue st;
     luaState := luaState st;
     luaEngine := luaEngine st;
     lastStatesLua := lastStatesLua st;
     addDaq := addDaq st;
     trace := trace st |}.

Definition set_lastStatus (v : string) (st : State) : State :=
  {|
     tags := tags st;
     pacName := pacName st;
     socket := socket st;
     connected := connected st;
     working := working st;
     overloading := overloading st;
     lastStatus := v;
     lastTimestampValue := lastTimestampValue st;
     packetIndex := packetIndex st;
     errRetryCount := errRetryCount st;
     protocolVersion := protocolVersion st;
     gotDevices := gotDevices st;
     pacInfoReceived := pacInfoReceived st;
     pacInfo := pacInfo st;
     recvBuffer := recvBuffer st;
     varsValue := varsValue st;
     luaState := luaState st;
     luaEngine := luaEngine st;
     lastStatesLua := lastStatesLua st;
     addDaq := addDaq st;
     trace := trace st |}.

Definition set_lastTimestampValue (v : option Z) (st : State) : State :=
  {|
     tags := tags st;
     pacName := pacName st;
     socket := socket st;
     connected := connected st;
     working := working st;
     overloading := overloading st;
     lastStatus := lastStatus st;
     lastTimestampValue := v;
     packetIndex := packetIndex st;
     errRetryCount := errRetryCount st;
     protocolVersion := protocolVersion st;
     gotDevices := gotDevices st;
     pacInfoReceived := pacInfoReceived st;
     pacInfo := pacInfo st;
     recvBuffer := recvBuffer st;
     varsValue := varsValue st;
     luaState := luaState st;
     luaEngine := luaEngine st;
     lastStatesLua := lastStatesLua st;
     addDaq := addDaq st;
     trace := trace st |}.

Definition set_packetIndex (v : Z) (st : State) : State :=
  {|
     tags := tags st;
     pacName := pacName st;
     socket := socket st;
     connected := connected st;
     working := working st;
     overloading := overloading st;
     lastStatus := lastStatus st;
     lastTimestampValue := lastTimestampValue st;
     packetIndex := v;
     errRetryCount := errRetryCount st;
     protocolVersion := protocolVersion st;
     gotDevices := gotDevices st;
     pacInfoReceived := pacInfoReceived st;
     pacInfo := pacInfo st;
     recvBuffer := recvBuffer st;
     varsValue := varsValue st;
     luaState := luaState st;
     luaEngine := luaEngine st;
     lastStatesLua := lastStatesLua st;
     addDaq := addDaq st;
     trace := trace st |}.

Definition set_errRetryCount (v : Z) (st : State) : State :=
  {|
     tags := tags st;
     pacName := pacName st;
     socket := socket st;
     connected := connected st;
     working := working st;
     overloading := overloading st;
     lastStatus := lastStatus st;
     lastTimestampValue := lastTimestampValue st;
     packetIndex := packetIndex st;
     errRetryCount := v;
     protocolVersion := protocolVersion st;
     gotDevices := gotDevices st;
     pacInfoReceived := pacInfoReceived st;
     pacInfo := pacInfo st;
     recvBuffer := recvBuffer st;
     varsValue := varsValue st;
     luaState := luaState st;
     luaEngine := luaEngine st;
     lastStatesLua := lastStatesLua st;
     addDaq := addDaq st;
     trace := trace st |}.

Definition set_protocolVersion (v : JsVal) (st : State) : State :=
  {|
     tags := tags st;
     pacName := pacName st;
     socket := socket st;
     connected := connected st;
     working := working st;
     overloading := overloading st;
     lastStatus := lastStatus st;
     lastTimestampValue := lastTimestampValue st;
     packetIndex := packetIndex st;
     errRetryCount := errRetryCount st;
     protocolVersion := v;
     gotDevices := gotDevices st;
     pacInfoReceived := pacInfoReceived st;
     pacInfo := pacInfo st;
     recvBuffer := recvBuffer st;
     varsValue := varsValue st;
     luaState := luaState st;
     luaEngine := luaEngine st;
     lastStatesLua := lastStatesLua st;
     addDaq := addDaq st;
     trace := trace st |}.

Definition set_gotDevices (v : bool) (st : State) : State :=
  {|
     tags := tags st;
     pacName := pacName st;
     socket := socket st;
     connected := connected st;
     working := working st;
     overloading := overloading st;
     lastStatus := lastStatus st;
     lastTimestampValue := lastTimestampValue st;
     packetIndex := packetIndex st;
     errRetryCount := errRetryCount st;
     protocolVersion := protocolVersion st;
     gotDevices := v;
     pacInfoReceived := pacInfoReceived st;
     pacInfo := pacInfo st;
     recvBuffer := recvBuffer st;
     varsValue := varsValue st;
     luaState := luaState st;
     luaEngine := luaEngine st;
     lastStatesLua := lastStatesLua st;
     addDaq := addDaq st;
     trace := trace st |}.

Definition set_pacInfoReceived (v : bool) (st : State) : State :=
  {|
     tags := tags st;
     pacName := pacName st;
     socket := socket st;
     connected := connected st;
     working := working st;
     overloading := overloading st;
     lastStatus := lastStatus st;
     lastTimestampValue := lastTimestampValue st;
     packetIndex := packetIndex st;
     errRetryCount := errRetryCount st;
     protocolVersion := protocolVersion st;
     gotDevices := gotDevices st;
     pacInfoReceived := v;
     pacInfo := pacInfo st;
     recvBuffer := recvBuffer st;
     varsValue := varsValue st;
     luaState := luaState st;
     luaEngine := luaEngine st;
     lastStatesLua := lastStatesLua st;
     addDaq := addDaq st;
     trace := trace st |}.

Definition set_pacInfo (v : PacInfo) (st : State) : State :=
  {|
     tags := tags st;
     pacName := pacName st;
     socket := socket st;
     connected := connected st;
     working := working st;
     overloading := overloading st;
     lastStatus := lastStatus st;
     lastTimestampValue := lastTimestampValue st;
     packetIndex := packetIndex st;
     errRetryCount := errRetryCount st;
     protocolVersion := protocolVersion st;
     gotDevices := gotDevices st;
     pacInfoReceived := pacInfoReceived st;
     pacInfo := v;
     recvBuffer := recvBuffer st;
     varsValue := varsValue st;
     luaState := luaState st;
     luaEngine := luaEngine st;
     lastStatesLua := lastStatesLua st;
     addDaq := addDaq st;
     trace := trace st |}.

Definition set_recvBuffer (v : list byte) (st : State) : State :=
  {|
     tags := tags st;
     pacName := pacName st;
     socket := socket st;
     connected := connected st;
     working := working st;
     overloading := overloading st;
     lastStatus := lastStatus st;
     lastTimestampValue := lastTimestampValue st;
     packetIndex := packetIndex st;
     errRetryCount := errRetryCount st;
     protocolVersion := protocolVersion st;
     gotDevices := gotDevices st;
     pacInfoReceived := pacInfoReceived st;
     pacInfo := pacInfo st;
     recvBuffer := v;
     varsValue := varsValue st;
     luaState := luaState st;
     luaEngine := luaEngine st;
     lastStatesLua := lastStatesLua st;
     addDaq := addDaq st;
     trace := trace st |}.

Definition set_varsValue (v : Cache) (st : State) : State :=
  {|
     tags := tags st;
     pacName := pacName st;
     socket := socket st;
     connected := connected st;
     working := working st;
     overloading := overloading st;
     lastStatus := lastStatus st;
     lastTimestampValue := lastTimestampValue st;
     packetIndex := packetIndex st;
     errRetryCount := errRetryCount st;
     protocolVersion := protocolVersion st;
     gotDevices := gotDevices st;
     pacInfoReceived := pacInfoReceived st;
     pacInfo := pacInfo st;
     recvBuffer := recvBuffer st;
     varsValue := v;
     luaState := luaState st;
     luaEngine := luaEngine st;
     lastStatesLua := lastStatesLua st;
     addDaq := addDaq st;
     trace := trace st |}.

Definition set_luaState (v : JsVal) (st : State) : State :=
  {|
     tags := tags st;
     pacName := pacName st;
     socket := socket st;
     connected := connected st;
     working := working st;
     overloading := overloading st;
     lastStatus := lastStatus st;
     lastTimestampValue := lastTimestampValue st;
     packetIndex := packetIndex st;
     errRetryCount := errRetryCount st;
     protocolVersion := protocolVersion st;
     gotDevices := gotDevices st;
     pacInfoReceived := pacInfoReceived st;
     pacInfo := pacInfo st;
     recvBuffer := recvBuffer st;
     varsValue := varsValue st;
     luaState := v;
     luaEngine := luaEngine st;
     lastStatesLua := lastStatesLua st;
     addDaq := addDaq st;
     trace := trace st |}.

Definition set_luaEngine (v : option LuaEngine) (st : State) : State :=
  {|
     tags := tags st;
     pacName := pacName st;
     socket := socket st;
     connected := connected st;
     working := working st;
     overloading := overloading st;
     lastStatus := lastStatus st;
     lastTimestampValue := lastTimestampValue st;
     packetIndex := packetIndex st;
     errRetryCount := errRetryCount st;
     protocolVersion := protocolVersion st;
     gotDevices := gotDevices st;
     pacInfoReceived := pacInfoReceived st;
     pacInfo := pacInfo st;
     recvBuffer := recvBuffer st;
     varsValue := varsValue st;
     luaState := luaState st;
     luaEngine := v;
     lastStatesLua := lastStatesLua st;
     addDaq := addDaq st;
     trace := trace st |}.

Definition set_lastStatesLua (v : string) (st : State) : State :=
  {|
     tags := tags st;
     pacName := pacName st;
     socket := socket st;
     connected := connected st;
     working := working st;
     overloading := overloading st;
     lastStatus := lastStatus st;
     lastTimestampValue := lastTimestampValue st;
     packetIndex := packetIndex st;
     errRetryCount := errRetryCount st;
     protocolVersion := protocolVersion st;
     gotDevices := gotDevices st;
     pacInfoReceived := pacInfoReceived st;
     pacInfo := pacInfo st;
     recvBuffer := recvBuffer st;
     varsValue := varsValue st;
     luaState := luaState st;
     luaEngine := luaEngine st;
     lastStatesLua := v;
     addDaq := addDaq st;
     trace := trace st |}.

Definition set_addDaq (v : bool) (st : State) : State :=
  {|
     tags := tags st;
     pacName := pacName st;
     socket := socket st;
     connected := connected st;
     working := working st;
     overloading := overloading st;
     lastStatus := lastStatus st;
     lastTimestampValue := lastTimestampValue st;
     packetIndex := packetIndex st;
     errRetryCount := errRetryCount st;
     protocolVersion := protocolVersion st;
     gotDevices := gotDevices st;
     pacInfoReceived := pacInfoReceived st;
     pacInfo := pacInfo st;
     recvBuffer := recvBuffer st;
     varsValue := varsValue st;
     luaState := luaState st;
     luaEngine := luaEngine st;
     lastStatesLua := lastStatesLua st;
     addDaq := v;
     trace := trace st |}.

Definition set_trace (v : list Event) (st : State) : State :=
  {|
     tags := tags st;
     pacName := pacName st;
     socket := socket st;
     connected := connected st;
     working := working st;
     overloading := overloading st;
     lastStatus := lastStatus st;
     lastTimestampValue := lastTimestampValue st;
     packetIndex := packetIndex st;
     errRetryCount := errRetryCount st;
     protocolVersion := protocolVersion st;
     gotDevices := gotDevices st;
     pacInfoReceived := pacInfoReceived st;
     pacInfo := pacInfo st;
     recvBuffer := recvBuffer st;
     varsValue := varsValue st;
     luaState := luaState st;
     luaEngine := luaEngine st;
     lastStatesLua := lastStatesLua st;
     addDaq := addDaq st;
     trace := v |}.

(** [new EasyDrvClient(_data, ...)]. *)
Definition initial (data_tags : list (string * Tag)) (pac_name : string)
  : State :=
  {| tags := data_tags; pacName := pac_name; socket := None;
     connected := false; working := false; overloading := 0;
     lastStatus := ""; lastTimestampValue := None; packetIndex := 0;
     errRetryCount := 0; protocolVersion := JNumber PROTO_UNKNOWN;
     gotDevices := false; pacInfoReceived := false;
     pacInfo := {| pac_name := JString ""; pac_version := JNumber 0;
                   pac_paramsCRC := JNumber 0 |};
     recvBuffer := []; varsValue := ∅; luaState := JObject [];
     luaEngine := None; lastStatesLua := ""; addDaq := false;
     trace := [] |}.

Definition record (e : Event) (st : State) : State :=
  set_trace (e :: trace st) st.

Definition logger (lvl : LogLevel) (msg : LogMsg) (st : State) : State :=
  record (Log lvl msg) st.

Definition _emitValues (values : Cache) (st : State) : State :=
  record (EmitValues values) st.

Definition _emitStatus (status : string) (st : State) : State :=
  record (EmitStatus status) (set_lastStatus status st).

Definition _clearVarsValue (st : State) : State :=
  let st1 := set_varsValue (set_value JNull <$> varsValue st) st in
  _emitValues (varsValue st1) st1.

Definition _checkWorking (flag : bool) (st : State) : bool * State :=
  if flag && working st then
    let st1 := set_overloading (overloading st + 1) st in     (* ++overloading *)
    let st2 :=
      if 3 <=? overloading st1
      then set_overloading 0 (_emitStatus "connect-busy" st1)
      else st1 in
    (false, logger LWarn (MsgOverloadCount (overloading st2)) st2)
  else
    let st1 := set_working flag st in
    let st2 := if negb flag then set_overloading 0 st1 else st1 in
    (true, st2).

(** [_initLuaEngine]: the old engine, if any, is closed and replaced. *)
Definition _initLuaEngine `{Fengari} (st : State) : State :=
  set_luaEngine (Some engine_init) st.

Definition _executeLua `{Fengari} (luaStr : string) (st : State) : State :=
  let st1 := match luaEngine st with
             | None => _initLuaEngine st
             | Some _ => st
             end in
  match luaEngine st1 with
  | Some e => set_luaEngine (Some (engine_execute e luaStr)) st1
  | None => st1
  end.

(** [luaEngine.get(name)] on the engine of the driver, which the call
    leaves as it found it unless the read raised. *)
Definition engine_read `{Runtime} (name : string) (e : LuaEngine)
    (st : State) : JsVal * State :=
  let '(v, e1) := engine_get e name in
  (v, set_luaEngine (Some e1) st).

(** [_extractLuaState]: [luaState = { t: t }] when the global [t] reads
    back as an object. *)
Definition _extractLuaState `{Runtime} (st : State) : State :=
  match luaEngine st with
  | None => st
  | Some e =>
      let '(t, st1) := engine_read "t" e st in
      if truthy t && is_object_type t
      then set_luaState (JObject [("t", t)]) st1
      else st1
  end.

(** What the parser returns when it is not [null]:
    [{ error: 'PAC error code ' + errCode }], [{ error: null, data }] or
    [{ error: 'answer too large' }]. *)
Inductive Response :=
| PacError (errCode : Z)
| Answer (data : list byte)
| TooLarge.

(** The request frame of [_sendFrame]: the six header bytes, then the
    command data. *)
Definition request_frame (packetIndex : Z) (cmdData : list byte)
  : list byte :=
  let dataLen := blen cmdData in
  [byte_of_Z FRAME_MARKER; byte_of_Z SERVICE_ID; byte_of_Z FRAME_SINGLE;
   byte_of_Z packetIndex;
   byte_of_Z (Z.land (Z.shiftr dataLen 8) 255);
   byte_of_Z (Z.land dataLen 255)]
    ++ cmdData.

(** A response frame as the PAC sends it, by the layout documented above
    [_tryParseResponse]: marker, status, echoed packet index, big-endian
    16-bit data length, data. *)
Definition response_frame (status pidx : byte) (payload : list byte)
  : list byte :=
  let dataLen := blen payload in
  [byte_of_Z FRAME_MARKER; status; pidx;
   byte_of_Z (Z.land (Z.shiftr dataLen 8) 255);
   byte_of_Z (Z.land dataLen 255)]
    ++ payload.

(** [while (recvBuffer.length > 0 && recvBuffer[0] !== FRAME_MARKER)
       recvBuffer = recvBuffer.slice(1);]. *)
Fixpoint skip_to_marker (buf : list byte) : list byte :=
  match buf with
  | [] => []
  | b :: rest => if bz b =? FRAME_MARKER then buf else skip_to_marker rest
  end.

Definition _tryDecompress `{Zlib} (buf : list byte) : list byte :=
  match buf with
  | [] => buf
  | _ => default buf (inflateSync buf)
  end.

Definition _tryParseResponse `{Zlib} (st : State) : option Response * State :=
  let buf := skip_to_marker (recvBuffer st) in
  let st := set_recvBuffer buf st in
  match buf with
  | b0 :: b1 :: b2 :: b3 :: b4 :: _ =>
      if bz b1 =? AKN_ERR then
        let errDataLen := bz b3 * 256 + bz b4 in
        let errTotalLen := RESP_HEADER_SIZE + errDataLen in
        if blen buf <? errTotalLen then (None, st)        (* need more data *)
        else
          let errCode :=
            if 0 <? errDataLen then default 0 (bz <$> buf !! 5%nat) else 0 in
          (Some (PacError errCode),
           set_recvBuffer (drop (Z.to_nat errTotalLen) buf) st)
      else
        let st :=
          if negb (bz b2 =? packetIndex st)
          then logger LWarn (MsgIndexMismatch (bz b2) (packetIndex st)) st
          else st in
        let answerSize := bz b3 * 256 + bz b4 in
        if answerSize =? 0 then
          (Some (Answer []),
           set_recvBuffer (drop (Z.to_nat RESP_HEADER_SIZE) buf) st)
        else if MAX_BUFFER_SIZE <? answerSize then
          (Some TooLarge,
           set_recvBuffer [] (logger LWarn (MsgAnswerTooLarge answerSize) st))
        else
          let totalNeeded := RESP_HEADER_SIZE + answerSize in
          if blen buf <? totalNeeded then (None, st)      (* need more data *)
          else
            let answerData := slice buf RESP_HEADER_SIZE totalNeeded in
            (Some (Answer (_tryDecompress answerData)),
             set_recvBuffer (drop (Z.to_nat totalNeeded) buf) st)
  | _ => (None, st)                    (* recvBuffer.length < RESP_HEADER_SIZE *)
  end.

(** The 'data' listener of one request over the chunks that arrive: append
    to [recvBuffer], parse, and resolve with the first result that is not
    [null] (the listener is removed then). *)
Fixpoint onData `{Zlib} (incoming : list (list byte)) (st : State)
  : option Response * State :=
  match incoming with
  | [] => (None, st)
  | chunk :: rest =>
      let st1 := set_recvBuffer (recvBuffer st ++ chunk) st in
      match _tryParseResponse st1 with
      | (Some result, st2) => (Some result, st2)
      | (None, st2) => onData rest st2
      end
  end.

Definition _sendFrame `{Zlib} (cmdData : list byte) (inc : Incoming)
    (st : State) : (Response + string) * State :=
  match socket st with
  | None => (inr "socket not connected", st)
  | Some sk =>
      if destroyed sk then (inr "socket not connected", st)
      else
        let st1 := set_packetIndex (Z.land (packetIndex st + 1) 255) st in
        let frame := request_frame (packetIndex st1) cmdData in
        if throws_write sk then (inr "write failed", st1)
        else
          let st2 := record (SockWrite frame) st1 in
          match onData (chunks inc) st2 with
          | (Some result, st3) => (inl result, st3)
          | (None, st3) => (inr (ending_error (ending inc)), st3)
          end
  end.

(** [_sendCommand(cmdByte, extraData)]. *)
Definition _sendCommand `{Zlib} (cmdByte : Z) (extraData : list byte)
    (inc : Incoming) (st : State) : (list byte + string) * State :=
  let cmdBuf := byte_of_Z cmdByte :: extraData in
  match _sendFrame cmdBuf inc (set_recvBuffer [] st) with
  | (inl (PacError errCode), st1) =>
      (inr ("PAC error code " +:+ pretty errCode), st1)
  | (inl TooLarge, st1) => (inr "answer too large", st1)
  | (inl (Answer data), st1) => (inl data, st1)
  | (inr err, st1) => (inr err, st1)
  end.

(** [str.replace(/\0/g, '')]. *)
Fixpoint strip_nul (s : string) : string :=
  match s with
  | EmptyString => EmptyString
  | String c s' =>
      if Ascii.eqb c Ascii.zero then strip_nul s' else String c (strip_nul s')
  end.

Definition is_space (c : ascii) : bool :=
  let n := nat_of_ascii c in
  ((9 <=? n) && (n <=? 13) || (n =? 32) || (n =? 160))%nat.

Fixpoint trim_start (s : string) : string :=
  match s with
  | EmptyString => EmptyString
  | String c s' => if is_space c then trim_start s' else s
  end.

(** [str.trim()]. *)
Definition trim (s : string) : string :=
  String.rev (trim_start (String.rev (trim_start s))).

Definition _extractLuaString `{Codec} (buf : list byte) : string :=
  match buf with
  | [] => ""
  | _ => trim (strip_nul (toString_utf8 buf))
  end.

(** [v || d]. *)
Definition or_else (v d : JsVal) : JsVal := if truthy v then v else d.

(** [_getPACInfo]; [inr] is the exception it lets through. *)
Definition _getPACInfo `{Zlib} `{Codec} `{Fengari} `{Runtime}
    (inc : Incoming) (st : State) : (unit + string) * State :=
  match _sendCommand CMD_GET_INFO [] inc st with
  | (inr err, st1) => (inr err, st1)
  | (inl answer, st1) =>
      let luaStr := _extractLuaString answer in
      let st2 := if negb (String.eqb luaStr "") then _executeLua luaStr st1
                 else st1 in
      match luaEngine st2 with
      | None => (inr "TypeError", st2)
      | Some e =>
          let '(version, e1) := engine_get e "protocol_version" in
          let '(name, e2) := engine_get e1 "PAC_name" in
          let '(paramsCRC, e3) := engine_get e2 "params_CRC" in
          let info :=
            {| pac_name := or_else name (JString "");
               pac_version := or_else version (JNumber PROTO_UNKNOWN);
               pac_paramsCRC := or_else paramsCRC (JNumber 0) |} in
          let st3 := set_protocolVersion (pac_version info)
                       (set_pacInfo info (set_luaEngine (Some e3) st2)) in
          let pv := protocolVersion st3 in
          let st4 :=
            if negb (strict_eq pv (JNumber PROTO_CURRENT))
               && negb (strict_eq pv (JNumber PROTO_NON_UNICODE))
               && negb (strict_eq pv (JNumber PROTO_QLZ))
            then logger LWarn (MsgProtocolVersion pv) st3 else st3 in
          let st5 :=
            if negb (String.eqb (pacName st4) "")
               && truthy (pac_name info)
               && negb (strict_eq (JString (pacName st4)) (pac_name info))
            then logger LWarn MsgPacNameMismatch st4 else st4 in
          (inl tt, logger LInfo MsgPacInfo (set_pacInfoReceived true st5))
      end
  end.

(** [_getPACStates]: [inl None] is its [null], [inl (Some luaState)] its
    [return luaState], [inr] the exception it lets through. *)
Definition _getPACStates `{Zlib} `{Codec} `{Fengari} `{Runtime}
    (inc : Incoming) (st : State) : (option JsVal + string) * State :=
  match _sendCommand CMD_GET_STATES [] inc st with
  | (inr err, st1) => (inr err, st1)
  | (inl answer, st1) =>
      if blen answer <? REQ_ID_SIZE then (inl None, st1)
      else
        let luaStr :=
          _extractLuaString (drop (Z.to_nat REQ_ID_SIZE) answer) in
        if negb (String.eqb luaStr "") then
          let st2 := set_lastStatesLua luaStr st1 in
          let st3 := _extractLuaState (_executeLua luaStr st2) in
          (inl (Some (luaState st3)), st3)
        else (inl None, st1)
  end.

(** [_resolveTagValue]; [None] would be a raised TypeError. *)
Definition _resolveTagValue `{Runtime} (luaState : JsVal) (tag : Tag) : option JsVal :=
  let addr := tag_addr tag in
  direct ← getProp luaState addr;
  if negb (is_undefined direct) && negb (is_object_type direct)
  then Some direct
  else if dot_after_first addr then
    resolve_from luaState (split_dot addr)
  else
    tagsTable ← getProp luaState "tags";
    if truthy tagsTable then
      v ← getProp tagsTable addr;
      Some v
    else Some JUndefined.

(** The cycle from [var timestamp = Date.now()] to the end of the [try]:
    the tag loop, then the emission and the DAQ hand-off. *)
Definition poll_cycle `{DeviceUtils} `{Runtime} (timestamp : Z) (st : State) : State :=
  let c := tag_loop (_resolveTagValue (luaState st)) (addDaq st)
             timestamp (tags st)
             {| c_vars := varsValue st; c_changed := ∅; c_log := [] |} in
  let st1 := set_trace (c_log c ++ trace st) (set_varsValue (c_vars c) st) in
  let st2 := set_errRetryCount 0
               (set_lastTimestampValue (Some timestamp) st1) in
  let st3 := _emitValues (varsValue st2) st2 in
  let st4 :=
    if addDaq st3 && negb (isEmptyObject (c_changed c))
    then record (AddDaq (changed_object (varsValue st3) (c_changed c))) st3
    else st3 in
  if negb (String.eqb (lastStatus st4) "connect-ok")
  then _emitStatus "connect-ok" st4 else st4.

(** The [catch (err)] branch of polling(). *)
Definition polling_failed (err : string) (st : State) : State :=
  let st1 := set_errRetryCount (errRetryCount st + 1) st in
  let st2 :=
    if MAX_ERRORS_COUNT <=? errRetryCount st1
    then _emitStatus "connect-error" (set_connected false st1)
    else st1 in
  logger LError (MsgPollingError err) st2.

(** [polling()].  [inc] is what the socket delivers to the GET_STATES
    request, [now] is [Date.now()]. *)
Definition polling `{Zlib} `{Codec} `{Fengari} `{DeviceUtils} `{Runtime}
    (inc : Incoming) (now : Z) (st : State) : State :=
  match _checkWorking true st with
  | (false, st1) => st1
  | (true, st1) =>
      if negb (bool_decide (is_Some (socket st1))) || negb (connected st1)
      then (_checkWorking false (_checkWorking false st1).2).2
      else
        match _getPACStates inc st1 with
        | (inr err, st2) => (_checkWorking false (polling_failed err st2)).2
        | (inl None, st2) =>
            (_checkWorking false (_checkWorking false st2).2).2
        | (inl (Some _), st2) =>
            (_checkWorking false (poll_cycle now st2)).2       (* finally *)
        end
  end.

(** What connect() meets: the socket object it creates, how the TCP
    connect ends, whether "PAC accept" arrives before the handshake timer,
    and what the socket delivers to the GET_INFO and GET_STATES requests. *)
Record ConnectEnv := {
  fresh_socket : Socket;
  tcp : TcpOutcome;
  handshake : bool;
  info_reply : Incoming;
  states_reply : Incoming
}.

(** [try { socket.removeAllListeners(); socket.destroy(); } catch (e) {}]. *)
Definition teardown (sk : Socket) (st : State) : State :=
  if throws_removeAllListeners sk then st
  else
    let st1 := record SockRemoveAllListeners st in
    if throws_destroy sk then st1 else record SockDestroy st1.

(** The [catch (err)] branch of connect(). *)
Definition connect_failed (err : string) (st : State) : Settled * State :=
  let st1 := _emitStatus "connect-error" (set_connected false st) in
  let st2 := (_checkWorking false (_clearVarsValue st1)).2 in
  let st3 :=
    match socket st2 with
    | Some sk => set_socket None (teardown sk st2)
    | None => st2
    end in
  (Rejected err, logger LError (MsgConnectFailed err) st3).

(** connect() once the TCP connection is open. *)
Definition connect_opened `{Zlib} `{Codec} `{Fengari} `{Runtime}
    (env : ConnectEnv) (st : State) : Settled * State :=
  let st1 := logger (if handshake env then LInfo else LWarn)
               (MsgHandshake (handshake env)) st in
  let st2 := set_recvBuffer []
               (set_errRetryCount 0 (set_connected true st1)) in
  let st3 :=
    match _getPACInfo (info_reply env) st2 with
    | (inl _, s) => s
    | (inr err, s) => logger LWarn (MsgPacInfoWarning err) s
    end in
  let st4 :=
    match _getPACStates (states_reply env) st3 with
    | (inl _, s) => set_gotDevices true s
    | (inr err, s) => logger LWarn (MsgPacStateWarning err) s
    end in
  let st5 := logger LInfo MsgConnected (_emitStatus "connect-ok" st4) in
  (Resolved, (_checkWorking false st5).2).

Definition connect `{Zlib} `{Codec} `{Fengari} `{Runtime}
    (env : ConnectEnv) (st : State) : Settled * State :=
  match _checkWorking true st with
  | (false, st1) => (Rejected "busy", st1)
  | (true, st1) =>
      let st2 := _initLuaEngine (logger LInfo MsgTryConnect st1) in
      let st3 := record SockConnect
                   (set_socket (Some (fresh_socket env)) st2) in
      match tcp env with
      | TcpOpen => connect_opened env st3
      | TcpTimeout =>
          (* the timer destroys the socket, then rejects *)
          let sk := fresh_socket env in
          let st4 := record SockDestroy
                       (set_socket
                          (Some {| destroyed := true;
                                   throws_write := throws_write sk;
                                   throws_removeAllListeners :=
                                     throws_removeAllListeners sk;
                                   throws_destroy := throws_destroy sk |})
                          st3) in
          connect_failed "connection timeout" st4
      | TcpError err => connect_failed err st3
      end
  end.

(** The [try] block of disconnect() with its [catch]: an exception of
    [removeAllListeners] skips the rest of the block and is logged. *)
Definition disconnect_try (st : State) : State :=
  let st1 := (_checkWorking false st).2 in
  let close_engine (s : State) : State :=
    match luaEngine s with
    | Some _ => set_luaEngine None s
    | None => s
    end in
  match socket st1 with
  | None => close_engine st1
  | Some sk =>
      if throws_removeAllListeners sk
      then logger LError MsgDisconnectFailure st1
      else
        let st2 := record SockRemoveAllListeners st1 in
        let st3 := if throws_destroy sk then st2 else record SockDestroy st2 in
        close_engine st3
  end.

(** The [finally] block of disconnect(). *)
Definition disconnect_finally (st : State) : Settled * State :=
  let st1 := set_connected false (set_socket None st) in
  let st2 := set_errRetryCount 0
               (set_gotDevices false (set_pacInfoReceived false st1)) in
  let st3 := set_luaState (JObject []) st2 in
  (Resolved, _clearVarsValue (_emitStatus "connect-off" st3)).

Definition disconnect (st : State) : Settled * State :=
  disconnect_finally (disconnect_try st).

(** [load(_data)]. *)
Definition load (data_tags : list (string * Tag)) (st : State) : State :=
  logger LInfo (MsgLoaded (length data_tags))
    (set_varsValue ∅ (set_tags data_tags st)).

Definition getValues (st : State) : Cache := varsValue st.

(** [getValue(id)]: [{ id, value, ts }] or null.  [varsValue[id]] is the
    entry of the cache, or what Object.prototype holds under the name when
    the cache has no entry, whose [value] is undefined. *)
Definition getValue (id : string) (st : State)
  : option (string * JsVal * option Z) :=
  match varsValue st !! id with
  | Some s => Some (id, s_value s, lastTimestampValue st)
  | None =>
      if inherited_entry id
      then Some (id, JUndefined, lastTimestampValue st)
      else None
  end.

(** [bindAddDaq(fnc)]: [bound] says whether [fnc] is a function. *)
Definition bindAddDaq (bound : bool) (st : State) : State :=
  set_addDaq bound st.

(** The calls the runtime makes on a driver instance. *)
Inductive Call :=
| CallConnect (env : ConnectEnv)
| CallDisconnect
| CallPolling (inc : Incoming) (now : Z)
| CallLoad (data_tags : list (string * Tag))
| CallBindAddDaq (bound : bool).

Definition perform `{Zlib} `{Codec} `{Fengari} `{DeviceUtils} `{Runtime}
    (st : State) (c : Call) : State :=
  match c with
  | CallConnect env => (connect env st).2
  | CallDisconnect => (disconnect st).2
  | CallPolling inc now => polling inc now st
  | CallLoad data_tags => load data_tags st
  | CallBindAddDaq bound => bindAddDaq bound st
  end.

(** The state of an instance after a history of calls. *)
Definition after `{Zlib} `{Codec} `{Fengari} `{DeviceUtils} `{Runtime}
    (data_tags : list (string * Tag)) (pac_name : string)
    (history : list Call) : State :=
  fold_left perform history (initial data_tags pac_name).


(** ** Writing a tag: setValue() *)

Definition CMD_EXEC_CMD : Z := 102.

(** The frame [_execCommand] fills in: the header with the fixed packet
    index 0, the command byte, the Lua text and the terminating NUL. *)
Definition exec_frame (cmdBytes : list byte) : list byte :=
  let dataLen := 1 + blen cmdBytes + 1 in
  [byte_of_Z FRAME_MARKER; byte_of_Z SERVICE_ID; byte_of_Z FRAME_SINGLE;
   byte_of_Z 0;
   byte_of_Z (Z.land (Z.shiftr dataLen 8) 255);
   byte_of_Z (Z.land dataLen 255)]
    ++ [byte_of_Z CMD_EXEC_CMD] ++ cmdBytes ++ [byte_of_Z 0].

(** [_execCommand(cmdStr)]; [inr] is the exception it raises. *)
Definition _execCommand (cmdStr : string) (st : State)
  : (unit + string) * State :=
  match socket st with
  | None => (inr "socket not connected", st)
  | Some sk =>
      if destroyed sk then (inr "socket not connected", st)
      else if throws_write sk then (inr "write failed", st)
      else (inl tt, record (SockWrite (exec_frame (utf8_encode cmdStr))) st)
  end.





(** [getStatus()] and [lastReadTimestamp()]. *)
Definition getStatus (st : State) : string := lastStatus st.

Definition lastReadTimestamp (st : State) : option Z := lastTimestampValue st.

(** [isConnected()], as the condition it stands for:
    [connected && socket && !socket.destroyed]. *)
Definition isConnected (st : State) : bool :=
  connected st
  && match socket st with
     | Some sk => negb (destroyed sk)
     | None => false
     end.

(** ** Browsing the read-back state *)

(** The node pushed for one key of the parent, if any: a folder for a
    value of typeof 'object' that is not null, a variable for anything
    else that is not [undefined] and not a function. *)
Definition browse_node (parentId key : string) (val : JsVal)
  : option BrowseNode :=
  let nodeId :=
    if negb (String.eqb parentId "") then parentId +:+ "." +:+ key
    else key in
  let folder :=
    Some {| node_id := nodeId; node_name := key;
            node_class := NODE_CLASS_OBJECT; node_type := None |} in
  let variable type :=
    Some {| node_id := nodeId; node_name := key;
            node_class := NODE_CLASS_VARIABLE; node_type := Some type |} in
  match val with
  | JUndefined => None
  | JNull => variable "string"
  | _ =>
      match typeof val with
      | TObject => folder
      | TFunction | TUndefined => None
      | TNumber => variable "number"
      | TBoolean => variable "boolean"
      | TString => variable "string"
      end
  end.

(** [_buildBrowseNodes(parentId)]; a null [parentId] is the empty string,
    which [!parentId] treats alike.  [None] would be a raised TypeError. *)
Definition _buildBrowseNodes `{Runtime} (luaState : JsVal) (parentId : string)
  : option (list BrowseNode) :=
  exit ← (if negb (String.eqb parentId "")
          then walk luaState (split_dot parentId)
          else Some (Finished luaState));
  match exit with
  | Returned _ => Some []
  | Finished obj =>
      if negb (truthy obj) || negb (is_object_type obj) then Some []
      else
        Some (omap
                (fun key =>
                   browse_node parentId key
                     (default JUndefined (getProp obj key)))
                (own_keys obj))
  end.

(** [!gotDevices || !luaState || !luaState.t]. *)
Definition needs_states `{Runtime} (st : State) : bool :=
  negb (gotDevices st) || negb (truthy (luaState st))
  || negb (truthy (default JUndefined (getProp (luaState st) "t"))).

(** [browse(node)], with [parentId] the id of the node ([""] for the
    root); [inr] is the error the promise is rejected with. *)
Definition browse `{Zlib} `{Codec} `{Fengari} `{Runtime} (parentId : string)
    (inc : Incoming) (st : State)
  : ((list BrowseNode + string) * list (LogLevel * ApiLog)) * State :=
  if negb (bool_decide (is_Some (socket st))) || negb (connected st)
  then ((inl [], []), st)
  else
    let fetched :=
      if needs_states st then
        match _getPACStates inc st with
        | (inl _, st1) => inl (set_gotDevices true st1)
        | (inr err, st1) => inr (err, st1)
        end
      else inl st in
    match fetched with
    | inr (err, st1) => ((inr err, [(LError, LogBrowseError err)]), st1)
    | inl st1 =>
        match _buildBrowseNodes (luaState st1) parentId with
        | Some nodes => ((inl nodes, []), st1)
        | None =>
            ((inr "TypeError", [(LError, LogBrowseError "TypeError")]), st1)
        end
    end.
End EasyDrv.

(* ===================================================================== *)
(** * Concrete library instances and states *)
(* ===================================================================== *)

(** Used where a property is evaluated on a concrete input. *)

(** A peer that never compresses: every inflate attempt throws. *)
Definition zlib_plain : Zlib := {| inflateSync := fun _ => None |}.

(** The text "PAC accept" of the handshake, as bytes. *)
Definition pac_accept : list byte :=
  [x50; x41; x43; x20; x61; x63; x63; x65; x70; x74].

(** A Lua heap whose global [t] is a table that contains itself:
    [t = { x = 1 }; t.self = t]. *)
Definition cyclic_state : LuaHeap :=
  {| lua_globals := {[ "t" := LTable 0 ]};
     lua_tables :=
       {[ 0%nat := [(LString "x", LNumber 1); (LString "self", LTable 0)] ]} |}.

Example split_dot_examples :
  split_dot "Dev.u1.Properties.ST" = ["Dev"; "u1"; "Properties"; "ST"]
  /\ split_dot "" = [""] /\ split_dot ".a" = [""; "a"]
  /\ split_dot "a." = ["a"; ""] /\ split_dot "t" = ["t"].
Proof. repeat split. Qed.

(** Stand-ins for the codecs: bytes read as 8-bit characters; a command is
    written as [DeviceName:Command]. *)
Definition codec_plain : Codec :=
  {| toString_utf8 := String.string_of_list_byte;
     JSON_stringify_cmd := fun deviceName command _ =>
                             deviceName +:+ ":" +:+ command |}.

(** A stand-in for the runtime: the built-in objects other than
    Object.prototype hold nothing of their own, and a large number prints
    its digits. *)
#[global] Instance runtime_plain : Runtime :=
  {| builtin_own := fun _ _ => None;
     exponent_notation := fun n => pretty n |}.

(** A server whose answers are never valid JSON. *)
Definition json_none : Json := {| JSON_parse := fun _ => None |}.


(** A Lua heap whose global [t] is a table [n] tables deep, each the only
    entry [k] of the one above it and the innermost holding [leaf = 1]:
    [t = { k = { k = ... { leaf = 1 } } }]. *)
Fixpoint nested_tables (n ref : nat) : gmap nat (list (LuaVal * LuaVal)) :=
  match n with
  | O => ∅
  | S m =>
      match m with
      | O => {[ ref := [(LString "leaf", LNumber 1)] ]}
      | S _ => <[ ref := [(LString "k", LTable (S ref))] ]>
                 (nested_tables m (S ref))
      end
  end.

Definition nested_state (n : nat) : LuaHeap :=
  {| lua_globals := {[ "t" := LTable 0 ]}; lua_tables := nested_tables n 0 |}.

(** The same tables as the object tree a complete read gives. *)
Fixpoint nested_tree (n : nat) : JsVal :=
  match n with
  | O => JUndefined
  | S m =>
      match m with
      | O => JObject [("leaf", JNumber 1)]
      | S _ => JObject [("k", nested_tree m)]
      end
  end.

(** An engine right after a chunk that left nothing on the stack, with
    the given globals and tables. *)
Definition engine_holding (heap : LuaHeap) : LuaEngine :=
  {| engine_L := Some {| lua_heap := heap; lua_stack := [];
                         lua_ci_top := LUA_MINSTACK |} |}.

(** An interpreter in which every chunk leaves [t] a table that contains
    itself. *)
Definition fengari_cyclic : Fengari :=
  {| luaL_newstate := {| lua_globals := ∅; lua_tables := ∅ |};
     luaL_dostring := fun _ _ => (cyclic_state, []) |}.

(** A pipeline that passes the raw value through, fails on tags of type
    "bad", and persists a sample when DAQ is enabled and the sample changed
    or the only-on-change policy is off. *)
Definition utils_plain : DeviceUtils :=
  {| tagValueCompose := fun raw _ tag =>
       if String.eqb (tag_type tag) "bad" then inr "type mismatch"
       else inl raw;
     tagDaqToSave := fun s _ =>
       daq_enabled (s_daq s) && (negb (daq_changed (s_daq s)) || s_changed s) |}.

Definition daq_on_change : Daq :=
  {| daq_enabled := true; daq_interval := 60; daq_changed := true |}.

Definition make_tag (name address type : string) : Tag :=
  {| tag_name := name; tag_address := address; tag_type := type;
     tag_daq := daq_on_change; tag_settings := JNull |}.

(** A [luaState] as [_extractLuaState] leaves it:
    [{ t: { V1: { ST: 1 } } }]. *)
Definition sample_lua_state : JsVal :=
  JObject [("t", JObject [("V1", JObject [("ST", JNumber 1)])])].

(** A socket in working order. *)
Definition good_socket : Socket :=
  {| destroyed := false; throws_write := false;
     throws_removeAllListeners := false; throws_destroy := false |}.

(** An MPS driver that is connected, with a call in flight ([working]) and
    two rejections already counted. *)
Definition mps_stuck : MPS.State :=
  MPS.set_overloading 2
    (MPS.set_working true
       (MPS.set_connected true
          (MPS.set_socket (Some good_socket) (MPS.initial [])))).

(** The same for an EasyDrv driver. *)
Definition easydrv_stuck : EasyDrv.State :=
  EasyDrv.set_overloading 2
    (EasyDrv.set_working true
       (EasyDrv.set_connected true
          (EasyDrv.set_socket (Some good_socket) (EasyDrv.initial [] "")))).

(** An EasyDrv driver with three tags on the same address, the middle one
    of a type the pipeline rejects. *)
Definition easydrv_three_tags : EasyDrv.State :=
  EasyDrv.set_luaState sample_lua_state
    (EasyDrv.set_tags
       [("a", make_tag "A" "t.V1.ST" "number");
        ("b", make_tag "B" "t.V1.ST" "bad");
        ("c", make_tag "C" "t.V1.ST" "number")]
       (EasyDrv.initial [] "")).

(** An EasyDrv driver that is connected over a working socket. *)
Definition easydrv_online : EasyDrv.State :=
  EasyDrv.set_connected true
    (EasyDrv.set_socket (Some good_socket) (EasyDrv.initial [] "")).

(** An MPS driver that is connected over a working socket. *)
Definition mps_online : MPS.State :=
  MPS.set_connected true (MPS.set_socket (Some good_socket) (MPS.initial [])).

(** A connected MPS driver with two tags on the same device. *)
Definition mps_two_tags : MPS.State :=
  MPS.set_tags
    [("a", make_tag "State" "Dev.u1.State" "string");
     ("b", make_tag "ST" "Dev.u1.Properties.ST" "string")]
    mps_online.

(** A polling() of MPSClient that no request is answered in, with a DAQ
    callback that returns. *)
Definition poll_silent : MPS.PollEnv :=
  {| MPS.answers := []; MPS.daq_raises := None |}.

(* ===================================================================== *)
(** * Properties *)
(* ===================================================================== *)

(** ** Bytes and 32-bit arithmetic *)

Lemma bz_range (b : byte) : 0 <= bz b < 256.
Proof.
  unfold bz. pose proof (Byte.to_N_bounded b). lia.
Qed.

Lemma to_int32_small (z : Z) : - 2 ^ 31 <= z < 2 ^ 31 -> to_int32 z = z.
Proof.
  intros Hz. unfold to_int32. rewrite Z.mod_small; lia.
Qed.

Lemma to_int32_range (z : Z) : - 2 ^ 31 <= to_int32 z < 2 ^ 31.
Proof.
  unfold to_int32.
  pose proof (Z.mod_pos_bound (z + 2 ^ 31) (2 ^ 32) ltac:(lia)). lia.
Qed.

(** A multiple of [2^n] and a number below [2^n] share no bit. *)
Lemma land_disjoint (k y n : Z) :
  0 <= n -> 0 <= y < 2 ^ n -> Z.land (k * 2 ^ n) y = 0.
Proof.
  intros Hn Hy. apply Z.bits_inj'. intros i Hi.
  rewrite Z.land_spec, Z.bits_0.
  destruct (Z.lt_ge_cases i n) as [Hlt | Hge].
  - rewrite Z.mul_pow2_bits_low by lia. reflexivity.
  - destruct (Z.eq_dec y 0) as [-> | Hy0].
    + rewrite Z.bits_0. apply andb_false_r.
    + rewrite (Z.bits_above_log2 y i); [apply andb_false_r | lia |].
      apply Z.log2_lt_pow2; [lia |].
      apply Z.lt_le_trans with (2 ^ n); [lia |].
      apply Z.pow_le_mono_r; lia.
Qed.

Lemma lor_disjoint (k y n : Z) :
  0 <= n -> 0 <= y < 2 ^ n -> Z.lor (k * 2 ^ n) y = k * 2 ^ n + y.
Proof.
  intros Hn Hy. pose proof (land_disjoint k y n Hn Hy) as Hl.
  rewrite <- (Z.lxor_lor _ _ Hl). symmetry. apply Z.add_nocarry_lxor, Hl.
Qed.

(** The byte [b4] read as a signed quantity: what [buf[4] << 24] keeps. *)
Definition signed_byte (b : byte) : Z :=
  if bz b <? 128 then bz b else bz b - 256.

Lemma js_shl_24 (b : byte) : js_shl (bz b) 24 = signed_byte b * 2 ^ 24.
Proof.
  pose proof (bz_range b) as Hb. unfold js_shl, signed_byte.
  rewrite (to_int32_small (bz b)) by lia.
  rewrite Z.shiftl_mul_pow2 by lia.
  unfold to_int32. destruct (Z.ltb_spec (bz b) 128).
  - rewrite Z.mod_small; lia.
  - replace (bz b * 2 ^ 24 + 2 ^ 31)
      with (bz b * 2 ^ 24 - 2 ^ 31 + 1 * 2 ^ 32) by lia.
    rewrite Z.mod_add by lia. rewrite Z.mod_small; lia.
Qed.

Lemma js_shl_low (b : byte) (n : Z) :
  0 <= n <= 16 -> js_shl (bz b) n = bz b * 2 ^ n.
Proof.
  intros Hn. pose proof (bz_range b) as Hb. unfold js_shl.
  rewrite (to_int32_small (bz b)) by lia.
  rewrite Z.shiftl_mul_pow2 by lia.
  apply to_int32_small.
  assert (2 ^ n <= 2 ^ 16) by (apply Z.pow_le_mono_r; lia).
  assert (0 < 2 ^ n) by (apply Z.pow_pos_nonneg; lia).
  nia.
Qed.

(** The length the MPS parser computes is the big-endian length field read
    as a signed 32-bit integer. *)
Lemma payload_length_signed (b4 b5 b6 b7 : byte) :
  MPS.payload_length b4 b5 b6 b7
  = signed_byte b4 * 2 ^ 24 + bz b5 * 2 ^ 16 + bz b6 * 2 ^ 8 + bz b7.
Proof.
  pose proof (bz_range b4) as H4. pose proof (bz_range b5) as H5.
  pose proof (bz_range b6) as H6. pose proof (bz_range b7) as H7.
  assert (Hs : -128 <= signed_byte b4 < 128)
    by (unfold signed_byte; destruct (Z.ltb_spec (bz b4) 128); lia).
  unfold MPS.payload_length.
  rewrite js_shl_24, !js_shl_low by lia.
  set (s := signed_byte b4) in *.
  (* first [|] *)
  assert (E1 : js_or (s * 2 ^ 24) (bz b5 * 2 ^ 16)
               = s * 2 ^ 24 + bz b5 * 2 ^ 16).
  { unfold js_or.
    rewrite (to_int32_small (s * 2 ^ 24)), (to_int32_small (bz b5 * 2 ^ 16))
      by lia.
    rewrite lor_disjoint by lia. apply to_int32_small. lia. }
  rewrite E1.
  assert (E2 : js_or (s * 2 ^ 24 + bz b5 * 2 ^ 16) (bz b6 * 2 ^ 8)
               = s * 2 ^ 24 + bz b5 * 2 ^ 16 + bz b6 * 2 ^ 8).
  { unfold js_or.
    rewrite (to_int32_small (s * 2 ^ 24 + bz b5 * 2 ^ 16)),
      (to_int32_small (bz b6 * 2 ^ 8)) by lia.
    replace (s * 2 ^ 24 + bz b5 * 2 ^ 16)
      with ((s * 2 ^ 8 + bz b5) * 2 ^ 16) by lia.
    rewrite lor_disjoint by lia. apply to_int32_small. lia. }
  rewrite E2.
  unfold js_or.
  rewrite (to_int32_small (s * 2 ^ 24 + bz b5 * 2 ^ 16 + bz b6 * 2 ^ 8)),
    (to_int32_small (bz b7)) by lia.
  replace (s * 2 ^ 24 + bz b5 * 2 ^ 16 + bz b6 * 2 ^ 8)
    with ((s * 2 ^ 16 + bz b5 * 2 ^ 8 + bz b6) * 2 ^ 8) by lia.
  rewrite lor_disjoint by lia. apply to_int32_small. lia.
Qed.

Lemma payload_length_be32 (b4 b5 b6 b7 : byte) :
  MPS.payload_length b4 b5 b6 b7 = to_int32 (be32 b4 b5 b6 b7).
Proof.
  rewrite payload_length_signed.
  pose proof (bz_range b4) as H4. pose proof (bz_range b5) as H5.
  pose proof (bz_range b6) as H6. pose proof (bz_range b7) as H7.
  unfold be32, signed_byte, to_int32.
  destruct (Z.ltb_spec (bz b4) 128).
  - rewrite Z.mod_small; lia.
  - replace (bz b4 * 2 ^ 24 + bz b5 * 2 ^ 16 + bz b6 * 2 ^ 8 + bz b7 + 2 ^ 31)
      with (bz b4 * 2 ^ 24 + bz b5 * 2 ^ 16 + bz b6 * 2 ^ 8 + bz b7
            - 2 ^ 31 + 1 * 2 ^ 32) by lia.
    rewrite Z.mod_add by lia. rewrite Z.mod_small; lia.
Qed.

(** A length field above the maximum is seen as negative or as too large. *)
Lemma oversize_rejected (b4 b5 b6 b7 : byte) :
  MPS.MAX_PAYLOAD_SIZE < be32 b4 b5 b6 b7 ->
  MPS.payload_length b4 b5 b6 b7 < 0
  \/ MPS.MAX_PAYLOAD_SIZE < MPS.payload_length b4 b5 b6 b7.
Proof.
  intros Hbig. rewrite payload_length_signed.
  pose proof (bz_range b4) as H4. pose proof (bz_range b5) as H5.
  pose proof (bz_range b6) as H6. pose proof (bz_range b7) as H7.
  unfold be32, signed_byte, MPS.MAX_PAYLOAD_SIZE in *.
  destruct (Z.ltb_spec (bz b4) 128); lia.
Qed.

(** ** The EasyDrv parser as a function of the receive buffer *)

(** What [_tryParseResponse] returns and leaves in [recvBuffer], as a
    function of the buffer it finds. *)
Definition parse_buffer `{Zlib} (recv : list byte)
  : option EasyDrv.Response * list byte :=
  let buf := EasyDrv.skip_to_marker recv in
  match buf with
  | b0 :: b1 :: b2 :: b3 :: b4 :: _ =>
      let size := be16 b3 b4 in
      if bz b1 =? EasyDrv.AKN_ERR then
        if blen buf <? 5 + size then (None, buf)
        else (Some (EasyDrv.PacError
                      (if 0 <? size then default 0 (bz <$> buf !! 5%nat)
                       else 0)),
              drop (Z.to_nat (5 + size)) buf)
      else if size =? 0 then (Some (EasyDrv.Answer []), drop 5 buf)
      else if EasyDrv.MAX_BUFFER_SIZE <? size then (Some EasyDrv.TooLarge, [])
      else if blen buf <? 5 + size then (None, buf)
      else (Some (EasyDrv.Answer
                    (EasyDrv._tryDecompress (slice buf 5 (5 + size)))),
            drop (Z.to_nat (5 + size)) buf)
  | _ => (None, buf)
  end.

Lemma tryParseResponse_result `{Zlib} (st : EasyDrv.State) :
  (EasyDrv._tryParseResponse st).1 = (parse_buffer (EasyDrv.recvBuffer st)).1.
Proof.
  unfold EasyDrv._tryParseResponse, parse_buffer, be16,
    EasyDrv.RESP_HEADER_SIZE.
  cbn [EasyDrv.recvBuffer EasyDrv.set_recvBuffer].
  destruct (EasyDrv.skip_to_marker (EasyDrv.recvBuffer st))
    as [|b0 [|b1 [|b2 [|b3 [|b4 rest]]]]]; try reflexivity.
  repeat (case_match; try reflexivity).
Qed.

Lemma tryParseResponse_recvBuffer `{Zlib} (st : EasyDrv.State) :
  EasyDrv.recvBuffer (EasyDrv._tryParseResponse st).2
  = (parse_buffer (EasyDrv.recvBuffer st)).2.
Proof.
  unfold EasyDrv._tryParseResponse, parse_buffer, be16,
    EasyDrv.RESP_HEADER_SIZE.
  cbn [EasyDrv.recvBuffer EasyDrv.set_recvBuffer].
  destruct (EasyDrv.skip_to_marker (EasyDrv.recvBuffer st))
    as [|b0 [|b1 [|b2 [|b3 [|b4 rest]]]]]; try reflexivity.
  repeat (case_match; try reflexivity).
Qed.

(** ** Frames *)

Lemma bz_byte_of_Z (z : Z) : bz (byte_of_Z z) = z mod 256.
Proof.
  unfold bz, byte_of_Z.
  assert (Hl : Z.land z 255 = z mod 2 ^ 8)
    by (apply (Z.land_ones z 8); lia).
  change (2 ^ 8) with 256 in Hl. rewrite Hl.
  pose proof (Z.mod_pos_bound z 256 ltac:(lia)) as Hm.
  destruct (Byte.of_N (Z.to_N (z mod 256))) as [b|] eqn:E.
  - apply Byte.to_of_N in E. simpl. rewrite E. lia.
  - apply Byte.of_N_None_iff in E. lia.
Qed.

(** The four length bytes of a [frame] read back as the length. *)
Lemma be32_of_length (n : Z) :
  0 <= n < 2 ^ 32 ->
  be32 (byte_of_Z (Z.shiftr n 24)) (byte_of_Z (Z.shiftr n 16))
    (byte_of_Z (Z.shiftr n 8)) (byte_of_Z n) = n.
Proof.
  intros Hn. unfold be32. rewrite !bz_byte_of_Z, !Z.shiftr_div_pow2 by lia.
  change (2 ^ 24) with 16777216. change (2 ^ 16) with 65536.
  change (2 ^ 8) with 256. change (2 ^ 32) with 4294967296 in Hn.
  Z.div_mod_to_equations. lia.
Qed.

Lemma be16_of_length (n : Z) :
  0 <= n < 65536 ->
  be16 (byte_of_Z (Z.land (Z.shiftr n 8) 255)) (byte_of_Z (Z.land n 255)) = n.
Proof.
  intros Hn. unfold be16. rewrite !bz_byte_of_Z.
  assert (H1 : forall z, Z.land z 255 = z mod 256).
  { intros z. change 255 with (Z.ones 8). rewrite Z.land_ones by lia.
    reflexivity. }
  rewrite !H1, Z.shiftr_div_pow2 by lia. change (2 ^ 8) with 256.
  Z.div_mod_to_equations. lia.
Qed.

Lemma be16_range (hi lo : byte) : 0 <= be16 hi lo < 65536.
Proof.
  unfold be16. pose proof (bz_range hi). pose proof (bz_range lo). lia.
Qed.


Lemma blen_nonneg (a : list byte) : 0 <= blen a.
Proof. unfold blen. lia. Qed.

(** The MPS parser on a buffer that begins with a P001 header. *)
Lemma mps_parse_header (b4 b5 b6 b7 : byte) (rest : list byte) :
  MPS._tryParseFramedResponse (MPS.FRAME_PREFIX ++ [b4; b5; b6; b7] ++ rest)
  = let n := MPS.payload_length b4 b5 b6 b7 in
    if (n <? 0) || (MPS.MAX_PAYLOAD_SIZE <? n) then Some (MPS.FrameError n)
    else if blen rest <? n then None
    else Some (MPS.FrameData
                 (iconv_decode_win1251 (take (Z.to_nat n) rest))).
Proof.
  cbv zeta. unfold MPS._tryParseFramedResponse, MPS.FRAME_PREFIX.
  cbn [app]. change (bz x50 =? 80) with true.
  change (bz x30 =? 48) with true. change (bz x31 =? 49) with true.
  cbn [andb].
  set (n := MPS.payload_length b4 b5 b6 b7).
  destruct ((n <? 0) || (MPS.MAX_PAYLOAD_SIZE <? n)) eqn:Hbad;
    [reflexivity |].
  apply orb_false_iff in Hbad as [Hneg _]. apply Z.ltb_ge in Hneg.
  assert (Hlen : blen (x50 :: x30 :: x30 :: x31 :: b4 :: b5 :: b6 :: b7 :: rest)
                 = 8 + blen rest).
  { unfold blen. cbn [length]. lia. }
  rewrite Hlen.
  destruct (Z.ltb_spec (blen rest) n) as [Hshort | Hfull].
  - destruct (Z.ltb_spec (8 + blen rest) (8 + n)); [reflexivity | lia].
  - destruct (Z.ltb_spec (8 + blen rest) (8 + n)); [lia |].
    unfold slice. replace (8 + n - 8) with n by lia. reflexivity.
Qed.

Lemma mps_parse_short (buf : list byte) :
  (length buf < 8)%nat -> MPS._tryParseFramedResponse buf = None.
Proof.
  intros Hl. unfold MPS._tryParseFramedResponse.
  do 8 (destruct buf as [|? buf]; [reflexivity |]).
  cbn [length] in Hl. lia.
Qed.

(** A frame as the MPS server sends it. *)
Lemma mps_buildFrame_shape (payload : list byte) :
  MPS.frame payload
  = MPS.FRAME_PREFIX
      ++ [byte_of_Z (Z.shiftr (blen payload) 24);
          byte_of_Z (Z.shiftr (blen payload) 16);
          byte_of_Z (Z.shiftr (blen payload) 8);
          byte_of_Z (blen payload)]
      ++ payload.
Proof. reflexivity. Qed.

Lemma mps_frame_length (payload : list byte) :
  blen payload <= MPS.MAX_PAYLOAD_SIZE ->
  MPS.payload_length (byte_of_Z (Z.shiftr (blen payload) 24))
    (byte_of_Z (Z.shiftr (blen payload) 16))
    (byte_of_Z (Z.shiftr (blen payload) 8)) (byte_of_Z (blen payload))
  = blen payload.
Proof.
  intros Hmax. pose proof (blen_nonneg payload).
  unfold MPS.MAX_PAYLOAD_SIZE in Hmax.
  rewrite payload_length_be32, be32_of_length by lia.
  apply to_int32_small. lia.
Qed.

(** The complete frame decodes to its payload. *)
Lemma mps_parse_complete (payload : list byte) :
  blen payload <= MPS.MAX_PAYLOAD_SIZE ->
  MPS._tryParseFramedResponse (MPS.frame payload)
  = Some (MPS.FrameData (iconv_decode_win1251 payload)).
Proof.
  intros Hmax. rewrite mps_buildFrame_shape, mps_parse_header. cbv zeta.
  rewrite mps_frame_length by assumption.
  pose proof (blen_nonneg payload).
  destruct (Z.ltb_spec (blen payload) 0); [lia |].
  destruct (Z.ltb_spec MPS.MAX_PAYLOAD_SIZE (blen payload)); [lia |].
  cbn [orb]. rewrite Z.ltb_irrefl.
  unfold blen. rewrite Nat2Z.id, firstn_all. reflexivity.
Qed.

(** While the frame is incomplete the parser returns null. *)
Lemma mps_parse_incomplete (payload : list byte) (k : nat) :
  blen payload <= MPS.MAX_PAYLOAD_SIZE ->
  (k < length (MPS.frame payload))%nat ->
  MPS._tryParseFramedResponse (take k (MPS.frame payload)) = None.
Proof.
  intros Hmax Hk.
  destruct (Nat.lt_ge_cases k 8) as [Hlt | Hge].
  - apply mps_parse_short. rewrite length_take. lia.
  - rewrite mps_buildFrame_shape in *.
    rewrite app_assoc in *. rewrite length_app in Hk.
    change (length (MPS.FRAME_PREFIX ++ _)) with 8%nat in Hk.
    rewrite take_app_ge by (cbn [length app MPS.FRAME_PREFIX]; lia).
    change (length (MPS.FRAME_PREFIX ++ _)) with 8%nat.
    rewrite <- app_assoc, mps_parse_header. cbv zeta.
    rewrite mps_frame_length by assumption.
    pose proof (blen_nonneg payload).
    destruct (Z.ltb_spec (blen payload) 0); [lia |].
    destruct (Z.ltb_spec MPS.MAX_PAYLOAD_SIZE (blen payload)); [lia |].
    cbn [orb].
    destruct (Z.ltb_spec (blen (take (k - 8) payload)) (blen payload));
      [reflexivity |].
    unfold blen in *. rewrite length_take in *. lia.
Qed.

(** ** Delivery in chunks *)

(** A listener in general: [p] parses the buffer and says what it leaves
    in it; the chunks are appended one by one until [p] yields a result. *)
Fixpoint feed {R} (p : list byte -> option R * list byte) (buf : list byte)
    (incoming : list (list byte)) : option R * list byte :=
  match incoming with
  | [] => (None, buf)
  | chunk :: rest =>
      match p (buf ++ chunk) with
      | (Some r, remaining) => (Some r, remaining)
      | (None, remaining) => feed p remaining rest
      end
  end.

(** If the parser waits, consuming nothing, on every proper prefix of a
    frame and yields [r] on the whole frame, then every way of cutting the
    frame into chunks yields [r], once. *)
Lemma feed_complete {R} (p : list byte -> option R * list byte)
    (frame : list byte) (r : R) (remaining : list byte) :
  (forall k, (k < length frame)%nat -> p (take k frame) = (None, take k frame)) ->
  p frame = (Some r, remaining) ->
  forall incoming acc,
    acc ++ concat incoming = frame -> (length acc < length frame)%nat ->
    feed p acc incoming = (Some r, remaining).
Proof.
  intros Hwait Hdone incoming.
  induction incoming as [|chunk rest IH]; intros acc Hcat Hlen.
  - cbn [concat] in Hcat. rewrite app_nil_r in Hcat. subst acc. lia.
  - cbn [concat] in Hcat. rewrite app_assoc in Hcat. cbn [feed].
    destruct (Nat.lt_ge_cases (length (acc ++ chunk)) (length frame))
      as [Hlt | Hge].
    + assert (Hpre : acc ++ chunk = take (length (acc ++ chunk)) frame).
      { rewrite <- Hcat. rewrite take_app_length. reflexivity. }
      rewrite Hpre at 1. rewrite Hwait by exact Hlt.
      rewrite <- Hpre. apply IH; assumption.
    + assert (Hnil : concat rest = []).
      { apply (f_equal length) in Hcat. rewrite length_app in Hcat.
        apply length_zero_iff_nil. lia. }
      rewrite Hnil, app_nil_r in Hcat. rewrite Hcat, Hdone. reflexivity.
Qed.

Lemma concat_singletons (l : list byte) :
  concat ((fun b => [b]) <$> l) = l.
Proof. induction l as [|b l IH]; cbn; [reflexivity | now f_equal]. Qed.

(** The MPS listener keeps the buffer and parses it again. *)
Lemma mps_onData_feed (incoming : list (list byte)) (acc : list byte) :
  MPS.onData acc incoming
  = (feed (fun b => (MPS._tryParseFramedResponse b, b)) acc incoming).1.
Proof.
  revert acc. induction incoming as [|chunk rest IH]; intros acc;
    [reflexivity |].
  cbn [MPS.onData feed].
  destruct (MPS._tryParseFramedResponse (acc ++ chunk)); [reflexivity |].
  apply IH.
Qed.

(** The EasyDrv listener changes [recvBuffer] (and the trace) only. *)
Lemma easydrv_onData_feed `{Zlib} (incoming : list (list byte))
    (st : EasyDrv.State) :
  (EasyDrv.onData incoming st).1
    = (feed parse_buffer (EasyDrv.recvBuffer st) incoming).1
  /\ EasyDrv.recvBuffer (EasyDrv.onData incoming st).2
     = (feed parse_buffer (EasyDrv.recvBuffer st) incoming).2.
Proof.
  revert st. induction incoming as [|chunk rest IH]; intros st;
    [split; reflexivity |].
  cbn [EasyDrv.onData feed].
  set (st1 := EasyDrv.set_recvBuffer (EasyDrv.recvBuffer st ++ chunk) st).
  pose proof (tryParseResponse_result st1) as Hr.
  pose proof (tryParseResponse_recvBuffer st1) as Hb.
  change (EasyDrv.recvBuffer st1) with (EasyDrv.recvBuffer st ++ chunk) in *.
  destruct (EasyDrv._tryParseResponse st1) as [res st2].
  destruct (parse_buffer (EasyDrv.recvBuffer st ++ chunk)) as [res' remaining].
  cbn [fst snd] in *. subst res' remaining.
  destruct res as [r|]; [split; reflexivity |].
  apply IH.
Qed.

(** ** EasyDrv response frames *)

Lemma skip_marker_first (b : byte) (rest : list byte) :
  bz b = EasyDrv.FRAME_MARKER ->
  EasyDrv.skip_to_marker (b :: rest) = b :: rest.
Proof.
  intros Hb. cbn [EasyDrv.skip_to_marker]. rewrite Hb, Z.eqb_refl.
  reflexivity.
Qed.

(** Bytes other than the marker in front of a frame are skipped. *)
Lemma skip_garbage (garbage rest : list byte) :
  Forall (fun b => bz b <> EasyDrv.FRAME_MARKER) garbage ->
  EasyDrv.skip_to_marker (garbage ++ rest) = EasyDrv.skip_to_marker rest.
Proof.
  induction 1 as [|b garbage Hb _ IH]; [reflexivity |].
  cbn [app EasyDrv.skip_to_marker].
  destruct (Z.eqb_spec (bz b) EasyDrv.FRAME_MARKER); [contradiction | exact IH].
Qed.

Lemma marker_byte : bz (byte_of_Z EasyDrv.FRAME_MARKER) = EasyDrv.FRAME_MARKER.
Proof. reflexivity. Qed.

(** The complete frame yields its payload after the decompression probe
    and leaves the buffer empty. *)
Lemma parse_buffer_complete `{Zlib} (status pidx : byte)
    (payload : list byte) :
  bz status <> EasyDrv.AKN_ERR -> blen payload < 65536 ->
  parse_buffer (EasyDrv.response_frame status pidx payload)
  = (Some (EasyDrv.Answer (EasyDrv._tryDecompress payload)), []).
Proof.
  intros Hst Hlen. pose proof (blen_nonneg payload) as Hnn.
  unfold parse_buffer, EasyDrv.response_frame. cbv zeta. cbn [app].
  rewrite skip_marker_first by apply marker_byte.
  rewrite be16_of_length by lia.
  destruct (Z.eqb_spec (bz status) EasyDrv.AKN_ERR); [contradiction |].
  destruct (Z.eqb_spec (blen payload) 0) as [Hz | Hnz].
  - assert (payload = []) as -> by
        (apply length_zero_iff_nil; unfold blen in Hz; lia).
    reflexivity.
  - unfold EasyDrv.MAX_BUFFER_SIZE.
    destruct (Z.ltb_spec (500 * 1024) (blen payload)); [lia |].
    match goal with |- context [blen (?a :: ?b :: ?c :: ?d :: ?e :: payload)] =>
      replace (blen (a :: b :: c :: d :: e :: payload)) with (5 + blen payload)
        by (unfold blen; cbn [length]; lia) end.
    rewrite Z.ltb_irrefl. unfold slice.
    replace (Z.to_nat (5 + blen payload - 5)) with (length payload)
      by (unfold blen; lia).
    replace (Z.to_nat (5 + blen payload)) with (5 + length payload)%nat
      by (unfold blen; lia).
    cbn [Z.to_nat Pos.to_nat Pos.iter_op Nat.add drop].
    rewrite firstn_all, drop_all. reflexivity.
Qed.

(** While the frame is incomplete the parser returns null and leaves the
    buffer as it found it. *)
Lemma parse_buffer_incomplete `{Zlib} (status pidx : byte)
    (payload : list byte) (k : nat) :
  bz status <> EasyDrv.AKN_ERR -> blen payload < 65536 ->
  (k < length (EasyDrv.response_frame status pidx payload))%nat ->
  parse_buffer (take k (EasyDrv.response_frame status pidx payload))
  = (None, take k (EasyDrv.response_frame status pidx payload)).
Proof.
  intros Hst Hlen Hk. pose proof (blen_nonneg payload) as Hnn.
  unfold EasyDrv.response_frame in *. cbv zeta in *. cbn [app length] in *.
  unfold parse_buffer.
  destruct k as [|k]; [reflexivity |].
  cbn [take]. rewrite skip_marker_first by apply marker_byte.
  do 4 (destruct k as [|k]; [reflexivity |]).
  cbn [take]. rewrite be16_of_length by lia.
  destruct (Z.eqb_spec (bz status) EasyDrv.AKN_ERR); [contradiction |].
  destruct (Z.eqb_spec (blen payload) 0) as [Hz | Hnz];
    [unfold blen in Hz; lia |].
  unfold EasyDrv.MAX_BUFFER_SIZE.
  destruct (Z.ltb_spec (500 * 1024) (blen payload)); [lia |].
  match goal with |- context [blen (?a :: ?b :: ?c :: ?d :: ?e :: ?t) <? _] =>
    replace (blen (a :: b :: c :: d :: e :: t)) with (5 + blen t)
      by (unfold blen; cbn [length]; lia) end.
  destruct (Z.ltb_spec (5 + blen (take k payload)) (5 + blen payload));
    [reflexivity |].
  unfold blen in *. rewrite length_take in *. lia.
Qed.

Lemma skip_nil_app (b x : list byte) :
  EasyDrv.skip_to_marker b = [] ->
  EasyDrv.skip_to_marker (b ++ x) = EasyDrv.skip_to_marker x.
Proof.
  induction b as [|c b IH]; [reflexivity |].
  cbn [app EasyDrv.skip_to_marker].
  destruct (bz c =? EasyDrv.FRAME_MARKER); [discriminate | exact IH].
Qed.

Lemma skip_cons_app (b x : list byte) :
  EasyDrv.skip_to_marker b <> [] ->
  EasyDrv.skip_to_marker (b ++ x) = EasyDrv.skip_to_marker b ++ x.
Proof.
  induction b as [|c b IH]; [intros Hne; now contradiction Hne |].
  cbn [app EasyDrv.skip_to_marker].
  destruct (bz c =? EasyDrv.FRAME_MARKER); [reflexivity | exact IH].
Qed.

Lemma skip_idempotent (b : list byte) :
  EasyDrv.skip_to_marker (EasyDrv.skip_to_marker b) = EasyDrv.skip_to_marker b.
Proof.
  induction b as [|c b IH]; [reflexivity |].
  cbn [EasyDrv.skip_to_marker].
  destruct (bz c =? EasyDrv.FRAME_MARKER) eqn:E; [| exact IH].
  cbn [EasyDrv.skip_to_marker]. rewrite E. reflexivity.
Qed.

Lemma parse_buffer_skip `{Zlib} (b : list byte) :
  parse_buffer b = parse_buffer (EasyDrv.skip_to_marker b).
Proof. unfold parse_buffer. rewrite skip_idempotent. reflexivity. Qed.

Lemma response_frame_length (status pidx : byte) (payload : list byte) :
  length (EasyDrv.response_frame status pidx payload)
  = (5 + length payload)%nat.
Proof. reflexivity. Qed.

Lemma skip_response_frame (status pidx : byte) (payload : list byte) :
  EasyDrv.skip_to_marker (EasyDrv.response_frame status pidx payload)
  = EasyDrv.response_frame status pidx payload.
Proof. apply skip_marker_first, marker_byte. Qed.

(** Whatever precedes a frame in the stream, as long as skipping to the
    marker finds the frame, and however the stream is cut into chunks, the
    listener yields the frame's payload and leaves the buffer empty. *)
Lemma feed_frame `{Zlib} (status pidx : byte) (payload : list byte) :
  bz status <> EasyDrv.AKN_ERR -> blen payload < 65536 ->
  let frame := EasyDrv.response_frame status pidx payload in
  forall incoming acc,
    EasyDrv.skip_to_marker (acc ++ concat incoming) = frame ->
    (length (EasyDrv.skip_to_marker acc) < length frame)%nat ->
    feed parse_buffer acc incoming
    = (Some (EasyDrv.Answer (EasyDrv._tryDecompress payload)), []).
Proof.
  intros Hst Hlen frame incoming.
  induction incoming as [|chunk rest IH]; intros acc HT Hacc.
  - cbn [concat] in HT. rewrite app_nil_r in HT. rewrite HT in Hacc. lia.
  - cbn [concat] in HT. rewrite app_assoc in HT. cbn [feed].
    rewrite parse_buffer_skip.
    destruct (EasyDrv.skip_to_marker (acc ++ chunk)) as [|m tl] eqn:Hskip.
    + change (parse_buffer []) with (@None EasyDrv.Response, @nil byte).
      apply IH.
      * rewrite skip_nil_app in HT by exact Hskip. exact HT.
      * subst frame. rewrite response_frame_length. cbn. lia.
    + rewrite skip_cons_app in HT by (rewrite Hskip; discriminate).
      rewrite Hskip in HT.
      destruct (Nat.lt_ge_cases (length (m :: tl)) (length frame))
        as [Hlt | Hge].
      * assert (Hpre : m :: tl = take (length (m :: tl)) frame).
        { rewrite <- HT. rewrite take_app_length. reflexivity. }
        rewrite Hpre at 1.
        subst frame. rewrite parse_buffer_incomplete by assumption.
        rewrite <- Hpre. apply IH.
        -- rewrite HT. apply skip_response_frame.
        -- rewrite <- Hskip, skip_idempotent, Hskip. exact Hlt.
      * assert (Hnil : concat rest = []).
        { apply (f_equal length) in HT. rewrite length_app in HT.
          apply length_zero_iff_nil. lia. }
        rewrite Hnil, app_nil_r in HT. rewrite HT. subst frame.
        rewrite parse_buffer_complete by assumption. reflexivity.
Qed.

(* ===================================================================== *)
(** * C2: the declared length is validated before the payload is taken *)
(* ===================================================================== *)

Lemma parse_buffer_answer_bounded `{Zlib} (buf : list byte)
    (data : list byte) :
  (parse_buffer buf).1 = Some (EasyDrv.Answer data) ->
  exists payload,
    data = EasyDrv._tryDecompress payload
    /\ blen payload <= EasyDrv.MAX_BUFFER_SIZE.
Proof.
  unfold parse_buffer.
  destruct (EasyDrv.skip_to_marker buf)
    as [|b0 [|b1 [|b2 [|b3 [|b4 rest]]]]]; try discriminate.
  pose proof (be16_range b3 b4) as Hsz.
  repeat case_match; cbn [fst]; intros E; try discriminate;
    injection E as <-.
  - exists []. split; [reflexivity |]. unfold blen, EasyDrv.MAX_BUFFER_SIZE.
    cbn. lia.
  - eexists. split; [reflexivity |].
    unfold slice, blen, EasyDrv.MAX_BUFFER_SIZE. rewrite length_take. lia.
Qed.

Lemma parse_buffer_wait_bounded `{Zlib} (buf : list byte) :
  (parse_buffer buf).1 = None ->
  blen (parse_buffer buf).2
  < EasyDrv.RESP_HEADER_SIZE + EasyDrv.MAX_BUFFER_SIZE.
Proof.
  unfold parse_buffer, EasyDrv.RESP_HEADER_SIZE, EasyDrv.MAX_BUFFER_SIZE.
  destruct (EasyDrv.skip_to_marker buf)
    as [|b0 [|b1 [|b2 [|b3 [|b4 rest]]]]];
    try (intros _; unfold blen; cbn; lia).
  pose proof (be16_range b3 b4) as Hsz.
  repeat case_match; cbn [fst snd]; intros E; try discriminate; lia.
Qed.

Lemma parse_buffer_never_too_large `{Zlib} (buf : list byte) :
  (parse_buffer buf).1 <> Some EasyDrv.TooLarge.
Proof.
  unfold parse_buffer, EasyDrv.MAX_BUFFER_SIZE.
  destruct (EasyDrv.skip_to_marker buf)
    as [|b0 [|b1 [|b2 [|b3 [|b4 rest]]]]]; try discriminate.
  pose proof (be16_range b3 b4) as Hsz.
  repeat case_match; cbn [fst]; try discriminate; lia.
Qed.

(** C2.  In both frame parsers the declared payload length is validated
    against the hard maximum before any payload is sliced.
    MPSClient: a P001 header whose big-endian length field exceeds
    MAX_PAYLOAD_SIZE (10 MB) yields the error result whatever follows the
    header; the parser waits for more data only when the declared length is
    within the maximum, and a payload it slices is never longer than it.
    EasyDrvClient: a payload it slices is never longer than MAX_BUFFER_SIZE
    (500 KB), while it waits the buffer stays below header plus maximum,
    and -- the length field being 16 bits wide -- no header can declare more
    than the maximum, so the 'answer too large' result never arises. *)
Theorem declared_length_validated_first `{Zlib} :
  (forall b4 b5 b6 b7 rest,
      MPS.MAX_PAYLOAD_SIZE < be32 b4 b5 b6 b7 ->
      MPS._tryParseFramedResponse
        (MPS.FRAME_PREFIX ++ [b4; b5; b6; b7] ++ rest)
      = Some (MPS.FrameError (MPS.payload_length b4 b5 b6 b7)))
  /\ (forall b4 b5 b6 b7 rest,
      MPS._tryParseFramedResponse
        (MPS.FRAME_PREFIX ++ [b4; b5; b6; b7] ++ rest) = None ->
      be32 b4 b5 b6 b7 <= MPS.MAX_PAYLOAD_SIZE
      /\ blen rest < be32 b4 b5 b6 b7)
  /\ (forall b4 b5 b6 b7 rest payload,
      MPS._tryParseFramedResponse
        (MPS.FRAME_PREFIX ++ [b4; b5; b6; b7] ++ rest)
      = Some (MPS.FrameData (iconv_decode_win1251 payload)) ->
      blen payload = be32 b4 b5 b6 b7
      /\ blen payload <= MPS.MAX_PAYLOAD_SIZE)
  /\ (forall st data st',
      EasyDrv._tryParseResponse st = (Some (EasyDrv.Answer data), st') ->
      exists payload,
        data = EasyDrv._tryDecompress payload
        /\ blen payload <= EasyDrv.MAX_BUFFER_SIZE)
  /\ (forall st st',
      EasyDrv._tryParseResponse st = (None, st') ->
      blen (EasyDrv.recvBuffer st')
      < EasyDrv.RESP_HEADER_SIZE + EasyDrv.MAX_BUFFER_SIZE)
  /\ (forall hi lo, be16 hi lo <= EasyDrv.MAX_BUFFER_SIZE)
  /\ (forall st, (EasyDrv._tryParseResponse st).1 <> Some EasyDrv.TooLarge).
Proof.
  assert (Hcases : forall b4 b5 b6 b7,
    let n := MPS.payload_length b4 b5 b6 b7 in
    ((n <? 0) || (MPS.MAX_PAYLOAD_SIZE <? n) = true
     /\ MPS.MAX_PAYLOAD_SIZE < be32 b4 b5 b6 b7)
    \/ ((n <? 0) || (MPS.MAX_PAYLOAD_SIZE <? n) = false
        /\ n = be32 b4 b5 b6 b7 /\ 0 <= n <= MPS.MAX_PAYLOAD_SIZE)).
  { intros b4 b5 b6 b7 n. subst n. rewrite payload_length_signed.
    pose proof (bz_range b4). pose proof (bz_range b5).
    pose proof (bz_range b6). pose proof (bz_range b7).
    unfold be32, signed_byte, MPS.MAX_PAYLOAD_SIZE.
    destruct (Z.ltb_spec (bz b4) 128);
      match goal with |- context [(?a <? 0) || (?m <? ?a)] =>
        destruct (Z.ltb_spec a 0); destruct (Z.ltb_spec m a) end;
      cbn [orb].
    1-3, 5-7: (left; split; [reflexivity | lia]).
    all: (right; split; [reflexivity | lia]). }
  split; [| split; [| split; [| split; [| split; [| split]]]]].
  - intros b4 b5 b6 b7 rest Hbig. rewrite mps_parse_header. cbv zeta.
    destruct (Hcases b4 b5 b6 b7) as [[-> _] | [_ [E Hn]]];
      [reflexivity |]. lia.
  - intros b4 b5 b6 b7 rest H0.
    rewrite mps_parse_header in H0. cbv zeta in H0.
    destruct (Hcases b4 b5 b6 b7) as [[E _] | [E [En Hn]]];
      rewrite E in H0; [discriminate |].
    destruct (Z.ltb_spec (blen rest) (MPS.payload_length b4 b5 b6 b7));
      [lia | discriminate].
  - intros b4 b5 b6 b7 rest payload H0.
    rewrite mps_parse_header in H0. cbv zeta in H0.
    pose proof (Hcases b4 b5 b6 b7) as Hc. cbv zeta in Hc.
    set (n := MPS.payload_length b4 b5 b6 b7) in *. clearbody n.
    destruct Hc as [[E _] | [E [En Hn]]]; rewrite E in H0; [discriminate |].
    destruct (Z.ltb_spec (blen rest) n); [discriminate |].
    assert (Hp : payload = take (Z.to_nat n) rest) by congruence.
    subst payload. unfold blen in *. rewrite length_take. lia.
  - intros st data st' E.
    apply (parse_buffer_answer_bounded (EasyDrv.recvBuffer st)).
    rewrite <- tryParseResponse_result, E. reflexivity.
  - intros st st' E.
    pose proof (tryParseResponse_recvBuffer st) as Hb.
    pose proof (tryParseResponse_result st) as Hr.
    rewrite E in Hb, Hr. cbn [fst snd] in Hb, Hr. rewrite Hb.
    apply parse_buffer_wait_bounded. symmetry. exact Hr.
  - intros hi lo. pose proof (be16_range hi lo).
    unfold EasyDrv.MAX_BUFFER_SIZE. lia.
  - intros st. rewrite tryParseResponse_result.
    apply parse_buffer_never_too_large.
Qed.

Lemma declared_length_validated_first_witness :
  MPS.MAX_PAYLOAD_SIZE < be32 x00 xa0 x00 x01
  /\ MPS._tryParseFramedResponse
       (MPS.FRAME_PREFIX ++ [x00; xa0; x00; x01] ++ [x41; x42])
     = Some (MPS.FrameError (MPS.payload_length x00 xa0 x00 x01)).
Proof.
  split.
  - reflexivity.
  - apply (proj1 (@declared_length_validated_first zlib_plain)).
    reflexivity.
Defined.

(* ===================================================================== *)
(** * C4: reassembly of a frame delivered in pieces *)
(* ===================================================================== *)

Lemma mps_frame_nonempty (payload : list byte) :
  (8 <= length (MPS.frame payload))%nat.
Proof. rewrite mps_buildFrame_shape. cbn [length app MPS.FRAME_PREFIX]. lia. Qed.

Lemma mps_onData_any_chunking (payload : list byte)
    (incoming : list (list byte)) :
  blen payload <= MPS.MAX_PAYLOAD_SIZE ->
  concat incoming = MPS.frame payload ->
  MPS.onData [] incoming
  = Some (MPS.FrameData (iconv_decode_win1251 payload)).
Proof.
  intros Hmax Hcat. rewrite mps_onData_feed.
  rewrite (feed_complete (fun b => (MPS._tryParseFramedResponse b, b))
             (MPS.frame payload)
             (MPS.FrameData (iconv_decode_win1251 payload))
             (MPS.frame payload)); [reflexivity | | | exact Hcat |].
  - intros k Hk. rewrite mps_parse_incomplete by assumption. reflexivity.
  - rewrite mps_parse_complete by assumption. reflexivity.
  - pose proof (mps_frame_nonempty payload). cbn [length]. lia.
Qed.

Lemma easydrv_onData_any_stream `{Zlib} (garbage : list byte)
    (status pidx : byte) (payload : list byte) (st : EasyDrv.State)
    (incoming : list (list byte)) :
  Forall (fun b => bz b <> EasyDrv.FRAME_MARKER) garbage ->
  bz status <> EasyDrv.AKN_ERR -> blen payload < 65536 ->
  concat incoming = garbage ++ EasyDrv.response_frame status pidx payload ->
  (EasyDrv.onData incoming (EasyDrv.set_recvBuffer [] st)).1
    = Some (EasyDrv.Answer (EasyDrv._tryDecompress payload))
  /\ EasyDrv.recvBuffer
       (EasyDrv.onData incoming (EasyDrv.set_recvBuffer [] st)).2 = [].
Proof.
  intros Hg Hst Hlen Hcat.
  destruct (easydrv_onData_feed incoming (EasyDrv.set_recvBuffer [] st))
    as [-> ->].
  change (EasyDrv.recvBuffer (EasyDrv.set_recvBuffer [] st)) with (@nil byte).
  rewrite (feed_frame status pidx payload Hst Hlen incoming []).
  - split; reflexivity.
  - cbn [app]. rewrite Hcat, skip_garbage by exact Hg.
    apply skip_response_frame.
  - rewrite (response_frame_length status pidx payload). cbn. lia.
Qed.

(** C4.  A complete valid frame delivered in 1-byte chunks yields exactly
    the frame decoded from a single chunk, and so does every other way of
    cutting it into chunks; while fewer than header plus declared length
    bytes have arrived the parser returns null and consumes nothing.
    MPSClient: the frame is a frame of the protocol, P001 and the length
    before a payload of at most MAX_PAYLOAD_SIZE bytes.  EasyDrvClient: the frame is a response
    frame whose status is not AKN_ERR, received into an empty buffer; once
    it is yielded the buffer is empty again, so nothing is left to yield a
    second time. *)
Theorem frame_reassembly `{Zlib} :
  (forall payload,
      blen payload <= MPS.MAX_PAYLOAD_SIZE ->
      let frame := MPS.frame payload in
      let decoded := MPS.FrameData (iconv_decode_win1251 payload) in
      (forall k, (k < length frame)%nat ->
                 MPS._tryParseFramedResponse (take k frame) = None)
      /\ MPS.onData [] [frame] = Some decoded
      /\ MPS.onData [] ((fun b => [b]) <$> frame) = Some decoded
      /\ (forall incoming, concat incoming = frame ->
                           MPS.onData [] incoming = Some decoded))
  /\ (forall status pidx payload st,
      bz status <> EasyDrv.AKN_ERR -> blen payload < 65536 ->
      let frame := EasyDrv.response_frame status pidx payload in
      let decoded := EasyDrv.Answer (EasyDrv._tryDecompress payload) in
      let fresh := EasyDrv.set_recvBuffer [] st in
      (forall k, (k < length frame)%nat ->
         let r := EasyDrv._tryParseResponse
                    (EasyDrv.set_recvBuffer (take k frame) st) in
         r.1 = None /\ EasyDrv.recvBuffer r.2 = take k frame)
      /\ (forall incoming, concat incoming = frame ->
            let r := EasyDrv.onData incoming fresh in
            r.1 = Some decoded /\ EasyDrv.recvBuffer r.2 = [])
      /\ (EasyDrv.onData ((fun b => [b]) <$> frame) fresh).1 = Some decoded
      /\ (EasyDrv.onData [frame] fresh).1 = Some decoded).
Proof.
  split.
  - intros payload Hmax frame decoded. subst frame decoded.
    split; [| split; [| split]].
    + intros k Hk. apply mps_parse_incomplete; assumption.
    + apply mps_onData_any_chunking; [assumption |].
      cbn [concat]. apply app_nil_r.
    + apply mps_onData_any_chunking; [assumption |].
      apply concat_singletons.
    + intros incoming Hcat. apply mps_onData_any_chunking; assumption.
  - intros status pidx payload st Hst Hlen frame decoded fresh.
    subst frame decoded fresh.
    split; [| split; [| split]].
    + intros k Hk. cbv zeta.
      rewrite tryParseResponse_result, tryParseResponse_recvBuffer.
      change (EasyDrv.recvBuffer (EasyDrv.set_recvBuffer ?b st)) with b.
      rewrite parse_buffer_incomplete by assumption. split; reflexivity.
    + intros incoming Hcat. cbv zeta.
      apply (easydrv_onData_any_stream [] status pidx); auto.
    + apply (easydrv_onData_any_stream [] status pidx); auto.
      apply concat_singletons.
    + apply (easydrv_onData_any_stream [] status pidx); auto.
      cbn [concat app]. apply app_nil_r.
Qed.

Lemma frame_reassembly_witness :
  (blen [x41; x42] <= MPS.MAX_PAYLOAD_SIZE
   /\ MPS.onData [] ((fun b => [b]) <$> MPS.frame [x41; x42])
      = Some (MPS.FrameData (iconv_decode_win1251 [x41; x42])))
  /\ (bz x0c <> EasyDrv.AKN_ERR
      /\ blen [x41; x42] < 65536
      /\ (@EasyDrv.onData zlib_plain
            ((fun b => [b]) <$> EasyDrv.response_frame x0c x01 [x41; x42])
            (EasyDrv.set_recvBuffer [] (EasyDrv.initial [] ""))).1
         = Some (EasyDrv.Answer [x41; x42])).
Proof.
  assert (H1 : blen [x41; x42] <= MPS.MAX_PAYLOAD_SIZE) by (cbv; discriminate).
  assert (H2 : bz x0c <> EasyDrv.AKN_ERR) by (cbv; discriminate).
  assert (H3 : blen [x41; x42] < 65536) by reflexivity.
  split.
  - split; [exact H1 |].
    exact (proj1 (proj2 (proj2
             (proj1 (@frame_reassembly zlib_plain) [x41; x42] H1)))).
  - split; [exact H2 | split; [exact H3 |]].
    exact (proj1 (proj2 (proj2
             (proj2 (@frame_reassembly zlib_plain) x0c x01 [x41; x42]
                (EasyDrv.initial [] "") H2 H3)))).
Defined.

(* ===================================================================== *)
(** * C3: bytes in front of a frame *)
(* ===================================================================== *)

Lemma bz_inj (a b : byte) : bz a = bz b -> a = b.
Proof.
  unfold bz. intros E. apply N2Z.inj in E.
  pose proof (Byte.of_to_N a) as Ha. rewrite E, Byte.of_to_N in Ha.
  congruence.
Qed.

(** The MPS parser looks for the marker at offset 0 only: a buffer of eight
    bytes or more that does not begin with P001 is returned whole. *)
Lemma mps_legacy_mode (buf : list byte) :
  (8 <= length buf)%nat -> take 4 buf <> MPS.FRAME_PREFIX ->
  MPS._tryParseFramedResponse buf
  = Some (MPS.FrameData (iconv_decode_win1251 buf)).
Proof.
  intros Hlen Hpre. unfold MPS._tryParseFramedResponse.
  do 8 (destruct buf as [|? buf]; [cbn [length] in Hlen; lia |]).
  destruct ((bz b =? 80) && (bz b0 =? 48) && (bz b1 =? 48) && (bz b2 =? 49))
    eqn:E; [| reflexivity].
  exfalso. apply Hpre.
  apply andb_true_iff in E as [E E3]. apply andb_true_iff in E as [E E2].
  apply andb_true_iff in E as [E0 E1].
  apply Z.eqb_eq in E0, E1, E2, E3.
  cbn [take]. unfold MPS.FRAME_PREFIX.
  rewrite (bz_inj b x50 E0), (bz_inj b0 x30 E1), (bz_inj b1 x30 E2),
    (bz_inj b2 x31 E3). reflexivity.
Qed.

(** C3, as stated, fails.  MPSClient does not search for the marker: one
    stray byte in front of a valid frame makes the read path return the
    stray byte, the header and the payload together as the response, not the
    payload.  EasyDrvClient searches for the one-byte marker 0x73, so a stray
    byte that happens to be 0x73 is taken for the start of a frame: here the
    parser then waits for 256 bytes of payload and yields nothing. *)
Lemma garbage_before_frame_counterexample :
  MPS.onData [] [[x00] ++ MPS.frame [x41]]
  = Some (MPS.FrameData
            (iconv_decode_win1251 ([x00] ++ MPS.frame [x41])))
  /\ MPS.onData [] [MPS.frame [x41]]
     = Some (MPS.FrameData (iconv_decode_win1251 [x41]))
  /\ (@EasyDrv.onData zlib_plain
        [[x73] ++ EasyDrv.response_frame x0c x01 [x41]]
        (EasyDrv.set_recvBuffer [] (EasyDrv.initial [] ""))).1 = None
  /\ (@EasyDrv.onData zlib_plain
        [EasyDrv.response_frame x0c x01 [x41]]
        (EasyDrv.set_recvBuffer [] (EasyDrv.initial [] ""))).1
     = Some (EasyDrv.Answer [x41]).
Proof.
  split; [| split; [| split]]; vm_compute; reflexivity.
Qed.

Lemma akn_err_byte : bz (byte_of_Z EasyDrv.AKN_ERR) = EasyDrv.AKN_ERR.
Proof. reflexivity. Qed.

Lemma drop_app_exact {A} (a b : list A) (n : nat) :
  n = length a -> drop n (a ++ b) = b.
Proof. intros ->. apply drop_app_length. Qed.

(** The parser on a buffer that starts with an error acknowledgement. *)
Lemma easydrv_error_frame_parse `{Zlib} (pidx : byte)
    (payload rest : list byte) (st : EasyDrv.State) :
  blen payload < 65536 ->
  EasyDrv.recvBuffer st
  = EasyDrv.response_frame (byte_of_Z EasyDrv.AKN_ERR) pidx payload ++ rest ->
  EasyDrv._tryParseResponse st
  = (Some (EasyDrv.PacError
             match payload with [] => 0 | c :: _ => bz c end),
     EasyDrv.set_recvBuffer rest st).
Proof.
  intros Hlen Hrecv. pose proof (blen_nonneg payload) as Hp.
  pose proof (blen_nonneg rest) as Hr.
  unfold EasyDrv.response_frame in Hrecv. cbv zeta in Hrecv.
  set (hi := byte_of_Z (Z.land (Z.shiftr (blen payload) 8) 255)) in *.
  set (lo := byte_of_Z (Z.land (blen payload) 255)) in *.
  assert (Hsize : bz hi * 256 + bz lo = blen payload).
  { subst hi lo. apply (be16_of_length (blen payload)). lia. }
  unfold EasyDrv._tryParseResponse. rewrite Hrecv. cbn [app].
  rewrite skip_marker_first by apply marker_byte.
  cbv zeta. cbn [EasyDrv.recvBuffer EasyDrv.set_recvBuffer].
  rewrite akn_err_byte, Z.eqb_refl. rewrite Hsize.
  set (buf := byte_of_Z EasyDrv.FRAME_MARKER :: _).
  assert (Hbuf : blen buf = 5 + blen payload + blen rest).
  { subst buf. unfold blen. cbn [length]. rewrite length_app. lia. }
  replace (blen buf <? EasyDrv.RESP_HEADER_SIZE + blen payload) with false
    by (symmetry; apply Z.ltb_ge; unfold EasyDrv.RESP_HEADER_SIZE; lia).
  assert (Hdrop : drop (Z.to_nat (EasyDrv.RESP_HEADER_SIZE + blen payload)) buf
                  = rest).
  { subst buf. unfold EasyDrv.RESP_HEADER_SIZE, blen.
    replace (Z.to_nat (5 + Z.of_nat (length payload)))
      with (5 + length payload)%nat by lia.
    cbn [Nat.add drop]. apply drop_app_exact. reflexivity. }
  rewrite Hdrop.
  assert (Hcode : (if 0 <? blen payload
                   then default 0 (bz <$> buf !! 5%nat) else 0)
                  = match payload with [] => 0 | c :: _ => bz c end).
  { subst buf. destruct payload as [|c payload']; [reflexivity |].
    replace (0 <? blen (c :: payload')) with true; [reflexivity |].
    symmetry. apply Z.ltb_lt. unfold blen. cbn [length]. lia. }
  rewrite Hcode. reflexivity.
Qed.

(** The same with bytes other than the marker in front of the
    acknowledgement. *)
Lemma easydrv_error_frame_after_garbage `{Zlib} (garbage : list byte)
    (pidx : byte) (payload rest : list byte) (st : EasyDrv.State) :
  Forall (fun b => bz b <> EasyDrv.FRAME_MARKER) garbage ->
  blen payload < 65536 ->
  EasyDrv._tryParseResponse
    (EasyDrv.set_recvBuffer
       (garbage
          ++ EasyDrv.response_frame (byte_of_Z EasyDrv.AKN_ERR) pidx payload
          ++ rest) st)
  = (Some (EasyDrv.PacError
             match payload with [] => 0 | c :: _ => bz c end),
     EasyDrv.set_recvBuffer rest st).
Proof.
  intros Hg Hlen.
  transitivity
    (EasyDrv._tryParseResponse
       (EasyDrv.set_recvBuffer
          (EasyDrv.response_frame (byte_of_Z EasyDrv.AKN_ERR) pidx payload
             ++ rest) st)).
  - unfold EasyDrv._tryParseResponse.
    cbn [EasyDrv.recvBuffer EasyDrv.set_recvBuffer].
    rewrite (skip_garbage garbage _ Hg). reflexivity.
  - rewrite (easydrv_error_frame_parse pidx payload rest
               (EasyDrv.set_recvBuffer
                  (EasyDrv.response_frame (byte_of_Z EasyDrv.AKN_ERR) pidx
                     payload ++ rest) st) Hlen eq_refl).
    reflexivity.
Qed.

(** C3, amended.  EasyDrvClient: for every stream made of bytes none of
    which is the marker 0x73, followed by a complete response frame with a
    payload below 65536 bytes.  When the status of the frame is not
    AKN_ERR and the stream is received into an empty buffer, in any
    chunking, the
    read path discards the bytes before the marker and yields exactly the
    frame's payload after the decompression probe, leaving the buffer
    empty.  When the status is AKN_ERR the parser discards the bytes
    before the marker and yields the PAC error, its code the first byte of
    the payload (0 for an empty one), leaving the buffer empty.
    MPSClient does no marker search: a buffer shorter than eight bytes
    yields nothing, and a buffer of at least eight
    bytes that does not begin with P001 -- bytes in front of a complete
    frame among them -- is returned whole as a legacy
    response. *)
Theorem garbage_before_frame `{Zlib} :
  (forall garbage status pidx payload st incoming,
      Forall (fun b => bz b <> EasyDrv.FRAME_MARKER) garbage ->
      bz status <> EasyDrv.AKN_ERR -> blen payload < 65536 ->
      concat incoming
      = garbage ++ EasyDrv.response_frame status pidx payload ->
      let r := EasyDrv.onData incoming (EasyDrv.set_recvBuffer [] st) in
      r.1 = Some (EasyDrv.Answer (EasyDrv._tryDecompress payload))
      /\ EasyDrv.recvBuffer r.2 = [])
  /\ (forall garbage pidx payload st,
      Forall (fun b => bz b <> EasyDrv.FRAME_MARKER) garbage ->
      blen payload < 65536 ->
      let r := EasyDrv._tryParseResponse
                 (EasyDrv.set_recvBuffer
                    (garbage
                       ++ EasyDrv.response_frame (byte_of_Z EasyDrv.AKN_ERR)
                            pidx payload) st) in
      r.1 = Some (EasyDrv.PacError
                    match payload with [] => 0 | c :: _ => bz c end)
      /\ EasyDrv.recvBuffer r.2 = [])
  /\ (forall buf,
      (8 <= length buf)%nat -> take 4 buf <> MPS.FRAME_PREFIX ->
      MPS._tryParseFramedResponse buf
      = Some (MPS.FrameData (iconv_decode_win1251 buf)))
  /\ (forall buf,
      (length buf < 8)%nat -> MPS._tryParseFramedResponse buf = None)
  /\ (forall garbage payload,
      take 4 (garbage ++ MPS.frame payload) <> MPS.FRAME_PREFIX ->
      MPS._tryParseFramedResponse (garbage ++ MPS.frame payload)
      = Some (MPS.FrameData
                (iconv_decode_win1251 (garbage ++ MPS.frame payload)))).
Proof.
  split; [| split; [| split; [| split]]].
  - intros garbage status pidx payload st incoming Hg Hst Hlen Hcat.
    cbv zeta. apply (easydrv_onData_any_stream garbage status pidx);
      assumption.
  - intros garbage pidx payload st Hg Hlen. cbv zeta.
    pose proof (easydrv_error_frame_after_garbage garbage pidx payload []
                  st Hg Hlen) as Hp.
    rewrite app_nil_r in Hp. rewrite Hp. split; reflexivity.
  - apply mps_legacy_mode.
  - intros buf Hlen.
    destruct buf as [|b0 [|b1 [|b2 [|b3 [|b4 [|b5 [|b6 [|b7 rest]]]]]]]];
      try reflexivity.
    cbn [length] in Hlen. lia.
  - intros garbage payload Hp. apply mps_legacy_mode; [| exact Hp].
    rewrite length_app. unfold MPS.frame. cbv zeta. cbn [length app]. lia.
Qed.

Lemma garbage_before_frame_witness :
  (@EasyDrv.onData zlib_plain
     [pac_accept; EasyDrv.response_frame x0c x01 [x41]]
     (EasyDrv.set_recvBuffer [] (EasyDrv.initial [] ""))).1
  = Some (EasyDrv.Answer [x41])
  /\ MPS._tryParseFramedResponse (pac_accept ++ MPS.frame [x41])
     = Some (MPS.FrameData
               (iconv_decode_win1251 (pac_accept ++ MPS.frame [x41]))).
Proof.
  split.
  - refine (proj1 (proj1 (@garbage_before_frame zlib_plain)
                     pac_accept x0c x01 [x41] (EasyDrv.initial [] "")
                     [pac_accept; EasyDrv.response_frame x0c x01 [x41]]
                     _ _ _ _)).
    + repeat constructor; cbv; discriminate.
    + cbv; discriminate.
    + reflexivity.
    + reflexivity.
  - apply (proj1 (proj2 (proj2 (@garbage_before_frame zlib_plain)))).
    + cbn. lia.
    + cbv. discriminate.
Defined.

(* ===================================================================== *)
(** * C9: the packet index *)
(* ===================================================================== *)

Lemma land_255 (z : Z) : Z.land z 255 = z mod 256.
Proof.
  change 255 with (Z.ones 8). rewrite Z.land_ones by lia. reflexivity.
Qed.

(** New events, all of them warnings, in front of an older trace. *)
Definition only_warnings (new old : list Event) : Prop :=
  exists logs,
    new = logs ++ old /\ Forall (fun e => exists m, e = Log LWarn m) logs.

Lemma only_warnings_refl (t : list Event) : only_warnings t t.
Proof. exists []. split; [reflexivity | constructor]. Qed.

Lemma only_warnings_cons (m : LogMsg) (new old : list Event) :
  only_warnings new old -> only_warnings (Log LWarn m :: new) old.
Proof.
  intros [logs [-> Hl]]. exists (Log LWarn m :: logs).
  split; [reflexivity |]. constructor; [eauto | exact Hl].
Qed.

Lemma only_warnings_trans (a b c : list Event) :
  only_warnings a b -> only_warnings b c -> only_warnings a c.
Proof.
  intros [l1 [-> H1]] [l2 [-> H2]]. exists (l1 ++ l2).
  split; [apply app_assoc |]. apply Forall_app. split; assumption.
Qed.

(** Parsing touches [recvBuffer] and the trace, where it only warns. *)
Lemma tryParseResponse_frame `{Zlib} (st : EasyDrv.State) :
  let st' := (EasyDrv._tryParseResponse st).2 in
  EasyDrv.packetIndex st' = EasyDrv.packetIndex st
  /\ EasyDrv.socket st' = EasyDrv.socket st
  /\ only_warnings (EasyDrv.trace st') (EasyDrv.trace st).
Proof.
  cbv zeta. unfold EasyDrv._tryParseResponse.
  destruct (EasyDrv.skip_to_marker (EasyDrv.recvBuffer st))
    as [|b0 [|b1 [|b2 [|b3 [|b4 rest]]]]];
    try (cbn; split; [reflexivity | split; [reflexivity |
                                            apply only_warnings_refl]]).
  cbn [EasyDrv.packetIndex EasyDrv.set_recvBuffer].
  repeat case_match; cbn;
    (split; [reflexivity | split; [reflexivity |]]);
    repeat apply only_warnings_cons; apply only_warnings_refl.
Qed.

Lemma onData_frame `{Zlib} (incoming : list (list byte))
    (st : EasyDrv.State) :
  let st' := (EasyDrv.onData incoming st).2 in
  EasyDrv.packetIndex st' = EasyDrv.packetIndex st
  /\ EasyDrv.socket st' = EasyDrv.socket st
  /\ only_warnings (EasyDrv.trace st') (EasyDrv.trace st).
Proof.
  cbv zeta. revert st.
  induction incoming as [|chunk rest IH]; intros st.
  - cbn. split; [reflexivity | split; [reflexivity |
                                       apply only_warnings_refl]].
  - cbn [EasyDrv.onData].
    set (st1 := EasyDrv.set_recvBuffer (EasyDrv.recvBuffer st ++ chunk) st).
    pose proof (tryParseResponse_frame st1) as [Hp [Hs Ht]].
    change (EasyDrv.packetIndex st1) with (EasyDrv.packetIndex st) in Hp.
    change (EasyDrv.socket st1) with (EasyDrv.socket st) in Hs.
    change (EasyDrv.trace st1) with (EasyDrv.trace st) in Ht.
    destruct (EasyDrv._tryParseResponse st1) as [[r|] st2]; cbn [snd] in *.
    + split; [exact Hp | split; [exact Hs | exact Ht]].
    + destruct (IH st2) as [Hp2 [Hs2 Ht2]].
      split; [congruence | split; [congruence |]].
      eapply only_warnings_trans; eassumption.
Qed.

(** A frame whose echoed index differs from [packetIndex]: the parser
    yields its payload all the same, and logs one warning. *)
Lemma mismatch_is_a_warning `{Zlib} (status pidx : byte)
    (payload : list byte) (st : EasyDrv.State) :
  bz status <> EasyDrv.AKN_ERR -> blen payload < 65536 ->
  bz pidx <> EasyDrv.packetIndex st ->
  let r := EasyDrv._tryParseResponse
             (EasyDrv.set_recvBuffer
                (EasyDrv.response_frame status pidx payload) st) in
  r.1 = Some (EasyDrv.Answer (EasyDrv._tryDecompress payload))
  /\ EasyDrv.trace r.2
     = Log LWarn (MsgIndexMismatch (bz pidx) (EasyDrv.packetIndex st))
         :: EasyDrv.trace st.
Proof.
  intros Hst Hlen Hidx. cbv zeta. split.
  - rewrite tryParseResponse_result.
    change (EasyDrv.recvBuffer (EasyDrv.set_recvBuffer ?b st)) with b.
    rewrite parse_buffer_complete by assumption. reflexivity.
  - pose proof (blen_nonneg payload) as Hnn.
    unfold EasyDrv._tryParseResponse.
    cbn [EasyDrv.recvBuffer EasyDrv.set_recvBuffer].
    rewrite skip_response_frame. unfold EasyDrv.response_frame.
    cbv zeta. cbn [app].
    fold (be16 (byte_of_Z (Z.land (Z.shiftr (blen payload) 8) 255))
            (byte_of_Z (Z.land (blen payload) 255))).
    rewrite be16_of_length by lia.
    destruct (Z.eqb_spec (bz status) EasyDrv.AKN_ERR); [contradiction |].
    cbn [EasyDrv.packetIndex EasyDrv.set_recvBuffer].
    destruct (Z.eqb_spec (bz pidx) (EasyDrv.packetIndex st));
      [contradiction |].
    cbn [negb].
    destruct (Z.eqb_spec (blen payload) 0); [reflexivity |].
    unfold EasyDrv.MAX_BUFFER_SIZE.
    destruct (Z.ltb_spec (500 * 1024) (blen payload)); [lia |].
    case_match; reflexivity.
Qed.

(** C9.  On a usable socket every [_sendFrame] call increments the packet
    index modulo 256 (255 wraps to 0) and places the new index in byte 3 of
    the frame it writes; the socket write is the only thing added to the
    trace besides warnings.  What the parser returns and what it leaves in
    the buffer do not depend on the expected index; a response whose echoed
    index differs from it is parsed and resolves the request like any
    other, the mismatch being logged as one warning. *)
Theorem packet_index_wraps_and_mismatch_is_tolerated `{Zlib} :
  (forall cmdData inc st sk,
      EasyDrv.socket st = Some sk -> destroyed sk = false ->
      throws_write sk = false ->
      let st' := (EasyDrv._sendFrame cmdData inc st).2 in
      let next := (EasyDrv.packetIndex st + 1) mod 256 in
      EasyDrv.packetIndex st' = next
      /\ only_warnings (EasyDrv.trace st')
           (SockWrite (EasyDrv.request_frame next cmdData)
              :: EasyDrv.trace st)
      /\ bz <$> EasyDrv.request_frame next cmdData !! 3%nat = Some next
      /\ (EasyDrv.packetIndex st = 255 -> EasyDrv.packetIndex st' = 0))
  /\ (forall st expected,
      (EasyDrv._tryParseResponse (EasyDrv.set_packetIndex expected st)).1
      = (EasyDrv._tryParseResponse st).1
      /\ EasyDrv.recvBuffer
           (EasyDrv._tryParseResponse
              (EasyDrv.set_packetIndex expected st)).2
         = EasyDrv.recvBuffer (EasyDrv._tryParseResponse st).2)
  /\ (forall status pidx payload st,
      bz status <> EasyDrv.AKN_ERR -> blen payload < 65536 ->
      bz pidx <> EasyDrv.packetIndex st ->
      let r := EasyDrv._tryParseResponse
                 (EasyDrv.set_recvBuffer
                    (EasyDrv.response_frame status pidx payload) st) in
      r.1 = Some (EasyDrv.Answer (EasyDrv._tryDecompress payload))
      /\ EasyDrv.trace r.2
         = Log LWarn (MsgIndexMismatch (bz pidx) (EasyDrv.packetIndex st))
             :: EasyDrv.trace st)
  /\ (forall status pidx payload cmdData incoming how st sk,
      EasyDrv.socket st = Some sk -> destroyed sk = false ->
      throws_write sk = false ->
      bz status <> EasyDrv.AKN_ERR -> blen payload < 65536 ->
      concat incoming = EasyDrv.response_frame status pidx payload ->
      (EasyDrv._sendFrame cmdData {| chunks := incoming; ending := how |}
         (EasyDrv.set_recvBuffer [] st)).1
      = inl (EasyDrv.Answer (EasyDrv._tryDecompress payload))).
Proof.
  split; [| split; [| split]].
  - intros cmdData inc st sk Hsk Hd Hw. cbv zeta.
    unfold EasyDrv._sendFrame. rewrite Hsk, Hd.
    cbn [EasyDrv.packetIndex EasyDrv.set_packetIndex]. rewrite Hw.
    rewrite land_255.
    set (st1 := EasyDrv.set_packetIndex _ st).
    set (st2 := EasyDrv.record _ st1).
    pose proof (onData_frame (chunks inc) st2) as [Hp [_ Ht]].
    destruct (EasyDrv.onData (chunks inc) st2) as [[r|] st3];
      cbn [snd] in *.
    all: split; [exact Hp | split; [exact Ht | split]].
    all: try (unfold EasyDrv.request_frame; cbn [app lookup list_lookup fmap
                option_fmap option_map];
              rewrite bz_byte_of_Z; f_equal; apply Z.mod_small;
              apply Z.mod_pos_bound; lia).
    all: intros E; rewrite Hp; subst st2 st1; cbn; rewrite E; reflexivity.
  - intros st expected.
    rewrite !tryParseResponse_result, !tryParseResponse_recvBuffer.
    split; reflexivity.
  - intros status pidx payload st. apply mismatch_is_a_warning.
  - intros status pidx payload cmdData incoming how st sk Hsk Hd Hw Hst
      Hlen Hcat.
    unfold EasyDrv._sendFrame.
    change (EasyDrv.socket (EasyDrv.set_recvBuffer [] st))
      with (EasyDrv.socket st).
    rewrite Hsk, Hd, Hw. cbn [chunks].
    match goal with |- context [EasyDrv.onData incoming ?s] =>
      change s with (EasyDrv.set_recvBuffer [] s);
      pose proof (easydrv_onData_any_stream [] status pidx payload s
                    incoming (List.Forall_nil _) Hst Hlen Hcat) as [Hr _];
      destruct (EasyDrv.onData incoming (EasyDrv.set_recvBuffer [] s))
        as [res s'] end.
    cbn [fst] in Hr. subst res. reflexivity.
Qed.

Lemma packet_index_wraps_and_mismatch_is_tolerated_witness :
  let st := EasyDrv.set_packetIndex 255
              (EasyDrv.set_socket
                 (Some {| destroyed := false; throws_write := false;
                          throws_removeAllListeners := false;
                          throws_destroy := false |})
                 (EasyDrv.initial [] "")) in
  EasyDrv.packetIndex
    (@EasyDrv._sendFrame zlib_plain [x65]
       {| chunks := [EasyDrv.response_frame x0c x07 [x41]];
          ending := TimesOut |} st).2 = 0
  /\ (@EasyDrv._sendFrame zlib_plain [x65]
        {| chunks := [EasyDrv.response_frame x0c x07 [x41]];
           ending := TimesOut |} (EasyDrv.set_recvBuffer [] st)).1
     = inl (EasyDrv.Answer [x41]).
Proof.
  cbv zeta. split.
  - refine (proj2 (proj2 (proj2
              (proj1 (@packet_index_wraps_and_mismatch_is_tolerated
                        zlib_plain) _ _ _ _ _ _ _))) _);
      reflexivity.
  - refine (proj2 (proj2 (proj2
              (@packet_index_wraps_and_mismatch_is_tolerated zlib_plain)))
              x0c x07 [x41] [x65] _ TimesOut _ _ _ _ _ _ _ _);
      try reflexivity; cbv; discriminate.
Defined.

(* ===================================================================== *)
(** * C7: reading the Lua state back *)
(* ===================================================================== *)

(** ** The content of a Lua value *)

(** The tree a Lua value converts to when nothing bounds the conversion:
    every table is an object of its readable pairs, whatever its depth.  A
    table that contains itself has no such tree, and neither has a value
    that holds a string [to_jsstring] cannot decode. *)
Inductive content `{Runtime} (heap : LuaHeap) : LuaVal -> JsVal -> Prop :=
| content_nil : content heap LNil JNull
| content_boolean b : content heap (LBoolean b) (JBool b)
| content_number n : content heap (LNumber n) (JNumber n)
| content_float text : content heap (LFloat text) (JDouble text)
| content_string s : content heap (LString s) (JString s)
| content_other : content heap LOther JUndefined
| content_table ref result :
    pairs_content heap (default [] (lua_tables heap !! ref)) (JObject [])
      result ->
    content heap (LTable ref) result
with pairs_content `{Runtime} (heap : LuaHeap)
  : list (LuaVal * LuaVal) -> JsVal -> JsVal -> Prop :=
| pairs_done result : pairs_content heap [] result result
| pairs_skip k v rest result final :
    table_key k = KeySkipped ->
    pairs_content heap rest result final ->
    pairs_content heap ((k, v) :: rest) result final
| pairs_store k v key value rest result final :
    table_key k = KeyName key ->
    content heap v value ->
    pairs_content heap rest
      (if is_undefined value then result else setProp key value result)
      final ->
    pairs_content heap ((k, v) :: rest) result final.

(** ** The stack of the host's frame *)

(** The values on the stack fit the frame. *)
Definition stack_within (L : LuaState) : Prop :=
  (length (lua_stack L) <= lua_ci_top L)%nat.

(** The frame has at most LUA_MINSTACK slots left: fengari gives it that
    many, and what [execute] leaves on the stack uses them up. *)
Definition stack_bounded (L : LuaState) : Prop :=
  (lua_ci_top L <= length (lua_stack L) + LUA_MINSTACK)%nat.

Definition engine_bounded (e : LuaEngine) : Prop :=
  match engine_L e with
  | Some L => stack_bounded L
  | None => True
  end.

(** No slot is left: the engine can push nothing more. *)
Definition stack_full (e : LuaEngine) : Prop :=
  match engine_L e with
  | Some L => (lua_ci_top L <= length (lua_stack L))%nat
  | None => True
  end.

(** The reader at [depth] stands on a stack that holds the global and a
    key and a value for each level above it. *)
Definition depth_fits (depth : nat) (L : LuaState) : Prop :=
  (lua_ci_top L + 2 * depth + 1 <= length (lua_stack L) + LUA_MINSTACK)%nat.

Lemma set_stack_same (L : LuaState) : set_stack (lua_stack L) L = L.
Proof. destruct L; reflexivity. Qed.

Lemma lua_pop_push (v : LuaVal) (L : LuaState) :
  lua_pop (set_stack (v :: lua_stack L) L) = L.
Proof. destruct L; reflexivity. Qed.

Lemma api_incr_top_returns (v : LuaVal) (L L1 : LuaState) :
  api_incr_top v L = Returns tt L1 ->
  L1 = set_stack (v :: lua_stack L) L /\ stack_within L1.
Proof.
  unfold api_incr_top, stack_within.
  destruct (length (lua_stack (set_stack (v :: lua_stack L) L))
            <=? lua_ci_top (set_stack (v :: lua_stack L) L))%nat eqn:E;
    [| discriminate].
  intros [= <-]. split; [reflexivity |]. apply Nat.leb_le. exact E.
Qed.

Lemma api_incr_top_raises (v : LuaVal) (L L1 : LuaState) :
  api_incr_top v L = Raises L1 ->
  L1 = set_stack (v :: lua_stack L) L
  /\ (lua_ci_top L < S (length (lua_stack L)))%nat.
Proof.
  unfold api_incr_top.
  destruct (length (lua_stack (set_stack (v :: lua_stack L) L))
            <=? lua_ci_top (set_stack (v :: lua_stack L) L))%nat eqn:E;
    [discriminate |].
  intros [= <-]. split; [reflexivity |]. apply Nat.leb_gt in E. exact E.
Qed.

(** ** The reader never runs out of fuel *)

Lemma read_entries_total `{Runtime}
    (rd : LuaState -> option (Outcome JsVal))
    (entries : list (LuaVal * LuaVal)) :
  (forall L, rd L <> None) ->
  forall result L, read_entries rd entries result L <> None.
Proof.
  intros Hrd. induction entries as [|[k v] rest IH]; intros result L;
    cbn [read_entries].
  - discriminate.
  - destruct (lua_next_pair k v L) as [[] L1|L1]; [| discriminate].
    destruct (table_key k) as [key| |]; [| discriminate | apply IH].
    destruct (rd L1) as [[value L2|L2]|] eqn:E;
      [apply IH | discriminate | destruct (Hrd L1 E)].
Qed.

Lemma read_total `{Runtime} (fuel : nat) :
  forall depth L,
    ((2 * (11 - depth) + 1 <= fuel)%nat ->
     _readStackValue fuel depth L <> None)
    /\ ((2 * (11 - depth) + 2 <= fuel)%nat ->
        _readTable fuel depth L <> None).
Proof.
  induction fuel as [|fuel IH]; intros depth L.
  - split; intros Hf; lia.
  - split; intros Hf.
    + cbn [_readStackValue].
      destruct (10 <? depth)%nat eqn:Ed; [discriminate |].
      apply Nat.ltb_ge in Ed.
      destruct (lua_top L); try discriminate.
      apply (proj2 (IH (depth + 1)%nat L)). lia.
    + cbn [_readTable].
      destruct (10 <? depth)%nat eqn:Ed; [discriminate |].
      apply Nat.ltb_ge in Ed.
      destruct (lua_pushnil L) as [[] L1|L1]; [| discriminate].
      apply read_entries_total. intros L2.
      apply (proj1 (IH depth L2)). lia.
Qed.

Lemma read_fuel_enough `{Runtime} (L : LuaState) :
  _readStackValue read_fuel 0 L <> None.
Proof.
  apply (proj1 (read_total read_fuel 0%nat L)). unfold read_fuel. lia.
Qed.

(** ** What a read that returns has read *)

Lemma read_entries_sound `{Runtime}
    (rd : LuaState -> option (Outcome JsVal)) (L0 : LuaState)
    (entries : list (LuaVal * LuaVal)) :
  (forall k v value L2,
      stack_within (set_stack (v :: k :: lua_stack L0) L0) ->
      rd (set_stack (v :: k :: lua_stack L0) L0) = Some (Returns value L2) ->
      L2 = set_stack (v :: k :: lua_stack L0) L0
      /\ content (lua_heap L0) v value) ->
  forall key0 result final L',
    read_entries rd entries result (set_stack (key0 :: lua_stack L0) L0)
    = Some (Returns final L') ->
    L' = L0 /\ pairs_content (lua_heap L0) entries result final.
Proof.
  intros Hrd. induction entries as [|[k v] rest IH];
    intros key0 result final L'; cbn [read_entries].
  - intros [= <- <-]. split; [apply lua_pop_push | constructor].
  - destruct (lua_next_pair k v (set_stack (key0 :: lua_stack L0) L0))
      as [[] L1|L1] eqn:En; [| discriminate].
    apply api_incr_top_returns in En. destruct En as [-> Hw].
    change (set_stack (v :: lua_stack
                              (set_stack (k :: tl (lua_stack
                                 (set_stack (key0 :: lua_stack L0) L0)))
                                 (set_stack (key0 :: lua_stack L0) L0)))
              (set_stack (k :: tl (lua_stack
                                 (set_stack (key0 :: lua_stack L0) L0)))
                 (set_stack (key0 :: lua_stack L0) L0)))
      with (set_stack (v :: k :: lua_stack L0) L0) in *.
    destruct (table_key k) as [key| |] eqn:Ek; [| discriminate |].
    + destruct (rd (set_stack (v :: k :: lua_stack L0) L0))
        as [[value L2|L2]|] eqn:Er; [| discriminate | discriminate].
      destruct (Hrd k v value L2 Hw Er) as [-> Hc].
      change (lua_pop (set_stack (v :: k :: lua_stack L0) L0))
        with (set_stack (k :: lua_stack L0) L0).
      intros E. destruct (IH _ _ _ _ E) as [-> Hp].
      split; [reflexivity |]. eapply pairs_store; eassumption.
    + change (lua_pop (set_stack (v :: k :: lua_stack L0) L0))
        with (set_stack (k :: lua_stack L0) L0).
      intros E. destruct (IH _ _ _ _ E) as [-> Hp].
      split; [reflexivity |]. apply pairs_skip; assumption.
Qed.

Lemma read_sound `{Runtime} (fuel : nat) :
  forall depth L value L',
    depth_fits depth L -> stack_within L ->
    (_readStackValue fuel depth L = Some (Returns value L') ->
     L' = L /\ content (lua_heap L) (lua_top L) value)
    /\ (forall ref,
           lua_top L = LTable ref ->
           _readTable fuel (depth + 1) L = Some (Returns value L') ->
           L' = L /\ content (lua_heap L) (LTable ref) value).
Proof.
  induction fuel as [|fuel IH]; intros depth L value L' Hd Hw.
  - split; [discriminate | intros ref _; discriminate].
  - assert (Hdepth : (depth <= 9)%nat).
    { unfold depth_fits, stack_within, LUA_MINSTACK in *. lia. }
    split.
    + cbn [_readStackValue].
      destruct (10 <? depth)%nat eqn:Ed;
        [apply Nat.ltb_lt in Ed; lia |].
      destruct (lua_top L) as [|b|n|s|ref| |text|] eqn:Et;
        try (intros [= <- <-]; split; [reflexivity | constructor]);
        try discriminate.
      intros E.
      exact (proj2 (IH depth L value L' Hd Hw) ref Et E).
    + intros ref Et. cbn [_readTable].
      destruct (10 <? depth + 1)%nat eqn:Ed;
        [apply Nat.ltb_lt in Ed; lia |].
      rewrite Et.
      destruct (lua_pushnil L) as [[] L1|L1] eqn:Ep; [| discriminate].
      apply api_incr_top_returns in Ep. destruct Ep as [-> Hw1].
      intros E.
      apply (read_entries_sound _ L) in E.
      * destruct E as [-> Hp]. split; [reflexivity |].
        constructor. exact Hp.
      * intros k v value2 L2 Hw2 Er.
        assert (Hd2 : depth_fits (depth + 1)
                        (set_stack (v :: k :: lua_stack L) L)).
        { unfold depth_fits in *. cbn. lia. }
        exact (proj1 (IH (depth + 1)%nat _ value2 L2 Hd2 Hw2) Er).
Qed.

(** A read changes nothing but the stack, which it leaves as it was when
    it returns and no shorter when it raises. *)
Definition left_behind (n : nat) (L L' : LuaState) : Prop :=
  lua_heap L' = lua_heap L /\ lua_ci_top L' = lua_ci_top L
  /\ (n <= length (lua_stack L'))%nat.

Lemma read_entries_leaves `{Runtime}
    (rd : LuaState -> option (Outcome JsVal))
    (entries : list (LuaVal * LuaVal)) :
  (forall L value L2, rd L = Some (Returns value L2) -> L2 = L) ->
  (forall L L2, rd L = Some (Raises L2) ->
                left_behind (length (lua_stack L)) L L2) ->
  forall result L,
    lua_stack L <> [] ->
    match read_entries rd entries result L with
    | Some (Returns _ L') => L' = lua_pop L
    | Some (Raises L') => left_behind (length (lua_stack L)) L L'
    | None => True
    end.
Proof.
  intros Hret Hraise. induction entries as [|[k v] rest IH];
    intros result L Hne; cbn [read_entries]; [reflexivity |].
  destruct (lua_stack L) as [|key0 base] eqn:Es; [contradiction |].
  assert (Hnext : lua_next_pair k v L
                  = api_incr_top v (set_stack (k :: base) L))
    by (unfold lua_next_pair; rewrite Es; reflexivity).
  rewrite Hnext.
  destruct (api_incr_top v (set_stack (k :: base) L)) as [[] L1|L1] eqn:En.
  - apply api_incr_top_returns in En. destruct En as [-> _].
    change (set_stack (v :: lua_stack (set_stack (k :: base) L))
              (set_stack (k :: base) L))
      with (set_stack (v :: k :: base) L).
    assert (Hpop : lua_pop (set_stack (v :: k :: base) L)
                   = set_stack (k :: base) L) by reflexivity.
    assert (Hcont : forall result',
              match read_entries rd rest result' (set_stack (k :: base) L)
              with
              | Some (Returns _ L') => L' = lua_pop L
              | Some (Raises L') => left_behind (length (key0 :: base)) L L'
              | None => True
              end).
    { intros result'.
      specialize (IH result' (set_stack (k :: base) L)).
      destruct (read_entries rd rest result' (set_stack (k :: base) L))
        as [[r L'|L']|]; [| | exact I].
      - rewrite IH by discriminate. unfold lua_pop. rewrite Es. reflexivity.
      - destruct IH as (Hh & Hc & Hl); [discriminate |].
        repeat split; assumption. }
    destruct (table_key k) as [key| |].
    + destruct (rd (set_stack (v :: k :: base) L)) as [[value L2|L2]|] eqn:Er;
        [| | exact I].
      * apply Hret in Er. subst L2. rewrite Hpop. apply Hcont.
      * apply Hraise in Er. destruct Er as (Hh & Hc & Hl).
        repeat split; try assumption. cbn in *. lia.
    + repeat split. cbn. lia.
    + rewrite Hpop. apply Hcont.
  - apply api_incr_top_raises in En. destruct En as [-> _].
    repeat split. cbn. lia.
Qed.

Lemma read_leaves `{Runtime} (fuel : nat) :
  forall depth L,
    match _readStackValue fuel depth L with
    | Some (Returns _ L') => L' = L
    | Some (Raises L') => left_behind (length (lua_stack L)) L L'
    | None => True
    end
    /\ match _readTable fuel depth L with
       | Some (Returns _ L') => L' = L
       | Some (Raises L') => left_behind (length (lua_stack L)) L L'
       | None => True
       end.
Proof.
  induction fuel as [|fuel IH]; intros depth L; [split; exact I |].
  split.
  - cbn [_readStackValue].
    destruct (10 <? depth)%nat; [reflexivity |].
    destruct (lua_top L); try reflexivity.
    + apply (proj2 (IH (depth + 1)%nat L)).
    + repeat split. lia.
  - cbn [_readTable].
    destruct (10 <? depth)%nat; [reflexivity |].
    destruct (lua_pushnil L) as [[] L1|L1] eqn:Ep.
    + apply api_incr_top_returns in Ep. destruct Ep as [-> _].
      assert (Hret : forall L0 value L2,
                _readStackValue fuel depth L0 = Some (Returns value L2) ->
                L2 = L0).
      { intros L0 value L2 E. pose proof (proj1 (IH depth L0)) as Hx.
        rewrite E in Hx. exact Hx. }
      assert (Hraise : forall L0 L2,
                _readStackValue fuel depth L0 = Some (Raises L2) ->
                left_behind (length (lua_stack L0)) L0 L2).
      { intros L0 L2 E. pose proof (proj1 (IH depth L0)) as Hx.
        rewrite E in Hx. exact Hx. }
      match goal with
      | |- context [read_entries ?rd ?es ?r ?s] =>
          pose proof (read_entries_leaves rd es Hret Hraise r s) as Hl;
          destruct (read_entries rd es r s) as [[v L'|L']|]
      end; [| | exact I].
      * rewrite Hl by discriminate. apply lua_pop_push.
      * destruct Hl as (Hh & Hc & Hn); [discriminate |].
        repeat split; try assumption. cbn in Hn. lia.
    + apply api_incr_top_raises in Ep. destruct Ep as [-> _].
      repeat split. cbn. lia.
Qed.

(** ** The engine *)

Lemma lua_getglobal_returns (L L1 : LuaState) (name : string) :
  lua_getglobal L name = Returns tt L1 ->
  L1 = set_stack
         (default LNil (lua_globals (lua_heap L) !! name) :: lua_stack L) L
  /\ stack_within L1.
Proof.
  unfold lua_getglobal.
  destruct (api_incr_top (LString name) L) as [[] L0|L0] eqn:E;
    [| discriminate].
  apply api_incr_top_returns in E. destruct E as [-> Hw].
  intros [= <-]. split; [reflexivity |].
  unfold stack_within in *. cbn in *. exact Hw.
Qed.

Lemma lua_getglobal_raises (L L1 : LuaState) (name : string) :
  lua_getglobal L name = Raises L1 ->
  L1 = set_stack (LString name :: lua_stack L) L
  /\ (lua_ci_top L < S (length (lua_stack L)))%nat.
Proof.
  unfold lua_getglobal.
  destruct (api_incr_top (LString name) L) as [[] L0|L0] eqn:E;
    [discriminate |].
  apply api_incr_top_raises in E. intros [= <-]. exact E.
Qed.

(** What [get] answers: the content of the global, with the engine as it
    was; or undefined because the read raised, with more on the stack than
    before. *)
Lemma engine_get_cases `{Runtime} (L : LuaState) (name : string) :
  stack_bounded L ->
  let r := engine_get {| engine_L := Some L |} name in
  (r.2 = {| engine_L := Some L |}
   /\ content (lua_heap L)
        (default LNil (lua_globals (lua_heap L) !! name)) r.1)
  \/ (r.1 = JUndefined
      /\ exists L', r.2 = {| engine_L := Some L' |}
                    /\ left_behind (S (length (lua_stack L))) L L').
Proof.
  intros Hb. cbv zeta. unfold engine_get. cbn [engine_L].
  destruct (lua_getglobal L name) as [[] L1|L1] eqn:Eg.
  - apply lua_getglobal_returns in Eg. destruct Eg as [-> Hw].
    set (L1 := set_stack _ L) in *.
    assert (Hd : depth_fits 0 L1).
    { unfold depth_fits, stack_bounded in *. subst L1. cbn. lia. }
    pose proof (proj1 (read_leaves read_fuel 0%nat L1)) as Hl.
    pose proof (read_fuel_enough L1) as Hf.
    destruct (_readStackValue read_fuel 0 L1) as [[v L2|L2]|] eqn:Er;
      [| | destruct (Hf eq_refl)].
    + left. destruct (proj1 (read_sound read_fuel 0%nat L1 v L2 Hd Hw) Er)
        as [-> Hc].
      cbn [fst snd]. split; [| exact Hc].
      subst L1. rewrite lua_pop_push. reflexivity.
    + right. cbn [fst snd]. split; [reflexivity |].
      exists L2. split; [reflexivity |].
      destruct Hl as (Hh & Hc & Hn). subst L1. cbn in *.
      repeat split; assumption.
  - right. cbn [fst snd]. split; [reflexivity |].
    apply lua_getglobal_raises in Eg. destruct Eg as [-> _].
    exists (set_stack (LString name :: lua_stack L) L).
    split; [reflexivity |]. repeat split. cbn. lia.
Qed.

(** Once the stack is full every [get] answers undefined and leaves it
    full, and [execute] does not empty it: the engine reads nothing back
    until [init] builds a new one. *)
Lemma engine_get_full `{Runtime} (e : LuaEngine) (name : string) :
  stack_full e ->
  (engine_get e name).1 = JUndefined /\ stack_full (engine_get e name).2.
Proof.
  destruct e as [[L|]]; unfold stack_full, engine_get; cbn [engine_L];
    [| intros _; split; [reflexivity | exact I]].
  intros Hfull.
  destruct (lua_getglobal L name) as [[] L1|L1] eqn:Eg.
  - apply lua_getglobal_returns in Eg. destruct Eg as [-> Hw].
    unfold stack_within in Hw. cbn in Hw. lia.
  - apply lua_getglobal_raises in Eg. destruct Eg as [-> _].
    cbn. split; [reflexivity | lia].
Qed.


Lemma engine_init_bounded `{Fengari} : engine_bounded engine_init.
Proof. unfold engine_bounded, stack_bounded. cbn. lia. Qed.

Lemma engine_execute_bounded `{Fengari} (e : LuaEngine) (luaStr : string) :
  engine_bounded e -> engine_bounded (engine_execute e luaStr).
Proof.
  destruct e as [[L|]]; unfold engine_bounded, stack_bounded, engine_execute;
    cbn [engine_L]; [| intros _; exact I].
  intros Hb. destruct (String.eqb luaStr ""); [exact Hb |].
  destruct (luaL_dostring (lua_heap L) luaStr) as [heap leftover].
  cbn. rewrite length_app. lia.
Qed.

Lemma engine_get_bounded `{Runtime} (e : LuaEngine) (name : string) :
  engine_bounded e -> engine_bounded (engine_get e name).2.
Proof.
  destruct e as [[L|]]; [| intros _; exact I].
  intros Hb. destruct (engine_get_cases L name Hb) as [[-> _] | (_ & L' & -> & Hl)].
  - exact Hb.
  - destruct Hl as (_ & Hc & Hn).
    unfold engine_bounded, stack_bounded in *. cbn in *. lia.
Qed.

(** ** What [get] does with nested tables *)

(** C7.  [_readStackValue] and [_readTable] return on every Lua state,
    cyclic tables included, and [get] answers from an engine with at most
    the twenty slots of a fresh frame free either the whole content of the
    global, every level of it and the engine left as it was, or undefined
    with more on the stack than before.  No subtree is cut at ten levels:
    each level holds two stack slots, so the interpreter's stack check
    raises before the depth test can apply, and [get] answers undefined for
    the whole global.  A table nine levels deep is read in full; one of ten
    levels, or one that contains itself, reads as undefined and leaves the
    stack full, after which every [get] answers undefined. *)
Theorem lua_readback_overflows_before_the_depth_limit `{Runtime} :
  (forall L depth, (depth <= 11)%nat ->
                   _readStackValue read_fuel depth L <> None)
  /\ (forall L name,
         stack_bounded L ->
         let r := engine_get {| engine_L := Some L |} name in
         (r.2 = {| engine_L := Some L |}
          /\ content (lua_heap L)
               (default LNil (lua_globals (lua_heap L) !! name)) r.1)
         \/ (r.1 = JUndefined
             /\ exists L', r.2 = {| engine_L := Some L' |}
                           /\ left_behind (S (length (lua_stack L))) L L'))
  /\ (forall e name,
         stack_full e ->
         (engine_get e name).1 = JUndefined
         /\ stack_full (engine_get e name).2)
  /\ engine_get (engine_holding (nested_state 9)) "t"
     = (nested_tree 9, engine_holding (nested_state 9))
  /\ ((engine_get (engine_holding (nested_state 10)) "t").1 = JUndefined
      /\ stack_full (engine_get (engine_holding (nested_state 10)) "t").2)
  /\ ((engine_get (engine_holding cyclic_state) "t").1 = JUndefined
      /\ stack_full (engine_get (engine_holding cyclic_state) "t").2).
Proof.
  split; [| split; [| split; [| split; [| split]]]].
  - intros L depth Hd.
    apply (proj1 (read_total read_fuel depth L)). unfold read_fuel. lia.
  - intros L name Hb. exact (engine_get_cases L name Hb).
  - intros e name Hfull. exact (engine_get_full e name Hfull).
  - vm_compute. reflexivity.
  - split; [vm_compute; reflexivity |].
    unfold stack_full. vm_compute. lia.
  - split; [vm_compute; reflexivity |].
    unfold stack_full. vm_compute. lia.
Qed.

Lemma lua_readback_overflows_before_the_depth_limit_witness :
  let L := {| lua_heap := nested_state 10; lua_stack := [];
              lua_ci_top := LUA_MINSTACK |} in
  let r := engine_get {| engine_L := Some L |} "t" in
  stack_bounded L
  /\ ((r.2 = {| engine_L := Some L |}
       /\ content (lua_heap L)
            (default LNil (lua_globals (lua_heap L) !! "t")) r.1)
      \/ (r.1 = JUndefined
          /\ exists L', r.2 = {| engine_L := Some L' |}
                        /\ left_behind 1 L L'))
  /\ stack_full r.2
  /\ (engine_get r.2 "t").1 = JUndefined.
Proof.
  intros L r.
  assert (Hb : stack_bounded L) by (unfold stack_bounded; cbn; lia).
  assert (Hfull : stack_full r.2) by (unfold stack_full; vm_compute; lia).
  split; [exact Hb |].
  split;
    [exact (proj1 (proj2
              (@lua_readback_overflows_before_the_depth_limit runtime_plain))
              L "t" Hb) |].
  split; [exact Hfull |].
  exact (proj1 (proj1 (proj2 (proj2
           (@lua_readback_overflows_before_the_depth_limit runtime_plain)))
           r.2 "t" Hfull)).
Defined.

(* ===================================================================== *)
(** * C8: resolving a tag by its dotted path *)
(* ===================================================================== *)

(** What the path loop descends into: an object or an array. *)
Definition container (v : JsVal) : bool := truthy v && is_object_type v.

(** What the final [typeof val !== 'object'] test lets through: a value
    that is not undefined and not of typeof 'object' -- a boolean, a number,
    a string, or a function. *)
Definition passes_exit (v : JsVal) : bool :=
  negb (is_undefined v) && negb (is_object_type v).

Lemma getProp_truthy `{Runtime} (v : JsVal) (k : string) :
  truthy v = true -> exists c, getProp v k = Some c.
Proof. destruct v; cbn; try discriminate; intros _; eauto. Qed.

Lemma is_scalar_passes (x : JsVal) :
  is_scalar x = true -> passes_exit x = true.
Proof. destruct x; cbn; try discriminate; reflexivity. Qed.

Lemma passes_exit_facts (x : JsVal) :
  passes_exit x = true ->
  x <> JUndefined /\ is_object_type x = false /\ is_undefined x = false.
Proof.
  unfold passes_exit. intros E. apply andb_true_iff in E as [Eu Eo].
  apply negb_true_iff in Eu, Eo. repeat split; [| exact Eo | exact Eu].
  intros ->. discriminate.
Qed.

Lemma is_scalar_facts (x : JsVal) :
  is_scalar x = true ->
  x <> JUndefined /\ is_object_type x = false /\ is_undefined x = false.
Proof. destruct x; cbn; try discriminate; intros _; repeat split; discriminate. Qed.

Lemma not_undefined (v : JsVal) : is_undefined v = false <-> v <> JUndefined.
Proof. destruct v; cbn; split; congruence. Qed.

Lemma walk_total `{Runtime} (parts : list string) (val : JsVal) :
  exists e, walk val parts = Some e.
Proof.
  revert val. induction parts as [|k rest IH]; intros val; cbn [walk];
    [eauto |].
  destruct (truthy val && is_object_type val) eqn:E; [| eauto].
  apply andb_true_iff in E as [Ht _].
  destruct (getProp_truthy val k Ht) as [c ->]. cbn.
  destruct (is_undefined c); [eauto | apply IH].
Qed.

Lemma walk_returned `{Runtime} (parts : list string) (val v : JsVal) :
  walk val parts = Some (Returned v) -> v = JUndefined.
Proof.
  revert val. induction parts as [|k rest IH]; intros val; cbn [walk];
    [discriminate |].
  destruct (truthy val && is_object_type val); [| congruence].
  destruct (getProp val k) as [c|]; cbn; [| discriminate].
  destruct (is_undefined c); [congruence | apply IH].
Qed.

(** The loop runs to its end exactly when the path exists. *)
Lemma walk_finished_iff `{Runtime} (parts : list string) (val r : JsVal) :
  walk val parts = Some (Finished r) <-> at_path val parts r.
Proof.
  split.
  - revert val. induction parts as [|k rest IH]; intros val; cbn [walk].
    + intros E. injection E as ->. constructor.
    + destruct (truthy val && is_object_type val) eqn:E; [| discriminate].
      apply andb_true_iff in E as [Ht Ho].
      destruct (getProp val k) as [c|] eqn:Ec; cbn; [| discriminate].
      destruct (is_undefined c) eqn:Eu; [discriminate |].
      intros Hw. eapply at_step; eauto. apply not_undefined, Eu.
  - induction 1 as [v | v k child rest r Ht Ho Hg Hc _ IH];
      [reflexivity |].
    cbn [walk]. rewrite Ht, Ho, Hg. cbn.
    apply not_undefined in Hc. rewrite Hc. exact IH.
Qed.

Lemma at_path_cons_inv `{Runtime} (v : JsVal) (k : string) (rest : list string)
    (r : JsVal) :
  at_path v (k :: rest) r ->
  exists child,
    truthy v = true /\ is_object_type v = true
    /\ getProp v k = Some child /\ child <> JUndefined
    /\ at_path child rest r.
Proof.
  intros Hp. inversion Hp as [|? ? child ? ? Ht Ho Hg Hne Hrest]; subst.
  exists child. auto.
Qed.

Lemma at_path_leaf `{Runtime} (v : JsVal) (k : string) (rest : list string) (r : JsVal) :
  container v = false -> ~ at_path v (k :: rest) r.
Proof.
  unfold container. intros Hc Hp.
  apply at_path_cons_inv in Hp as (c & Ht & Ho & _). rewrite Ht, Ho in Hc.
  discriminate.
Qed.

(** The loop and the final typeof test together: the value at the path
    when it passes the test, undefined otherwise. *)
Lemma resolve_from_spec `{Runtime} (val : JsVal) (parts : list string) :
  exists r,
    resolve_from val parts = Some r
    /\ (r = JUndefined \/ passes_exit r = true)
    /\ (forall x, passes_exit x = true -> r = x <-> at_path val parts x).
Proof.
  unfold resolve_from. destruct (walk_total parts val) as [[u | v] Hw];
    rewrite Hw; cbn.
  - apply walk_returned in Hw as Hu. subst u.
    exists JUndefined. split; [reflexivity | split; [left; reflexivity |]].
    intros x Hx. apply passes_exit_facts in Hx as [Hne _]. split.
    + congruence.
    + intros Hp. apply walk_finished_iff in Hp. congruence.
  - eexists. split; [reflexivity | split].
    + destruct (is_object_type v) eqn:Eo; [left; reflexivity |].
      unfold passes_exit. rewrite Eo.
      destruct (is_undefined v) eqn:Eu;
        [left; destruct v; try discriminate; reflexivity
        | right; reflexivity].
    + intros x Hx. pose proof (passes_exit_facts x Hx) as [Hne [Ho _]]. split.
      * intros E. apply walk_finished_iff.
        destruct (is_object_type v) eqn:Ev; [congruence |]. subst x.
        exact Hw.
      * intros Hp. apply walk_finished_iff in Hp.
        assert (v = x) by congruence. subst v. rewrite Ho. reflexivity.
Qed.

Lemma resolve_from_leaf `{Runtime} (v : JsVal) (k : string) (rest : list string) :
  container v = false -> resolve_from v (k :: rest) = Some JUndefined.
Proof.
  unfold container, resolve_from. intros Hc. cbn [walk]. rewrite Hc.
  reflexivity.
Qed.



(* ===================================================================== *)
(** * What holds in every state a driver reaches *)
(* ===================================================================== *)

(** Every cached sample has [changed === false]. *)
Definition cache_unchanged (vars : Cache) : Prop :=
  map_Forall (fun _ s => s_changed s = false) vars.

(** An emitted value event, and a DAQ hand-off, carries only samples with
    [changed === false] at the time it is made. *)
Definition event_ok (e : Event) : Prop :=
  match e with
  | EmitValues values => cache_unchanged values
  | AddDaq changed => cache_unchanged changed
  | _ => True
  end.

(** [luaState] is [{}] or [{ t: <object> }]. *)
Definition lua_state_shape (ls : JsVal) : Prop :=
  ls = JObject [] \/ exists t, ls = JObject [("t", t)] /\ container t = true.

Lemma cache_unchanged_empty : cache_unchanged ∅.
Proof. apply map_Forall_empty. Qed.

Lemma cache_unchanged_cleared (vars : Cache) :
  cache_unchanged vars -> cache_unchanged (set_value JNull <$> vars).
Proof.
  unfold cache_unchanged. intros Hc. apply map_Forall_fmap.
  eapply map_Forall_impl; [exact Hc |]. intros id s Hs. exact Hs.
Qed.

Lemma cache_unchanged_filter (vars : Cache) (keys : gset string) :
  cache_unchanged vars -> cache_unchanged (changed_object vars keys).
Proof.
  unfold cache_unchanged, changed_object. intros Hc id s Hl.
  apply map_lookup_filter_Some in Hl as [Hl _]. exact (Hc id s Hl).
Qed.

(** ** The tag loop *)

Section TagLoopFacts.
Context `{DeviceUtils}.
Variable resolve : Tag -> option JsVal.
Variable addDaq : bool.
Variable timestamp : Z.

Definition log_only (c : Cycle) : Prop :=
  Forall (fun e => exists m, e = Log LError m) (c_log c).

Lemma tag_step_unchanged (c : Cycle) (entry : string * Tag) :
  cache_unchanged (c_vars c) -> log_only c ->
  cache_unchanged (c_vars (tag_step resolve addDaq timestamp c entry))
  /\ log_only (tag_step resolve addDaq timestamp c entry).
Proof.
  intros Hv Hl. unfold tag_step. destruct entry as [tid tag].
  cbv zeta. cbn [fst snd].
  destruct (resolve tag) as [rawValue|];
    [| split; [exact Hv | constructor; [eauto | exact Hl]]].
  destruct (is_undefined rawValue); [split; assumption |].
  destruct (tagValueCompose _ _ _) as [value | err];
    [| split; [exact Hv | constructor; [eauto | exact Hl]]].
  split; [| exact Hl]. cbn [c_vars].
  unfold cache_unchanged. intros id s Hs.
  destruct (decide (tid = id)) as [-> | Hne].
  - rewrite lookup_alter_eq, lookup_insert_eq in Hs. cbn in Hs.
    injection Hs as <-. reflexivity.
  - rewrite lookup_alter_ne, lookup_insert_ne in Hs by exact Hne.
    exact (Hv id s Hs).
Qed.

Lemma tag_loop_unchanged (tags : list (string * Tag)) (c : Cycle) :
  cache_unchanged (c_vars c) -> log_only c ->
  cache_unchanged (c_vars (tag_loop resolve addDaq timestamp tags c))
  /\ log_only (tag_loop resolve addDaq timestamp tags c).
Proof.
  revert c. unfold tag_loop.
  induction tags as [|entry rest IH]; intros c Hv Hl; [split; assumption |].
  cbn [fold_left]. destruct (tag_step_unchanged c entry Hv Hl) as [Hv' Hl'].
  apply IH; assumption.
Qed.
End TagLoopFacts.

(** ** EasyDrvClient *)

Definition easydrv_inv (st : EasyDrv.State) : Prop :=
  cache_unchanged (EasyDrv.varsValue st)
  /\ Forall event_ok (EasyDrv.trace st)
  /\ lua_state_shape (EasyDrv.luaState st).

Lemma easydrv_inv_same (st' st : EasyDrv.State) :
  EasyDrv.varsValue st' = EasyDrv.varsValue st ->
  EasyDrv.trace st' = EasyDrv.trace st ->
  EasyDrv.luaState st' = EasyDrv.luaState st ->
  easydrv_inv st -> easydrv_inv st'.
Proof. unfold easydrv_inv. intros -> -> ->. exact id. Qed.

Lemma easydrv_inv_record (e : Event) (st : EasyDrv.State) :
  event_ok e -> easydrv_inv st -> easydrv_inv (EasyDrv.record e st).
Proof.
  intros He (Hv & Ht & Hl).
  split; [exact Hv | split; [constructor; assumption | exact Hl]].
Qed.

Lemma easydrv_inv_set_varsValue (vars : Cache) (st : EasyDrv.State) :
  cache_unchanged vars -> easydrv_inv st ->
  easydrv_inv (EasyDrv.set_varsValue vars st).
Proof.
  intros Hc (Hv & Ht & Hl). split; [exact Hc | split; assumption].
Qed.

Lemma easydrv_inv_set_luaState (ls : JsVal) (st : EasyDrv.State) :
  lua_state_shape ls -> easydrv_inv st ->
  easydrv_inv (EasyDrv.set_luaState ls st).
Proof.
  intros Hs (Hv & Ht & Hl). split; [exact Hv | split; assumption].
Qed.

Lemma easydrv_inv_emitValues (st : EasyDrv.State) :
  easydrv_inv st ->
  easydrv_inv (EasyDrv._emitValues (EasyDrv.varsValue st) st).
Proof. intros Hi. apply easydrv_inv_record; [apply Hi | exact Hi]. Qed.

(** One step of routine reasoning: peel the outermost update. *)
Ltac ed_inv_step :=
  match goal with
  | |- easydrv_inv (EasyDrv._emitValues (EasyDrv.varsValue ?s) ?s) =>
      apply easydrv_inv_emitValues
  | |- easydrv_inv (EasyDrv.record _ _) =>
      apply easydrv_inv_record; [exact I |]
  | |- easydrv_inv (EasyDrv.logger _ _ _) =>
      apply easydrv_inv_record; [exact I |]
  | |- easydrv_inv (EasyDrv._emitStatus _ _) =>
      apply easydrv_inv_record; [exact I |]
  | |- easydrv_inv (EasyDrv.set_varsValue _ _) =>
      apply easydrv_inv_set_varsValue
  | |- easydrv_inv (EasyDrv.set_luaState _ _) =>
      apply easydrv_inv_set_luaState
  | |- easydrv_inv (if ?b then _ else _) => destruct b
  | |- easydrv_inv (match ?x with Some _ => _ | None => _ end) => destruct x
  | |- easydrv_inv (?f _ ?s) =>
      apply (easydrv_inv_same _ s); [reflexivity | reflexivity | reflexivity |]
  end.

Ltac ed_inv := repeat first [assumption | ed_inv_step].

Lemma easydrv_inv_initial (tags : list (string * Tag)) (name : string) :
  easydrv_inv (EasyDrv.initial tags name).
Proof.
  split; [apply cache_unchanged_empty | split; [constructor |]].
  left. reflexivity.
Qed.

Lemma easydrv_inv_checkWorking (flag : bool) (st : EasyDrv.State) :
  easydrv_inv st -> easydrv_inv (EasyDrv._checkWorking flag st).2.
Proof.
  intros Hi. unfold EasyDrv._checkWorking.
  destruct (flag && EasyDrv.working st); cbn [snd]; ed_inv.
Qed.

Lemma easydrv_inv_clearVarsValue (st : EasyDrv.State) :
  easydrv_inv st -> easydrv_inv (EasyDrv._clearVarsValue st).
Proof.
  intros Hi. unfold EasyDrv._clearVarsValue. cbv zeta.
  apply easydrv_inv_emitValues, easydrv_inv_set_varsValue; [| exact Hi].
  apply cache_unchanged_cleared, Hi.
Qed.

Lemma easydrv_inv_tryParseResponse `{Zlib} (st : EasyDrv.State) :
  easydrv_inv st -> easydrv_inv (EasyDrv._tryParseResponse st).2.
Proof.
  intros Hi. unfold EasyDrv._tryParseResponse.
  destruct (EasyDrv.skip_to_marker (EasyDrv.recvBuffer st))
    as [|b0 [|b1 [|b2 [|b3 [|b4 rest]]]]]; cbn [snd]; ed_inv.
  repeat case_match; cbn [snd]; ed_inv.
Qed.

Lemma easydrv_inv_onData `{Zlib} (incoming : list (list byte))
    (st : EasyDrv.State) :
  easydrv_inv st -> easydrv_inv (EasyDrv.onData incoming st).2.
Proof.
  revert st. induction incoming as [|chunk rest IH]; intros st Hi;
    [exact Hi |].
  cbn [EasyDrv.onData].
  set (st1 := EasyDrv.set_recvBuffer (EasyDrv.recvBuffer st ++ chunk) st).
  assert (Hi1 : easydrv_inv st1) by (subst st1; ed_inv).
  pose proof (easydrv_inv_tryParseResponse st1 Hi1) as Hp.
  destruct (EasyDrv._tryParseResponse st1) as [[r|] st2]; cbn [snd] in *;
    [exact Hp | apply IH, Hp].
Qed.

Lemma easydrv_inv_sendFrame `{Zlib} (cmdData : list byte) (inc : Incoming)
    (st : EasyDrv.State) :
  easydrv_inv st -> easydrv_inv (EasyDrv._sendFrame cmdData inc st).2.
Proof.
  intros Hi. unfold EasyDrv._sendFrame.
  destruct (EasyDrv.socket st) as [sk|]; [| exact Hi].
  destruct (destroyed sk); [exact Hi |].
  destruct (throws_write sk); cbn [snd]; [ed_inv |].
  match goal with |- context [EasyDrv.onData ?i ?s] =>
    assert (Hs : easydrv_inv s) by ed_inv;
    pose proof (easydrv_inv_onData i s Hs) as Ho;
    destruct (EasyDrv.onData i s) as [[r|] st3] end;
    exact Ho.
Qed.

Lemma easydrv_inv_sendCommand `{Zlib} (cmdByte : Z) (extra : list byte)
    (inc : Incoming) (st : EasyDrv.State) :
  easydrv_inv st ->
  easydrv_inv (EasyDrv._sendCommand cmdByte extra inc st).2.
Proof.
  intros Hi. unfold EasyDrv._sendCommand.
  match goal with |- context [EasyDrv._sendFrame ?c ?i ?s] =>
    assert (Hs : easydrv_inv s) by ed_inv;
    pose proof (easydrv_inv_sendFrame c i s Hs) as Ho;
    destruct (EasyDrv._sendFrame c i s) as [[[e | data |] | err] st1] end;
    exact Ho.
Qed.

Lemma easydrv_inv_executeLua `{Fengari} (luaStr : string)
    (st : EasyDrv.State) :
  easydrv_inv st -> easydrv_inv (EasyDrv._executeLua luaStr st).
Proof.
  intros Hi. unfold EasyDrv._executeLua, EasyDrv._initLuaEngine.
  destruct (EasyDrv.luaEngine st); cbn; ed_inv.
Qed.

Lemma easydrv_inv_extractLuaState `{Runtime} (st : EasyDrv.State) :
  easydrv_inv st -> easydrv_inv (EasyDrv._extractLuaState st).
Proof.
  intros Hi. unfold EasyDrv._extractLuaState, EasyDrv.engine_read.
  destruct (EasyDrv.luaEngine st) as [e|]; [| exact Hi].
  destruct (engine_get e "t") as [t e1].
  assert (Hi1 : easydrv_inv (EasyDrv.set_luaEngine (Some e1) st)) by ed_inv.
  destruct (truthy t && is_object_type t) eqn:E; [| exact Hi1].
  apply easydrv_inv_set_luaState; [| exact Hi1].
  right. exists t. split; [reflexivity | exact E].
Qed.

Lemma easydrv_inv_getPACInfo `{Zlib} `{Codec} `{Fengari} `{Runtime} (inc : Incoming)
    (st : EasyDrv.State) :
  easydrv_inv st -> easydrv_inv (EasyDrv._getPACInfo inc st).2.
Proof.
  intros Hi. unfold EasyDrv._getPACInfo.
  pose proof (easydrv_inv_sendCommand EasyDrv.CMD_GET_INFO [] inc st Hi)
    as Hc.
  destruct (EasyDrv._sendCommand EasyDrv.CMD_GET_INFO [] inc st)
    as [[answer | err] st1]; cbn [snd] in *; [| exact Hc].
  cbv zeta.
  match goal with |- context [EasyDrv.luaEngine ?s] =>
    assert (Hs : easydrv_inv s)
      by (destruct (negb (String.eqb (EasyDrv._extractLuaString answer) ""));
          [apply easydrv_inv_executeLua |]; exact Hc);
    generalize dependent s end.
  intros s Hs. destruct (EasyDrv.luaEngine s) as [e|]; cbn [snd];
    [| exact Hs].
  destruct (engine_get e "protocol_version") as [version e1].
  destruct (engine_get e1 "PAC_name") as [name e2].
  destruct (engine_get e2 "params_CRC") as [paramsCRC e3].
  cbn [snd]. ed_inv.
Qed.

Lemma easydrv_inv_getPACStates `{Zlib} `{Codec} `{Fengari} `{Runtime} (inc : Incoming)
    (st : EasyDrv.State) :
  easydrv_inv st -> easydrv_inv (EasyDrv._getPACStates inc st).2.
Proof.
  intros Hi. unfold EasyDrv._getPACStates.
  pose proof (easydrv_inv_sendCommand EasyDrv.CMD_GET_STATES [] inc st Hi)
    as Hc.
  destruct (EasyDrv._sendCommand EasyDrv.CMD_GET_STATES [] inc st)
    as [[answer | err] st1]; cbn [snd] in *; [| exact Hc].
  destruct (blen answer <? EasyDrv.REQ_ID_SIZE); [exact Hc |].
  cbv zeta. case_match; cbn [snd]; [| exact Hc].
  apply easydrv_inv_extractLuaState, easydrv_inv_executeLua. ed_inv.
Qed.

Lemma easydrv_inv_poll_cycle `{DeviceUtils} `{Runtime} (timestamp : Z)
    (st : EasyDrv.State) :
  easydrv_inv st -> easydrv_inv (EasyDrv.poll_cycle timestamp st).
Proof.
  intros Hi. unfold EasyDrv.poll_cycle. cbv zeta.
  match goal with |- context [tag_loop ?r ?a ?t ?l ?c] =>
    destruct (tag_loop_unchanged r a t l c) as [Hv Hl];
      [apply Hi | constructor |];
    set (cyc := tag_loop r a t l c) in * end.
  assert (H1 : easydrv_inv
                 (EasyDrv.set_trace (c_log cyc ++ EasyDrv.trace st)
                    (EasyDrv.set_varsValue (c_vars cyc) st))).
  { destruct Hi as (_ & Ht & Hs). split; [exact Hv | split; [| exact Hs]].
    cbn. apply Forall_app. split; [| exact Ht].
    eapply Forall_impl; [exact Hl |]. intros e [m ->]. exact I. }
  set (st1 := EasyDrv.set_trace _ _) in *.
  assert (H3 : easydrv_inv
                 (EasyDrv._emitValues
                    (EasyDrv.varsValue
                       (EasyDrv.set_errRetryCount 0
                          (EasyDrv.set_lastTimestampValue (Some timestamp)
                             st1)))
                    (EasyDrv.set_errRetryCount 0
                       (EasyDrv.set_lastTimestampValue (Some timestamp)
                          st1))))
    by (apply easydrv_inv_emitValues; ed_inv).
  set (st3 := EasyDrv._emitValues _ _) in *.
  assert (H4 : easydrv_inv
                 (if EasyDrv.addDaq st3 && negb (isEmptyObject (c_changed cyc))
                  then EasyDrv.record
                         (AddDaq (changed_object (EasyDrv.varsValue st3)
                                    (c_changed cyc))) st3
                  else st3)).
  { destruct (EasyDrv.addDaq st3 && negb (isEmptyObject (c_changed cyc)));
      [| exact H3].
    apply easydrv_inv_record; [| exact H3].
    apply cache_unchanged_filter, H3. }
  match goal with |- easydrv_inv (if _ then _ ?s else ?s) =>
    set (st4 := s) in * end.
  destruct (negb (String.eqb (EasyDrv.lastStatus st4) "connect-ok"));
    ed_inv.
Qed.

Lemma easydrv_inv_polling `{Zlib} `{Codec} `{Fengari} `{DeviceUtils} `{Runtime}
    (inc : Incoming) (now : Z) (st : EasyDrv.State) :
  easydrv_inv st -> easydrv_inv (EasyDrv.polling inc now st).
Proof.
  intros Hi. unfold EasyDrv.polling.
  pose proof (easydrv_inv_checkWorking true st Hi) as Hc.
  destruct (EasyDrv._checkWorking true st) as [[|] st1]; cbn [snd] in Hc;
    [| exact Hc].
  destruct (negb (bool_decide (is_Some (EasyDrv.socket st1)))
            || negb (EasyDrv.connected st1)).
  { do 2 apply easydrv_inv_checkWorking. exact Hc. }
  pose proof (easydrv_inv_getPACStates inc st1 Hc) as Hg.
  destruct (EasyDrv._getPACStates inc st1) as [[[ls|] | err] st2];
    cbn [snd] in Hg.
  - apply easydrv_inv_checkWorking, easydrv_inv_poll_cycle, Hg.
  - do 2 apply easydrv_inv_checkWorking. exact Hg.
  - apply easydrv_inv_checkWorking. unfold EasyDrv.polling_failed.
    cbv zeta. ed_inv.
Qed.

Lemma easydrv_inv_connect_failed (err : string) (st : EasyDrv.State) :
  easydrv_inv st -> easydrv_inv (EasyDrv.connect_failed err st).2.
Proof.
  intros Hi. unfold EasyDrv.connect_failed. cbv zeta. cbn [snd].
  apply easydrv_inv_record; [exact I |].
  match goal with |- context [EasyDrv.socket ?s] =>
    assert (Hs : easydrv_inv s)
      by (apply easydrv_inv_checkWorking, easydrv_inv_clearVarsValue;
          ed_inv);
    generalize dependent s end.
  intros s Hs. destruct (EasyDrv.socket s) as [sk|]; [| exact Hs].
  unfold EasyDrv.teardown. ed_inv.
Qed.

Lemma easydrv_inv_connect_opened `{Zlib} `{Codec} `{Fengari} `{Runtime}
    (env : EasyDrv.ConnectEnv) (st : EasyDrv.State) :
  easydrv_inv st -> easydrv_inv (EasyDrv.connect_opened env st).2.
Proof.
  intros Hi. unfold EasyDrv.connect_opened.
  set (st1 := EasyDrv.logger _ _ st).
  assert (Hs1 : easydrv_inv st1) by (subst st1; ed_inv). clearbody st1.
  cbv zeta.
  set (st2 := EasyDrv.set_recvBuffer [] _).
  assert (Hs2 : easydrv_inv st2) by (subst st2; ed_inv). clearbody st2.
  pose proof (easydrv_inv_getPACInfo (EasyDrv.info_reply env) st2 Hs2)
    as Hinfo.
  destruct (EasyDrv._getPACInfo (EasyDrv.info_reply env) st2)
    as [[u | err] s1]; cbn [snd] in Hinfo.
  - pose proof (easydrv_inv_getPACStates (EasyDrv.states_reply env) s1
                  Hinfo) as Hst.
    destruct (EasyDrv._getPACStates (EasyDrv.states_reply env) s1)
      as [[r | err] s2]; cbn [snd] in *;
      apply easydrv_inv_checkWorking; ed_inv.
  - set (s1' := EasyDrv.logger LWarn (MsgPacInfoWarning err) s1).
    assert (Hs3 : easydrv_inv s1') by (subst s1'; ed_inv). clearbody s1'.
    pose proof (easydrv_inv_getPACStates (EasyDrv.states_reply env) s1'
                  Hs3) as Hst.
    destruct (EasyDrv._getPACStates (EasyDrv.states_reply env) s1')
      as [[r | err2] s2]; cbn [snd] in *;
      apply easydrv_inv_checkWorking; ed_inv.
Qed.

Lemma easydrv_inv_connect `{Zlib} `{Codec} `{Fengari} `{Runtime} (env : EasyDrv.ConnectEnv)
    (st : EasyDrv.State) :
  easydrv_inv st -> easydrv_inv (EasyDrv.connect env st).2.
Proof.
  intros Hi. unfold EasyDrv.connect.
  pose proof (easydrv_inv_checkWorking true st Hi) as Hc.
  destruct (EasyDrv._checkWorking true st) as [[|] st1]; cbn [snd] in *;
    [| exact Hc].
  unfold EasyDrv._initLuaEngine.
  set (st2 := EasyDrv.set_luaEngine _ _).
  assert (Hs2 : easydrv_inv st2) by (subst st2; ed_inv). clearbody st2.
  cbv zeta.
  set (st3 := EasyDrv.record SockConnect _).
  assert (Hs3 : easydrv_inv st3) by (subst st3; ed_inv). clearbody st3.
  destruct (EasyDrv.tcp env).
  - apply easydrv_inv_connect_opened, Hs3.
  - apply easydrv_inv_connect_failed. ed_inv.
  - apply easydrv_inv_connect_failed, Hs3.
Qed.

Lemma easydrv_inv_disconnect (st : EasyDrv.State) :
  easydrv_inv st -> easydrv_inv (EasyDrv.disconnect st).2.
Proof.
  intros Hi. unfold EasyDrv.disconnect, EasyDrv.disconnect_finally.
  cbv zeta. cbn [snd]. apply easydrv_inv_clearVarsValue.
  apply easydrv_inv_record; [exact I |].
  apply (easydrv_inv_same _
           (EasyDrv.set_luaState (JObject []) (EasyDrv.disconnect_try st)));
    [reflexivity | reflexivity | reflexivity |].
  apply easydrv_inv_set_luaState; [left; reflexivity |].
  unfold EasyDrv.disconnect_try. cbv zeta.
  pose proof (easydrv_inv_checkWorking false st Hi) as Hc.
  set (st1 := (EasyDrv._checkWorking false st).2) in *.
  destruct (EasyDrv.socket st1) as [sk|].
  - destruct (throws_removeAllListeners sk); [ed_inv |].
    destruct (throws_destroy sk); ed_inv.
  - ed_inv.
Qed.

Lemma easydrv_inv_perform `{Zlib} `{Codec} `{Fengari} `{DeviceUtils} `{Runtime}
    (st : EasyDrv.State) (c : EasyDrv.Call) :
  easydrv_inv st -> easydrv_inv (EasyDrv.perform st c).
Proof.
  intros Hi. destruct c; cbn [EasyDrv.perform].
  - apply easydrv_inv_connect, Hi.
  - apply easydrv_inv_disconnect, Hi.
  - apply easydrv_inv_polling, Hi.
  - unfold EasyDrv.load. apply easydrv_inv_record; [exact I |].
    apply easydrv_inv_set_varsValue; [apply cache_unchanged_empty |].
    ed_inv.
  - unfold EasyDrv.bindAddDaq. ed_inv.
Qed.

(** Every state a history of calls leads to has an unchanged-only cache,
    a trace of well-formed events, and a well-shaped [luaState]. *)
Lemma easydrv_inv_after `{Zlib} `{Codec} `{Fengari} `{DeviceUtils} `{Runtime}
    (tags : list (string * Tag)) (name : string)
    (history : list EasyDrv.Call) :
  easydrv_inv (EasyDrv.after tags name history).
Proof.
  unfold EasyDrv.after.
  generalize (easydrv_inv_initial tags name).
  generalize (EasyDrv.initial tags name).
  induction history as [|c rest IH]; intros st Hi; [exact Hi |].
  cbn [fold_left]. apply IH, easydrv_inv_perform, Hi.
Qed.

(** ** MPSClient *)

Definition mps_inv (st : MPS.State) : Prop :=
  cache_unchanged (MPS.varsValue st) /\ Forall event_ok (MPS.trace st).

Lemma mps_inv_same (st' st : MPS.State) :
  MPS.varsValue st' = MPS.varsValue st -> MPS.trace st' = MPS.trace st ->
  mps_inv st -> mps_inv st'.
Proof. unfold mps_inv. intros -> ->. exact id. Qed.

Lemma mps_inv_record (e : Event) (st : MPS.State) :
  event_ok e -> mps_inv st -> mps_inv (MPS.record e st).
Proof.
  intros He (Hv & Ht). split; [exact Hv | constructor; assumption].
Qed.

Lemma mps_inv_set_varsValue (vars : Cache) (st : MPS.State) :
  cache_unchanged vars -> mps_inv st -> mps_inv (MPS.set_varsValue vars st).
Proof. intros Hc (Hv & Ht). split; assumption. Qed.

Lemma mps_inv_emitValues (st : MPS.State) :
  mps_inv st -> mps_inv (MPS._emitValues (MPS.varsValue st) st).
Proof. intros Hi. apply mps_inv_record; [apply Hi | exact Hi]. Qed.

Ltac mps_inv_step :=
  match goal with
  | |- mps_inv (MPS._emitValues (MPS.varsValue ?s) ?s) =>
      apply mps_inv_emitValues
  | |- mps_inv (MPS.record _ _) => apply mps_inv_record; [exact I |]
  | |- mps_inv (MPS.logger _ _ _) => apply mps_inv_record; [exact I |]
  | |- mps_inv (MPS._emitStatus _ _) => apply mps_inv_record; [exact I |]
  | |- mps_inv (MPS.set_varsValue _ _) => apply mps_inv_set_varsValue
  | |- mps_inv (if ?b then _ else _) => destruct b
  | |- mps_inv (match ?x with Some _ => _ | None => _ end) => destruct x
  | |- mps_inv (?f _ ?s) =>
      apply (mps_inv_same _ s); [reflexivity | reflexivity |]
  end.

Ltac mps_inv_auto := repeat first [assumption | mps_inv_step].

Lemma mps_inv_initial (tags : list (string * Tag)) :
  mps_inv (MPS.initial tags).
Proof. split; [apply cache_unchanged_empty | constructor]. Qed.

Lemma mps_inv_checkWorking (flag : bool) (st : MPS.State) :
  mps_inv st -> mps_inv (MPS._checkWorking flag st).2.
Proof.
  intros Hi. unfold MPS._checkWorking.
  destruct (flag && MPS.working st); cbn [snd]; mps_inv_auto.
Qed.

Lemma mps_inv_clearVarsValue (st : MPS.State) :
  mps_inv st -> mps_inv (MPS._clearVarsValue st).
Proof.
  intros Hi. unfold MPS._clearVarsValue. cbv zeta.
  apply mps_inv_emitValues, mps_inv_set_varsValue; [| exact Hi].
  apply cache_unchanged_cleared, Hi.
Qed.

Lemma mps_inv_sendFramed (msg : string) (inc : Incoming) (st : MPS.State) :
  mps_inv st -> mps_inv (MPS._sendFramed msg inc st).2.
Proof.
  intros Hi. unfold MPS._sendFramed.
  destruct (MPS.socket st) as [sk|]; [| exact Hi].
  destruct (destroyed sk); [exact Hi |].
  destruct (throws_write sk); [exact Hi |]. cbv zeta.
  destruct (MPS.onData [] (chunks inc)); cbn [snd]; mps_inv_auto.
Qed.

Lemma mps_inv_queryAll `{Codec} `{Json} `{Runtime} (dn : string) (inc : Incoming)
    (st : MPS.State) :
  mps_inv st -> mps_inv (MPS._queryAll dn inc st).2.
Proof.
  intros Hi.
  unfold MPS._queryAll, MPS._sendDeviceCommand, MPS._sendCommand.
  pose proof (mps_inv_sendFramed (JSON_stringify_cmd dn "QueryAll" 0) inc st Hi)
    as Hs.
  destruct (MPS._sendFramed (JSON_stringify_cmd dn "QueryAll" 0) inc st)
    as [[[n | data] | err] st1]; cbn [snd] in *; try exact Hs.
  destruct (JSON_parse data) as [v|]; [| exact Hs].
  destruct (MPS.has_units v); cbn [snd]; mps_inv_auto.
Qed.

Lemma mps_inv_query_devices `{Codec} `{Json} `{Runtime} (names : list string)
    (env : list Incoming) (errors : Z) (st : MPS.State) :
  mps_inv st -> mps_inv (MPS.query_devices names env errors st).2.
Proof.
  revert env errors st.
  induction names as [|dn rest IH]; intros env errors st Hi; [exact Hi |].
  cbn [MPS.query_devices].
  pose proof (mps_inv_queryAll dn (hd MPS.silent env) st Hi) as Hq.
  destruct (MPS._queryAll dn (hd MPS.silent env) st) as [[v | err] st1];
    cbn [snd] in Hq; apply IH, Hq.
Qed.

Lemma mps_inv_poll_cycle `{DeviceUtils} `{Runtime} (timestamp : Z) (st : MPS.State) :
  mps_inv st -> mps_inv (MPS.poll_cycle timestamp st).
Proof.
  intros Hi. unfold MPS.poll_cycle.
  match goal with |- context [tag_loop ?r ?a ?t ?l ?c] =>
    destruct (tag_loop_unchanged r a t l c) as [Hv Hl];
      [apply Hi | constructor |];
    set (cyc := tag_loop r a t l c) in * end.
  cbv zeta.
  set (st1 := MPS.set_trace _ _).
  assert (Hs1 : mps_inv st1).
  { subst st1. destruct Hi as (_ & Ht). split; [exact Hv |].
    cbn. apply Forall_app. split; [| exact Ht].
    eapply Forall_impl; [exact Hl |]. intros e [m ->]. exact I. }
  clearbody st1.
  set (st3 := MPS._emitValues _ _).
  assert (Hs3 : mps_inv st3)
    by (subst st3; apply mps_inv_emitValues; mps_inv_auto).
  clearbody st3.
  set (st4 := if MPS.addDaq st3 && _ then _ else st3).
  assert (Hs4 : mps_inv st4).
  { subst st4. destruct (MPS.addDaq st3 && _); [| exact Hs3].
    apply mps_inv_record; [| exact Hs3].
    apply cache_unchanged_filter, Hs3. }
  clearbody st4.
  destruct (negb (String.eqb (MPS.lastStatus st4) "connect-ok"));
    mps_inv_auto.
Qed.

Lemma mps_inv_poll_cycle_to_daq `{DeviceUtils} `{Runtime} (timestamp : Z)
    (st : MPS.State) :
  mps_inv st -> mps_inv (MPS.poll_cycle_to_daq timestamp st).
Proof.
  intros Hi. unfold MPS.poll_cycle_to_daq.
  match goal with |- context [tag_loop ?r ?a ?t ?l ?c] =>
    destruct (tag_loop_unchanged r a t l c) as [Hv Hl];
      [apply Hi | constructor |];
    set (cyc := tag_loop r a t l c) in * end.
  cbv zeta.
  set (st1 := MPS.set_trace _ _).
  assert (Hs1 : mps_inv st1).
  { subst st1. destruct Hi as (_ & Ht). split; [exact Hv |].
    cbn. apply Forall_app. split; [| exact Ht].
    eapply Forall_impl; [exact Hl |]. intros e [m ->]. exact I. }
  clearbody st1.
  set (st3 := MPS._emitValues _ _).
  assert (Hs3 : mps_inv st3)
    by (subst st3; apply mps_inv_emitValues; mps_inv_auto).
  clearbody st3.
  apply mps_inv_record; [| exact Hs3].
  apply cache_unchanged_filter, Hs3.
Qed.

Lemma mps_inv_polling_failed (err : string) (st : MPS.State) :
  mps_inv st -> mps_inv (MPS.polling_failed err st).
Proof.
  intros Hi. unfold MPS.polling_failed. cbv zeta.
  apply mps_inv_record; [exact I |].
  destruct (MPS.MAX_ERRORS_COUNT <=? _); mps_inv_auto.
Qed.

Lemma mps_inv_polling `{Codec} `{Json} `{DeviceUtils} `{Runtime}
    (env : MPS.PollEnv) (now : Z) (st : MPS.State) :
  mps_inv st -> mps_inv (MPS.polling env now st).
Proof.
  intros Hi. unfold MPS.polling.
  pose proof (mps_inv_checkWorking true st Hi) as Hc.
  destruct (MPS._checkWorking true st) as [[|] st1]; cbn [snd] in Hc;
    [| exact Hc].
  destruct (socket_unusable (MPS.socket st1) || negb (MPS.connected st1)).
  { do 2 apply mps_inv_checkWorking. exact Hc. }
  pose proof (mps_inv_query_devices (MPS.device_names (MPS.tags st1))
                (MPS.answers env) 0 st1 Hc) as Hq.
  destruct (MPS.query_devices (MPS.device_names (MPS.tags st1))
              (MPS.answers env) 0 st1)
    as [errors st2]; cbn [snd] in Hq.
  set (st3 := if 0 <? errors then _ else st2).
  assert (Hs3 : mps_inv st3)
    by (subst st3; destruct (0 <? errors); mps_inv_auto).
  clearbody st3.
  apply mps_inv_checkWorking. unfold MPS.poll_try.
  destruct (MPS.daq_raises env) as [err|];
    [| apply mps_inv_poll_cycle, Hs3].
  destruct (MPS.addDaq st3 && _);
    [| apply mps_inv_poll_cycle, Hs3].
  apply mps_inv_polling_failed, mps_inv_poll_cycle_to_daq, Hs3.
Qed.

Lemma mps_inv_connect_failed (err : string) (st : MPS.State) :
  mps_inv st -> mps_inv (MPS.connect_failed err st).2.
Proof.
  intros Hi. unfold MPS.connect_failed.
  set (st1 := MPS._emitStatus _ _).
  assert (Hs1 : mps_inv st1) by (subst st1; mps_inv_auto). clearbody st1.
  cbv zeta.
  set (st2 := (MPS._checkWorking false _).2).
  assert (Hs2 : mps_inv st2)
    by (subst st2; apply mps_inv_checkWorking, mps_inv_clearVarsValue, Hs1).
  clearbody st2. cbn [snd]. apply mps_inv_record; [exact I |].
  destruct (MPS.socket st2) as [sk|]; [| exact Hs2].
  unfold MPS.teardown. mps_inv_auto.
Qed.

Lemma mps_inv_connect (env : MPS.ConnectEnv) (st : MPS.State) :
  mps_inv st -> mps_inv (MPS.connect env st).2.
Proof.
  intros Hi. unfold MPS.connect.
  pose proof (mps_inv_checkWorking true st Hi) as Hc.
  destruct (MPS._checkWorking true st) as [[|] st1]; cbn [snd] in *;
    [| exact Hc].
  set (st2 := MPS.logger _ _ st1).
  assert (Hs2 : mps_inv st2) by (subst st2; mps_inv_auto). clearbody st2.
  cbv zeta.
  set (st3 := MPS.record SockConnect _).
  assert (Hs3 : mps_inv st3) by (subst st3; mps_inv_auto). clearbody st3.
  destruct (MPS.tcp env).
  - cbn [snd]. apply mps_inv_checkWorking. mps_inv_auto.
  - apply mps_inv_connect_failed. mps_inv_auto.
  - apply mps_inv_connect_failed, Hs3.
Qed.

Lemma mps_inv_disconnect (st : MPS.State) :
  mps_inv st -> mps_inv (MPS.disconnect st).2.
Proof.
  intros Hi. unfold MPS.disconnect, MPS.disconnect_finally.
  set (st0 := MPS.disconnect_try st).
  assert (Hs0 : mps_inv st0).
  { subst st0. unfold MPS.disconnect_try.
    pose proof (mps_inv_checkWorking false st Hi) as Hc.
    set (st1 := (MPS._checkWorking false st).2) in *. clearbody st1.
    cbv zeta. destruct (MPS.socket st1) as [sk|]; [| exact Hc].
    unfold MPS.send_close.
    destruct (throws_write sk);
      destruct (throws_removeAllListeners sk);
      destruct (throws_destroy sk); mps_inv_auto. }
  clearbody st0. cbv zeta. cbn [snd].
  apply mps_inv_clearVarsValue. mps_inv_auto.
Qed.

Lemma mps_inv_perform `{Codec} `{Json} `{DeviceUtils} `{Runtime} (st : MPS.State)
    (c : MPS.Call) :
  mps_inv st -> mps_inv (MPS.perform st c).
Proof.
  intros Hi. destruct c; cbn [MPS.perform].
  - apply mps_inv_connect, Hi.
  - apply mps_inv_disconnect, Hi.
  - apply mps_inv_polling, Hi.
  - unfold MPS.load. apply mps_inv_record; [exact I |].
    apply mps_inv_set_varsValue; [apply cache_unchanged_empty |].
    mps_inv_auto.
  - unfold MPS.bindAddDaq. mps_inv_auto.
Qed.

Lemma mps_inv_after `{Codec} `{Json} `{DeviceUtils} `{Runtime}
    (tags : list (string * Tag)) (history : list MPS.Call) :
  mps_inv (MPS.after tags history).
Proof.
  unfold MPS.after.
  generalize (mps_inv_initial tags). generalize (MPS.initial tags).
  induction history as [|c rest IH]; intros st Hi; [exact Hi |].
  cbn [fold_left]. apply IH, mps_inv_perform, Hi.
Qed.

(** ** The EasyDrv resolver *)

Lemma split_dot_nonempty (s : string) : split_dot s <> [].
Proof.
  destruct s as [|c s]; cbn [split_dot]; [discriminate |].
  destruct (Ascii.eqb c "."); [discriminate |].
  destruct (split_dot s); discriminate.
Qed.

Lemma split_dot_no_dot (s : string) :
  index_of_dot s = None -> split_dot s = [s].
Proof.
  induction s as [|c s IH]; [reflexivity |].
  cbn [index_of_dot split_dot].
  destruct (Ascii.eqb c "."); [discriminate |].
  destruct (index_of_dot s); [discriminate |].
  intros _. rewrite IH by reflexivity. reflexivity.
Qed.

Lemma split_dot_leading_dot (s : string) :
  index_of_dot s = Some 0%nat -> exists rest, split_dot s = "" :: rest.
Proof.
  destruct s as [|c s]; [discriminate |].
  cbn [index_of_dot split_dot].
  destruct (Ascii.eqb c "."); [eauto |].
  destruct (index_of_dot s); discriminate.
Qed.

(** The names Object.prototype answers to hold no dot. *)
Lemma object_prototype_get_name (k : string) (proto : JsVal) :
  object_prototype_get k proto <> JUndefined -> index_of_dot k = None.
Proof.
  unfold object_prototype_get.
  destruct (String.eqb_spec k "__proto__") as [-> | _]; [reflexivity |].
  destruct (String.eqb_spec k "constructor") as [-> | _]; [reflexivity |].
  destruct (bool_decide_reflect (k ∈ object_prototype_methods)) as [Hin | _];
    [| congruence].
  intros _. unfold object_prototype_methods in Hin.
  repeat (apply elem_of_cons in Hin as [-> | Hin]; [reflexivity |]).
  apply elem_of_nil in Hin. destruct Hin.
Qed.

(** In a well-shaped [luaState] the only property of its own is [t], an
    object; every other name is answered by Object.prototype. *)
Lemma shape_getProp `{Runtime} (ls : JsVal) (k : string) :
  lua_state_shape ls ->
  exists c, getProp ls k = Some c
            /\ ((k = "t" /\ container c = true)
                \/ c = object_prototype_get k (JBuiltin ObjectPrototype)).
Proof.
  intros [-> | [t [-> Ht]]]; cbn.
  - eauto.
  - destruct (String.eqb_spec k "t") as [-> | Hne]; cbn; eauto.
Qed.

Lemma shape_truthy (ls : JsVal) :
  lua_state_shape ls -> truthy ls = true /\ is_object_type ls = true.
Proof. intros [-> | [t [-> _]]]; split; reflexivity. Qed.

Lemma shape_no_property `{Runtime} (ls : JsVal) (k : string) :
  lua_state_shape ls -> k <> "t" ->
  object_prototype_get k (JBuiltin ObjectPrototype) = JUndefined ->
  getProp ls k = Some JUndefined.
Proof.
  intros Hs Hk Hu. destruct (shape_getProp ls k Hs) as [c [Hc [[E _] | ->]]];
    [contradiction |].
  rewrite Hc, Hu. reflexivity.
Qed.

Lemma container_not_scalar (c : JsVal) :
  container c = true -> is_scalar c = false /\ is_undefined c = false
                        /\ is_object_type c = true.
Proof.
  unfold container. intros Hc. apply andb_true_iff in Hc as [Ht Ho].
  destruct c; try discriminate; repeat split; try reflexivity; exact Ho.
Qed.

(** The EasyDrv resolver on a well-shaped [luaState]: the value at the
    dotted path when it passes the exit test, or undefined; it never
    raises. *)
Lemma easydrv_resolve_spec `{Runtime} (ls : JsVal) (tag : Tag) :
  lua_state_shape ls ->
  exists r,
    EasyDrv._resolveTagValue ls tag = Some r
    /\ (r = JUndefined \/ passes_exit r = true)
    /\ (forall x, passes_exit x = true ->
          r = x <-> at_path ls (split_dot (tag_addr tag)) x).
Proof.
  intros Hshape. unfold EasyDrv._resolveTagValue. cbv zeta.
  set (addr := tag_addr tag).
  destruct (shape_truthy ls Hshape) as [Hlt Hlo].
  destruct (shape_getProp ls addr Hshape) as [direct [Hd Hdirect]].
  rewrite Hd. cbn -[resolve_from getProp].
  fold (passes_exit direct).
  destruct (passes_exit direct) eqn:Hfirst.
  - (* the direct key *)
    exists direct. split; [reflexivity | split; [right; exact Hfirst |]].
    assert (Hsplit : split_dot addr = [addr]).
    { apply split_dot_no_dot.
      destruct Hdirect as [[_ Hc] | ->].
      - apply container_not_scalar in Hc as (_ & _ & Ho).
        apply passes_exit_facts in Hfirst as (_ & Ho' & _). congruence.
      - eapply object_prototype_get_name.
        apply passes_exit_facts in Hfirst as (Hne & _). exact Hne. }
    rewrite Hsplit. intros x Hx. split.
    + intros <-. eapply at_step; [exact Hlt | exact Hlo | exact Hd | |].
      * apply passes_exit_facts in Hfirst as (Hne & _). exact Hne.
      * constructor.
    + intros Hp. apply at_path_cons_inv in Hp as (c & _ & _ & Hg & _ & Hend).
      inversion Hend; subst. congruence.
  - assert (Htags : getProp ls "tags" = Some JUndefined)
      by (apply shape_no_property; [exact Hshape | discriminate
                                   | reflexivity]).
    assert (Hnone : forall parts,
               (forall x, passes_exit x = true -> ~ at_path ls parts x) ->
               exists r,
                 Some JUndefined = Some r
                 /\ (r = JUndefined \/ passes_exit r = true)
                 /\ (forall x, passes_exit x = true ->
                        r = x <-> at_path ls parts x)).
    { intros parts Hno. exists JUndefined.
      split; [reflexivity | split; [left; reflexivity |]].
      intros x Hx. split.
      - intros <-. discriminate Hx.
      - intros Hp. destruct (Hno x Hx Hp). }
    unfold dot_after_first.
    destruct (index_of_dot addr) as [[|n]|] eqn:Hdot.
    + (* a dot at index 0: the bracket path *)
      rewrite Htags. cbn. apply Hnone. intros x Hx Hp.
      destruct (split_dot_leading_dot addr Hdot) as [rest Hs].
      rewrite Hs in Hp.
      apply at_path_cons_inv in Hp as (c & _ & _ & Hg & Hc & _).
      rewrite (shape_no_property ls "" Hshape) in Hg;
        [congruence | discriminate | reflexivity].
    + (* a dot further on: the dotted path *)
      apply resolve_from_spec.
    + (* no dot: the bracket path *)
      rewrite Htags. cbn. apply Hnone. intros x Hx Hp.
      rewrite (split_dot_no_dot addr Hdot) in Hp.
      apply at_path_cons_inv in Hp as (c & _ & _ & Hg & Hc & Hend).
      assert (Hcx : c = x) by (inversion Hend; reflexivity).
      assert (Hcd : c = direct) by congruence.
      congruence.
Qed.

(** Whatever the runtime, a path can end on a property every object
    inherits: the function [Object] under [constructor]. *)
Lemma inherited_constructor_resolves `{Runtime} :
  EasyDrv._resolveTagValue (JObject []) (make_tag "c" "constructor" "number")
  = Some (JBuiltin (BuiltinFunction "Object"))
  /\ MPS._resolveTagValue
       [("Dev", JObject [("Units",
                          JObject [("u1",
                                    JObject [("State", JString "Run")])])])]
       (make_tag "c" "Dev.u1.constructor" "string")
     = Some (JBuiltin (BuiltinFunction "Object")).
Proof. split; reflexivity. Qed.




Example resolve_examples :
  EasyDrv._resolveTagValue sample_lua_state (make_tag "ST" "t.V1.ST" "number")
  = Some (JNumber 1)
  /\ EasyDrv._resolveTagValue sample_lua_state (make_tag "V1" "t.V1" "number")
     = Some JUndefined
  /\ EasyDrv._resolveTagValue sample_lua_state (make_tag "x" "t.V2.ST" "number")
     = Some JUndefined
  /\ MPS._resolveTagValue
       [("Dev", JObject [("Units", JObject [("u1", JObject
                              [("State", JString "Run");
                               ("Properties", JObject [("ST", JNull)])])])])]
       (make_tag "State" "Dev.u1.State" "string")
     = Some (JString "Run")
  /\ MPS._resolveTagValue
       [("Dev", JObject [("Units", JObject [("u1", JObject
                              [("State", JString "Run");
                               ("Properties", JObject [("ST", JNull)])])])])]
       (make_tag "ST" "Dev.u1.Properties.ST" "string")
     = Some JUndefined.
Proof. repeat split. Qed.

(* ===================================================================== *)
(** * C10: the changed flag outside the cycle *)
(* ===================================================================== *)

Lemma events_ok_emitted (trace : list Event) (values : Cache) :
  Forall event_ok trace -> In (EmitValues values) trace ->
  cache_unchanged values.
Proof.
  intros Hf Hin. rewrite List.Forall_forall in Hf. exact (Hf _ Hin).
Qed.

(** What one successful iteration of the tag loop does with the flag. *)
Lemma tag_step_transient `{DeviceUtils} (resolve : Tag -> option JsVal)
    (addDaq : bool) (timestamp : Z) (c : Cycle) (id : string) (tag : Tag)
    (rawValue value : JsVal) :
  resolve tag = Some rawValue -> is_undefined rawValue = false ->
  tagValueCompose rawValue (previous_value (c_vars c) id) tag = inl value ->
  let sample :=
    {| s_id := id; s_value := value; s_rawValue := rawValue;
       s_type := tag_type tag;
       s_changed := tag_changed (c_vars c) id value;
       s_timestamp := timestamp; s_daq := tag_daq tag |} in
  let c' := tag_step resolve addDaq timestamp c (id, tag) in
  c_vars c' !! id = Some (set_changed false sample)
  /\ (id ∈ c_changed c' <->
      id ∈ c_changed c \/ addDaq && tagDaqToSave sample timestamp = true).
Proof.
  intros Hr Hu Hc. cbv zeta. unfold tag_step. cbn [fst snd].
  rewrite Hr, Hu, Hc. cbn [c_vars c_changed]. split.
  - rewrite lookup_alter_eq, lookup_insert_eq. reflexivity.
  - destruct (addDaq && tagDaqToSave _ timestamp); split.
    + intros _. right. reflexivity.
    + intros _. apply elem_of_union_l, elem_of_singleton. reflexivity.
    + intros Hin. left. exact Hin.
    + intros [Hin | Hf]; [exact Hin | discriminate].
Qed.

(** C10.  In every state a driver reaches -- in particular right after
    every polling() call -- every entry of the value cache has
    [changed === false], and so had every sample carried by a
    'device-value:changed' event (and by a DAQ hand-off) when it was
    emitted; getValues() returns that cache.  Inside the cycle the flag is
    computed ([tag_changed]) and seen by [tagDaqToSave] on the sample just
    built, and the entry left in the cache is that sample with the flag
    reset to false. *)
Theorem changed_flag_is_false_outside_the_cycle
    `{Zlib} `{Codec} `{Json} `{Fengari} `{DeviceUtils} `{Runtime} :
  (forall tags history env now,
      let st := MPS.polling env now (MPS.after tags history) in
      cache_unchanged (MPS.getValues st)
      /\ (forall values, In (EmitValues values) (MPS.trace st) ->
                         cache_unchanged values))
  /\ (forall tags history,
      let st := MPS.after tags history in
      cache_unchanged (MPS.getValues st)
      /\ (forall values, In (EmitValues values) (MPS.trace st) ->
                         cache_unchanged values)
      /\ (forall changed, In (AddDaq changed) (MPS.trace st) ->
                          cache_unchanged changed))
  /\ (forall tags name history inc now,
      let st := EasyDrv.polling inc now (EasyDrv.after tags name history) in
      cache_unchanged (EasyDrv.getValues st)
      /\ (forall values, In (EmitValues values) (EasyDrv.trace st) ->
                         cache_unchanged values))
  /\ (forall tags name history,
      let st := EasyDrv.after tags name history in
      cache_unchanged (EasyDrv.getValues st)
      /\ (forall values, In (EmitValues values) (EasyDrv.trace st) ->
                         cache_unchanged values)
      /\ (forall changed, In (AddDaq changed) (EasyDrv.trace st) ->
                          cache_unchanged changed))
  /\ (forall resolve addDaq timestamp c id tag rawValue value,
      resolve tag = Some rawValue -> is_undefined rawValue = false ->
      tagValueCompose rawValue (previous_value (c_vars c) id) tag
      = inl value ->
      let sample :=
        {| s_id := id; s_value := value; s_rawValue := rawValue;
           s_type := tag_type tag;
           s_changed := tag_changed (c_vars c) id value;
           s_timestamp := timestamp; s_daq := tag_daq tag |} in
      let c' := tag_step resolve addDaq timestamp c (id, tag) in
      c_vars c' !! id = Some (set_changed false sample)
      /\ (id ∈ c_changed c' <->
          id ∈ c_changed c
          \/ addDaq && tagDaqToSave sample timestamp = true)).
Proof.
  split; [| split; [| split; [| split]]].
  - intros tags history env now st.
    destruct (mps_inv_polling env now _ (mps_inv_after tags history))
      as [Hv Ht].
    split; [exact Hv |]. intros values. apply events_ok_emitted, Ht.
  - intros tags history st.
    destruct (mps_inv_after tags history) as [Hv Ht].
    split; [exact Hv | split].
    + intros values. apply events_ok_emitted, Ht.
    + intros changed Hin. rewrite List.Forall_forall in Ht.
      exact (Ht _ Hin).
  - intros tags name history inc now st.
    destruct (easydrv_inv_polling inc now _
                (easydrv_inv_after tags name history)) as (Hv & Ht & _).
    split; [exact Hv |]. intros values. apply events_ok_emitted, Ht.
  - intros tags name history st.
    destruct (easydrv_inv_after tags name history) as (Hv & Ht & _).
    split; [exact Hv | split].
    + intros values. apply events_ok_emitted, Ht.
    + intros changed Hin. rewrite List.Forall_forall in Ht.
      exact (Ht _ Hin).
  - intros resolve addDaq timestamp c id tag rawValue value.
    apply tag_step_transient.
Qed.

(** A first read of a tag with DAQ on change: the flag is true when
    [tagDaqToSave] looks, the sample is collected for the DAQ, and the
    cached entry has the flag false. *)
Lemma changed_flag_is_false_outside_the_cycle_witness :
  let tag := make_tag "ST" "t.V1.ST" "number" in
  let c := {| c_vars := ∅; c_changed := ∅; c_log := [] |} in
  let c' := @tag_step utils_plain (EasyDrv._resolveTagValue sample_lua_state)
              true 1000 c ("id1", tag) in
  c_vars c' !! "id1"
  = Some {| s_id := "id1"; s_value := JNumber 1; s_rawValue := JNumber 1;
            s_type := "number"; s_changed := false; s_timestamp := 1000;
            s_daq := daq_on_change |}
  /\ ("id1" ∈ c_changed c' <->
      "id1" ∈ (∅ : gset string) \/ true = true).
Proof.
  cbv zeta.
  exact (proj2 (proj2 (proj2 (proj2
           (@changed_flag_is_false_outside_the_cycle
              zlib_plain codec_plain json_none fengari_cyclic utils_plain runtime_plain))))
           (EasyDrv._resolveTagValue sample_lua_state) true 1000
           {| c_vars := ∅; c_changed := ∅; c_log := [] |} "id1"
           (make_tag "ST" "t.V1.ST" "number") (JNumber 1) (JNumber 1)
           eq_refl eq_refl eq_refl).
Defined.

(* ===================================================================== *)
(** * C6: disconnect() from any state *)
(* ===================================================================== *)



Lemma mps_checkWorking_false (st : MPS.State) :
  MPS._checkWorking false st
  = (true, MPS.set_overloading 0 (MPS.set_working false st)).
Proof. reflexivity. Qed.

Lemma easydrv_checkWorking_false (st : EasyDrv.State) :
  EasyDrv._checkWorking false st
  = (true, EasyDrv.set_overloading 0 (EasyDrv.set_working false st)).
Proof. reflexivity. Qed.

(** A trace that continues an older one. *)
Definition extends (new old : list Event) : Prop :=
  exists events, new = events ++ old.



Lemma extends_trans (a b c : list Event) :
  extends a b -> extends b c -> extends a c.
Proof. intros [x ->] [y ->]. exists (x ++ y). apply app_assoc. Qed.





(* ===================================================================== *)
(** * C5: a failing tag does not disturb the cycle *)
(* ===================================================================== *)

(** The iteration for [tag] fails when run on the cache [vars]: resolving
    raises, or composing the resolved value does. *)
Definition tag_fails `{DeviceUtils} (resolve : Tag -> option JsVal)
    (vars : Cache) (id : string) (tag : Tag) (err : string) : Prop :=
  (resolve tag = None /\ err = "TypeError")
  \/ exists rawValue,
       resolve tag = Some rawValue /\ is_undefined rawValue = false
       /\ tagValueCompose rawValue (previous_value vars id) tag = inr err.

(** The same cycle variables over an older log. *)
Definition with_older (older : list Event) (c : Cycle) : Cycle :=
  {| c_vars := c_vars c; c_changed := c_changed c;
     c_log := c_log c ++ older |}.

(** The events of a trace that are not log lines. *)
Definition non_log_events (trace : list Event) : list Event :=
  List.filter (fun e => match e with Log _ _ => false | _ => true end) trace.

Section Isolation.
Context `{DeviceUtils}.
Variable resolve : Tag -> option JsVal.
Variable addDaq : bool.
Variable timestamp : Z.

Lemma tag_step_failing (c : Cycle) (id : string) (tag : Tag) (err : string) :
  tag_fails resolve (c_vars c) id tag err ->
  tag_step resolve addDaq timestamp c (id, tag) = read_tag_error c tag err.
Proof.
  unfold tag_step. cbn [fst snd].
  intros [[-> ->] | (raw & -> & -> & ->)]; reflexivity.
Qed.

(** The loop neither reads the log nor rewrites it: it only adds to it. *)
Lemma tag_step_older (older : list Event) (c : Cycle)
    (entry : string * Tag) :
  tag_step resolve addDaq timestamp (with_older older c) entry
  = with_older older (tag_step resolve addDaq timestamp c entry).
Proof.
  unfold tag_step, with_older, read_tag_error. cbn [c_vars c_changed c_log].
  repeat case_match; reflexivity.
Qed.

Lemma tag_loop_older (tags : list (string * Tag)) (older : list Event)
    (c : Cycle) :
  tag_loop resolve addDaq timestamp tags (with_older older c)
  = with_older older (tag_loop resolve addDaq timestamp tags c).
Proof.
  revert c. unfold tag_loop.
  induction tags as [|entry rest IH]; intros c; [reflexivity |].
  cbn [fold_left]. rewrite tag_step_older. apply IH.
Qed.

(** With the failing tag in the list, the loop ends with the cache and the
    DAQ set it ends with when the tag is left out, and with one more log
    line. *)
Lemma tag_loop_isolates (before after : list (string * Tag)) (c : Cycle)
    (id : string) (tag : Tag) (err : string) :
  tag_fails resolve
    (c_vars (tag_loop resolve addDaq timestamp before c)) id tag err ->
  let with_tag :=
    tag_loop resolve addDaq timestamp (before ++ (id, tag) :: after) c in
  let without :=
    tag_loop resolve addDaq timestamp (before ++ after) c in
  c_vars with_tag = c_vars without
  /\ c_changed with_tag = c_changed without
  /\ exists newer older,
       c_log with_tag
       = newer ++ Log LError (MsgReadTagError (tag_name tag) err) :: older
       /\ c_log without = newer ++ older.
Proof.
  intros Hfail. cbv zeta. unfold tag_loop.
  rewrite !fold_left_app. cbn [fold_left].
  fold (tag_loop resolve addDaq timestamp before c).
  set (c1 := tag_loop resolve addDaq timestamp before c) in *.
  rewrite (tag_step_failing c1 id tag err Hfail).
  fold (tag_loop resolve addDaq timestamp after (read_tag_error c1 tag err)).
  fold (tag_loop resolve addDaq timestamp after c1).
  set (bare := {| c_vars := c_vars c1; c_changed := c_changed c1;
                  c_log := [] |}).
  assert (E2 : tag_loop resolve addDaq timestamp after c1
               = with_older (c_log c1)
                   (tag_loop resolve addDaq timestamp after bare)).
  { rewrite <- tag_loop_older. f_equal. destruct c1; reflexivity. }
  assert (E3 : tag_loop resolve addDaq timestamp after
                 (read_tag_error c1 tag err)
               = with_older
                   (Log LError (MsgReadTagError (tag_name tag) err)
                      :: c_log c1)
                   (tag_loop resolve addDaq timestamp after bare)).
  { rewrite <- tag_loop_older. reflexivity. }
  rewrite E2, E3. cbn [with_older c_vars c_changed c_log].
  split; [reflexivity | split; [reflexivity |]].
  exists (c_log (tag_loop resolve addDaq timestamp after bare)), (c_log c1).
  split; reflexivity.
Qed.
End Isolation.

Lemma non_log_events_app (a b : list Event) :
  non_log_events (a ++ b) = non_log_events a ++ non_log_events b.
Proof. apply List.filter_app. Qed.

(** The events that end a cycle, oldest last: the value event, the DAQ
    hand-off when something was collected, the status event when the last
    status was not 'connect-ok'. *)
Definition cycle_events (addDaq : bool) (lastStatus : string)
    (c : Cycle) : list Event :=
  (if negb (String.eqb lastStatus "connect-ok")
   then [EmitStatus "connect-ok"] else [])
  ++ (if addDaq && negb (isEmptyObject (c_changed c))
      then [AddDaq (changed_object (c_vars c) (c_changed c))] else [])
  ++ [EmitValues (c_vars c)].

Lemma mps_poll_cycle_effect `{DeviceUtils} `{Runtime} (timestamp : Z) (st : MPS.State) :
  let c := tag_loop (MPS._resolveTagValue (MPS.deviceStates st))
             (MPS.addDaq st) timestamp (MPS.tags st)
             {| c_vars := MPS.varsValue st; c_changed := ∅; c_log := [] |} in
  let st' := MPS.poll_cycle timestamp st in
  MPS.varsValue st' = c_vars c
  /\ MPS.trace st'
     = cycle_events (MPS.addDaq st) (MPS.lastStatus st) c
         ++ c_log c ++ MPS.trace st
  /\ MPS.errRetryCount st' = 0
  /\ MPS.lastTimestampValue st' = Some timestamp.
Proof.
  cbv zeta. unfold MPS.poll_cycle, cycle_events.
  set (c := tag_loop _ _ _ _ _). cbv zeta. cbn.
  destruct (MPS.addDaq st && negb (isEmptyObject (c_changed c)));
    cbn; destruct (negb (String.eqb (MPS.lastStatus st) "connect-ok"));
    cbn; repeat split; reflexivity.
Qed.

Lemma easydrv_poll_cycle_effect `{DeviceUtils} `{Runtime} (timestamp : Z)
    (st : EasyDrv.State) :
  let c := tag_loop (EasyDrv._resolveTagValue (EasyDrv.luaState st))
             (EasyDrv.addDaq st) timestamp (EasyDrv.tags st)
             {| c_vars := EasyDrv.varsValue st; c_changed := ∅;
                c_log := [] |} in
  let st' := EasyDrv.poll_cycle timestamp st in
  EasyDrv.varsValue st' = c_vars c
  /\ EasyDrv.trace st'
     = cycle_events (EasyDrv.addDaq st) (EasyDrv.lastStatus st) c
         ++ c_log c ++ EasyDrv.trace st
  /\ EasyDrv.errRetryCount st' = 0
  /\ EasyDrv.lastTimestampValue st' = Some timestamp.
Proof.
  cbv zeta. unfold EasyDrv.poll_cycle, cycle_events.
  set (c := tag_loop _ _ _ _ _). cbv zeta. cbn.
  destruct (EasyDrv.addDaq st && negb (isEmptyObject (c_changed c)));
    cbn; destruct (negb (String.eqb (EasyDrv.lastStatus st) "connect-ok"));
    cbn; repeat split; reflexivity.
Qed.

Lemma cycle_events_eq (addDaq : bool) (lastStatus : string) (c c' : Cycle) :
  c_vars c = c_vars c' -> c_changed c = c_changed c' ->
  cycle_events addDaq lastStatus c = cycle_events addDaq lastStatus c'.
Proof. unfold cycle_events. intros -> ->. reflexivity. Qed.

Lemma non_log_events_isolated (head newer older rest : list Event)
    (m : LogMsg) :
  non_log_events (head ++ (newer ++ Log LError m :: older) ++ rest)
  = non_log_events (head ++ (newer ++ older) ++ rest).
Proof.
  rewrite !non_log_events_app. cbn [non_log_events List.filter].
  reflexivity.
Qed.

(** C5.  Inside the cycle a failure on one tag -- its address resolution
    raising, or tagValueCompose failing on its value -- is caught and
    logged for that tag alone.  The failing iteration leaves the cache and
    the DAQ set as they were and adds one error line; the loop over all the
    configured tags ends with the cache and the DAQ set it ends with when
    the failing tag is not configured at all; and the cycle of either
    driver completes: same cache, the same value event, DAQ hand-off and
    status event in the same order (the traces differ in that one log line
    only), the error counter reset to 0. *)
Theorem tag_failure_is_isolated `{DeviceUtils} `{Runtime} :
  (forall resolve addDaq timestamp c id tag err,
      tag_fails resolve (c_vars c) id tag err ->
      tag_step resolve addDaq timestamp c (id, tag)
      = {| c_vars := c_vars c; c_changed := c_changed c;
           c_log := Log LError (MsgReadTagError (tag_name tag) err)
                      :: c_log c |})
  /\ (forall resolve addDaq timestamp before after c id tag err,
      tag_fails resolve
        (c_vars (tag_loop resolve addDaq timestamp before c)) id tag err ->
      let with_tag :=
        tag_loop resolve addDaq timestamp (before ++ (id, tag) :: after) c in
      let without :=
        tag_loop resolve addDaq timestamp (before ++ after) c in
      c_vars with_tag = c_vars without
      /\ c_changed with_tag = c_changed without
      /\ exists newer older,
           c_log with_tag
           = newer ++ Log LError (MsgReadTagError (tag_name tag) err)
               :: older
           /\ c_log without = newer ++ older)
  /\ (forall timestamp st before after id tag err,
      MPS.tags st = before ++ (id, tag) :: after ->
      tag_fails (MPS._resolveTagValue (MPS.deviceStates st))
        (c_vars (tag_loop (MPS._resolveTagValue (MPS.deviceStates st))
                   (MPS.addDaq st) timestamp before
                   {| c_vars := MPS.varsValue st; c_changed := ∅;
                      c_log := [] |}))
        id tag err ->
      let with_tag := MPS.poll_cycle timestamp st in
      let without :=
        MPS.poll_cycle timestamp (MPS.set_tags (before ++ after) st) in
      MPS.varsValue with_tag = MPS.varsValue without
      /\ non_log_events (MPS.trace with_tag)
         = non_log_events (MPS.trace without)
      /\ In (EmitValues (MPS.varsValue with_tag)) (MPS.trace with_tag)
      /\ In (Log LError (MsgReadTagError (tag_name tag) err))
           (MPS.trace with_tag)
      /\ MPS.errRetryCount with_tag = 0)
  /\ (forall timestamp st before after id tag err,
      EasyDrv.tags st = before ++ (id, tag) :: after ->
      tag_fails (EasyDrv._resolveTagValue (EasyDrv.luaState st))
        (c_vars (tag_loop (EasyDrv._resolveTagValue (EasyDrv.luaState st))
                   (EasyDrv.addDaq st) timestamp before
                   {| c_vars := EasyDrv.varsValue st; c_changed := ∅;
                      c_log := [] |}))
        id tag err ->
      let with_tag := EasyDrv.poll_cycle timestamp st in
      let without :=
        EasyDrv.poll_cycle timestamp
          (EasyDrv.set_tags (before ++ after) st) in
      EasyDrv.varsValue with_tag = EasyDrv.varsValue without
      /\ non_log_events (EasyDrv.trace with_tag)
         = non_log_events (EasyDrv.trace without)
      /\ In (EmitValues (EasyDrv.varsValue with_tag))
           (EasyDrv.trace with_tag)
      /\ In (Log LError (MsgReadTagError (tag_name tag) err))
           (EasyDrv.trace with_tag)
      /\ EasyDrv.errRetryCount with_tag = 0).
Proof.
  split; [| split; [| split]].
  - intros resolve addDaq timestamp c id tag err.
    apply tag_step_failing.
  - intros resolve addDaq timestamp before after c id tag err.
    apply tag_loop_isolates.
  - intros timestamp st before after id tag err Htags Hfail. cbv zeta.
    destruct (mps_poll_cycle_effect timestamp st) as (Hv & Ht & He & _).
    destruct (mps_poll_cycle_effect timestamp
                (MPS.set_tags (before ++ after) st)) as (Hv' & Ht' & _).
    cbv zeta in *. rewrite Htags in *.
    cbn [MPS.deviceStates MPS.addDaq MPS.tags MPS.varsValue MPS.lastStatus
         MPS.trace MPS.set_tags] in Hv', Ht'.
    destruct (tag_loop_isolates _ _ timestamp before after _ id tag err
                Hfail) as (Ev & Ec & newer & older & El & El').
    cbv zeta in *.
    rewrite Hv, Hv', Ht, Ht', El, El'.
    rewrite (cycle_events_eq _ _ _ _ Ev Ec).
    split; [exact Ev | split; [apply non_log_events_isolated | split;
                                 [| split; [| exact He]]]].
    + apply in_or_app. left. unfold cycle_events.
      apply in_or_app. right. apply in_or_app. right. rewrite Ev.
      left. reflexivity.
    + apply in_or_app. right. apply in_or_app. left.
      apply in_or_app. right. left. reflexivity.
  - intros timestamp st before after id tag err Htags Hfail. cbv zeta.
    destruct (easydrv_poll_cycle_effect timestamp st) as (Hv & Ht & He & _).
    destruct (easydrv_poll_cycle_effect timestamp
                (EasyDrv.set_tags (before ++ after) st)) as (Hv' & Ht' & _).
    cbv zeta in *. rewrite Htags in *.
    cbn [EasyDrv.luaState EasyDrv.addDaq EasyDrv.tags EasyDrv.varsValue
         EasyDrv.lastStatus EasyDrv.trace EasyDrv.set_tags] in Hv', Ht'.
    destruct (tag_loop_isolates _ _ timestamp before after _ id tag err
                Hfail) as (Ev & Ec & newer & older & El & El').
    cbv zeta in *.
    rewrite Hv, Hv', Ht, Ht', El, El'.
    rewrite (cycle_events_eq _ _ _ _ Ev Ec).
    split; [exact Ev | split; [apply non_log_events_isolated | split;
                                 [| split; [| exact He]]]].
    + apply in_or_app. left. unfold cycle_events.
      apply in_or_app. right. apply in_or_app. right. rewrite Ev.
      left. reflexivity.
    + apply in_or_app. right. apply in_or_app. left.
      apply in_or_app. right. left. reflexivity.
Qed.

Lemma tag_failure_is_isolated_witness :
  let with_tag := @EasyDrv.poll_cycle utils_plain runtime_plain 1000 easydrv_three_tags in
  let without :=
    @EasyDrv.poll_cycle utils_plain runtime_plain 1000
      (EasyDrv.set_tags
         ([("a", make_tag "A" "t.V1.ST" "number")]
            ++ [("c", make_tag "C" "t.V1.ST" "number")])
         easydrv_three_tags) in
  EasyDrv.varsValue with_tag = EasyDrv.varsValue without
  /\ non_log_events (EasyDrv.trace with_tag)
     = non_log_events (EasyDrv.trace without)
  /\ In (EmitValues (EasyDrv.varsValue with_tag)) (EasyDrv.trace with_tag)
  /\ In (Log LError (MsgReadTagError "B" "type mismatch"))
       (EasyDrv.trace with_tag)
  /\ EasyDrv.errRetryCount with_tag = 0.
Proof.
  refine (proj2 (proj2 (proj2 (@tag_failure_is_isolated utils_plain runtime_plain)))
            1000 easydrv_three_tags
            [("a", make_tag "A" "t.V1.ST" "number")]
            [("c", make_tag "C" "t.V1.ST" "number")]
            "b" (make_tag "B" "t.V1.ST" "bad") "type mismatch" eq_refl _).
  right. exists (JNumber 1).
  split; [reflexivity | split; [reflexivity |]].
  vm_compute. reflexivity.
Defined.

(* ===================================================================== *)
(** * C1: the overload guard *)
(* ===================================================================== *)

Lemma mps_rejected (st : MPS.State) :
  MPS.working st = true ->
  MPS._checkWorking true st
  = (false,
     if 3 <=? MPS.overloading st + 1
     then MPS.set_overloading 0
            (MPS.logger LWarn MsgOverload (MPS._emitStatus "connect-busy" st))
     else MPS.set_overloading (MPS.overloading st + 1) st).
Proof.
  intros Hw. unfold MPS._checkWorking. rewrite Hw. cbn [andb].
  cbv zeta. cbn [MPS.overloading MPS.set_overloading].
  destruct (3 <=? MPS.overloading st + 1); reflexivity.
Qed.

Lemma easydrv_rejected (st : EasyDrv.State) :
  EasyDrv.working st = true ->
  EasyDrv._checkWorking true st
  = (false,
     if 3 <=? EasyDrv.overloading st + 1
     then EasyDrv.logger LWarn (MsgOverloadCount 0)
            (EasyDrv.set_overloading 0
               (EasyDrv._emitStatus "connect-busy" st))
     else EasyDrv.logger LWarn
            (MsgOverloadCount (EasyDrv.overloading st + 1))
            (EasyDrv.set_overloading (EasyDrv.overloading st + 1) st)).
Proof.
  intros Hw. unfold EasyDrv._checkWorking. rewrite Hw. cbn [andb].
  cbv zeta. cbn [EasyDrv.overloading EasyDrv.set_overloading].
  destruct (3 <=? EasyDrv.overloading st + 1); reflexivity.
Qed.

(** C1, as stated, fails in its last part: on the third consecutive
    rejection the driver emits 'connect-busy' and does nothing else.  Here a
    connected driver with a call in flight and two rejections counted
    rejects one more polling(): the socket is still there, [connected] is
    still true, the call is still marked in flight, and the only events are
    the status event and the warning -- no socket call, no 'connect-off'. *)
Lemma overload_guard_counterexample :
  (let st := @MPS.polling codec_plain json_none utils_plain runtime_plain
       poll_silent 0 mps_stuck in
   MPS.socket st = Some good_socket
   /\ MPS.connected st = true
   /\ MPS.working st = true
   /\ MPS.lastStatus st = "connect-busy"
   /\ MPS.trace st = [Log LWarn MsgOverload; EmitStatus "connect-busy"])
  /\ (let st := @EasyDrv.polling zlib_plain codec_plain fengari_cyclic
                  utils_plain runtime_plain MPS.silent 0 easydrv_stuck in
      EasyDrv.socket st = Some good_socket
      /\ EasyDrv.connected st = true
      /\ EasyDrv.working st = true
      /\ EasyDrv.lastStatus st = "connect-busy"
      /\ EasyDrv.trace st
         = [Log LWarn (MsgOverloadCount 0); EmitStatus "connect-busy"]).
Proof. cbv zeta. repeat split. Qed.

(** C1, amended.  A polling() or connect() call made while the working
    flag is set -- the flag an accepted call sets on entry and clears on
    completion -- is rejected: whatever the network would deliver, the call
    changes nothing but the rejection counter, and connect() rejects with
    'busy'.  The first two consecutive rejections count up (EasyDrvClient
    also logs a warning each time); the third emits the 'connect-busy'
    status (with a warning) and resets the counter to 0.  The driver does
    not disconnect: socket, [connected] and the working flag are as
    before. *)
Theorem overload_guard_rejects_and_signals_busy
    `{Zlib} `{Codec} `{Json} `{Fengari} `{DeviceUtils} `{Runtime} :
  (forall st, MPS.working st = false ->
              MPS._checkWorking true st = (true, MPS.set_working true st))
  /\ (forall env now cenv st,
      MPS.working st = true ->
      let rejected :=
        if 3 <=? MPS.overloading st + 1
        then MPS.set_overloading 0
               (MPS.logger LWarn MsgOverload
                  (MPS._emitStatus "connect-busy" st))
        else MPS.set_overloading (MPS.overloading st + 1) st in
      MPS.polling env now st = rejected
      /\ MPS.connect cenv st = (Rejected "busy", rejected)
      /\ MPS.socket rejected = MPS.socket st
      /\ MPS.connected rejected = MPS.connected st
      /\ MPS.working rejected = true)
  /\ (forall e1 n1 e2 n2 e3 n3 st,
      MPS.working st = true -> MPS.overloading st = 0 ->
      let s1 := MPS.polling e1 n1 st in
      let s2 := MPS.polling e2 n2 s1 in
      let s3 := MPS.polling e3 n3 s2 in
      s1 = MPS.set_overloading 1 st
      /\ s2 = MPS.set_overloading 2 st
      /\ s3 = MPS.set_overloading 0
                (MPS.logger LWarn MsgOverload
                   (MPS._emitStatus "connect-busy" st)))
  /\ (forall st, EasyDrv.working st = false ->
                 EasyDrv._checkWorking true st
                 = (true, EasyDrv.set_working true st))
  /\ (forall inc now cenv st,
      EasyDrv.working st = true ->
      let rejected :=
        if 3 <=? EasyDrv.overloading st + 1
        then EasyDrv.logger LWarn (MsgOverloadCount 0)
               (EasyDrv.set_overloading 0
                  (EasyDrv._emitStatus "connect-busy" st))
        else EasyDrv.logger LWarn
               (MsgOverloadCount (EasyDrv.overloading st + 1))
               (EasyDrv.set_overloading (EasyDrv.overloading st + 1) st) in
      EasyDrv.polling inc now st = rejected
      /\ EasyDrv.connect cenv st = (Rejected "busy", rejected)
      /\ EasyDrv.socket rejected = EasyDrv.socket st
      /\ EasyDrv.connected rejected = EasyDrv.connected st
      /\ EasyDrv.working rejected = true)
  /\ (forall i1 n1 i2 n2 i3 n3 st,
      EasyDrv.working st = true -> EasyDrv.overloading st = 0 ->
      let s1 := EasyDrv.polling i1 n1 st in
      let s2 := EasyDrv.polling i2 n2 s1 in
      let s3 := EasyDrv.polling i3 n3 s2 in
      EasyDrv.overloading s1 = 1 /\ EasyDrv.lastStatus s1 = EasyDrv.lastStatus st
      /\ EasyDrv.trace s1 = Log LWarn (MsgOverloadCount 1) :: EasyDrv.trace st
      /\ EasyDrv.overloading s2 = 2 /\ EasyDrv.lastStatus s2 = EasyDrv.lastStatus st
      /\ EasyDrv.trace s2
         = Log LWarn (MsgOverloadCount 2) :: Log LWarn (MsgOverloadCount 1)
             :: EasyDrv.trace st
      /\ EasyDrv.overloading s3 = 0 /\ EasyDrv.lastStatus s3 = "connect-busy"
      /\ EasyDrv.trace s3
         = Log LWarn (MsgOverloadCount 0) :: EmitStatus "connect-busy"
             :: Log LWarn (MsgOverloadCount 2)
             :: Log LWarn (MsgOverloadCount 1) :: EasyDrv.trace st
      /\ EasyDrv.socket s3 = EasyDrv.socket st
      /\ EasyDrv.connected s3 = EasyDrv.connected st
      /\ EasyDrv.working s3 = true).
Proof.
  split; [| split; [| split; [| split; [| split]]]].
  - intros st Hw. unfold MPS._checkWorking. rewrite Hw. reflexivity.
  - intros env now cenv st Hw. cbv zeta.
    unfold MPS.polling, MPS.connect. rewrite (mps_rejected st Hw).
    split; [reflexivity | split; [reflexivity |]].
    destruct (3 <=? MPS.overloading st + 1); cbn; auto.
  - intros e1 n1 e2 n2 e3 n3 st Hw Ho. cbv zeta.
    assert (E1 : MPS.polling e1 n1 st = MPS.set_overloading 1 st).
    { unfold MPS.polling. rewrite (mps_rejected st Hw), Ho. reflexivity. }
    rewrite E1.
    assert (E2 : MPS.polling e2 n2 (MPS.set_overloading 1 st)
                 = MPS.set_overloading 2 st).
    { unfold MPS.polling. rewrite mps_rejected by exact Hw. reflexivity. }
    rewrite E2.
    split; [reflexivity | split; [reflexivity |]].
    unfold MPS.polling. rewrite mps_rejected by exact Hw. reflexivity.
  - intros st Hw. unfold EasyDrv._checkWorking. rewrite Hw. reflexivity.
  - intros inc now cenv st Hw. cbv zeta.
    unfold EasyDrv.polling, EasyDrv.connect.
    rewrite (easydrv_rejected st Hw).
    split; [reflexivity | split; [reflexivity |]].
    destruct (3 <=? EasyDrv.overloading st + 1); cbn; auto.
  - intros i1 n1 i2 n2 i3 n3 st Hw Ho. cbv zeta.
    assert (E1 : EasyDrv.polling i1 n1 st
                 = EasyDrv.logger LWarn (MsgOverloadCount 1)
                     (EasyDrv.set_overloading 1 st)).
    { unfold EasyDrv.polling. rewrite (easydrv_rejected st Hw), Ho.
      reflexivity. }
    rewrite E1.
    assert (E2 : EasyDrv.polling i2 n2
                   (EasyDrv.logger LWarn (MsgOverloadCount 1)
                      (EasyDrv.set_overloading 1 st))
                 = EasyDrv.logger LWarn (MsgOverloadCount 2)
                     (EasyDrv.set_overloading 2
                        (EasyDrv.logger LWarn (MsgOverloadCount 1) st))).
    { unfold EasyDrv.polling. rewrite easydrv_rejected by exact Hw.
      reflexivity. }
    rewrite E2.
    unfold EasyDrv.polling. rewrite easydrv_rejected by exact Hw.
    change (3 <=? 2 + 1) with true. cbn.
    repeat split; try reflexivity; exact Hw.
Qed.

Lemma overload_guard_rejects_and_signals_busy_witness :
  MPS.working mps_stuck = true
  /\ @MPS.polling codec_plain json_none utils_plain runtime_plain
       poll_silent 0 mps_stuck
     = MPS.set_overloading 0
         (MPS.logger LWarn MsgOverload
            (MPS._emitStatus "connect-busy" mps_stuck))
  /\ EasyDrv.working easydrv_stuck = true
  /\ @EasyDrv.connect zlib_plain codec_plain fengari_cyclic runtime_plain
       {| EasyDrv.fresh_socket := good_socket; EasyDrv.tcp := TcpOpen;
          EasyDrv.handshake := true; EasyDrv.info_reply := MPS.silent;
          EasyDrv.states_reply := MPS.silent |} easydrv_stuck
     = (Rejected "busy",
        EasyDrv.logger LWarn (MsgOverloadCount 0)
          (EasyDrv.set_overloading 0
             (EasyDrv._emitStatus "connect-busy" easydrv_stuck))).
Proof.
  split; [reflexivity | split; [| split; [reflexivity |]]].
  - exact (proj1 (proj1 (proj2
             (@overload_guard_rejects_and_signals_busy
                zlib_plain codec_plain json_none fengari_cyclic utils_plain
                runtime_plain))
             poll_silent 0
             {| MPS.fresh_socket := good_socket; MPS.tcp := TcpOpen |}
             mps_stuck eq_refl)).
  - exact (proj1 (proj2 (proj1 (proj2 (proj2 (proj2 (proj2
             (@overload_guard_rejects_and_signals_busy
                zlib_plain codec_plain json_none fengari_cyclic
                utils_plain runtime_plain)))))
             MPS.silent 0
             {| EasyDrv.fresh_socket := good_socket; EasyDrv.tcp := TcpOpen;
                EasyDrv.handshake := true; EasyDrv.info_reply := MPS.silent;
                EasyDrv.states_reply := MPS.silent |}
             easydrv_stuck eq_refl))).
Defined.

(* ===================================================================== *)
(** * Frames: round trips and the error acknowledgement *)
(* ===================================================================== *)








(** X2.  An error acknowledgement (status AKN_ERR) is parsed whatever
    packet index it echoes: the parser returns the PAC error with the first
    payload byte as its code (0 when there is none), consumes exactly the
    frame, leaving what follows it in recvBuffer, and logs nothing; a
    command that receives it raises 'PAC error code N'. *)
Theorem pac_error_acknowledgement `{Zlib} :
  (forall pidx payload rest st,
      blen payload < 65536 ->
      let r := EasyDrv._tryParseResponse
                 (EasyDrv.set_recvBuffer
                    (EasyDrv.response_frame (byte_of_Z EasyDrv.AKN_ERR) pidx
                       payload ++ rest) st) in
      r.1 = Some (EasyDrv.PacError
                    match payload with [] => 0 | c :: _ => bz c end)
      /\ EasyDrv.recvBuffer r.2 = rest
      /\ EasyDrv.trace r.2 = EasyDrv.trace st
      /\ EasyDrv.packetIndex r.2 = EasyDrv.packetIndex st)
  /\ (forall cmdByte extra pidx code how st sk,
      EasyDrv.socket st = Some sk -> destroyed sk = false ->
      throws_write sk = false ->
      let inc :=
        {| chunks := [EasyDrv.response_frame (byte_of_Z EasyDrv.AKN_ERR)
                        pidx [code]];
           ending := how |} in
      (EasyDrv._sendCommand cmdByte extra inc st).1
      = inr ("PAC error code " +:+ pretty (bz code))).
Proof.
  split.
  - intros pidx payload rest st Hlen. cbv zeta.
    erewrite (easydrv_error_frame_parse pidx payload rest);
      [repeat split | exact Hlen | reflexivity].
  - intros cmdByte extra pidx code how st sk Hsk Hd Hw. cbv zeta.
    unfold EasyDrv._sendCommand, EasyDrv._sendFrame.
    cbn [EasyDrv.socket EasyDrv.set_recvBuffer]. rewrite Hsk, Hd.
    cbv zeta. cbn [EasyDrv.socket EasyDrv.set_packetIndex]. rewrite Hw.
    cbn [chunks EasyDrv.onData].
    erewrite (easydrv_error_frame_parse pidx [code] []);
      [reflexivity | vm_compute; reflexivity |].
    cbn [EasyDrv.recvBuffer EasyDrv.record EasyDrv.set_trace
         EasyDrv.set_packetIndex EasyDrv.set_recvBuffer app].
    rewrite app_nil_r. reflexivity.
Qed.

Lemma pac_error_acknowledgement_witness :
  (@EasyDrv._sendCommand zlib_plain EasyDrv.CMD_GET_STATES []
     {| chunks := [EasyDrv.response_frame (byte_of_Z EasyDrv.AKN_ERR)
                     x09 [x03]];
        ending := TimesOut |}
     (EasyDrv.set_socket (Some good_socket) (EasyDrv.initial [] ""))).1
  = inr "PAC error code 3".
Proof.
  exact (proj2 (@pac_error_acknowledgement zlib_plain)
           EasyDrv.CMD_GET_STATES [] x09 x03 TimesOut
           (EasyDrv.set_socket (Some good_socket) (EasyDrv.initial [] ""))
           good_socket eq_refl eq_refl eq_refl).
Defined.

(** ** The frame of _execCommand *)

Lemma be16_wraps (n : Z) :
  0 <= n ->
  be16 (byte_of_Z (Z.land (Z.shiftr n 8) 255)) (byte_of_Z (Z.land n 255))
  = n mod 65536.
Proof.
  intros Hn. unfold be16. rewrite !bz_byte_of_Z, !land_255.
  rewrite !Z.mod_mod by lia. rewrite Z.shiftr_div_pow2 by lia.
  change (2 ^ 8) with 256. change 65536 with (256 * 256).
  rewrite Z.rem_mul_r by lia. lia.
Qed.

Lemma exec_frame_request (cmdBytes : list byte) :
  EasyDrv.exec_frame cmdBytes
  = EasyDrv.request_frame 0
      (byte_of_Z EasyDrv.CMD_EXEC_CMD :: cmdBytes ++ [byte_of_Z 0]).
Proof.
  unfold EasyDrv.exec_frame, EasyDrv.request_frame. cbv zeta.
  replace (blen (byte_of_Z EasyDrv.CMD_EXEC_CMD :: cmdBytes ++ [byte_of_Z 0]))
    with (1 + blen cmdBytes + 1); [reflexivity |].
  unfold blen. cbn [length]. rewrite length_app. cbn [length]. lia.
Qed.

Lemma easydrv_sendFrame_result `{Zlib} (cmdData : list byte) (inc : Incoming)
    (st st' : EasyDrv.State) :
  EasyDrv.socket st' = EasyDrv.socket st ->
  EasyDrv.recvBuffer st' = EasyDrv.recvBuffer st ->
  (EasyDrv._sendFrame cmdData inc st').1 = (EasyDrv._sendFrame cmdData inc st).1
  /\ EasyDrv.packetIndex (EasyDrv._sendFrame cmdData inc st).2
     = match EasyDrv.socket st with
       | Some sk => if destroyed sk then EasyDrv.packetIndex st
                    else Z.land (EasyDrv.packetIndex st + 1) 255
       | None => EasyDrv.packetIndex st
       end.
Proof.
  intros Hs Hr. unfold EasyDrv._sendFrame. rewrite Hs.
  destruct (EasyDrv.socket st) as [sk|]; [| split; reflexivity].
  destruct (destroyed sk); [split; reflexivity |]. cbv zeta.
  destruct (throws_write sk); [split; reflexivity |].
  split.
  - match goal with
    | |- (match EasyDrv.onData _ ?a with _ => _ end).1
         = (match EasyDrv.onData _ ?b with _ => _ end).1 =>
        destruct (easydrv_onData_feed (chunks inc) a) as [Ha _];
        destruct (easydrv_onData_feed (chunks inc) b) as [Hb _];
        assert (Hab : EasyDrv.recvBuffer a = EasyDrv.recvBuffer b)
          by (cbn; exact Hr);
        rewrite Hab in Ha;
        destruct (EasyDrv.onData (chunks inc) a) as [ra sa];
        destruct (EasyDrv.onData (chunks inc) b) as [rb sb]
    end.
    cbn [fst] in Ha, Hb. rewrite Ha, Hb.
    destruct ((feed parse_buffer _ (chunks inc)).1); reflexivity.
  - match goal with
    | |- context [EasyDrv.onData _ ?a] =>
        destruct (onData_frame (chunks inc) a) as (Hp & _);
        destruct (EasyDrv.onData (chunks inc) a) as [ra sa]
    end.
    cbv zeta in Hp. cbn [snd] in Hp.
    destruct ra; cbn [snd]; rewrite Hp; reflexivity.
Qed.

(** X3.  _execCommand is fire-and-forget.  On a usable socket it writes one
    frame -- the frame _sendFrame would build for the command byte 102, the
    Lua text and a terminating NUL, but with the fixed packet index 0 --
    and changes nothing else: the next _sendFrame numbers its request and
    settles exactly as if no command had been written.  Without a usable
    socket it raises and writes nothing.  The frame is 8 bytes longer than
    the text, and its 16-bit length field holds the data length modulo
    65536. *)
Theorem exec_command_is_fire_and_forget `{Zlib} :
  (forall cmdStr st sk,
      EasyDrv.socket st = Some sk -> destroyed sk = false ->
      throws_write sk = false ->
      EasyDrv._execCommand cmdStr st
      = (inl tt,
         EasyDrv.record
           (SockWrite
              (EasyDrv.request_frame 0
                 (byte_of_Z EasyDrv.CMD_EXEC_CMD
                    :: utf8_encode cmdStr ++ [byte_of_Z 0]))) st))
  /\ (forall cmdStr st,
      socket_unusable (EasyDrv.socket st) = true ->
      EasyDrv._execCommand cmdStr st = (inr "socket not connected", st))
  /\ (forall cmdStr cmdData inc st sk,
      EasyDrv.socket st = Some sk -> destroyed sk = false ->
      let st' := (EasyDrv._execCommand cmdStr st).2 in
      (EasyDrv._sendFrame cmdData inc st').1
      = (EasyDrv._sendFrame cmdData inc st).1
      /\ EasyDrv.packetIndex (EasyDrv._sendFrame cmdData inc st').2
         = (EasyDrv.packetIndex st + 1) mod 256)
  /\ (forall cmdBytes,
      blen (EasyDrv.exec_frame cmdBytes) = 8 + blen cmdBytes
      /\ exists hi lo,
           EasyDrv.exec_frame cmdBytes !! 4%nat = Some hi
           /\ EasyDrv.exec_frame cmdBytes !! 5%nat = Some lo
           /\ be16 hi lo = (blen cmdBytes + 2) mod 65536).
Proof.
  split; [| split; [| split]].
  - intros cmdStr st sk Hsk Hd Hw. unfold EasyDrv._execCommand.
    rewrite Hsk, Hd, Hw, exec_frame_request. reflexivity.
  - intros cmdStr st Hu. unfold EasyDrv._execCommand.
    destruct (EasyDrv.socket st) as [sk|]; [| reflexivity].
    cbn in Hu. rewrite Hu. reflexivity.
  - intros cmdStr cmdData inc st sk Hsk Hd. cbv zeta.
    assert (Hsame : EasyDrv.socket (EasyDrv._execCommand cmdStr st).2
                    = EasyDrv.socket st
                    /\ EasyDrv.recvBuffer (EasyDrv._execCommand cmdStr st).2
                       = EasyDrv.recvBuffer st
                    /\ EasyDrv.packetIndex (EasyDrv._execCommand cmdStr st).2
                       = EasyDrv.packetIndex st).
    { unfold EasyDrv._execCommand. rewrite Hsk, Hd.
      destruct (throws_write sk); cbn; rewrite ?Hsk; repeat split. }
    destruct Hsame as (Hs & Hr & Hp).
    destruct (easydrv_sendFrame_result cmdData inc st
                (EasyDrv._execCommand cmdStr st).2 Hs Hr) as [Hres _].
    split; [exact Hres |].
    destruct (easydrv_sendFrame_result cmdData inc
                (EasyDrv._execCommand cmdStr st).2
                (EasyDrv._execCommand cmdStr st).2 eq_refl eq_refl)
      as [_ Hidx].
    rewrite Hidx, Hs, Hsk, Hd, Hp. apply land_255.
  - intros cmdBytes. split.
    + unfold EasyDrv.exec_frame, blen. cbv zeta. cbn [app length].
      rewrite length_app. cbn [length]. lia.
    + unfold EasyDrv.exec_frame. cbv zeta. cbn [app].
      eexists _, _. split; [reflexivity |]. split; [reflexivity |].
      pose proof (blen_nonneg cmdBytes).
      rewrite be16_wraps by lia. f_equal. lia.
Qed.

Lemma exec_command_is_fire_and_forget_witness :
  EasyDrv._execCommand "x=1" easydrv_online
  = (inl tt,
     EasyDrv.record
       (SockWrite
          (EasyDrv.request_frame 0
             (byte_of_Z EasyDrv.CMD_EXEC_CMD
                :: utf8_encode "x=1" ++ [byte_of_Z 0]))) easydrv_online)
  /\ EasyDrv.packetIndex
       (@EasyDrv._sendFrame zlib_plain [x65] MPS.silent
          (EasyDrv._execCommand "x=1" easydrv_online).2).2
     = (EasyDrv.packetIndex easydrv_online + 1) mod 256.
Proof.
  split.
  - exact (proj1 (@exec_command_is_fire_and_forget zlib_plain) "x=1"
             easydrv_online good_socket eq_refl eq_refl eq_refl).
  - exact (proj2 (proj1 (proj2 (proj2
             (@exec_command_is_fire_and_forget zlib_plain)))
             "x=1" [x65] MPS.silent easydrv_online good_socket
             eq_refl eq_refl)).
Defined.

(* ===================================================================== *)
(** * What a request leaves alone *)
(* ===================================================================== *)

(** The events of a request: frames written to the socket and log lines. *)
Definition request_event (e : Event) : Prop :=
  match e with
  | Log _ _ | SockWrite _ => True
  | _ => False
  end.

Definition request_events (new old : list Event) : Prop :=
  exists events, new = events ++ old /\ Forall request_event events.

Lemma request_events_refl (t : list Event) : request_events t t.
Proof. exists []. split; [reflexivity | constructor]. Qed.

Lemma request_events_cons (e : Event) (new old : list Event) :
  request_event e -> request_events new old ->
  request_events (e :: new) old.
Proof.
  intros He (events & -> & Hf). exists (e :: events).
  split; [reflexivity | constructor; assumption].
Qed.

Lemma request_events_trans (a b c : list Event) :
  request_events a b -> request_events b c -> request_events a c.
Proof.
  intros (e1 & -> & H1) (e2 & -> & H2). exists (e1 ++ e2).
  split; [apply app_assoc | apply Forall_app; split; assumption].
Qed.

Lemma only_warnings_request (new old : list Event) :
  only_warnings new old -> request_events new old.
Proof.
  intros (logs & -> & Hf). exists logs. split; [reflexivity |].
  eapply Forall_impl; [exact Hf |]. intros e [m ->]. exact I.
Qed.

(** ** EasyDrvClient *)

(** The variables a request never assigns. *)
Definition easydrv_link (st : EasyDrv.State) :=
  (EasyDrv.tags st, EasyDrv.pacName st, EasyDrv.socket st,
   EasyDrv.connected st, EasyDrv.working st, EasyDrv.overloading st,
   EasyDrv.lastStatus st, EasyDrv.lastTimestampValue st,
   EasyDrv.errRetryCount st, EasyDrv.gotDevices st, EasyDrv.varsValue st,
   EasyDrv.addDaq st).

Definition easydrv_request_only (st' st : EasyDrv.State) : Prop :=
  easydrv_link st' = easydrv_link st
  /\ request_events (EasyDrv.trace st') (EasyDrv.trace st).

Lemma easydrv_request_refl (st : EasyDrv.State) : easydrv_request_only st st.
Proof. split; [reflexivity | apply request_events_refl]. Qed.

Lemma easydrv_request_trans (a b c : EasyDrv.State) :
  easydrv_request_only a b -> easydrv_request_only b c ->
  easydrv_request_only a c.
Proof.
  intros [H1 T1] [H2 T2]. split; [congruence |].
  eapply request_events_trans; eassumption.
Qed.

Lemma easydrv_request_same (st' st0 st : EasyDrv.State) :
  easydrv_link st' = easydrv_link st0 ->
  EasyDrv.trace st' = EasyDrv.trace st0 ->
  easydrv_request_only st0 st -> easydrv_request_only st' st.
Proof. intros Hl Ht [H1 T1]. split; [congruence | rewrite Ht; exact T1]. Qed.

Lemma easydrv_request_record (e : Event) (st0 st : EasyDrv.State) :
  request_event e -> easydrv_request_only st0 st ->
  easydrv_request_only (EasyDrv.record e st0) st.
Proof.
  intros He [H1 T1]. split; [exact H1 |].
  apply request_events_cons; assumption.
Qed.

Ltac ed_req_step :=
  match goal with
  | |- easydrv_request_only ?s ?s => apply easydrv_request_refl
  | |- easydrv_request_only (EasyDrv.record _ _) _ =>
      apply easydrv_request_record; [exact I |]
  | |- easydrv_request_only (EasyDrv.logger _ _ _) _ =>
      apply easydrv_request_record; [exact I |]
  | |- easydrv_request_only (if ?b then _ else _) _ => destruct b
  | |- easydrv_request_only (match ?x with Some _ => _ | None => _ end) _ =>
      destruct x
  | |- easydrv_request_only (?f _ ?s) _ =>
      apply (easydrv_request_same _ s); [reflexivity | reflexivity |]
  end.

Ltac ed_req := repeat first [assumption | ed_req_step].

Lemma easydrv_request_tryParseResponse `{Zlib} (st : EasyDrv.State) :
  easydrv_request_only (EasyDrv._tryParseResponse st).2 st.
Proof.
  unfold EasyDrv._tryParseResponse. cbv zeta.
  set (buf := EasyDrv.skip_to_marker (EasyDrv.recvBuffer st)).
  destruct buf as [|b0 [|b1 [|b2 [|b3 [|b4 rest]]]]]; cbn [snd]; ed_req.
  set (whole := b0 :: b1 :: b2 :: b3 :: b4 :: rest).
  destruct (bz b1 =? EasyDrv.AKN_ERR).
  - destruct (blen whole <? _); cbn [snd]; ed_req.
  - destruct (negb (bz b2 =? _)); destruct (_ =? 0);
      try destruct (EasyDrv.MAX_BUFFER_SIZE <? _);
      try destruct (blen whole <? _); cbn [snd]; ed_req.
Qed.

Lemma easydrv_request_onData `{Zlib} (incoming : list (list byte))
    (st : EasyDrv.State) :
  easydrv_request_only (EasyDrv.onData incoming st).2 st.
Proof.
  revert st. induction incoming as [|chunk rest IH]; intros st;
    [apply easydrv_request_refl |].
  cbn [EasyDrv.onData].
  set (st1 := EasyDrv.set_recvBuffer _ st).
  pose proof (easydrv_request_tryParseResponse st1) as Hp.
  destruct (EasyDrv._tryParseResponse st1) as [[r|] st2]; cbn [snd] in *.
  - eapply easydrv_request_trans; [exact Hp |]. subst st1. ed_req.
  - eapply easydrv_request_trans; [apply IH |].
    eapply easydrv_request_trans; [exact Hp |]. subst st1. ed_req.
Qed.

Lemma easydrv_request_sendFrame `{Zlib} (cmdData : list byte)
    (inc : Incoming) (st : EasyDrv.State) :
  easydrv_request_only (EasyDrv._sendFrame cmdData inc st).2 st.
Proof.
  unfold EasyDrv._sendFrame.
  destruct (EasyDrv.socket st) as [sk|]; [| apply easydrv_request_refl].
  destruct (destroyed sk); [apply easydrv_request_refl |]. cbv zeta.
  destruct (throws_write sk); cbn [snd]; [ed_req |].
  match goal with
  | |- context [EasyDrv.onData _ ?a] =>
      pose proof (easydrv_request_onData (chunks inc) a) as Hd;
      destruct (EasyDrv.onData (chunks inc) a) as [[r|] s]
  end; cbn [snd] in *;
    (eapply easydrv_request_trans; [exact Hd |]; ed_req).
Qed.

Lemma easydrv_request_sendCommand `{Zlib} (cmdByte : Z) (extra : list byte)
    (inc : Incoming) (st : EasyDrv.State) :
  easydrv_request_only (EasyDrv._sendCommand cmdByte extra inc st).2 st.
Proof.
  unfold EasyDrv._sendCommand. cbv zeta.
  pose proof (easydrv_request_sendFrame (byte_of_Z cmdByte :: extra) inc
                (EasyDrv.set_recvBuffer [] st)) as Hs.
  destruct (EasyDrv._sendFrame _ inc _) as [[[code|data|]|err] s];
    cbn [snd] in *;
    (eapply easydrv_request_trans; [exact Hs |]; ed_req).
Qed.

Lemma easydrv_request_executeLua `{Fengari} (luaStr : string)
    (st : EasyDrv.State) :
  easydrv_request_only (EasyDrv._executeLua luaStr st) st.
Proof.
  unfold EasyDrv._executeLua, EasyDrv._initLuaEngine. cbv zeta.
  destruct (EasyDrv.luaEngine st) as [e|]; cbn [EasyDrv.luaEngine
    EasyDrv.set_luaEngine]; ed_req.
Qed.

Lemma easydrv_request_extractLuaState `{Runtime} (st : EasyDrv.State) :
  easydrv_request_only (EasyDrv._extractLuaState st) st.
Proof.
  unfold EasyDrv._extractLuaState, EasyDrv.engine_read.
  destruct (EasyDrv.luaEngine st) as [e|]; [| apply easydrv_request_refl].
  destruct (engine_get e "t") as [t e1].
  destruct (truthy _ && _); ed_req.
Qed.

Lemma easydrv_request_getPACStates `{Zlib} `{Codec} `{Fengari} `{Runtime}
    (inc : Incoming) (st : EasyDrv.State) :
  easydrv_request_only (EasyDrv._getPACStates inc st).2 st.
Proof.
  unfold EasyDrv._getPACStates.
  pose proof (easydrv_request_sendCommand EasyDrv.CMD_GET_STATES [] inc st)
    as Hs.
  destruct (EasyDrv._sendCommand EasyDrv.CMD_GET_STATES [] inc st)
    as [[answer|err] st1]; cbn [snd] in *; [| exact Hs].
  destruct (blen answer <? EasyDrv.REQ_ID_SIZE); cbn [snd]; [exact Hs |].
  cbv zeta. destruct (negb (String.eqb _ "")); cbn [snd]; [| exact Hs].
  eapply easydrv_request_trans; [apply easydrv_request_extractLuaState |].
  eapply easydrv_request_trans; [apply easydrv_request_executeLua |].
  eapply easydrv_request_trans; [| exact Hs]. ed_req.
Qed.

Lemma easydrv_request_getPACInfo `{Zlib} `{Codec} `{Fengari} `{Runtime}
    (inc : Incoming) (st : EasyDrv.State) :
  easydrv_request_only (EasyDrv._getPACInfo inc st).2 st.
Proof.
  unfold EasyDrv._getPACInfo.
  pose proof (easydrv_request_sendCommand EasyDrv.CMD_GET_INFO [] inc st)
    as Hs.
  destruct (EasyDrv._sendCommand EasyDrv.CMD_GET_INFO [] inc st)
    as [[answer|err] st1]; cbn [snd] in *; [| exact Hs].
  cbv zeta.
  set (st2 := if negb (String.eqb _ "") then _ else st1).
  assert (Hq2 : easydrv_request_only st2 st).
  { subst st2. destruct (negb (String.eqb _ "")); [| exact Hs].
    eapply easydrv_request_trans; [apply easydrv_request_executeLua |].
    exact Hs. }
  clearbody st2.
  destruct (EasyDrv.luaEngine st2) as [e|]; cbn [snd]; [| exact Hq2].
  destruct (engine_get e "protocol_version") as [version e1].
  destruct (engine_get e1 "PAC_name") as [name e2].
  destruct (engine_get e2 "params_CRC") as [paramsCRC e3].
  set (info := {| EasyDrv.pac_name := _ |}). clearbody info.
  set (st3 := EasyDrv.set_protocolVersion _ _).
  assert (Hq3 : easydrv_request_only st3 st) by (subst st3; ed_req).
  clearbody st3.
  set (st4 := if _ && _ && _ then _ else st3).
  assert (Hq4 : easydrv_request_only st4 st)
    by (subst st4; destruct (_ && _ && _); ed_req).
  clearbody st4.
  set (st5 := if _ && _ && _ then _ else st4).
  assert (Hq5 : easydrv_request_only st5 st)
    by (subst st5; destruct (_ && _ && _); ed_req).
  clearbody st5. cbn [snd]. ed_req.
Qed.

Lemma easydrv_request_execCommand (cmdStr : string) (st : EasyDrv.State) :
  easydrv_request_only (EasyDrv._execCommand cmdStr st).2 st.
Proof.
  unfold EasyDrv._execCommand.
  destruct (EasyDrv.socket st) as [sk|]; [| apply easydrv_request_refl].
  destruct (destroyed sk); [apply easydrv_request_refl |].
  destruct (throws_write sk); cbn [snd]; ed_req.
Qed.

(** ** MPSClient *)

(** The variables a request never assigns ([deviceStates] is the one it may
    assign). *)
Definition mps_link (st : MPS.State) :=
  (MPS.tags st, MPS.socket st, MPS.connected st, MPS.working st,
   MPS.overloading st, MPS.lastStatus st, MPS.lastTimestampValue st,
   MPS.errRetryCount st, MPS.browseData st, MPS.varsValue st, MPS.addDaq st).

Definition mps_request_only (st' st : MPS.State) : Prop :=
  mps_link st' = mps_link st
  /\ request_events (MPS.trace st') (MPS.trace st).

Lemma mps_request_refl (st : MPS.State) : mps_request_only st st.
Proof. split; [reflexivity | apply request_events_refl]. Qed.

Lemma mps_request_trans (a b c : MPS.State) :
  mps_request_only a b -> mps_request_only b c -> mps_request_only a c.
Proof.
  intros [H1 T1] [H2 T2]. split; [congruence |].
  eapply request_events_trans; eassumption.
Qed.

Lemma mps_request_same (st' st0 st : MPS.State) :
  mps_link st' = mps_link st0 -> MPS.trace st' = MPS.trace st0 ->
  mps_request_only st0 st -> mps_request_only st' st.
Proof. intros Hl Ht [H1 T1]. split; [congruence | rewrite Ht; exact T1]. Qed.

Lemma mps_request_record (e : Event) (st0 st : MPS.State) :
  request_event e -> mps_request_only st0 st ->
  mps_request_only (MPS.record e st0) st.
Proof.
  intros He [H1 T1]. split; [exact H1 |].
  apply request_events_cons; assumption.
Qed.

Ltac mps_req_step :=
  match goal with
  | |- mps_request_only ?s ?s => apply mps_request_refl
  | |- mps_request_only (MPS.record _ _) _ =>
      apply mps_request_record; [exact I |]
  | |- mps_request_only (MPS.logger _ _ _) _ =>
      apply mps_request_record; [exact I |]
  | |- mps_request_only (if ?b then _ else _) _ => destruct b
  | |- mps_request_only (?f _ ?s) _ =>
      apply (mps_request_same _ s); [reflexivity | reflexivity |]
  end.

Ltac mps_req := repeat first [assumption | mps_req_step].

Lemma mps_request_sendFramed (msg : string) (inc : Incoming)
    (st : MPS.State) :
  mps_request_only (MPS._sendFramed msg inc st).2 st.
Proof.
  unfold MPS._sendFramed.
  destruct (MPS.socket st) as [sk|]; [| apply mps_request_refl].
  destruct (destroyed sk); [apply mps_request_refl |].
  destruct (throws_write sk); [apply mps_request_refl |]. cbv zeta.
  destruct (MPS.onData [] (chunks inc)); cbn [snd]; mps_req.
Qed.

Lemma mps_request_queryAll `{Codec} `{Json} `{Runtime} (dn : string) (inc : Incoming)
    (st : MPS.State) :
  mps_request_only (MPS._queryAll dn inc st).2 st.
Proof.
  unfold MPS._queryAll, MPS._sendDeviceCommand, MPS._sendCommand.
  pose proof (mps_request_sendFramed (JSON_stringify_cmd dn "QueryAll" 0) inc st)
    as Hs.
  destruct (MPS._sendFramed (JSON_stringify_cmd dn "QueryAll" 0) inc st)
    as [[[n | data] | err] st1]; cbn [snd] in *; try exact Hs.
  destruct (JSON_parse data) as [v|]; [| exact Hs].
  destruct (MPS.has_units v); cbn [snd]; mps_req.
Qed.

Lemma mps_request_query_devices `{Codec} `{Json} `{Runtime} (names : list string)
    (env : list Incoming) (errors : Z) (st : MPS.State) :
  mps_request_only (MPS.query_devices names env errors st).2 st.
Proof.
  revert env errors st.
  induction names as [|dn rest IH]; intros env errors st;
    [apply mps_request_refl |].
  cbn [MPS.query_devices].
  pose proof (mps_request_queryAll dn (hd MPS.silent env) st) as Hq.
  destruct (MPS._queryAll dn (hd MPS.silent env) st) as [[v | err] st1];
    cbn [snd] in Hq;
    (eapply mps_request_trans; [apply IH | exact Hq]).
Qed.

(* ===================================================================== *)
(** * The life cycle of a driver instance *)
(* ===================================================================== *)

(** The status most recently emitted on 'device-status:changed'. *)
Fixpoint last_status (trace : list Event) : string :=
  match trace with
  | [] => ""
  | EmitStatus status :: _ => status
  | _ :: rest => last_status rest
  end.

Definition status_free (e : Event) : Prop :=
  match e with
  | EmitStatus _ => False
  | _ => True
  end.

Lemma last_status_app (events old : list Event) :
  Forall status_free events ->
  last_status (events ++ old) = last_status old.
Proof.
  induction 1 as [|e events He _ IH]; [reflexivity |].
  destruct e; cbn in *; try exact IH. contradiction.
Qed.

Lemma request_event_status_free (e : Event) :
  request_event e -> status_free e.
Proof. destruct e; cbn; auto. Qed.

Lemma last_status_request (new old : list Event) :
  request_events new old -> last_status new = last_status old.
Proof.
  intros (events & -> & Hf). apply last_status_app.
  eapply Forall_impl; [exact Hf | apply request_event_status_free].
Qed.

Lemma in_status_app (events old : list Event) (status : string) :
  Forall status_free events ->
  In (EmitStatus status) (events ++ old) -> In (EmitStatus status) old.
Proof.
  intros Hf Hin. apply in_app_or in Hin. destruct Hin as [Hin|Hin]; [| exact Hin].
  rewrite List.Forall_forall in Hf. destruct (Hf _ Hin).
Qed.

(** The lines of the tag loop are error log lines only. *)
Definition error_log (e : Event) : Prop := exists m, e = Log LError m.

Lemma tag_loop_error_logs `{DeviceUtils} (resolve : Tag -> option JsVal)
    (addDaq : bool) (timestamp : Z) (tags : list (string * Tag))
    (c : Cycle) :
  Forall error_log (c_log c) ->
  Forall error_log (c_log (tag_loop resolve addDaq timestamp tags c)).
Proof.
  revert c. induction tags as [|[id tag] rest IH]; intros c Hc; [exact Hc |].
  cbn [tag_loop fold_left]. apply IH.
  unfold tag_step. cbn [fst snd].
  destruct (resolve tag) as [raw|];
    [| constructor; [eexists; reflexivity | exact Hc]].
  destruct (is_undefined raw); [exact Hc |].
  destruct (tagValueCompose raw _ tag) as [value|err];
    [exact Hc | constructor; [eexists; reflexivity | exact Hc]].
Qed.

Lemma tag_loop_logs `{DeviceUtils} (resolve : Tag -> option JsVal)
    (addDaq : bool) (timestamp : Z) (tags : list (string * Tag))
    (c : Cycle) :
  Forall error_log (c_log c) ->
  Forall request_event (c_log (tag_loop resolve addDaq timestamp tags c)).
Proof.
  intros Hc. eapply Forall_impl; [apply tag_loop_error_logs, Hc |].
  intros e [m ->]. exact I.
Qed.

Lemma cycle_events_status (addDaq : bool) (lastStatus : string) (c : Cycle)
    (rest : list Event) :
  last_status (cycle_events addDaq lastStatus c ++ rest)
  = if negb (String.eqb lastStatus "connect-ok") then "connect-ok"
    else last_status rest.
Proof.
  unfold cycle_events.
  destruct (negb (String.eqb lastStatus "connect-ok")); [reflexivity |].
  destruct (addDaq && _); reflexivity.
Qed.

Lemma cycle_events_in (addDaq : bool) (lastStatus : string) (c : Cycle)
    (rest : list Event) (status : string) :
  In (EmitStatus status) (cycle_events addDaq lastStatus c ++ rest) ->
  status = "connect-ok" \/ In (EmitStatus status) rest.
Proof.
  unfold cycle_events. intros Hin.
  destruct (negb (String.eqb lastStatus "connect-ok")); cbn in Hin.
  - destruct Hin as [Heq|Hin]; [left; congruence |].
    destruct (addDaq && _); cbn in Hin.
    + destruct Hin as [Heq|[Heq|Hin]]; try discriminate. right; exact Hin.
    + destruct Hin as [Heq|Hin]; try discriminate. right; exact Hin.
  - destruct (addDaq && _); cbn in Hin.
    + destruct Hin as [Heq|[Heq|Hin]]; try discriminate. right; exact Hin.
    + destruct Hin as [Heq|Hin]; try discriminate. right; exact Hin.
Qed.

(** ** MPSClient *)

Lemma mps_checkWorking_accepts (st : MPS.State) :
  MPS.working st = false ->
  MPS._checkWorking true st = (true, MPS.set_working true st).
Proof. intros Hw. unfold MPS._checkWorking. rewrite Hw. reflexivity. Qed.

(** What the cycle assigns besides the cache and the trace. *)
Lemma mps_poll_cycle_link `{DeviceUtils} `{Runtime} (timestamp : Z) (st : MPS.State) :
  let st' := MPS.poll_cycle timestamp st in
  MPS.tags st' = MPS.tags st /\ MPS.socket st' = MPS.socket st
  /\ MPS.connected st' = MPS.connected st
  /\ MPS.working st' = MPS.working st
  /\ MPS.overloading st' = MPS.overloading st
  /\ MPS.browseData st' = MPS.browseData st
  /\ MPS.deviceStates st' = MPS.deviceStates st
  /\ MPS.addDaq st' = MPS.addDaq st
  /\ MPS.lastStatus st' = "connect-ok".
Proof.
  unfold MPS.poll_cycle. cbv zeta.
  set (c := tag_loop _ _ _ _ _). clearbody c.
  set (save := negb (isEmptyObject (c_changed c))). clearbody save.
  cbn. destruct (MPS.addDaq st && save); cbn;
    destruct (String.eqb (MPS.lastStatus st) "connect-ok") eqn:E;
    cbn; repeat split; try reflexivity;
    apply String.eqb_eq; exact E.
Qed.

(** The effect of connect() on a driver that is not busy. *)
Lemma mps_connect_effect (env : MPS.ConnectEnv) (st : MPS.State) :
  MPS.working st = false ->
  let r := MPS.connect env st in
  MPS.working r.2 = false /\ MPS.overloading r.2 = 0
  /\ MPS.tags r.2 = MPS.tags st /\ MPS.addDaq r.2 = MPS.addDaq st
  /\ match MPS.tcp env with
     | TcpOpen =>
         r.1 = Resolved
         /\ MPS.connected r.2 = true
         /\ MPS.socket r.2 = Some (MPS.fresh_socket env)
         /\ MPS.lastStatus r.2 = "connect-ok"
         /\ MPS.errRetryCount r.2 = 0
         /\ MPS.varsValue r.2 = MPS.varsValue st
         /\ MPS.trace r.2
            = Log LInfo MsgConnected :: EmitStatus "connect-ok"
                :: SockConnect :: Log LInfo MsgTryConnect :: MPS.trace st
     | failed =>
         r.1 = Rejected match failed with
                        | TcpError err => err
                        | _ => "connection timeout"
                        end
         /\ MPS.connected r.2 = false
         /\ MPS.socket r.2 = None
         /\ MPS.lastStatus r.2 = "connect-error"
         /\ MPS.errRetryCount r.2 = MPS.errRetryCount st
         /\ MPS.varsValue r.2 = set_value JNull <$> MPS.varsValue st
         /\ exists newer older,
              MPS.trace r.2
              = newer ++ EmitValues (MPS.varsValue r.2)
                  :: EmitStatus "connect-error" :: older ++ MPS.trace st
              /\ Forall status_free newer /\ Forall status_free older
     end.
Proof.
  intros Hw. cbv zeta. unfold MPS.connect.
  rewrite (mps_checkWorking_accepts st Hw).
  destruct (MPS.tcp env) as [| |err].
  - cbn. repeat split; reflexivity.
  - unfold MPS.connect_failed, MPS.teardown. cbn.
    destruct (throws_removeAllListeners (MPS.fresh_socket env));
      [| destruct (throws_destroy (MPS.fresh_socket env))]; cbn;
      repeat split; try reflexivity.
    + exists [Log LError (MsgConnectFailed "connection timeout")],
        [SockDestroy; SockConnect; Log LInfo MsgTryConnect].
      repeat split; repeat constructor.
    + exists [Log LError (MsgConnectFailed "connection timeout");
              SockRemoveAllListeners],
        [SockDestroy; SockConnect; Log LInfo MsgTryConnect].
      repeat split; repeat constructor.
    + exists [Log LError (MsgConnectFailed "connection timeout");
              SockDestroy; SockRemoveAllListeners],
        [SockDestroy; SockConnect; Log LInfo MsgTryConnect].
      repeat split; repeat constructor.
  - unfold MPS.connect_failed, MPS.teardown. cbn.
    destruct (throws_removeAllListeners (MPS.fresh_socket env));
      [| destruct (throws_destroy (MPS.fresh_socket env))]; cbn;
      repeat split; try reflexivity.
    + exists [Log LError (MsgConnectFailed err)],
        [SockConnect; Log LInfo MsgTryConnect].
      repeat split; repeat constructor.
    + exists [Log LError (MsgConnectFailed err); SockRemoveAllListeners],
        [SockConnect; Log LInfo MsgTryConnect].
      repeat split; repeat constructor.
    + exists [Log LError (MsgConnectFailed err); SockDestroy;
              SockRemoveAllListeners],
        [SockConnect; Log LInfo MsgTryConnect].
      repeat split; repeat constructor.
Qed.

(** Finds the events an operation put in front of the trace, up to six. *)
Ltac events_before :=
  first
    [ exists (@nil Event); split; [reflexivity | repeat constructor]
    | eexists [_]; split; [reflexivity | repeat constructor]
    | eexists [_; _]; split; [reflexivity | repeat constructor]
    | eexists [_; _; _]; split; [reflexivity | repeat constructor]
    | eexists [_; _; _; _]; split; [reflexivity | repeat constructor]
    | eexists [_; _; _; _; _]; split; [reflexivity | repeat constructor]
    | eexists [_; _; _; _; _; _]; split; [reflexivity | repeat constructor] ].

(** The effect of disconnect(). *)
Lemma mps_disconnect_effect (st : MPS.State) :
  let r := MPS.disconnect st in
  r.1 = Resolved
  /\ MPS.working r.2 = false /\ MPS.overloading r.2 = 0
  /\ MPS.tags r.2 = MPS.tags st /\ MPS.addDaq r.2 = MPS.addDaq st
  /\ MPS.connected r.2 = false /\ MPS.socket r.2 = None
  /\ MPS.lastStatus r.2 = "connect-off"
  /\ MPS.errRetryCount r.2 = 0
  /\ MPS.varsValue r.2 = set_value JNull <$> MPS.varsValue st
  /\ exists older,
       MPS.trace r.2
       = EmitValues (MPS.varsValue r.2) :: EmitStatus "connect-off"
           :: older ++ MPS.trace st
       /\ Forall status_free older.
Proof.
  cbv zeta. unfold MPS.disconnect, MPS.disconnect_finally, MPS.disconnect_try.
  rewrite mps_checkWorking_false. cbn.
  destruct (MPS.socket st) as [sk|]; cbn.
  - unfold MPS.send_close.
    destruct (throws_write sk); destruct (throws_removeAllListeners sk);
      try destruct (throws_destroy sk); cbn;
      repeat split; try reflexivity; events_before.
  - repeat split; try reflexivity. events_before.
Qed.

(** The state polling() hands to the cycle: the state after the QueryAll
    requests and the warning that counts the failed ones. *)
Definition mps_queried `{Codec} `{Json} `{Runtime} (env : list Incoming)
    (st : MPS.State) : MPS.State :=
  let q := MPS.query_devices (MPS.device_names (MPS.tags st)) env 0
             (MPS.set_working true st) in
  if 0 <? q.1 then MPS.logger LWarn (MsgQueryAllFailed q.1) q.2 else q.2.

Lemma mps_queried_request `{Codec} `{Json} `{Runtime} (env : list Incoming)
    (st : MPS.State) :
  mps_request_only (mps_queried env st) (MPS.set_working true st).
Proof.
  unfold mps_queried. cbv zeta.
  pose proof (mps_request_query_devices (MPS.device_names (MPS.tags st))
                env 0 (MPS.set_working true st)) as Hq.
  destruct (0 <? _); [| exact Hq].
  apply mps_request_record; [exact I | exact Hq].
Qed.

(** The effect of polling() on a driver that is not busy: nothing when the
    link is down, otherwise the requests followed by the cycle. *)
Lemma mps_polling_effect `{Codec} `{Json} `{DeviceUtils} `{Runtime}
    (env : MPS.PollEnv) (now : Z) (st : MPS.State) :
  MPS.working st = false ->
  MPS.polling env now st
  = if socket_unusable (MPS.socket st) || negb (MPS.connected st)
    then MPS.set_overloading 0 (MPS.set_working false st)
    else MPS.set_overloading 0
           (MPS.set_working false
              (MPS.poll_try (MPS.daq_raises env) now
                 (mps_queried (MPS.answers env) st))).
Proof.
  intros Hw. unfold MPS.polling. rewrite (mps_checkWorking_accepts st Hw).
  cbn [MPS.socket MPS.connected MPS.set_working].
  destruct (socket_unusable (MPS.socket st) || negb (MPS.connected st)).
  - rewrite !mps_checkWorking_false. reflexivity.
  - cbn [MPS.tags MPS.set_working]. unfold mps_queried. cbv zeta.
    destruct (MPS.query_devices (MPS.device_names (MPS.tags st))
                (MPS.answers env) 0 (MPS.set_working true st))
      as [errors st2].
    cbn [fst snd]. rewrite mps_checkWorking_false. reflexivity.
Qed.

(** Whether the DAQ hand-off of the cycle is made and raises. *)
Definition daq_fails `{DeviceUtils} `{Runtime} (raises : option string)
    (timestamp : Z) (st : MPS.State) : bool :=
  match raises with
  | Some _ =>
      MPS.addDaq st && negb (isEmptyObject (MPS.poll_changed timestamp st))
  | None => false
  end.

Lemma mps_poll_try_completes `{DeviceUtils} `{Runtime}
    (raises : option string) (timestamp : Z) (st : MPS.State) :
  daq_fails raises timestamp st = false ->
  MPS.poll_try raises timestamp st = MPS.poll_cycle timestamp st.
Proof.
  unfold daq_fails, MPS.poll_try. destruct raises as [err|]; [| reflexivity].
  intros ->. reflexivity.
Qed.

Lemma mps_poll_try_caught `{DeviceUtils} `{Runtime}
    (raises : option string) (timestamp : Z) (st : MPS.State) :
  daq_fails raises timestamp st = true ->
  exists err,
    raises = Some err
    /\ MPS.poll_try raises timestamp st
       = MPS.polling_failed err (MPS.poll_cycle_to_daq timestamp st).
Proof.
  unfold daq_fails, MPS.poll_try. destruct raises as [err|]; [| discriminate].
  intros ->. exists err. split; reflexivity.
Qed.

(** The [catch] on a counter that stands at 0: the error is counted and
    logged, the link is kept. *)
Lemma mps_polling_failed_once (err : string) (st : MPS.State) :
  MPS.errRetryCount st = 0 ->
  MPS.polling_failed err st
  = MPS.logger LError (MsgPollingError err) (MPS.set_errRetryCount 1 st).
Proof.
  intros He. unfold MPS.polling_failed. cbv zeta.
  cbn [MPS.errRetryCount MPS.set_errRetryCount]. rewrite He. reflexivity.
Qed.

Lemma mps_poll_cycle_to_daq_effect `{DeviceUtils} `{Runtime} (timestamp : Z)
    (st : MPS.State) :
  let c := tag_loop (MPS._resolveTagValue (MPS.deviceStates st))
             (MPS.addDaq st) timestamp (MPS.tags st)
             {| c_vars := MPS.varsValue st; c_changed := ∅; c_log := [] |} in
  let st' := MPS.poll_cycle_to_daq timestamp st in
  MPS.tags st' = MPS.tags st /\ MPS.socket st' = MPS.socket st
  /\ MPS.connected st' = MPS.connected st
  /\ MPS.working st' = MPS.working st
  /\ MPS.overloading st' = MPS.overloading st
  /\ MPS.browseData st' = MPS.browseData st
  /\ MPS.deviceStates st' = MPS.deviceStates st
  /\ MPS.addDaq st' = MPS.addDaq st
  /\ MPS.lastStatus st' = MPS.lastStatus st
  /\ MPS.errRetryCount st' = 0
  /\ MPS.lastTimestampValue st' = Some timestamp
  /\ MPS.varsValue st' = c_vars c
  /\ MPS.trace st'
     = AddDaq (changed_object (c_vars c) (c_changed c))
         :: EmitValues (c_vars c) :: c_log c ++ MPS.trace st.
Proof.
  cbv zeta. unfold MPS.poll_cycle_to_daq.
  set (c := tag_loop _ _ _ _ _). cbv zeta. cbn.
  repeat split; reflexivity.
Qed.

(** The cycle that ends in the [catch]: the values are cached and emitted,
    the hand-off is made, the error is counted once and logged; the
    counter was reset before the hand-off, so it stands at 1 and the link
    is kept. *)
Lemma mps_poll_caught_effect `{DeviceUtils} `{Runtime} (err : string)
    (timestamp : Z) (st : MPS.State) :
  let c := tag_loop (MPS._resolveTagValue (MPS.deviceStates st))
             (MPS.addDaq st) timestamp (MPS.tags st)
             {| c_vars := MPS.varsValue st; c_changed := ∅; c_log := [] |} in
  let st' := MPS.polling_failed err (MPS.poll_cycle_to_daq timestamp st) in
  MPS.tags st' = MPS.tags st /\ MPS.socket st' = MPS.socket st
  /\ MPS.connected st' = MPS.connected st
  /\ MPS.working st' = MPS.working st
  /\ MPS.overloading st' = MPS.overloading st
  /\ MPS.browseData st' = MPS.browseData st
  /\ MPS.deviceStates st' = MPS.deviceStates st
  /\ MPS.addDaq st' = MPS.addDaq st
  /\ MPS.lastStatus st' = MPS.lastStatus st
  /\ MPS.errRetryCount st' = 1
  /\ MPS.lastTimestampValue st' = Some timestamp
  /\ MPS.varsValue st' = c_vars c
  /\ MPS.trace st'
     = Log LError (MsgPollingError err)
         :: AddDaq (changed_object (c_vars c) (c_changed c))
         :: EmitValues (c_vars c) :: c_log c ++ MPS.trace st.
Proof.
  cbv zeta.
  destruct (mps_poll_cycle_to_daq_effect timestamp st)
    as (E1 & E2 & E3 & E4 & E5 & E6 & E7 & E8 & E9 & E10 & E11 & E12 & E13).
  cbv zeta in *.
  rewrite (mps_polling_failed_once err _ E10).
  set (st1 := MPS.poll_cycle_to_daq timestamp st) in *. clearbody st1.
  unfold MPS.logger, MPS.record.
  cbn [MPS.tags MPS.socket MPS.connected MPS.working MPS.overloading
       MPS.browseData MPS.deviceStates MPS.addDaq MPS.lastStatus
       MPS.errRetryCount MPS.lastTimestampValue MPS.varsValue MPS.trace
       MPS.set_trace MPS.set_errRetryCount].
  rewrite E1, E2, E3, E4, E5, E6, E7, E8, E9, E11, E12, E13.
  repeat split; reflexivity.
Qed.

(** What holds of an instance between two calls that do not overlap. *)
Definition mps_life (st : MPS.State) : Prop :=
  MPS.working st = false /\ MPS.overloading st = 0
  /\ MPS.lastStatus st = last_status (MPS.trace st)
  /\ (MPS.connected st = true <-> MPS.lastStatus st = "connect-ok")
  /\ (MPS.connected st = true -> is_Some (MPS.socket st))
  /\ 0 <= MPS.errRetryCount st < 2
  /\ ~ In (EmitStatus "connect-busy") (MPS.trace st).

Lemma in_request_events (new old : list Event) (status : string) :
  request_events new old ->
  In (EmitStatus status) new -> In (EmitStatus status) old.
Proof.
  intros (events & -> & Hf). apply in_status_app.
  eapply Forall_impl; [exact Hf | apply request_event_status_free].
Qed.

Lemma mps_link_fields (st' st : MPS.State) :
  mps_link st' = mps_link st ->
  MPS.tags st' = MPS.tags st /\ MPS.socket st' = MPS.socket st
  /\ MPS.connected st' = MPS.connected st
  /\ MPS.working st' = MPS.working st
  /\ MPS.overloading st' = MPS.overloading st
  /\ MPS.lastStatus st' = MPS.lastStatus st
  /\ MPS.lastTimestampValue st' = MPS.lastTimestampValue st
  /\ MPS.errRetryCount st' = MPS.errRetryCount st
  /\ MPS.browseData st' = MPS.browseData st
  /\ MPS.varsValue st' = MPS.varsValue st
  /\ MPS.addDaq st' = MPS.addDaq st.
Proof.
  unfold mps_link. intros Heq.
  injection Heq as -> -> -> -> -> -> -> -> -> -> ->. repeat split.
Qed.

Lemma socket_usable (s : option Socket) (c : bool) :
  socket_unusable s || negb c = false ->
  c = true /\ exists sk, s = Some sk /\ destroyed sk = false.
Proof.
  intros Hc. apply orb_false_iff in Hc. destruct Hc as [Hs Hn].
  split; [destruct c; [reflexivity | discriminate] |].
  destruct s as [sk|]; [| discriminate]. exists sk. split; [reflexivity | exact Hs].
Qed.

(** The fields of a state once the working flag is released. *)
Lemma mps_released (st : MPS.State) :
  let st' := MPS.set_overloading 0 (MPS.set_working false st) in
  MPS.working st' = false /\ MPS.overloading st' = 0
  /\ MPS.connected st' = MPS.connected st
  /\ MPS.socket st' = MPS.socket st
  /\ MPS.tags st' = MPS.tags st /\ MPS.addDaq st' = MPS.addDaq st
  /\ MPS.lastStatus st' = MPS.lastStatus st
  /\ MPS.errRetryCount st' = MPS.errRetryCount st
  /\ MPS.lastTimestampValue st' = MPS.lastTimestampValue st
  /\ MPS.trace st' = MPS.trace st
  /\ MPS.varsValue st' = MPS.varsValue st
  /\ MPS.deviceStates st' = MPS.deviceStates st.
Proof. cbv zeta. repeat split. Qed.

(** polling() over a link that is up, when the cycle runs to its end. *)
Lemma mps_polling_cycle `{Codec} `{Json} `{DeviceUtils} `{Runtime}
    (env : MPS.PollEnv) (now : Z) (st : MPS.State) :
  MPS.working st = false ->
  socket_unusable (MPS.socket st) || negb (MPS.connected st) = false ->
  daq_fails (MPS.daq_raises env) now (mps_queried (MPS.answers env) st)
  = false ->
  let st' := MPS.polling env now st in
  MPS.working st' = false /\ MPS.overloading st' = 0
  /\ MPS.connected st' = MPS.connected st
  /\ MPS.socket st' = MPS.socket st
  /\ MPS.tags st' = MPS.tags st /\ MPS.addDaq st' = MPS.addDaq st
  /\ MPS.lastStatus st' = "connect-ok"
  /\ MPS.errRetryCount st' = 0
  /\ MPS.lastTimestampValue st' = Some now
  /\ exists cyc older,
       MPS.trace st'
       = cycle_events (MPS.addDaq st) (MPS.lastStatus st) cyc
           ++ older ++ MPS.trace st
       /\ Forall request_event older
       /\ MPS.varsValue st' = c_vars cyc.
Proof.
  intros Hw Hup Hdaq0. cbv zeta.
  rewrite (mps_polling_effect env now st Hw), Hup.
  rewrite (mps_poll_try_completes _ _ _ Hdaq0).
  destruct (mps_queried_request (MPS.answers env) st)
    as [Hl (events & Ht & Hf)].
  set (st3 := mps_queried (MPS.answers env) st) in *. clearbody st3.
  apply mps_link_fields in Hl. cbn in Hl.
  destruct Hl as (Htags & Hsock & Hconn & _ & _ & Hstat & _ & _ & _ & Hvars
                  & Hdaq).
  destruct (mps_poll_cycle_link now st3)
    as (Ptags & Psock & Pconn & _ & _ & _ & _ & Pdaq & Pstat).
  destruct (mps_poll_cycle_effect now st3) as (Evars & Etrace & Eerr & Ets).
  cbv zeta in *. cbn [MPS.trace MPS.set_working MPS.set_trace] in Ht.
  rewrite Hdaq in Etrace, Evars. rewrite Hstat in Etrace.
  destruct (mps_released (MPS.poll_cycle now st3))
    as (Rw & Ro & Rc & Rs & Rtags & Rdaq & Rst & Re & Rts & Rt & Rv & _).
  cbv zeta in *. rewrite Rw, Ro, Rc, Rs, Rtags, Rdaq, Rst, Re, Rts, Rt, Rv.
  rewrite Pconn, Psock, Ptags, Pdaq, Pstat, Eerr, Ets.
  rewrite Hconn, Hsock, Htags, Hdaq.
  do 9 (split; [reflexivity |]).
  eexists _, _. split; [| split].
  - rewrite Etrace, Ht. rewrite (app_assoc (c_log _)).
    reflexivity.
  - apply Forall_app. split; [| exact Hf].
    apply tag_loop_logs. constructor.
  - exact Evars.
Qed.

(** polling() over a link that is up, when the DAQ callback raises: the
    cycle ends in the [catch] with the link as it was. *)
Lemma mps_polling_caught `{Codec} `{Json} `{DeviceUtils} `{Runtime}
    (env : MPS.PollEnv) (now : Z) (st : MPS.State) :
  MPS.working st = false ->
  socket_unusable (MPS.socket st) || negb (MPS.connected st) = false ->
  daq_fails (MPS.daq_raises env) now (mps_queried (MPS.answers env) st)
  = true ->
  let st' := MPS.polling env now st in
  MPS.working st' = false /\ MPS.overloading st' = 0
  /\ MPS.connected st' = MPS.connected st
  /\ MPS.socket st' = MPS.socket st
  /\ MPS.tags st' = MPS.tags st /\ MPS.addDaq st' = MPS.addDaq st
  /\ MPS.lastStatus st' = MPS.lastStatus st
  /\ MPS.errRetryCount st' = 1
  /\ MPS.lastTimestampValue st' = Some now
  /\ exists err cyc older,
       MPS.daq_raises env = Some err
       /\ MPS.trace st'
          = Log LError (MsgPollingError err)
              :: AddDaq (changed_object (c_vars cyc) (c_changed cyc))
              :: EmitValues (c_vars cyc) :: older ++ MPS.trace st
       /\ Forall request_event older
       /\ MPS.varsValue st' = c_vars cyc.
Proof.
  intros Hw Hup Hdaq1. cbv zeta.
  rewrite (mps_polling_effect env now st Hw), Hup.
  destruct (mps_poll_try_caught _ _ _ Hdaq1) as (err & Herr & ->).
  destruct (mps_queried_request (MPS.answers env) st)
    as [Hl (events & Ht & Hf)].
  set (st3 := mps_queried (MPS.answers env) st) in *. clearbody st3.
  apply mps_link_fields in Hl. cbn in Hl.
  destruct Hl as (Htags & Hsock & Hconn & _ & _ & Hstat & _ & _ & _ & Hvars
                  & Hdaq).
  destruct (mps_poll_caught_effect err now st3)
    as (Ptags & Psock & Pconn & _ & _ & _ & _ & Pdaq & Pstat & Perr & Pts
        & Pvars & Ptrace).
  cbv zeta in *. cbn [MPS.trace MPS.set_working MPS.set_trace] in Ht.
  destruct (mps_released
              (MPS.polling_failed err (MPS.poll_cycle_to_daq now st3)))
    as (Rw & Ro & Rc & Rs & Rtags & Rdaq & Rst & Re & Rts & Rt & Rv & _).
  cbv zeta in *. rewrite Rw, Ro, Rc, Rs, Rtags, Rdaq, Rst, Re, Rts, Rt, Rv.
  rewrite Pconn, Psock, Ptags, Pdaq, Pstat, Perr, Pts.
  rewrite Hconn, Hsock, Htags, Hdaq, Hstat.
  do 9 (split; [reflexivity |]).
  eexists err, _, _. split; [exact Herr |]. split; [| split].
  - rewrite Ptrace, Ht. rewrite (app_assoc (c_log _)). reflexivity.
  - apply Forall_app. split; [| exact Hf].
    apply tag_loop_logs. constructor.
  - exact Pvars.
Qed.

Ltac life_split := split; [| split; [| split; [| split; [| split; [| split]]]]].

Lemma mps_life_initial (tags : list (string * Tag)) :
  mps_life (MPS.initial tags).
Proof.
  unfold mps_life. cbn. life_split; try reflexivity.
  - split; discriminate.
  - discriminate.
  - lia.
  - intros [].
Qed.

Lemma mps_life_failed (st : MPS.State) (newer older old : list Event)
    (status : string) (values : Cache) :
  status <> "connect-ok" -> status <> "connect-busy" ->
  MPS.working st = false -> MPS.overloading st = 0 ->
  MPS.connected st = false -> 0 <= MPS.errRetryCount st < 2 ->
  MPS.lastStatus st = status ->
  MPS.trace st
  = newer ++ EmitValues values :: EmitStatus status :: older ++ old ->
  Forall status_free newer -> Forall status_free older ->
  ~ In (EmitStatus "connect-busy") old ->
  mps_life st.
Proof.
  intros Hok Hbusy Hw Ho Hc He Hs Ht Fn Fo Hb. unfold mps_life.
  rewrite Hw, Ho, Hc, Hs, Ht. life_split; try reflexivity.
  - rewrite last_status_app by exact Fn. reflexivity.
  - split; [discriminate | intros Hx; destruct (Hok Hx)].
  - discriminate.
  - exact He.
  - intros Hin. apply in_status_app in Hin; [| exact Fn].
    destruct Hin as [Hx|[Hx|Hin]]; [discriminate | congruence |].
    apply in_status_app in Hin; [| exact Fo]. exact (Hb Hin).
Qed.

Lemma mps_life_connect (env : MPS.ConnectEnv) (st : MPS.State) :
  mps_life st -> mps_life (MPS.connect env st).2.
Proof.
  intros (Hw & Ho & Hs & Hc & Hk & He & Hb).
  destruct (mps_connect_effect env st Hw) as (Rw & Ro & _ & _ & Hcase).
  cbv zeta in *.
  destruct (MPS.tcp env) as [| |err].
  - destruct Hcase as (_ & Rc & Rs & Rst & Re & _ & Rt).
    unfold mps_life. rewrite Rw, Ro, Rc, Rs, Rst, Re, Rt.
    life_split; try reflexivity.
    + split; reflexivity.
    + intros _. eexists; reflexivity.
    + lia.
    + intros [Hx|[Hx|[Hx|[Hx|Hx]]]]; try discriminate. exact (Hb Hx).
  - destruct Hcase as (_ & Rc & Rs & Rst & Re & _ & newer & older & Rt
                       & Fn & Fo).
    eapply (mps_life_failed _ newer older (MPS.trace st) "connect-error");
      try eassumption; try discriminate. rewrite Re. exact He.
  - destruct Hcase as (_ & Rc & Rs & Rst & Re & _ & newer & older & Rt
                       & Fn & Fo).
    eapply (mps_life_failed _ newer older (MPS.trace st) "connect-error");
      try eassumption; try discriminate. rewrite Re. exact He.
Qed.

Lemma mps_life_disconnect (st : MPS.State) :
  mps_life st -> mps_life (MPS.disconnect st).2.
Proof.
  intros (Hw & Ho & Hs & Hc & Hk & He & Hb).
  destruct (mps_disconnect_effect st)
    as (_ & Rw & Ro & _ & _ & Rc & Rs & Rst & Re & _ & older & Rt & Fo).
  cbv zeta in *.
  eapply (mps_life_failed _ [] older (MPS.trace st) "connect-off");
    try eassumption; try discriminate; [rewrite Re; lia | constructor].
Qed.

Lemma mps_life_polling `{Codec} `{Json} `{DeviceUtils} `{Runtime}
    (env : MPS.PollEnv) (now : Z) (st : MPS.State) :
  mps_life st -> mps_life (MPS.polling env now st).
Proof.
  intros (Hw & Ho & Hs & Hc & Hk & He & Hb).
  destruct (socket_unusable (MPS.socket st) || negb (MPS.connected st))
    eqn:Hup.
  - rewrite (mps_polling_effect env now st Hw), Hup. unfold mps_life.
    cbn [MPS.working MPS.overloading MPS.lastStatus MPS.trace MPS.connected
         MPS.socket MPS.errRetryCount MPS.set_overloading MPS.set_working].
    life_split; try reflexivity; assumption.
  - destruct (socket_usable _ _ Hup) as (Hconn & sk & Hsk & _).
    destruct (daq_fails (MPS.daq_raises env) now
                (mps_queried (MPS.answers env) st)) eqn:Hdaq.
    + destruct (mps_polling_caught env now st Hw Hup Hdaq)
        as (Rw & Ro & Rc & Rs & _ & _ & Rst & Re & _ & err & cyc & older
            & _ & Rt & Fo & _).
      cbv zeta in *. unfold mps_life.
      rewrite Rw, Ro, Rc, Rs, Rst, Re, Rt.
      assert (Fs : Forall status_free older)
        by (eapply Forall_impl; [exact Fo | apply request_event_status_free]).
      life_split; try reflexivity.
      * cbn [last_status]. rewrite last_status_app by exact Fs. exact Hs.
      * exact Hc.
      * exact Hk.
      * lia.
      * intros [Hx|[Hx|[Hx|Hin]]]; try discriminate.
        apply in_status_app in Hin; [| exact Fs]. exact (Hb Hin).
    + destruct (mps_polling_cycle env now st Hw Hup Hdaq)
        as (Rw & Ro & Rc & Rs & _ & _ & Rst & Re & _ & cyc & older & Rt & Fo
            & _).
      cbv zeta in *. unfold mps_life.
      rewrite Rw, Ro, Rc, Rs, Rst, Re, Rt.
      assert (Fs : Forall status_free older)
        by (eapply Forall_impl; [exact Fo | apply request_event_status_free]).
      life_split; try reflexivity.
      * rewrite cycle_events_status.
        destruct (negb (String.eqb (MPS.lastStatus st) "connect-ok")) eqn:E;
          [reflexivity |].
        rewrite last_status_app by exact Fs.
        rewrite <- Hs. symmetry. apply Hc, Hconn.
      * split; [reflexivity | intros _; exact Hconn].
      * exact Hk.
      * lia.
      * intros Hin. apply cycle_events_in in Hin.
        destruct Hin as [Hx|Hin]; [discriminate |].
        apply in_status_app in Hin; [| exact Fs]. exact (Hb Hin).
Qed.

Lemma mps_life_perform `{Codec} `{Json} `{DeviceUtils} `{Runtime} (st : MPS.State)
    (c : MPS.Call) :
  mps_life st -> mps_life (MPS.perform st c).
Proof.
  intros Hi. destruct c; cbn [MPS.perform].
  - apply mps_life_connect, Hi.
  - apply mps_life_disconnect, Hi.
  - apply mps_life_polling, Hi.
  - destruct Hi as (Hw & Ho & Hs & Hc & Hk & He & Hb).
    unfold mps_life, MPS.load.
    cbn [MPS.working MPS.overloading MPS.lastStatus MPS.trace MPS.connected
         MPS.socket MPS.errRetryCount MPS.logger MPS.record MPS.set_trace
         MPS.set_varsValue MPS.set_tags last_status].
    life_split; try assumption.
    intros [Hx|Hin]; [discriminate | exact (Hb Hin)].
  - exact Hi.
Qed.

Lemma mps_life_after `{Codec} `{Json} `{DeviceUtils} `{Runtime}
    (tags : list (string * Tag)) (history : list MPS.Call) :
  mps_life (MPS.after tags history).
Proof.
  unfold MPS.after.
  generalize (mps_life_initial tags). generalize (MPS.initial tags).
  induction history as [|c rest IH]; intros st Hi; [exact Hi |].
  cbn [fold_left]. apply IH, mps_life_perform, Hi.
Qed.

(* ===================================================================== *)
(** * MPSClient: what a polling cycle asks and what it keeps *)
(* ===================================================================== *)

Lemma assoc_set_eq {A} (k : string) (v : A) (l : list (string * A)) :
  assoc k (assoc_set k v l) = Some v.
Proof.
  induction l as [|[k' v'] l IH]; cbn.
  - rewrite String.eqb_refl. reflexivity.
  - destruct (String.eqb k k') eqn:E; cbn.
    + rewrite String.eqb_refl. reflexivity.
    + rewrite E. exact IH.
Qed.

Lemma assoc_set_ne {A} (k other : string) (v : A) (l : list (string * A)) :
  other <> k -> assoc other (assoc_set k v l) = assoc other l.
Proof.
  intros Hne. induction l as [|[k' v'] l IH]; cbn.
  - destruct (String.eqb other k) eqn:E; [| reflexivity].
    apply String.eqb_eq in E. contradiction.
  - destruct (String.eqb k k') eqn:E; cbn.
    + apply String.eqb_eq in E. subst k'.
      destruct (String.eqb other k) eqn:E2; [| reflexivity].
      apply String.eqb_eq in E2. contradiction.
    + destruct (String.eqb other k'); [reflexivity | exact IH].
Qed.

(** The outcomes of [_queryAll] and the device states they leave. *)
Lemma mps_queryAll_outcome `{Codec} `{Json} `{Runtime} (dn : string) (inc : Incoming)
    (st : MPS.State) :
  let r := MPS._queryAll dn inc st in
  (exists result,
      r.1 = inl result /\ MPS.has_units result = true
      /\ MPS.deviceStates r.2 = assoc_set dn result (MPS.deviceStates st))
  \/ ((forall result, r.1 = inl result -> MPS.has_units result = false)
      /\ MPS.deviceStates r.2 = MPS.deviceStates st).
Proof.
  cbv zeta. unfold MPS._queryAll.
  destruct (MPS._sendDeviceCommand dn "QueryAll" 0 inc st)
    as [[result|err] st1] eqn:E.
  - assert (Hd : MPS.deviceStates st1 = MPS.deviceStates st).
    { unfold MPS._sendDeviceCommand, MPS._sendCommand, MPS._sendFramed in E.
      destruct (MPS.socket st) as [sk|]; [| discriminate].
      destruct (destroyed sk); [discriminate |].
      destruct (throws_write sk); [discriminate |]. cbv zeta in E.
      destruct (MPS.onData [] (chunks inc)) as [[n|data]|];
        try discriminate.
      destruct (JSON_parse data); [| discriminate].
      injection E as _ <-. reflexivity. }
    destruct (MPS.has_units result) eqn:Hu; cbn [fst snd].
    + left. exists result. rewrite Hd. repeat split. exact Hu.
    + right. split; [| exact Hd]. intros r Hr. congruence.
  - right. cbn [fst snd]. split; [discriminate |].
    unfold MPS._sendDeviceCommand, MPS._sendCommand, MPS._sendFramed in E.
    destruct (MPS.socket st) as [sk|]; [| congruence].
    destruct (destroyed sk); [congruence |].
    destruct (throws_write sk); [congruence |]. cbv zeta in E.
    destruct (MPS.onData [] (chunks inc)) as [[n|data]|];
      try (injection E as _ <-; reflexivity).
    destruct (JSON_parse data); injection E as _ <-; reflexivity.
Qed.

(** X4.  A QueryAll for one device never touches the cached state of
    another device, and it replaces the cached state of its own device
    only by a parsed response that has Units: a timeout, a socket error, an
    invalid frame, an unparsable answer or an answer without Units leaves
    every cached device state as it was. *)
Theorem query_all_caches_only_answers_with_units `{Codec} `{Json} `{Runtime} :
  forall (dn : string) (inc : Incoming) (st : MPS.State),
    let r := MPS._queryAll dn inc st in
    (forall other, other <> dn ->
        assoc other (MPS.deviceStates r.2)
        = assoc other (MPS.deviceStates st))
    /\ (forall err, r.1 = inr err ->
          MPS.deviceStates r.2 = MPS.deviceStates st)
    /\ (forall result, r.1 = inl result ->
          if MPS.has_units result
          then assoc dn (MPS.deviceStates r.2) = Some result
          else MPS.deviceStates r.2 = MPS.deviceStates st).
Proof.
  intros dn inc st. cbv zeta.
  destruct (mps_queryAll_outcome dn inc st)
    as [(result & Hr & Hu & Hd) | (Hno & Hd)]; cbv zeta in *.
  - split; [| split].
    + intros other Hne. rewrite Hd. apply assoc_set_ne, Hne.
    + intros err He. congruence.
    + intros result' Hr'. assert (result' = result) by congruence. subst.
      rewrite Hu, Hd. apply assoc_set_eq.
  - split; [| split].
    + intros other _. rewrite Hd. reflexivity.
    + intros _ _. exact Hd.
    + intros result Hr. rewrite (Hno result Hr). exact Hd.
Qed.

(** A request nothing answers fails, whatever the socket. *)
Lemma query_all_caches_only_answers_with_units_witness :
  MPS.deviceStates
    (@MPS._queryAll codec_plain json_none runtime_plain "Dev" MPS.silent mps_online).2
  = MPS.deviceStates mps_online.
Proof.
  exact (proj1 (proj2 (@query_all_caches_only_answers_with_units
                         codec_plain json_none runtime_plain "Dev" MPS.silent mps_online))
           "timeout" eq_refl).
Defined.

Lemma mps_queryAll_unanswered `{Codec} `{Json} `{Runtime} (dn : string) (inc : Incoming)
    (st : MPS.State) :
  chunks inc = [] -> exists err, (MPS._queryAll dn inc st).1 = inr err.
Proof.
  intros Hc.
  unfold MPS._queryAll, MPS._sendDeviceCommand, MPS._sendCommand,
    MPS._sendFramed.
  destruct (MPS.socket st) as [sk|]; [| eexists; reflexivity].
  destruct (destroyed sk); [eexists; reflexivity |].
  destruct (throws_write sk); [eexists; reflexivity |].
  cbv zeta. rewrite Hc. cbn. eexists; reflexivity.
Qed.

Lemma mps_query_devices_unanswered `{Codec} `{Json} `{Runtime} (names : list string)
    (env : list Incoming) (errors : Z) (st : MPS.State) :
  Forall (fun inc => chunks inc = []) env ->
  let q := MPS.query_devices names env errors st in
  q.1 = errors + Z.of_nat (length names)
  /\ MPS.deviceStates q.2 = MPS.deviceStates st.
Proof.
  revert env errors st. cbv zeta.
  induction names as [|dn rest IH]; intros env errors st Henv.
  - cbn. split; [lia | reflexivity].
  - cbn [MPS.query_devices].
    assert (Hhd : chunks (hd MPS.silent env) = [])
      by (destruct Henv; [reflexivity | assumption]).
    assert (Htl : Forall (fun inc => chunks inc = []) (tl env))
      by (destruct Henv; [constructor | assumption]).
    destruct (mps_queryAll_unanswered dn (hd MPS.silent env) st Hhd)
      as [err He].
    destruct (mps_queryAll_outcome dn (hd MPS.silent env) st)
      as [(result & Hr & _) | (_ & Hd)]; cbv zeta in *; [congruence |].
    destruct (MPS._queryAll dn (hd MPS.silent env) st) as [[v|e] st1];
      cbn [fst snd] in *; [discriminate |].
    destruct (IH (tl env) (errors + 1) st1 Htl) as [Hq1 Hq2].
    split; [rewrite Hq1; cbn [length]; lia | congruence].
Qed.

Lemma cycle_events_values (addDaq : bool) (lastStatus : string) (c : Cycle)
    (rest : list Event) :
  In (EmitValues (c_vars c)) (cycle_events addDaq lastStatus c ++ rest).
Proof.
  apply in_or_app. left. unfold cycle_events.
  apply in_or_app. right. apply in_or_app. right. left. reflexivity.
Qed.

(** X5.  MPSClient's polling() never gives the link up: whatever the
    server does, and whether or not the DAQ callback raises, [connected]
    and the socket are what they were.  When no QueryAll is answered at all
    and the callback returns, the cycle still runs to its end on a link
    that is up: it logs one warning with the number of devices, resolves
    the tags from the device states cached before, stamps and emits the
    values, reports 'connect-ok' and leaves the error counter at 0.  When
    the callback is called and raises, the values are cached, stamped and
    emitted all the same, the hand-off is on the trace, the error is logged
    and counted -- once: the counter was reset before the hand-off, so it
    stands at 1 -- and no status is reported. *)
Theorem mps_polling_keeps_the_link `{Codec} `{Json} `{DeviceUtils} `{Runtime} :
  (forall env now st,
      MPS.connected (MPS.polling env now st) = MPS.connected st
      /\ MPS.socket (MPS.polling env now st) = MPS.socket st)
  /\ (forall env now st,
      MPS.working st = false ->
      socket_unusable (MPS.socket st) || negb (MPS.connected st) = false ->
      Forall (fun inc => chunks inc = []) (MPS.answers env) ->
      MPS.daq_raises env = None ->
      let st' := MPS.polling env now st in
      MPS.lastStatus st' = "connect-ok"
      /\ MPS.errRetryCount st' = 0
      /\ MPS.lastTimestampValue st' = Some now
      /\ MPS.deviceStates st' = MPS.deviceStates st
      /\ MPS.varsValue st'
         = c_vars (tag_loop (MPS._resolveTagValue (MPS.deviceStates st))
                     (MPS.addDaq st) now (MPS.tags st)
                     {| c_vars := MPS.varsValue st; c_changed := ∅;
                        c_log := [] |})
      /\ In (EmitValues (MPS.varsValue st')) (MPS.trace st')
      /\ (MPS.device_names (MPS.tags st) <> [] ->
          In (Log LWarn
                (MsgQueryAllFailed
                   (Z.of_nat (length (MPS.device_names (MPS.tags st))))))
            (MPS.trace st')))
  /\ (forall env now st err,
      MPS.working st = false ->
      socket_unusable (MPS.socket st) || negb (MPS.connected st) = false ->
      MPS.daq_raises env = Some err ->
      MPS.addDaq st = true ->
      MPS.poll_changed now (mps_queried (MPS.answers env) st) <> ∅ ->
      let st' := MPS.polling env now st in
      MPS.errRetryCount st' = 1
      /\ MPS.lastStatus st' = MPS.lastStatus st
      /\ MPS.lastTimestampValue st' = Some now
      /\ MPS.working st' = false
      /\ exists older,
           MPS.trace st'
           = Log LError (MsgPollingError err)
               :: AddDaq (changed_object (MPS.varsValue st')
                            (MPS.poll_changed now
                               (mps_queried (MPS.answers env) st)))
               :: EmitValues (MPS.varsValue st') :: older ++ MPS.trace st
           /\ Forall request_event older).
Proof.
  split; [| split].
  - intros env now st. destruct (MPS.working st) eqn:Hw.
    + unfold MPS.polling. rewrite (mps_rejected st Hw).
      destruct (3 <=? MPS.overloading st + 1); split; reflexivity.
    + rewrite (mps_polling_effect env now st Hw).
      destruct (socket_unusable (MPS.socket st) || negb (MPS.connected st));
        [split; reflexivity |].
      destruct (mps_queried_request (MPS.answers env) st) as [Hl _].
      apply mps_link_fields in Hl.
      destruct Hl as (_ & Hs & Hc & _).
      set (st3 := mps_queried (MPS.answers env) st) in *.
      destruct (mps_released (MPS.poll_try (MPS.daq_raises env) now st3))
        as (_ & _ & Rc & Rs & _).
      cbv zeta in *. rewrite Rc, Rs.
      destruct (daq_fails (MPS.daq_raises env) now st3) eqn:Hdaq.
      * destruct (mps_poll_try_caught _ _ _ Hdaq) as (err & _ & ->).
        destruct (mps_poll_caught_effect err now st3) as (_ & Ps & Pc & _).
        cbv zeta in *. rewrite Ps, Pc, Hs, Hc. split; reflexivity.
      * rewrite (mps_poll_try_completes _ _ _ Hdaq).
        destruct (mps_poll_cycle_link now st3) as (_ & Ps & Pc & _).
        cbv zeta in *. rewrite Ps, Pc, Hs, Hc. split; reflexivity.
  - intros env now st Hw Hup Henv Hnone. cbv zeta.
    rewrite (mps_polling_effect env now st Hw), Hup, Hnone.
    cbn [MPS.poll_try].
    set (answers := MPS.answers env) in *. clearbody answers.
    destruct (mps_released (MPS.poll_cycle now (mps_queried answers st)))
      as (_ & _ & _ & _ & _ & _ & Rst & Re & Rts & Rt & Rv & Rd).
    cbv zeta in *. rewrite Rst, Re, Rts, Rt, Rv, Rd.
    destruct (mps_poll_cycle_link now (mps_queried answers st))
      as (_ & _ & _ & _ & _ & _ & Pd & _ & Pst).
    destruct (mps_poll_cycle_effect now (mps_queried answers st))
      as (Ev & Et & Ee & Ets).
    cbv zeta in *. rewrite Pst, Ee, Ets, Pd.
    destruct (mps_queried_request answers st) as [Hl _].
    apply mps_link_fields in Hl.
    destruct Hl as (Htags & _ & _ & _ & _ & _ & _ & _ & _ & Hvars & Hdaq).
    cbn [MPS.tags MPS.varsValue MPS.addDaq MPS.set_working] in *.
    destruct (mps_query_devices_unanswered
                (MPS.device_names (MPS.tags st)) answers 0
                (MPS.set_working true st) Henv) as [Hn Hds].
    cbv zeta in *.
    assert (Hdev : MPS.deviceStates (mps_queried answers st)
                   = MPS.deviceStates st).
    { unfold mps_queried. cbv zeta. destruct (0 <? _); exact Hds. }
    rewrite Htags, Hvars, Hdaq, Hdev in Ev, Et.
    do 3 (split; [reflexivity |]). split; [exact Hdev |].
    split; [exact Ev |]. split.
    + rewrite Ev, Et. apply cycle_events_values.
    + intros Hne. rewrite Et. apply in_or_app. right. apply in_or_app. right.
      unfold mps_queried. cbv zeta. rewrite Hn.
      assert (Hpos : (0 <? 0 + Z.of_nat
                             (length (MPS.device_names (MPS.tags st))))
                     = true).
      { apply Z.ltb_lt. destruct (MPS.device_names (MPS.tags st));
          [contradiction | cbn [length]; lia]. }
      rewrite Hpos. left. reflexivity.
  - intros env now st err Hw Hup Herr Hadd Hchanged. cbv zeta.
    assert (Hdaq : daq_fails (MPS.daq_raises env) now
                     (mps_queried (MPS.answers env) st) = true).
    { unfold daq_fails. rewrite Herr.
      destruct (mps_queried_request (MPS.answers env) st) as [Hl _].
      apply mps_link_fields in Hl.
      destruct Hl as (_ & _ & _ & _ & _ & _ & _ & _ & _ & _ & Hd).
      cbn [MPS.addDaq MPS.set_working] in Hd. rewrite Hd, Hadd.
      cbn [andb]. unfold isEmptyObject.
      apply negb_true_iff, bool_decide_eq_false. exact Hchanged. }
    destruct (mps_polling_caught env now st Hw Hup Hdaq)
      as (Rw & _ & _ & _ & _ & _ & Rst & Re & Rts & err' & cyc & older
          & Herr' & Rt & Fo & Rv).
    cbv zeta in *.
    rewrite Re, Rst, Rts, Rw. do 4 (split; [reflexivity |]).
    assert (err' = err) by congruence. subst err'.
    rewrite (mps_polling_effect env now st Hw), Hup in Rt, Rv |- *.
    destruct (mps_poll_try_caught _ _ _ Hdaq) as (err2 & Herr2 & Htry).
    assert (err2 = err) by congruence. subst err2.
    rewrite Htry in *.
    set (st3 := mps_queried (MPS.answers env) st) in *.
    destruct (mps_poll_caught_effect err now st3)
      as (_ & _ & _ & _ & _ & _ & _ & _ & _ & _ & _ & Pv & Pt).
    destruct (mps_released
                (MPS.polling_failed err (MPS.poll_cycle_to_daq now st3)))
      as (_ & _ & _ & _ & _ & _ & _ & _ & _ & Qt & Qv & _).
    cbv zeta in *. rewrite Qt, Qv, Pt, Pv.
    destruct (mps_queried_request (MPS.answers env) st)
      as [Hl (events & Ht & Hf)].
    fold st3 in Ht.
    cbn [MPS.trace MPS.set_working] in Ht.
    exists (c_log
              (tag_loop (MPS._resolveTagValue (MPS.deviceStates st3))
                 (MPS.addDaq st3) now (MPS.tags st3)
                 {| c_vars := MPS.varsValue st3; c_changed := ∅;
                    c_log := [] |}) ++ events).
    split.
    + rewrite Ht, <- app_assoc. reflexivity.
    + apply Forall_app. split; [| exact Hf].
      apply tag_loop_logs. constructor.
Qed.

Lemma mps_polling_keeps_the_link_witness :
  let st' := @MPS.polling codec_plain json_none utils_plain runtime_plain
               poll_silent 1000 mps_two_tags in
  MPS.lastStatus st' = "connect-ok"
  /\ MPS.errRetryCount st' = 0
  /\ In (Log LWarn (MsgQueryAllFailed 1)) (MPS.trace st').
Proof.
  cbv zeta.
  destruct (proj1 (proj2 (@mps_polling_keeps_the_link codec_plain json_none
                            utils_plain runtime_plain))
              poll_silent 1000 mps_two_tags eq_refl eq_refl
              (List.Forall_nil _) eq_refl)
    as (Hs & He & _ & _ & _ & _ & Hw).
  split; [exact Hs |]. split; [exact He |].
  apply Hw. discriminate.
Defined.

(** ** One QueryAll per device *)

(** The frames written to the socket, newest first. *)
Definition sock_writes (trace : list Event) : list (list byte) :=
  omap (fun e => match e with SockWrite bytes => Some bytes | _ => None end)
    trace.

Lemma sock_writes_app (a b : list Event) :
  sock_writes (a ++ b) = sock_writes a ++ sock_writes b.
Proof. apply omap_app. Qed.

Lemma sock_writes_logs (events : list Event) :
  Forall error_log events -> sock_writes events = [].
Proof.
  induction 1 as [|e events [m ->] _ IH]; [reflexivity | exact IH].
Qed.

Lemma sock_writes_cycle (addDaq : bool) (lastStatus : string) (c : Cycle) :
  sock_writes (cycle_events addDaq lastStatus c) = [].
Proof.
  unfold cycle_events.
  destruct (negb _); destruct (addDaq && _); reflexivity.
Qed.

Lemma dedup_keys_elem (l seen : list string) (x : string) :
  x ∈ dedup_keys seen l <-> x ∈ l /\ x ∉ seen.
Proof.
  revert seen. induction l as [|k l IH]; intros seen; cbn.
  - split; [intros Hx; inversion Hx | intros [Hx _]; inversion Hx].
  - destruct (bool_decide (k ∈ seen)) eqn:E.
    + apply bool_decide_eq_true in E. rewrite IH. split.
      * intros [Hx Hn]. split; [right; exact Hx | exact Hn].
      * intros [Hx Hn]. split; [| exact Hn].
        apply elem_of_cons in Hx. destruct Hx as [->|Hx];
          [contradiction | exact Hx].
    + apply bool_decide_eq_false in E. rewrite elem_of_cons, IH. split.
      * intros [->|[Hx Hn]].
        -- split; [left | exact E].
        -- split; [right; exact Hx |].
           intros Hs. apply Hn. right. exact Hs.
      * intros [Hx Hn]. apply elem_of_cons in Hx.
        destruct Hx as [->|Hx]; [left; reflexivity |].
        destruct (decide (x = k)) as [->|Hne]; [left; reflexivity |].
        right. split; [exact Hx |]. intros Hs.
        apply elem_of_cons in Hs. destruct Hs as [Hs|Hs]; contradiction.
Qed.

Lemma dedup_keys_NoDup (l seen : list string) : NoDup (dedup_keys seen l).
Proof.
  revert seen. induction l as [|k l IH]; intros seen; cbn; [constructor |].
  destruct (bool_decide (k ∈ seen)); [apply IH |].
  constructor; [| apply IH].
  rewrite dedup_keys_elem. intros [_ Hn]. apply Hn. left.
Qed.

Lemma mps_queryAll_trace `{Codec} `{Json} `{Runtime} (dn : string) (inc : Incoming)
    (st : MPS.State) (sk : Socket) :
  MPS.socket st = Some sk -> destroyed sk = false ->
  throws_write sk = false ->
  MPS.trace (MPS._queryAll dn inc st).2
  = SockWrite (MPS._buildFrame (JSON_stringify_cmd dn "QueryAll" 0))
      :: MPS.trace st.
Proof.
  intros Hsk Hd Hw.
  unfold MPS._queryAll, MPS._sendDeviceCommand, MPS._sendCommand,
    MPS._sendFramed. rewrite Hsk, Hd, Hw. cbv zeta.
  destruct (MPS.onData [] (chunks inc)) as [[n|data]|]; try reflexivity.
  destruct (JSON_parse data) as [v|]; [| reflexivity].
  destruct (MPS.has_units v); reflexivity.
Qed.

Lemma mps_query_devices_writes `{Codec} `{Json} `{Runtime} (names : list string)
    (env : list Incoming) (errors : Z) (st : MPS.State) (sk : Socket) :
  MPS.socket st = Some sk -> destroyed sk = false ->
  throws_write sk = false ->
  MPS.trace (MPS.query_devices names env errors st).2
  = rev ((fun dn => SockWrite
                      (MPS._buildFrame (JSON_stringify_cmd dn "QueryAll" 0)))
           <$> names) ++ MPS.trace st.
Proof.
  intros Hsk Hd Hw. revert env errors st Hsk.
  induction names as [|dn rest IH]; intros env errors st Hsk;
    [reflexivity |].
  cbn [MPS.query_devices fmap list_fmap rev].
  pose proof (mps_queryAll_trace dn (hd MPS.silent env) st sk Hsk Hd Hw)
    as Ht.
  destruct (mps_request_queryAll dn (hd MPS.silent env) st) as [Hl _].
  apply mps_link_fields in Hl. destruct Hl as (_ & Hs & _).
  destruct (MPS._queryAll dn (hd MPS.silent env) st) as [[v|e] st1];
    cbn [snd] in *;
    (rewrite IH by congruence; rewrite Ht, <- app_assoc; reflexivity).
Qed.

Lemma sock_writes_rev_frames (frames : list (list byte)) :
  sock_writes (rev (SockWrite <$> frames)) = rev frames.
Proof.
  induction frames as [|f frames IH]; [reflexivity |].
  cbn [fmap list_fmap rev]. rewrite sock_writes_app, IH. reflexivity.
Qed.


(* ===================================================================== *)
(** * EasyDrvClient: the life cycle *)
(* ===================================================================== *)

Lemma easydrv_checkWorking_accepts (st : EasyDrv.State) :
  EasyDrv.working st = false ->
  EasyDrv._checkWorking true st = (true, EasyDrv.set_working true st).
Proof. intros Hw. unfold EasyDrv._checkWorking. rewrite Hw. reflexivity. Qed.

Lemma easydrv_link_fields (st' st : EasyDrv.State) :
  easydrv_link st' = easydrv_link st ->
  EasyDrv.tags st' = EasyDrv.tags st
  /\ EasyDrv.pacName st' = EasyDrv.pacName st
  /\ EasyDrv.socket st' = EasyDrv.socket st
  /\ EasyDrv.connected st' = EasyDrv.connected st
  /\ EasyDrv.working st' = EasyDrv.working st
  /\ EasyDrv.overloading st' = EasyDrv.overloading st
  /\ EasyDrv.lastStatus st' = EasyDrv.lastStatus st
  /\ EasyDrv.lastTimestampValue st' = EasyDrv.lastTimestampValue st
  /\ EasyDrv.errRetryCount st' = EasyDrv.errRetryCount st
  /\ EasyDrv.gotDevices st' = EasyDrv.gotDevices st
  /\ EasyDrv.varsValue st' = EasyDrv.varsValue st
  /\ EasyDrv.addDaq st' = EasyDrv.addDaq st.
Proof.
  unfold easydrv_link. intros Heq.
  injection Heq as -> -> -> -> -> -> -> -> -> -> -> ->. repeat split.
Qed.

(** The state a call leaves when it releases the working flag. *)
Definition easydrv_release (st : EasyDrv.State) : EasyDrv.State :=
  EasyDrv.set_overloading 0 (EasyDrv.set_working false st).

Lemma easydrv_released (st : EasyDrv.State) :
  let st' := easydrv_release st in
  EasyDrv.working st' = false /\ EasyDrv.overloading st' = 0
  /\ EasyDrv.connected st' = EasyDrv.connected st
  /\ EasyDrv.socket st' = EasyDrv.socket st
  /\ EasyDrv.tags st' = EasyDrv.tags st
  /\ EasyDrv.addDaq st' = EasyDrv.addDaq st
  /\ EasyDrv.lastStatus st' = EasyDrv.lastStatus st
  /\ EasyDrv.errRetryCount st' = EasyDrv.errRetryCount st
  /\ EasyDrv.lastTimestampValue st' = EasyDrv.lastTimestampValue st
  /\ EasyDrv.trace st' = EasyDrv.trace st
  /\ EasyDrv.varsValue st' = EasyDrv.varsValue st
  /\ EasyDrv.luaState st' = EasyDrv.luaState st
  /\ EasyDrv.gotDevices st' = EasyDrv.gotDevices st.
Proof. cbv zeta. repeat split. Qed.

(** What the cycle assigns besides the cache and the trace. *)
Lemma easydrv_poll_cycle_link `{DeviceUtils} `{Runtime} (timestamp : Z)
    (st : EasyDrv.State) :
  let st' := EasyDrv.poll_cycle timestamp st in
  EasyDrv.tags st' = EasyDrv.tags st
  /\ EasyDrv.socket st' = EasyDrv.socket st
  /\ EasyDrv.connected st' = EasyDrv.connected st
  /\ EasyDrv.working st' = EasyDrv.working st
  /\ EasyDrv.overloading st' = EasyDrv.overloading st
  /\ EasyDrv.luaState st' = EasyDrv.luaState st
  /\ EasyDrv.gotDevices st' = EasyDrv.gotDevices st
  /\ EasyDrv.addDaq st' = EasyDrv.addDaq st
  /\ EasyDrv.lastStatus st' = "connect-ok".
Proof.
  unfold EasyDrv.poll_cycle. cbv zeta.
  set (c := tag_loop _ _ _ _ _). clearbody c.
  set (save := negb (isEmptyObject (c_changed c))). clearbody save.
  cbn. destruct (EasyDrv.addDaq st && save); cbn;
    destruct (String.eqb (EasyDrv.lastStatus st) "connect-ok") eqn:E;
    cbn; repeat split; try reflexivity;
    apply String.eqb_eq; exact E.
Qed.

(** polling() on a driver that is not busy, case by case. *)
Lemma easydrv_polling_effect `{Zlib} `{Codec} `{Fengari} `{DeviceUtils} `{Runtime}
    (inc : Incoming) (now : Z) (st : EasyDrv.State) :
  EasyDrv.working st = false ->
  EasyDrv.polling inc now st
  = if negb (bool_decide (is_Some (EasyDrv.socket st)))
       || negb (EasyDrv.connected st)
    then easydrv_release st
    else match EasyDrv._getPACStates inc (EasyDrv.set_working true st) with
         | (inr err, st2) =>
             easydrv_release (EasyDrv.polling_failed err st2)
         | (inl None, st2) => easydrv_release st2
         | (inl (Some _), st2) =>
             easydrv_release (EasyDrv.poll_cycle now st2)
         end.
Proof.
  intros Hw. unfold EasyDrv.polling.
  rewrite (easydrv_checkWorking_accepts st Hw).
  cbn [EasyDrv.socket EasyDrv.connected EasyDrv.set_working].
  destruct (negb (bool_decide (is_Some (EasyDrv.socket st)))
            || negb (EasyDrv.connected st)).
  - rewrite !easydrv_checkWorking_false. reflexivity.
  - destruct (EasyDrv._getPACStates inc (EasyDrv.set_working true st))
      as [[[ls|]|err] st2]; rewrite !easydrv_checkWorking_false;
      reflexivity.
Qed.

(** The [catch] branch of polling(), field by field. *)
Lemma easydrv_polling_failed_fields (err : string) (st : EasyDrv.State) :
  let st' := EasyDrv.polling_failed err st in
  EasyDrv.errRetryCount st' = EasyDrv.errRetryCount st + 1
  /\ EasyDrv.socket st' = EasyDrv.socket st
  /\ EasyDrv.varsValue st' = EasyDrv.varsValue st
  /\ EasyDrv.lastTimestampValue st' = EasyDrv.lastTimestampValue st
  /\ EasyDrv.luaState st' = EasyDrv.luaState st
  /\ EasyDrv.tags st' = EasyDrv.tags st
  /\ if 2 <=? EasyDrv.errRetryCount st + 1
     then EasyDrv.connected st' = false
          /\ EasyDrv.lastStatus st' = "connect-error"
          /\ EasyDrv.trace st'
             = Log LError (MsgPollingError err)
                 :: EmitStatus "connect-error" :: EasyDrv.trace st
     else EasyDrv.connected st' = EasyDrv.connected st
          /\ EasyDrv.lastStatus st' = EasyDrv.lastStatus st
          /\ EasyDrv.trace st'
             = Log LError (MsgPollingError err) :: EasyDrv.trace st.
Proof.
  cbv zeta. unfold EasyDrv.polling_failed, EasyDrv.MAX_ERRORS_COUNT.
  cbv zeta. cbn [EasyDrv.errRetryCount EasyDrv.set_errRetryCount].
  destruct (2 <=? EasyDrv.errRetryCount st + 1); cbn; repeat split.
Qed.

(** What the requests of connect() leave alone. *)
Definition easydrv_same_core (st' st : EasyDrv.State) : Prop :=
  EasyDrv.tags st' = EasyDrv.tags st
  /\ EasyDrv.socket st' = EasyDrv.socket st
  /\ EasyDrv.connected st' = EasyDrv.connected st
  /\ EasyDrv.lastStatus st' = EasyDrv.lastStatus st
  /\ EasyDrv.errRetryCount st' = EasyDrv.errRetryCount st
  /\ EasyDrv.varsValue st' = EasyDrv.varsValue st
  /\ EasyDrv.addDaq st' = EasyDrv.addDaq st
  /\ request_events (EasyDrv.trace st') (EasyDrv.trace st).

Lemma easydrv_same_core_request (st' st : EasyDrv.State) :
  easydrv_request_only st' st -> easydrv_same_core st' st.
Proof.
  intros [Hl Ht]. apply easydrv_link_fields in Hl.
  destruct Hl as (H1 & _ & H3 & H4 & _ & _ & H7 & _ & H9 & _ & H11 & H12).
  unfold easydrv_same_core. auto 10.
Qed.

Lemma easydrv_same_core_trans (a b c : EasyDrv.State) :
  easydrv_same_core a b -> easydrv_same_core b c -> easydrv_same_core a c.
Proof.
  intros (A1 & A2 & A3 & A4 & A5 & A6 & A7 & A8)
         (B1 & B2 & B3 & B4 & B5 & B6 & B7 & B8).
  unfold easydrv_same_core.
  repeat split; try congruence.
  eapply request_events_trans; eassumption.
Qed.

Lemma easydrv_connect_opened_effect `{Zlib} `{Codec} `{Fengari} `{RT : Runtime}
    (env : EasyDrv.ConnectEnv) (st : EasyDrv.State) :
  let r := EasyDrv.connect_opened env st in
  r.1 = Resolved
  /\ EasyDrv.working r.2 = false /\ EasyDrv.overloading r.2 = 0
  /\ EasyDrv.connected r.2 = true
  /\ EasyDrv.socket r.2 = EasyDrv.socket st
  /\ EasyDrv.lastStatus r.2 = "connect-ok"
  /\ EasyDrv.errRetryCount r.2 = 0
  /\ EasyDrv.varsValue r.2 = EasyDrv.varsValue st
  /\ EasyDrv.tags r.2 = EasyDrv.tags st
  /\ EasyDrv.addDaq r.2 = EasyDrv.addDaq st
  /\ exists older,
       EasyDrv.trace r.2
       = Log LInfo MsgConnected :: EmitStatus "connect-ok"
           :: older ++ EasyDrv.trace st
       /\ Forall request_event older.
Proof.
  cbv zeta. unfold EasyDrv.connect_opened. cbv zeta.
  set (st2 := EasyDrv.set_recvBuffer [] _).
  assert (H2 : EasyDrv.tags st2 = EasyDrv.tags st
               /\ EasyDrv.socket st2 = EasyDrv.socket st
               /\ EasyDrv.connected st2 = true
               /\ EasyDrv.errRetryCount st2 = 0
               /\ EasyDrv.varsValue st2 = EasyDrv.varsValue st
               /\ EasyDrv.addDaq st2 = EasyDrv.addDaq st
               /\ request_events (EasyDrv.trace st2) (EasyDrv.trace st)).
  { subst st2. cbn. repeat split.
    apply request_events_cons; [exact I | apply request_events_refl]. }
  clearbody st2.
  set (st3 := match EasyDrv._getPACInfo _ st2 with
              | (inl _, s) => s
              | (inr err, s) => _
              end).
  assert (H3 : easydrv_same_core st3 st2).
  { subst st3.
    pose proof (easydrv_request_getPACInfo (EasyDrv.info_reply env) st2)
      as Hr.
    destruct (EasyDrv._getPACInfo (EasyDrv.info_reply env) st2)
      as [[u|err] s]; cbn [snd] in Hr;
      apply easydrv_same_core_request; [exact Hr |].
    apply easydrv_request_record; [exact I | exact Hr]. }
  clearbody st3.
  set (st4 := match EasyDrv._getPACStates _ st3 with
              | (inl _, s) => _
              | (inr err, s) => _
              end).
  assert (H4 : easydrv_same_core st4 st3).
  { subst st4.
    pose proof (easydrv_request_getPACStates (EasyDrv.states_reply env) st3)
      as Hr.
    destruct (EasyDrv._getPACStates (EasyDrv.states_reply env) st3)
      as [[u|err] s]; cbn [snd] in Hr.
    - apply easydrv_same_core_request in Hr.
      destruct Hr as (A1 & A2 & A3 & A4 & A5 & A6 & A7 & A8).
      unfold easydrv_same_core. cbn. auto 10.
    - apply easydrv_same_core_request.
      apply easydrv_request_record; [exact I | exact Hr]. }
  clearbody st4.
  destruct (easydrv_same_core_trans _ _ _ H4 H3)
    as (A1 & A2 & A3 & A4 & A5 & A6 & A7 & A8).
  destruct H2 as (B1 & B2 & B3 & B4 & B5 & B6 & B7).
  rewrite easydrv_checkWorking_false. cbn [fst snd].
  cbn [EasyDrv.working EasyDrv.overloading EasyDrv.connected EasyDrv.socket
       EasyDrv.lastStatus EasyDrv.errRetryCount EasyDrv.varsValue
       EasyDrv.tags EasyDrv.addDaq EasyDrv.trace EasyDrv.set_overloading
       EasyDrv.set_working EasyDrv.logger EasyDrv.record EasyDrv.set_trace
       EasyDrv._emitStatus EasyDrv.set_lastStatus].
  repeat split; try congruence.
  destruct (request_events_trans _ _ _ A8 B7) as (older & -> & Hf).
  exists older. split; [reflexivity | exact Hf].
Qed.

(** The [catch] branch of connect(). *)
Lemma easydrv_connect_failed_effect (err : string) (st : EasyDrv.State) :
  let r := EasyDrv.connect_failed err st in
  r.1 = Rejected err
  /\ EasyDrv.working r.2 = false /\ EasyDrv.overloading r.2 = 0
  /\ EasyDrv.connected r.2 = false
  /\ EasyDrv.socket r.2 = None
  /\ EasyDrv.lastStatus r.2 = "connect-error"
  /\ EasyDrv.errRetryCount r.2 = EasyDrv.errRetryCount st
  /\ EasyDrv.varsValue r.2 = set_value JNull <$> EasyDrv.varsValue st
  /\ EasyDrv.tags r.2 = EasyDrv.tags st
  /\ EasyDrv.addDaq r.2 = EasyDrv.addDaq st
  /\ exists newer,
       EasyDrv.trace r.2
       = newer ++ EmitValues (EasyDrv.varsValue r.2)
           :: EmitStatus "connect-error" :: EasyDrv.trace st
       /\ Forall status_free newer.
Proof.
  cbv zeta. unfold EasyDrv.connect_failed. cbv zeta.
  rewrite easydrv_checkWorking_false. cbn [snd].
  cbn [EasyDrv.socket EasyDrv.set_overloading EasyDrv.set_working
       EasyDrv._clearVarsValue EasyDrv._emitValues EasyDrv.record
       EasyDrv.set_trace EasyDrv.set_varsValue EasyDrv._emitStatus
       EasyDrv.set_lastStatus EasyDrv.set_connected].
  destruct (EasyDrv.socket st) as [sk|] eqn:Hsk.
  - unfold EasyDrv.teardown.
    destruct (throws_removeAllListeners sk);
      [| destruct (throws_destroy sk)]; cbn;
      repeat split; events_before.
  - cbn. repeat split; try assumption. events_before.
Qed.

(** The effect of connect() on a driver that is not busy. *)
Lemma easydrv_connect_effect `{Zlib} `{Codec} `{Fengari} `{Runtime}
    (env : EasyDrv.ConnectEnv) (st : EasyDrv.State) :
  EasyDrv.working st = false ->
  let r := EasyDrv.connect env st in
  EasyDrv.working r.2 = false /\ EasyDrv.overloading r.2 = 0
  /\ EasyDrv.tags r.2 = EasyDrv.tags st
  /\ EasyDrv.addDaq r.2 = EasyDrv.addDaq st
  /\ match EasyDrv.tcp env with
     | TcpOpen =>
         r.1 = Resolved
         /\ EasyDrv.connected r.2 = true
         /\ EasyDrv.socket r.2 = Some (EasyDrv.fresh_socket env)
         /\ EasyDrv.lastStatus r.2 = "connect-ok"
         /\ EasyDrv.errRetryCount r.2 = 0
         /\ EasyDrv.varsValue r.2 = EasyDrv.varsValue st
         /\ exists older,
              EasyDrv.trace r.2
              = Log LInfo MsgConnected :: EmitStatus "connect-ok"
                  :: older ++ EasyDrv.trace st
              /\ Forall status_free older
     | failed =>
         r.1 = Rejected match failed with
                        | TcpError err => err
                        | _ => "connection timeout"
                        end
         /\ EasyDrv.connected r.2 = false
         /\ EasyDrv.socket r.2 = None
         /\ EasyDrv.lastStatus r.2 = "connect-error"
         /\ EasyDrv.errRetryCount r.2 = EasyDrv.errRetryCount st
         /\ EasyDrv.varsValue r.2 = set_value JNull <$> EasyDrv.varsValue st
         /\ exists newer older,
              EasyDrv.trace r.2
              = newer ++ EmitValues (EasyDrv.varsValue r.2)
                  :: EmitStatus "connect-error" :: older ++ EasyDrv.trace st
              /\ Forall status_free newer /\ Forall status_free older
     end.
Proof.
  intros Hw. cbv zeta. unfold EasyDrv.connect.
  rewrite (easydrv_checkWorking_accepts st Hw). cbv zeta.
  set (st3 := EasyDrv.record SockConnect _).
  assert (H3 : EasyDrv.tags st3 = EasyDrv.tags st
               /\ EasyDrv.addDaq st3 = EasyDrv.addDaq st
               /\ EasyDrv.socket st3 = Some (EasyDrv.fresh_socket env)
               /\ EasyDrv.errRetryCount st3 = EasyDrv.errRetryCount st
               /\ EasyDrv.varsValue st3 = EasyDrv.varsValue st
               /\ EasyDrv.trace st3
                  = [SockConnect; Log LInfo MsgTryConnect]
                      ++ EasyDrv.trace st)
    by (subst st3; cbn; repeat split).
  destruct H3 as (T3 & D3 & S3 & E3 & V3 & R3).
  destruct (EasyDrv.tcp env) as [| |err].
  - clearbody st3.
    destruct (easydrv_connect_opened_effect env st3)
      as (C1 & C2 & C3 & C4 & C5 & C6 & C7 & C8 & C9 & C10 & older & Ct
          & Cf).
    cbv zeta in *. repeat split; try congruence.
    exists (older ++ [SockConnect; Log LInfo MsgTryConnect]). split.
    + rewrite Ct, R3, <- app_assoc. reflexivity.
    + apply Forall_app. split.
      * eapply Forall_impl; [exact Cf | apply request_event_status_free].
      * repeat constructor.
  - set (st4 := EasyDrv.record SockDestroy _).
    assert (H4 : EasyDrv.tags st4 = EasyDrv.tags st
                 /\ EasyDrv.addDaq st4 = EasyDrv.addDaq st
                 /\ EasyDrv.errRetryCount st4 = EasyDrv.errRetryCount st
                 /\ EasyDrv.varsValue st4 = EasyDrv.varsValue st
                 /\ EasyDrv.trace st4
                    = [SockDestroy; SockConnect; Log LInfo MsgTryConnect]
                        ++ EasyDrv.trace st)
      by (subst st4 st3; cbn; repeat split).
    destruct H4 as (T4 & D4 & E4 & V4 & R4). clearbody st4. clear st3 T3 D3 S3 E3 V3 R3.
    destruct (easydrv_connect_failed_effect "connection timeout" st4)
      as (C1 & C2 & C3 & C4 & C5 & C6 & C7 & C8 & C9 & C10 & newer & Ct
          & Cf).
    cbv zeta in *. repeat split; try congruence.
    exists newer, [SockDestroy; SockConnect; Log LInfo MsgTryConnect].
    split; [rewrite Ct, R4; reflexivity |].
    split; [exact Cf | repeat constructor].
  - clearbody st3.
    destruct (easydrv_connect_failed_effect err st3)
      as (C1 & C2 & C3 & C4 & C5 & C6 & C7 & C8 & C9 & C10 & newer & Ct
          & Cf).
    cbv zeta in *. repeat split; try congruence.
    exists newer, [SockConnect; Log LInfo MsgTryConnect].
    split; [rewrite Ct, R3; reflexivity |].
    split; [exact Cf | repeat constructor].
Qed.

(** The effect of disconnect(). *)
Lemma easydrv_disconnect_effect (st : EasyDrv.State) :
  let r := EasyDrv.disconnect st in
  r.1 = Resolved
  /\ EasyDrv.working r.2 = false /\ EasyDrv.overloading r.2 = 0
  /\ EasyDrv.tags r.2 = EasyDrv.tags st
  /\ EasyDrv.addDaq r.2 = EasyDrv.addDaq st
  /\ EasyDrv.connected r.2 = false /\ EasyDrv.socket r.2 = None
  /\ EasyDrv.lastStatus r.2 = "connect-off"
  /\ EasyDrv.errRetryCount r.2 = 0
  /\ EasyDrv.varsValue r.2 = set_value JNull <$> EasyDrv.varsValue st
  /\ exists older,
       EasyDrv.trace r.2
       = EmitValues (EasyDrv.varsValue r.2) :: EmitStatus "connect-off"
           :: older ++ EasyDrv.trace st
       /\ Forall status_free older.
Proof.
  cbv zeta.
  unfold EasyDrv.disconnect, EasyDrv.disconnect_finally,
    EasyDrv.disconnect_try.
  rewrite easydrv_checkWorking_false. cbn.
  destruct (EasyDrv.socket st) as [sk|]; cbn.
  - destruct (throws_removeAllListeners sk);
      [| destruct (throws_destroy sk)]; cbn;
      destruct (EasyDrv.luaEngine st); cbn;
      repeat split; events_before.
  - destruct (EasyDrv.luaEngine st); cbn; repeat split; events_before.
Qed.

(** What holds of an instance between two calls that do not overlap. *)
Definition easydrv_life (st : EasyDrv.State) : Prop :=
  EasyDrv.working st = false /\ EasyDrv.overloading st = 0
  /\ EasyDrv.lastStatus st = last_status (EasyDrv.trace st)
  /\ (EasyDrv.connected st = true <-> EasyDrv.lastStatus st = "connect-ok")
  /\ (EasyDrv.connected st = true -> is_Some (EasyDrv.socket st))
  /\ 0 <= EasyDrv.errRetryCount st <= 2
  /\ (EasyDrv.connected st = true -> EasyDrv.errRetryCount st < 2)
  /\ ~ In (EmitStatus "connect-busy") (EasyDrv.trace st).

Ltac life_split8 :=
  split; [| split; [| split; [| split; [| split; [| split; [| split]]]]]].

Lemma easydrv_life_initial (tags : list (string * Tag)) (name : string) :
  easydrv_life (EasyDrv.initial tags name).
Proof.
  unfold easydrv_life. cbn.
  life_split8;
    first [reflexivity | discriminate | lia | split; discriminate
          | intros []].
Qed.

Lemma easydrv_life_down (st : EasyDrv.State) (newer older old : list Event)
    (status : string) :
  status <> "connect-ok" -> status <> "connect-busy" ->
  EasyDrv.working st = false -> EasyDrv.overloading st = 0 ->
  EasyDrv.connected st = false -> 0 <= EasyDrv.errRetryCount st <= 2 ->
  EasyDrv.lastStatus st = status ->
  EasyDrv.trace st = newer ++ EmitStatus status :: older ++ old ->
  Forall status_free newer -> Forall status_free older ->
  ~ In (EmitStatus "connect-busy") old ->
  easydrv_life st.
Proof.
  intros Hok Hbusy Hw Ho Hc He Hs Ht Fn Fo Hb. unfold easydrv_life.
  rewrite Hw, Ho, Hc, Hs, Ht. life_split8; try reflexivity.
  - rewrite last_status_app by exact Fn. reflexivity.
  - split; [discriminate | intros Hx; destruct (Hok Hx)].
  - discriminate.
  - exact He.
  - discriminate.
  - intros Hin. apply in_status_app in Hin; [| exact Fn].
    destruct Hin as [Hx|Hin]; [congruence |].
    apply in_status_app in Hin; [| exact Fo]. exact (Hb Hin).
Qed.

Lemma easydrv_life_failed (st : EasyDrv.State) (newer older old : list Event)
    (status : string) (values : Cache) :
  status <> "connect-ok" -> status <> "connect-busy" ->
  EasyDrv.working st = false -> EasyDrv.overloading st = 0 ->
  EasyDrv.connected st = false -> 0 <= EasyDrv.errRetryCount st <= 2 ->
  EasyDrv.lastStatus st = status ->
  EasyDrv.trace st
  = newer ++ EmitValues values :: EmitStatus status :: older ++ old ->
  Forall status_free newer -> Forall status_free older ->
  ~ In (EmitStatus "connect-busy") old ->
  easydrv_life st.
Proof.
  intros Hok Hbusy Hw Ho Hc He Hs Ht Fn Fo Hb.
  apply (easydrv_life_down st (newer ++ [EmitValues values]) older old
           status); try assumption.
  - rewrite Ht, <- app_assoc. reflexivity.
  - apply Forall_app. split; [exact Fn | repeat constructor].
Qed.

Lemma easydrv_life_connect `{Zlib} `{Codec} `{Fengari} `{Runtime}
    (env : EasyDrv.ConnectEnv) (st : EasyDrv.State) :
  easydrv_life st -> easydrv_life (EasyDrv.connect env st).2.
Proof.
  intros (Hw & Ho & Hs & Hc & Hk & He & Hlt & Hb).
  destruct (easydrv_connect_effect env st Hw) as (Rw & Ro & _ & _ & Hcase).
  cbv zeta in *.
  destruct (EasyDrv.tcp env) as [| |err].
  - destruct Hcase as (_ & Rc & Rs & Rst & Re & _ & older & Rt & Fo).
    unfold easydrv_life. rewrite Rw, Ro, Rc, Rs, Rst, Re, Rt.
    life_split8; try reflexivity.
    + split; reflexivity.
    + intros _. eexists; reflexivity.
    + lia.
    + intros [Hx|[Hx|Hin]]; try discriminate.
      apply in_status_app in Hin; [| exact Fo]. exact (Hb Hin).
  - destruct Hcase as (_ & Rc & Rs & Rst & Re & _ & newer & older & Rt
                       & Fn & Fo).
    eapply (easydrv_life_failed _ newer older (EasyDrv.trace st)
              "connect-error");
      try eassumption; try discriminate. rewrite Re. exact He.
  - destruct Hcase as (_ & Rc & Rs & Rst & Re & _ & newer & older & Rt
                       & Fn & Fo).
    eapply (easydrv_life_failed _ newer older (EasyDrv.trace st)
              "connect-error");
      try eassumption; try discriminate. rewrite Re. exact He.
Qed.

Lemma easydrv_life_disconnect (st : EasyDrv.State) :
  easydrv_life st -> easydrv_life (EasyDrv.disconnect st).2.
Proof.
  intros (Hw & Ho & Hs & Hc & Hk & He & Hlt & Hb).
  destruct (easydrv_disconnect_effect st)
    as (_ & Rw & Ro & _ & _ & Rc & Rs & Rst & Re & _ & older & Rt & Fo).
  cbv zeta in *.
  eapply (easydrv_life_failed _ [] older (EasyDrv.trace st) "connect-off");
    try eassumption; try discriminate; [rewrite Re; lia | constructor].
Qed.

Lemma easydrv_life_quiet (st' st : EasyDrv.State) (events : list Event) :
  easydrv_life st ->
  EasyDrv.working st' = false -> EasyDrv.overloading st' = 0 ->
  EasyDrv.lastStatus st' = EasyDrv.lastStatus st ->
  EasyDrv.connected st' = EasyDrv.connected st ->
  EasyDrv.socket st' = EasyDrv.socket st ->
  EasyDrv.errRetryCount st' = EasyDrv.errRetryCount st ->
  EasyDrv.trace st' = events ++ EasyDrv.trace st ->
  Forall status_free events ->
  easydrv_life st'.
Proof.
  intros (Hw & Ho & Hs & Hc & Hk & He & Hlt & Hb) Rw Ro Rst Rc Rs Re Rt Fe.
  unfold easydrv_life. rewrite Rw, Ro, Rst, Rc, Rs, Re, Rt.
  life_split8; try reflexivity; try assumption.
  - rewrite last_status_app by exact Fe. exact Hs.
  - intros Hin. apply in_status_app in Hin; [| exact Fe]. exact (Hb Hin).
Qed.

Lemma easydrv_life_polling `{Zlib} `{Codec} `{Fengari} `{DeviceUtils} `{Runtime}
    (inc : Incoming) (now : Z) (st : EasyDrv.State) :
  easydrv_life st -> easydrv_life (EasyDrv.polling inc now st).
Proof.
  intros Hlife. pose proof Hlife as (Hw & Ho & Hs & Hc & Hk & He & Hlt & Hb).
  rewrite (easydrv_polling_effect inc now st Hw).
  destruct (negb (bool_decide (is_Some (EasyDrv.socket st)))
            || negb (EasyDrv.connected st)) eqn:Hup.
  - apply (easydrv_life_quiet _ st []); try reflexivity;
      [exact Hlife | constructor].
  - apply orb_false_iff in Hup. destruct Hup as [_ Hconn].
    apply negb_false_iff in Hconn.
    pose proof (easydrv_request_getPACStates inc
                  (EasyDrv.set_working true st)) as Hr.
    apply easydrv_same_core_request in Hr.
    destruct (EasyDrv._getPACStates inc (EasyDrv.set_working true st))
      as [[[ls|]|err] st2]; cbn [snd] in Hr;
      destruct Hr as (_ & A2 & A3 & A4 & A5 & _ & A7 & events & A8 & Fe);
      cbn [EasyDrv.socket EasyDrv.connected EasyDrv.lastStatus
           EasyDrv.errRetryCount EasyDrv.addDaq EasyDrv.trace
           EasyDrv.set_working] in *;
      assert (Fs : Forall status_free events)
        by (eapply Forall_impl; [exact Fe | apply request_event_status_free]).
    + destruct (easydrv_released (EasyDrv.poll_cycle now st2))
        as (Rw & Ro & Rc & Rs & _ & _ & Rst & Re & _ & Rt & _).
      destruct (easydrv_poll_cycle_link now st2)
        as (_ & Ps & Pc & _ & _ & _ & _ & _ & Pst).
      destruct (easydrv_poll_cycle_effect now st2) as (_ & Et & Ee & _).
      cbv zeta in *.
      set (c := tag_loop _ _ _ _ _) in Et.
      assert (Fc : Forall status_free (c_log c)).
      { eapply Forall_impl;
          [apply tag_loop_logs; constructor
          | apply request_event_status_free]. }
      clearbody c. unfold easydrv_life.
      rewrite Rw, Ro, Rc, Rs, Rst, Re, Rt, Pc, Ps, Pst, Ee, Et, A2, A3, A4,
        A8.
      rewrite (app_assoc (c_log c)).
      assert (Fall : Forall status_free (c_log c ++ events))
        by (apply Forall_app; split; assumption).
      life_split8; try reflexivity.
      * rewrite cycle_events_status.
        destruct (negb (String.eqb (EasyDrv.lastStatus st) "connect-ok"))
          eqn:E; [reflexivity |].
        rewrite last_status_app by exact Fall.
        rewrite <- Hs. symmetry. apply Hc, Hconn.
      * split; [reflexivity | intros _; exact Hconn].
      * exact Hk.
      * lia.
      * intros Hin. apply cycle_events_in in Hin.
        destruct Hin as [Hx|Hin]; [discriminate |].
        apply in_status_app in Hin; [exact (Hb Hin) | exact Fall].
    + apply (easydrv_life_quiet _ st events); try assumption; reflexivity.
    + destruct (easydrv_released (EasyDrv.polling_failed err st2))
        as (Rw & Ro & Rc & Rs & _ & _ & Rst & Re & _ & Rt & _).
      destruct (easydrv_polling_failed_fields err st2)
        as (Fe1 & Fs1 & _ & _ & _ & _ & Fcase).
      cbv zeta in *. rewrite A5 in Fe1, Fcase.
      pose proof (Hlt Hconn) as Hlt'.
      destruct (2 <=? EasyDrv.errRetryCount st + 1) eqn:E.
      * destruct Fcase as (Fc & Fst & Ft).
        apply (easydrv_life_down _ [Log LError (MsgPollingError err)]
                 events (EasyDrv.trace st) "connect-error");
          first [ discriminate | congruence | exact Fs | exact Hb
                | rewrite Re, Fe1; lia
                | rewrite Rt, Ft, A8; reflexivity
                | repeat constructor ].
      * destruct Fcase as (Fc & Fst & Ft). apply Z.leb_gt in E.
        unfold easydrv_life.
        rewrite Rw, Ro, Rc, Rs, Rst, Re, Rt, Fc, Fs1, Fst, Fe1, Ft, A2, A3,
          A4, A8.
        life_split8;
          first [ reflexivity | assumption | lia | intros _; lia
                | (change (Log LError (MsgPollingError err)
                             :: events ++ EasyDrv.trace st)
                     with ((Log LError (MsgPollingError err) :: events)
                             ++ EasyDrv.trace st);
                   rewrite last_status_app; [exact Hs |];
                   constructor; [exact I | exact Fs])
                | (intros [Hx|Hin]; [discriminate |];
                   apply in_status_app in Hin; [exact (Hb Hin) | exact Fs]) ].
Qed.

Lemma easydrv_life_perform `{Zlib} `{Codec} `{Fengari} `{DeviceUtils} `{Runtime}
    (st : EasyDrv.State) (c : EasyDrv.Call) :
  easydrv_life st -> easydrv_life (EasyDrv.perform st c).
Proof.
  intros Hi. destruct c; cbn [EasyDrv.perform].
  - apply easydrv_life_connect, Hi.
  - apply easydrv_life_disconnect, Hi.
  - apply easydrv_life_polling, Hi.
  - pose proof Hi as (Hw & Ho & _).
    apply (easydrv_life_quiet _ st [Log LInfo (MsgLoaded (length data_tags))]);
      try assumption; try reflexivity. repeat constructor.
  - exact Hi.
Qed.

Lemma easydrv_life_after `{Zlib} `{Codec} `{Fengari} `{DeviceUtils} `{Runtime}
    (tags : list (string * Tag)) (name : string)
    (history : list EasyDrv.Call) :
  easydrv_life (EasyDrv.after tags name history).
Proof.
  unfold EasyDrv.after.
  generalize (easydrv_life_initial tags name).
  generalize (EasyDrv.initial tags name).
  induction history as [|c rest IH]; intros st Hi; [exact Hi |].
  cbn [fold_left]. apply IH, easydrv_life_perform, Hi.
Qed.

(* ===================================================================== *)
(** * The life cycle: what the runtime can rely on *)
(* ===================================================================== *)

(** X7.  getStatus() agrees with the events and with the link.  After any
    history of calls that do not overlap, on either driver, getStatus()
    returns the status most recently emitted on 'device-status:changed'
    (the empty string when none was), and that status is 'connect-ok'
    exactly when the driver holds itself connected, in which case it has a
    socket and isConnected() differs from the flag only by the socket
    having been destroyed. *)
Theorem status_agrees_with_the_link
    `{Zlib} `{Codec} `{Json} `{Fengari} `{DeviceUtils} `{Runtime} :
  (forall tags history,
      let st := MPS.after tags history in
      MPS.getStatus st = last_status (MPS.trace st)
      /\ (MPS.connected st = true <-> MPS.getStatus st = "connect-ok")
      /\ (MPS.connected st = true ->
          exists sk, MPS.socket st = Some sk
                     /\ MPS.isConnected st = negb (destroyed sk))
      /\ (MPS.connected st = false -> MPS.isConnected st = false))
  /\ (forall tags name history,
      let st := EasyDrv.after tags name history in
      EasyDrv.getStatus st = last_status (EasyDrv.trace st)
      /\ (EasyDrv.connected st = true
          <-> EasyDrv.getStatus st = "connect-ok")
      /\ (EasyDrv.connected st = true ->
          exists sk, EasyDrv.socket st = Some sk
                     /\ EasyDrv.isConnected st = negb (destroyed sk))
      /\ (EasyDrv.connected st = false -> EasyDrv.isConnected st = false)).
Proof.
  split.
  - intros tags history. cbv zeta.
    destruct (mps_life_after tags history)
      as (_ & _ & Hs & Hc & Hk & _ & _).
    unfold MPS.getStatus, MPS.isConnected.
    split; [exact Hs |]. split; [exact Hc |]. split.
    + intros Hconn. destruct (Hk Hconn) as [sk Hsk]. exists sk.
      rewrite Hconn, Hsk. split; reflexivity.
    + intros ->. reflexivity.
  - intros tags name history. cbv zeta.
    destruct (easydrv_life_after tags name history)
      as (_ & _ & Hs & Hc & Hk & _ & _ & _).
    unfold EasyDrv.getStatus, EasyDrv.isConnected.
    split; [exact Hs |]. split; [exact Hc |]. split.
    + intros Hconn. destruct (Hk Hconn) as [sk Hsk]. exists sk.
      rewrite Hconn, Hsk. split; reflexivity.
    + intros ->. reflexivity.
Qed.

(** X8.  Calls that do not overlap are never rejected.  After any history
    of completed calls the working flag is down and the rejection counter
    is 0, so the next polling() or connect() passes the overload guard;
    no 'connect-busy' status is ever emitted in such a history. *)
Theorem sequential_calls_are_never_busy
    `{Zlib} `{Codec} `{Json} `{Fengari} `{DeviceUtils} `{Runtime} :
  (forall tags history,
      let st := MPS.after tags history in
      MPS.working st = false /\ MPS.overloading st = 0
      /\ MPS._checkWorking true st = (true, MPS.set_working true st)
      /\ ~ In (EmitStatus "connect-busy") (MPS.trace st))
  /\ (forall tags name history,
      let st := EasyDrv.after tags name history in
      EasyDrv.working st = false /\ EasyDrv.overloading st = 0
      /\ EasyDrv._checkWorking true st
         = (true, EasyDrv.set_working true st)
      /\ ~ In (EmitStatus "connect-busy") (EasyDrv.trace st)).
Proof.
  split.
  - intros tags history. cbv zeta.
    destruct (mps_life_after tags history) as (Hw & Ho & _ & _ & _ & _ & Hb).
    split; [exact Hw |]. split; [exact Ho |].
    split; [apply mps_checkWorking_accepts, Hw | exact Hb].
  - intros tags name history. cbv zeta.
    destruct (easydrv_life_after tags name history)
      as (Hw & Ho & _ & _ & _ & _ & _ & Hb).
    split; [exact Hw |]. split; [exact Ho |].
    split; [apply easydrv_checkWorking_accepts, Hw | exact Hb].
Qed.

Lemma status_agrees_with_the_link_witness :
  let st := @MPS.after codec_plain json_none utils_plain runtime_plain []
              [MPS.CallConnect
                 {| MPS.fresh_socket := good_socket; MPS.tcp := TcpOpen |}] in
  MPS.getStatus st = "connect-ok"
  /\ exists sk, MPS.socket st = Some sk
                /\ MPS.isConnected st = negb (destroyed sk).
Proof.
  cbv zeta.
  destruct (proj1 (@status_agrees_with_the_link zlib_plain codec_plain
                     json_none fengari_cyclic utils_plain runtime_plain) []
              [MPS.CallConnect
                 {| MPS.fresh_socket := good_socket; MPS.tcp := TcpOpen |}])
    as (_ & Hc & Hk & _).
  split; [apply Hc; reflexivity | apply Hk; reflexivity].
Defined.



(** A request nothing answers fails, whatever the socket. *)
Lemma easydrv_getPACStates_unanswered `{Zlib} `{Codec} `{Fengari} `{Runtime}
    (inc : Incoming) (st : EasyDrv.State) :
  chunks inc = [] -> exists err, (EasyDrv._getPACStates inc st).1 = inr err.
Proof.
  intros Hc.
  unfold EasyDrv._getPACStates, EasyDrv._sendCommand, EasyDrv._sendFrame.
  cbn [EasyDrv.socket EasyDrv.set_recvBuffer].
  destruct (EasyDrv.socket st) as [sk|]; [| eexists; reflexivity].
  destruct (destroyed sk); [eexists; reflexivity |]. cbv zeta.
  destruct (throws_write sk); [eexists; reflexivity |].
  rewrite Hc. cbn. eexists; reflexivity.
Qed.

(** X10.  EasyDrvClient gives the link up after two failed cycles in a
    row.  A polling() whose state request fails emits no values, leaves the
    cache and the read timestamp alone and counts one error; when that
    makes two, the driver marks itself disconnected and reports
    'connect-error'.  From then on polling() writes nothing and changes
    nothing until connect() is called.  Over any history of calls that do
    not overlap the counter stays between 0 and 2, and below 2 while the
    driver holds itself connected.  A request that nothing answers is one
    that fails. *)
Theorem easydrv_gives_up_after_two_failed_cycles
    `{Zlib} `{Codec} `{Fengari} `{DeviceUtils} `{Runtime} :
  (forall inc now st err,
      EasyDrv.working st = false -> EasyDrv.connected st = true ->
      is_Some (EasyDrv.socket st) ->
      (EasyDrv._getPACStates inc (EasyDrv.set_working true st)).1
      = inr err ->
      let st' := EasyDrv.polling inc now st in
      EasyDrv.errRetryCount st' = EasyDrv.errRetryCount st + 1
      /\ EasyDrv.working st' = false
      /\ EasyDrv.varsValue st' = EasyDrv.varsValue st
      /\ EasyDrv.lastTimestampValue st' = EasyDrv.lastTimestampValue st
      /\ (forall values, In (EmitValues values) (EasyDrv.trace st') ->
                         In (EmitValues values) (EasyDrv.trace st))
      /\ if 2 <=? EasyDrv.errRetryCount st + 1
         then EasyDrv.connected st' = false
              /\ EasyDrv.lastStatus st' = "connect-error"
              /\ In (EmitStatus "connect-error") (EasyDrv.trace st')
         else EasyDrv.connected st' = true
              /\ EasyDrv.lastStatus st' = EasyDrv.lastStatus st)
  /\ (forall inc now st,
      EasyDrv.working st = false -> EasyDrv.connected st = false ->
      EasyDrv.polling inc now st
      = EasyDrv.set_overloading 0 (EasyDrv.set_working false st))
  /\ (forall tags name history,
      let st := EasyDrv.after tags name history in
      0 <= EasyDrv.errRetryCount st <= 2
      /\ (EasyDrv.connected st = true -> EasyDrv.errRetryCount st < 2))
  /\ (forall inc st,
      chunks inc = [] ->
      exists err, (EasyDrv._getPACStates inc st).1 = inr err).
Proof.
  split; [| split; [| split]]; [| | | apply easydrv_getPACStates_unanswered].
  - intros inc now st err Hw Hconn Hsock Hfail. cbv zeta.
    rewrite (easydrv_polling_effect inc now st Hw).
    rewrite Hconn, (bool_decide_eq_true_2 _ Hsock). cbn [negb orb].
    pose proof (easydrv_request_getPACStates inc
                  (EasyDrv.set_working true st)) as Hr.
    destruct (EasyDrv._getPACStates inc (EasyDrv.set_working true st))
      as [[r|e] st2]; cbn [fst snd] in *; [discriminate |].
    injection Hfail as ->.
    destruct Hr as [Hl (events & Ht & Fe)].
    apply easydrv_link_fields in Hl.
    cbn [EasyDrv.tags EasyDrv.pacName EasyDrv.socket EasyDrv.connected
         EasyDrv.working EasyDrv.overloading EasyDrv.lastStatus
         EasyDrv.lastTimestampValue EasyDrv.errRetryCount EasyDrv.gotDevices
         EasyDrv.varsValue EasyDrv.addDaq EasyDrv.trace
         EasyDrv.set_working] in Hl, Ht.
    destruct Hl as (_ & _ & _ & Lc & _ & _ & Lst & Lts & Le & _ & Lv & _).
    destruct (easydrv_released (EasyDrv.polling_failed err st2))
      as (Rw & _ & Rc & _ & _ & _ & Rst & Re & Rts & Rt & Rv & _).
    destruct (easydrv_polling_failed_fields err st2)
      as (Fe1 & _ & Fv & Fts & _ & _ & Fcase).
    cbv zeta in *. fold (easydrv_release (EasyDrv.polling_failed err st2)).
    rewrite Rw, Rc, Rst, Re, Rts, Rt, Rv, Fe1, Fv, Fts, Le, Lv, Lts.
    do 4 (split; [reflexivity |]).
    rewrite Le in Fcase.
    assert (Hold : forall values,
               In (EmitValues values) (events ++ EasyDrv.trace st) ->
               In (EmitValues values) (EasyDrv.trace st)).
    { intros values Hin. apply in_app_or in Hin.
      destruct Hin as [Hin|Hin]; [| exact Hin].
      rewrite List.Forall_forall in Fe. destruct (Fe _ Hin). }
    destruct (2 <=? EasyDrv.errRetryCount st + 1);
      destruct Fcase as (Fc & Fst & Ft); rewrite Fc, Fst, Ft, Ht.
    + split.
      * intros values [Hx|[Hx|Hin]]; try discriminate. apply Hold, Hin.
      * repeat split. right. left. reflexivity.
    + split.
      * intros values [Hx|Hin]; try discriminate. apply Hold, Hin.
      * split; congruence.
  - intros inc now st Hw Hconn.
    rewrite (easydrv_polling_effect inc now st Hw), Hconn.
    rewrite orb_true_r. reflexivity.
  - intros tags name history. cbv zeta.
    destruct (easydrv_life_after tags name history)
      as (_ & _ & _ & _ & _ & He & Hlt & _).
    split; assumption.
Qed.

Lemma easydrv_gives_up_after_two_failed_cycles_witness :
  let once := @EasyDrv.polling zlib_plain codec_plain fengari_cyclic
                utils_plain runtime_plain MPS.silent 1000 easydrv_online in
  EasyDrv.errRetryCount once = EasyDrv.errRetryCount easydrv_online + 1
  /\ EasyDrv.working once = false
  /\ EasyDrv.varsValue once = EasyDrv.varsValue easydrv_online.
Proof.
  cbv zeta.
  destruct (proj1 (@easydrv_gives_up_after_two_failed_cycles zlib_plain
                     codec_plain fengari_cyclic utils_plain runtime_plain)
              MPS.silent 1000 easydrv_online "timeout" eq_refl eq_refl
              (ex_intro _ good_socket eq_refl) eq_refl)
    as (H1 & H2 & H3 & _).
  split; [exact H1 |]. split; [exact H2 | exact H3].
Defined.

(* ===================================================================== *)
(** * EasyDrvClient: what a state answer does to the read-back state *)
(* ===================================================================== *)

Lemma easydrv_luaState_tryParseResponse `{Zlib} (st : EasyDrv.State) :
  EasyDrv.luaState (EasyDrv._tryParseResponse st).2 = EasyDrv.luaState st
  /\ EasyDrv.luaEngine (EasyDrv._tryParseResponse st).2
     = EasyDrv.luaEngine st.
Proof.
  unfold EasyDrv._tryParseResponse. cbv zeta.
  set (buf := EasyDrv.skip_to_marker (EasyDrv.recvBuffer st)).
  destruct buf as [|b0 [|b1 [|b2 [|b3 [|b4 rest]]]]]; cbn [snd];
    try (split; reflexivity).
  set (whole := b0 :: b1 :: b2 :: b3 :: b4 :: rest).
  destruct (bz b1 =? EasyDrv.AKN_ERR).
  - destruct (blen whole <? _); cbn [snd]; split; reflexivity.
  - destruct (negb (bz b2 =? _)); destruct (_ =? 0);
      try destruct (EasyDrv.MAX_BUFFER_SIZE <? _);
      try destruct (blen whole <? _); cbn [snd]; split; reflexivity.
Qed.

Lemma easydrv_luaState_onData `{Zlib} (incoming : list (list byte))
    (st : EasyDrv.State) :
  EasyDrv.luaState (EasyDrv.onData incoming st).2 = EasyDrv.luaState st
  /\ EasyDrv.luaEngine (EasyDrv.onData incoming st).2 = EasyDrv.luaEngine st.
Proof.
  revert st. induction incoming as [|chunk rest IH]; intros st;
    [split; reflexivity |].
  cbn [EasyDrv.onData].
  set (st1 := EasyDrv.set_recvBuffer _ st).
  destruct (easydrv_luaState_tryParseResponse st1) as [Hp He].
  destruct (EasyDrv._tryParseResponse st1) as [[r|] st2]; cbn [snd] in *.
  - rewrite Hp, He. split; reflexivity.
  - destruct (IH st2) as [I1 I2]. rewrite I1, I2, Hp, He. split; reflexivity.
Qed.

Lemma easydrv_luaState_sendCommand `{Zlib} (cmdByte : Z)
    (extra : list byte) (inc : Incoming) (st : EasyDrv.State) :
  EasyDrv.luaState (EasyDrv._sendCommand cmdByte extra inc st).2
  = EasyDrv.luaState st
  /\ EasyDrv.luaEngine (EasyDrv._sendCommand cmdByte extra inc st).2
     = EasyDrv.luaEngine st.
Proof.
  unfold EasyDrv._sendCommand, EasyDrv._sendFrame. cbv zeta.
  cbn [EasyDrv.socket EasyDrv.set_recvBuffer].
  destruct (EasyDrv.socket st) as [sk|]; [| split; reflexivity].
  destruct (destroyed sk); [split; reflexivity |].
  destruct (throws_write sk); [split; reflexivity |].
  match goal with
  | |- context [EasyDrv.onData _ ?a] =>
      destruct (easydrv_luaState_onData (chunks inc) a) as [Hd He];
      destruct (EasyDrv.onData (chunks inc) a) as [[[code|data|]|] s]
  end; cbn [snd] in *; rewrite Hd, He; split; reflexivity.
Qed.




(* ===================================================================== *)
(** * The write path: makeLuaSetCmd and setValue() *)
(* ===================================================================== *)

(** ** Strings *)

Lemma str_app_cons (x : ascii) (a b : string) :
  String x a +:+ b = String x (a +:+ b).
Proof. reflexivity. Qed.





(** Every character of a string is in a class. *)
Fixpoint all_chars (p : ascii -> bool) (s : string) : bool :=
  match s with
  | EmptyString => true
  | String c s' => p c && all_chars p s'
  end.







(** The text of the command:
    [__objName:set_cmd( "prop", n, value )]. *)
Definition set_cmd_text `{Runtime} (objName prop n : string) (value : JsVal) : string :=
  "__" +:+ objName +:+ ":set_cmd( " +:+ dquote +:+ prop +:+ dquote
    +:+ ", " +:+ n +:+ ", " +:+ lua_literal value +:+ " )".






Lemma word_one_line (c : ascii) :
  is_word c = true -> negb (is_line_terminator c) = true.
Proof. destruct c as [[] [] [] [] [] [] [] []]; vm_compute; congruence. Qed.



(** ** The greedy runs *)



(** ** The index *)






(** ** The property name and the index *)




(** ** The first group *)









Lemma set_cmd_text_nonempty `{Runtime} (obj prop n : string) (value : JsVal) :
  String.eqb (set_cmd_text obj prop n value) "" = false.
Proof. reflexivity. Qed.



(** ** setValue() *)







(** ** The fallback assignment *)














(* ===================================================================== *)
(** * Browsing the read-back state *)
(* ===================================================================== *)

(** The path of property names a browse id stands for; the root has
    none. *)
Definition browse_path (parentId : string) : list string :=
  if String.eqb parentId "" then [] else split_dot parentId.

(** ** Paths *)

Lemma split_dot_app (p k : string) :
  split_dot (p +:+ "." +:+ k) = split_dot p ++ split_dot k.
Proof.
  induction p as [|c p IH]; [reflexivity |].
  rewrite str_app_cons. cbn [split_dot].
  destruct (Ascii.eqb c "."); [rewrite IH; reflexivity |].
  rewrite IH. pose proof (split_dot_nonempty p) as Hne.
  destruct (split_dot p) as [|part parts]; [contradiction | reflexivity].
Qed.

Lemma at_path_app `{Runtime} (a b c : JsVal) (p q : list string) :
  at_path a p b -> at_path b q c -> at_path a (p ++ q) c.
Proof.
  induction 1 as [v | v k child rest r Ht Ho Hg Hc _ IH]; intros Hq;
    [exact Hq |].
  cbn [app]. eapply at_step; eauto.
Qed.

Lemma at_path_functional `{Runtime} (a x y : JsVal) (p : list string) :
  at_path a p x -> at_path a p y -> x = y.
Proof.
  induction 1 as [v | v k child rest r Ht Ho Hg Hc _ IH]; intros Hy.
  - inversion Hy. reflexivity.
  - apply at_path_cons_inv in Hy as (child' & _ & _ & Hg' & _ & Hy).
    assert (child' = child) by congruence. subst child'. apply IH, Hy.
Qed.

Lemma at_path_property `{Runtime} (obj v : JsVal) (key : string) :
  container obj = true -> getProp obj key = Some v -> v <> JUndefined ->
  at_path obj [key] v.
Proof.
  unfold container. intros Hc Hg Hv. apply andb_true_iff in Hc as [Ht Ho].
  eapply at_step; eauto. constructor.
Qed.

(** ** Nodes *)

Lemma browse_node_fields (parentId key : string) (v : JsVal)
    (n : BrowseNode) :
  EasyDrv.browse_node parentId key v = Some n ->
  node_name n = key
  /\ node_id n = (if negb (String.eqb parentId "")
                  then parentId +:+ "." +:+ key else key)
  /\ v <> JUndefined
  /\ (node_class n = NODE_CLASS_OBJECT <-> container v = true).
Proof.
  unfold EasyDrv.browse_node, container. cbv zeta.
  destruct v as [| | | | | | | | |[]]; intros E; try discriminate;
    injection E as <-;
    cbn; (repeat split; try discriminate; try reflexivity);
    try (intros E; discriminate E);
    rewrite andb_false_r; discriminate.
Qed.

Lemma browse_nodes_of `{Runtime} (ls : JsVal) (parentId : string)
    (nodes : list BrowseNode) (n : BrowseNode) :
  EasyDrv._buildBrowseNodes ls parentId = Some nodes -> n ∈ nodes ->
  exists obj,
    at_path ls (browse_path parentId) obj /\ container obj = true
    /\ node_name n ∈ own_keys obj
    /\ nodes = omap (fun key =>
                       EasyDrv.browse_node parentId key
                         (default JUndefined (getProp obj key)))
                 (own_keys obj)
    /\ EasyDrv.browse_node parentId (node_name n)
         (default JUndefined (getProp obj (node_name n))) = Some n.
Proof.
  unfold EasyDrv._buildBrowseNodes, browse_path. intros Hb Hn.
  assert (Hexit : exists exit,
             (if negb (String.eqb parentId "")
              then walk ls (split_dot parentId)
              else Some (Finished ls)) = Some exit
             /\ match exit with
                | Returned _ => Some []
                | Finished obj =>
                    if negb (truthy obj) || negb (is_object_type obj)
                    then Some []
                    else Some (omap (fun key =>
                                 EasyDrv.browse_node parentId key
                                   (default JUndefined (getProp obj key)))
                                 (own_keys obj))
                end = Some nodes).
  { destruct (if negb (String.eqb parentId "")
              then walk ls (split_dot parentId)
              else Some (Finished ls)) as [exit|]; [| discriminate].
    exists exit. split; [reflexivity | exact Hb]. }
  destruct Hexit as ([u | obj] & Hw & Hnodes).
  { injection Hnodes as <-. inversion Hn. }
  destruct (truthy obj) eqn:Ht; cbn [negb orb] in Hnodes;
    [| injection Hnodes as <-; inversion Hn].
  destruct (is_object_type obj) eqn:Ho; cbn [negb] in Hnodes;
    [| injection Hnodes as <-; inversion Hn].
  injection Hnodes as Hnodes. exists obj.
  assert (Hpath : at_path ls
                    (if String.eqb parentId "" then []
                     else split_dot parentId) obj).
  { destruct (String.eqb parentId ""); cbn [negb] in Hw.
    - injection Hw as ->. constructor.
    - apply walk_finished_iff, Hw. }
  rewrite <- Hnodes in Hn. apply list_elem_of_omap in Hn as (key & Hk & Hf).
  pose proof (browse_node_fields _ _ _ _ Hf) as (Hname & _).
  rewrite Hname.
  split; [exact Hpath |]. split; [unfold container; rewrite Ht, Ho; reflexivity |].
  split; [exact Hk |]. split; [symmetry; exact Hnodes | exact Hf].
Qed.

Lemma browse_id_path (parentId key : string) (v : JsVal) (n : BrowseNode) :
  EasyDrv.browse_node parentId key v = Some n ->
  index_of_dot key = None ->
  split_dot (node_id n) = browse_path parentId ++ [key].
Proof.
  intros Hf Hdot. apply browse_node_fields in Hf as (_ & -> & _).
  unfold browse_path.
  destruct (String.eqb parentId ""); cbn [negb app].
  - apply split_dot_no_dot, Hdot.
  - rewrite split_dot_app, (split_dot_no_dot key Hdot). reflexivity.
Qed.

Lemma browse_children `{Runtime} (ls v : JsVal) (id : string) :
  id <> "" -> at_path ls (split_dot id) v ->
  EasyDrv._buildBrowseNodes ls id
  = Some (if container v
          then omap (fun key =>
                       EasyDrv.browse_node id key
                         (default JUndefined (getProp v key)))
                 (own_keys v)
          else []).
Proof.
  intros Hid Hp. unfold EasyDrv._buildBrowseNodes, container.
  destruct (String.eqb_spec id "") as [E | _]; [contradiction |].
  cbn [negb]. apply walk_finished_iff in Hp. rewrite Hp. cbn.
  destruct (truthy v), (is_object_type v); reflexivity.
Qed.

Lemma browse_node_not_function (parentId key : string) (v : JsVal)
    (n : BrowseNode) :
  EasyDrv.browse_node parentId key v = Some n -> typeof v <> TFunction.
Proof.
  unfold EasyDrv.browse_node. cbv zeta.
  destruct v as [| | | | | | | | |[]]; intros E; try discriminate E;
    discriminate.
Qed.

Lemma passes_exit_scalar (v : JsVal) :
  passes_exit v = true -> typeof v <> TFunction -> is_scalar v = true.
Proof.
  destruct v as [| | | | | | | | |[]]; cbn; intros Hp Hf;
    try discriminate Hp; try reflexivity; contradiction.
Qed.

Lemma resolve_at_path `{Runtime} (ls v : JsVal) (tag : Tag) :
  lua_state_shape ls -> at_path ls (split_dot (tag_addr tag)) v ->
  typeof v <> TFunction ->
  EasyDrv._resolveTagValue ls tag
  = Some (if is_scalar v then v else JUndefined).
Proof.
  intros Hshape Hp Hf.
  destruct (easydrv_resolve_spec ls tag Hshape) as (r & -> & Hr & Hiff).
  f_equal. destruct (is_scalar v) eqn:Hv.
  - apply (Hiff v (is_scalar_passes v Hv)), Hp.
  - destruct Hr as [-> | Hr]; [reflexivity |].
    pose proof (proj1 (Hiff r Hr) eq_refl) as Hpr.
    rewrite (at_path_functional _ _ _ _ Hpr Hp) in Hr.
    rewrite (passes_exit_scalar v Hr Hf) in Hv. discriminate.
Qed.

Lemma browse_nodes_total `{Runtime} (ls : JsVal) (parentId : string) :
  exists nodes, EasyDrv._buildBrowseNodes ls parentId = Some nodes.
Proof.
  unfold EasyDrv._buildBrowseNodes.
  destruct (negb (String.eqb parentId "")).
  - destruct (walk_total (split_dot parentId) ls) as [[u | obj] ->]; cbn;
      [eauto |].
    destruct (negb (truthy obj) || negb (is_object_type obj)); eauto.
  - cbn. destruct (negb (truthy ls) || negb (is_object_type ls)); eauto.
Qed.

(** X15.  What browse lists can be read.  _buildBrowseNodes never raises,
    and every node it returns for a parent stands for a property that
    exists under that parent in luaState: a folder for a table, a variable
    typed number, boolean or string for anything else (a null among them,
    typed string).  When the property name has no dot, the node id is the
    dotted path of the value, so that browsing the id lists the properties
    of that value (nothing for a variable), and a tag whose address is the
    id resolves, in the states the driver reaches, to the value when it is
    a boolean, a number or a string, and to undefined for a folder and for
    a null. *)
Theorem browse_lists_what_can_be_read `{Runtime} :
  (forall ls parentId,
      exists nodes, EasyDrv._buildBrowseNodes ls parentId = Some nodes)
  /\ (forall ls parentId nodes n,
      EasyDrv._buildBrowseNodes ls parentId = Some nodes -> n ∈ nodes ->
      exists v,
        EasyDrv.browse_node parentId (node_name n) v = Some n
        /\ at_path ls (browse_path parentId ++ [node_name n]) v
        /\ (index_of_dot (node_name n) = None -> node_id n <> "" ->
            EasyDrv._buildBrowseNodes ls (node_id n)
            = Some (if container v
                    then omap (fun key =>
                                 EasyDrv.browse_node (node_id n) key
                                   (default JUndefined (getProp v key)))
                           (own_keys v)
                    else [])
            /\ (lua_state_shape ls ->
                forall tag,
                  tag_addr tag = node_id n ->
                  EasyDrv._resolveTagValue ls tag
                  = Some (if is_scalar v then v else JUndefined)))).
Proof.
  split; [exact browse_nodes_total |].
  - intros ls parentId nodes n Hb Hn.
    destruct (browse_nodes_of ls parentId nodes n Hb Hn)
      as (obj & Hpath & Hc & Hk & _ & Hf).
    pose proof Hc as Hc'. unfold container in Hc'.
    apply andb_true_iff in Hc' as [Ht _].
    destruct (getProp_truthy obj (node_name n) Ht) as [v Hg].
    rewrite Hg in Hf. cbn [default] in Hf.
    pose proof (browse_node_fields _ _ _ _ Hf) as (_ & _ & Hv & _).
    assert (Hat : at_path ls (browse_path parentId ++ [node_name n]) v).
    { eapply at_path_app; [exact Hpath |].
      apply at_path_property; assumption. }
    exists v. split; [exact Hf |]. split; [exact Hat |].
    intros Hdot Hid.
    rewrite <- (browse_id_path _ _ _ _ Hf Hdot) in Hat.
    split; [apply browse_children; assumption |].
    intros Hshape tag Haddr.
    apply resolve_at_path;
      [exact Hshape | | exact (browse_node_not_function _ _ _ _ Hf)].
    rewrite Haddr. exact Hat.
Qed.

Lemma browse_lists_what_can_be_read_witness :
  exists v,
    EasyDrv.browse_node "t.V1" "ST" v
    = Some {| node_id := "t.V1.ST"; node_name := "ST";
              node_class := NODE_CLASS_VARIABLE;
              node_type := Some "number" |}
    /\ at_path sample_lua_state (browse_path "t.V1" ++ ["ST"]) v.
Proof.
  destruct (proj2 browse_lists_what_can_be_read
              sample_lua_state "t.V1"
              [{| node_id := "t.V1.ST"; node_name := "ST";
                  node_class := NODE_CLASS_VARIABLE;
                  node_type := Some "number" |}]
              {| node_id := "t.V1.ST"; node_name := "ST";
                 node_class := NODE_CLASS_VARIABLE;
                 node_type := Some "number" |}
              eq_refl (list_elem_of_here _ _))
    as (v & Hf & Hat & _).
  exists v. split; [exact Hf | exact Hat].
Defined.

(** ** The keys of a value *)

Lemma insert_key_perm (x : N * string) (l : list (N * string)) :
  insert_key x l ≡ₚ x :: l.
Proof.
  induction l as [|y l IH]; cbn [insert_key]; [reflexivity |].
  destruct (x.1 <=? y.1)%N; [reflexivity |].
  rewrite IH. apply Permutation_swap.
Qed.

Lemma sorted_keys_perm (l : list (N * string)) :
  foldr insert_key [] l ≡ₚ l.
Proof.
  induction l as [|x l IH]; cbn [foldr]; [reflexivity |].
  rewrite insert_key_perm, IH. reflexivity.
Qed.

Lemma omap_names_NoDup {A B} (f : A -> option B) (g : B -> A) (l : list A) :
  (forall a b, f a = Some b -> g b = a) ->
  NoDup l -> NoDup (g <$> omap f l).
Proof.
  intros Hfg. induction 1 as [|a l Ha Hl IH]; [constructor |].
  cbn. destruct (f a) as [b|] eqn:Eb; [| exact IH].
  cbn. constructor; [| exact IH].
  rewrite (Hfg a b Eb). intros Hin.
  apply list_elem_of_fmap in Hin as (b' & Hb' & Hin).
  apply list_elem_of_omap in Hin as (a' & Ha' & Hf').
  rewrite (Hfg a' b' Hf') in Hb'. subst a'. contradiction.
Qed.

Lemma indexed_keys_elem (keys : list string) (k : string) :
  k ∈ (snd <$> foldr insert_key []
                 (omap (fun k => (fun n => (n, k)) <$> index_key k) keys))
  <-> k ∈ keys /\ index_key k <> None.
Proof.
  rewrite sorted_keys_perm, list_elem_of_fmap. split.
  - intros ([n k'] & -> & Hin).
    apply list_elem_of_omap in Hin as (k0 & Hk0 & Hf).
    destruct (index_key k0) as [n0|] eqn:E; [| discriminate].
    cbn in Hf. injection Hf as <- <-. cbn [snd]. rewrite E.
    split; [exact Hk0 | discriminate].
  - intros [Hk Hi]. destruct (index_key k) as [n|] eqn:E; [| contradiction].
    exists (n, k). split; [reflexivity |].
    apply list_elem_of_omap. exists k. rewrite E. split; [exact Hk | reflexivity].
Qed.

Lemma own_keys_object (props : list (string * JsVal)) (k : string) :
  k ∈ own_keys (JObject props) <-> k ∈ props.*1.
Proof.
  unfold own_keys. cbv zeta.
  rewrite elem_of_app, indexed_keys_elem, list_elem_of_filter,
    dedup_keys_elem.
  split.
  - intros [[[Hk _] _] | [_ [Hk _]]]; exact Hk.
  - intros Hk.
    assert (Hn : k ∉ ([] : list string)) by (intros Hx; inversion Hx).
    destruct (index_key k) eqn:E.
    + left. split; [split; assumption | discriminate].
    + right. split; [reflexivity | split; assumption].
Qed.

Lemma own_keys_NoDup (v : JsVal) : NoDup (own_keys v).
Proof.
  assert (Hobj : forall props : list (string * JsVal),
    NoDup (let keys := dedup_keys [] (fst <$> props) in
           let indexed :=
             omap (fun k => (fun n => (n, k)) <$> index_key k) keys in
           (snd <$> foldr insert_key [] indexed)
             ++ filter (fun k => index_key k = None) keys)).
  { intros props. cbv zeta. apply NoDup_app.
    pose proof (dedup_keys_NoDup (fst <$> props) []) as Hkeys.
    split; [| split].
    + rewrite sorted_keys_perm.
      apply omap_names_NoDup; [| exact Hkeys].
      intros a [n k] Hf. destruct (index_key a); [| discriminate].
      cbn in Hf. injection Hf as <- <-. reflexivity.
    + intros k Hk Hf. apply indexed_keys_elem in Hk as [_ Hi].
      apply list_elem_of_filter in Hf as [Hnone _]. contradiction.
    + apply NoDup_filter, Hkeys. }
  destruct v; cbn [own_keys]; try constructor; try apply Hobj;
    apply NoDup_fmap_2; try apply _; apply NoDup_seq.
Qed.

Lemma assoc_key {A} (k : string) (l : list (string * A)) (v : A) :
  assoc k l = Some v -> k ∈ l.*1.
Proof.
  induction l as [|[k' v'] l IH]; cbn; [discriminate |].
  destruct (String.eqb_spec k k') as [-> | _].
  - intros _. left.
  - intros E. right. apply IH, E.
Qed.

Lemma browse_node_some (parentId key : string) (v : JsVal) :
  v <> JUndefined -> typeof v <> TFunction ->
  exists n, EasyDrv.browse_node parentId key v = Some n.
Proof.
  destruct v as [| | | | | | | | |[]]; intros Hu Hf;
    try contradiction; cbn; eauto.
Qed.

(** The list _buildBrowseNodes returns: empty, or one node for every key
    of the table at the parent's path that holds a value. *)
Lemma browse_nodes_shape `{Runtime} (ls : JsVal) (parentId : string)
    (nodes : list BrowseNode) :
  EasyDrv._buildBrowseNodes ls parentId = Some nodes ->
  (nodes = []
   /\ forall obj, at_path ls (browse_path parentId) obj ->
                  container obj = false)
  \/ exists obj,
       at_path ls (browse_path parentId) obj /\ container obj = true
       /\ nodes = omap (fun key =>
                          EasyDrv.browse_node parentId key
                            (default JUndefined (getProp obj key)))
                    (own_keys obj).
Proof.
  unfold EasyDrv._buildBrowseNodes, browse_path, container.
  destruct (String.eqb parentId ""); cbn [negb].
  - cbn. destruct (truthy ls) eqn:Ht, (is_object_type ls) eqn:Ho;
      cbn [negb orb andb]; intros E; injection E as <-;
      first [ right; exists ls; rewrite Ht, Ho;
              split; [constructor | split; reflexivity]
            | left; split; [reflexivity |];
              intros obj Hp; inversion Hp; subst; rewrite Ht, Ho;
              reflexivity ].
  - destruct (walk ls (split_dot parentId)) as [[u | obj]|] eqn:Hw; cbn;
      [| | discriminate].
    + intros E. injection E as <-. left. split; [reflexivity |].
      intros obj Hp. apply walk_finished_iff in Hp. congruence.
    + apply walk_finished_iff in Hw as Hp.
      destruct (truthy obj) eqn:Ht, (is_object_type obj) eqn:Ho;
        cbn [negb orb andb]; intros E; injection E as <-;
        first [ right; exists obj; rewrite Ht, Ho;
                split; [exact Hp | split; reflexivity]
              | left; split; [reflexivity |];
                intros obj' Hp';
                rewrite (at_path_functional _ _ _ _ Hp' Hp), Ht, Ho;
                reflexivity ].
Qed.

Lemma node_id_inj (parentId : string) :
  Inj (=) (=) (fun key : string =>
                 if negb (String.eqb parentId "")
                 then parentId +:+ "." +:+ key else key).
Proof.
  intros a b. destruct (negb (String.eqb parentId "")); [| auto].
  intros E. apply String.app_inj in E. injection E as E. exact E.
Qed.

(** X16.  browse lists every property once.  The names of the nodes
    _buildBrowseNodes returns are pairwise different, and so are their ids;
    when the parent is an object, every property of it that holds a value
    -- anything but undefined or a function -- has its node, built from
    that value. *)
Theorem browse_lists_each_property_once `{Runtime} :
  forall ls parentId nodes,
    EasyDrv._buildBrowseNodes ls parentId = Some nodes ->
    NoDup (node_name <$> nodes)
    /\ NoDup (node_id <$> nodes)
    /\ (forall props key v,
          at_path ls (browse_path parentId) (JObject props) ->
          assoc key props = Some v -> v <> JUndefined ->
          typeof v <> TFunction ->
          exists n,
            n ∈ nodes /\ EasyDrv.browse_node parentId key v = Some n).
Proof.
  intros ls parentId nodes Hb.
  assert (Hnames : NoDup (node_name <$> nodes)).
  { destruct (browse_nodes_shape ls parentId nodes Hb)
      as [[-> _] | (obj & _ & _ & ->)]; [constructor |].
    apply omap_names_NoDup; [| apply own_keys_NoDup].
    intros key n Hf. apply browse_node_fields in Hf as [Hn _]. exact Hn. }
  split; [exact Hnames |]. split.
  - assert (Hids : node_id <$> nodes
                   = (fun key : string =>
                        if negb (String.eqb parentId "")
                        then parentId +:+ "." +:+ key else key)
                       <$> (node_name <$> nodes)).
    { rewrite <- list_fmap_compose. apply Forall_fmap_ext_1.
      apply Forall_forall. intros n Hn.
      destruct (browse_nodes_of ls parentId nodes n Hb Hn)
        as (obj & _ & _ & _ & _ & Hf).
      apply browse_node_fields in Hf as (_ & Hid & _). exact Hid. }
    rewrite Hids. apply NoDup_fmap_2; [apply node_id_inj | exact Hnames].
  - intros props key v Hp Ha Hv Hfn.
    destruct (browse_nodes_shape ls parentId nodes Hb)
      as [[_ Hleaf] | (obj & Hp' & _ & ->)].
    + specialize (Hleaf _ Hp). discriminate.
    + rewrite (at_path_functional _ _ _ _ Hp' Hp).
      destruct (browse_node_some parentId key v Hv Hfn) as [n Hn].
      exists n. split; [| exact Hn].
      apply list_elem_of_omap. exists key. split.
      * apply own_keys_object. eapply assoc_key, Ha.
      * unfold getProp. cbn [lookup_from]. rewrite Ha. exact Hn.
Qed.

Lemma browse_lists_each_property_once_witness :
  NoDup (node_id <$> [{| node_id := "t.V1.ST"; node_name := "ST";
                         node_class := NODE_CLASS_VARIABLE;
                         node_type := Some "number" |}]).
Proof.
  exact (proj1 (proj2 (browse_lists_each_property_once
                         sample_lua_state "t.V1" _ eq_refl))).
Defined.

(** ** browse() *)

(** X17.  browse() answers from the read-back state.  Not connected, it
    resolves with the empty list and does nothing.  Connected, it sends a
    state request only when no state with a table t has been read yet, and
    it rejects only when that request fails, logging the error; otherwise
    it resolves with the nodes _buildBrowseNodes gives for the state the
    driver then holds.  Whatever happens it leaves the tags, the socket,
    the connection flag, the status, the error counter and the cache as
    they were, and adds only what a request adds to the trace. *)
Theorem browse_answers_from_the_read_back_state
    `{Zlib} `{Codec} `{Fengari} `{Runtime} :
  forall parentId inc st,
    let r := EasyDrv.browse parentId inc st in
    easydrv_same_core r.2 st
    /\ (EasyDrv.connected st = false \/ EasyDrv.socket st = None ->
        r = ((inl [], []), st))
    /\ (EasyDrv.needs_states st = false -> r.2 = st)
    /\ (forall nodes,
        r.1.1 = inl nodes ->
        r.1.2 = []
        /\ (EasyDrv.connected st = true -> is_Some (EasyDrv.socket st) ->
            EasyDrv._buildBrowseNodes (EasyDrv.luaState r.2) parentId
            = Some nodes
            /\ EasyDrv.gotDevices r.2 = true))
    /\ (forall err,
        r.1.1 = inr err ->
        r.1.2 = [(LError, LogBrowseError err)]
        /\ EasyDrv.needs_states st = true
        /\ (EasyDrv._getPACStates inc st).1 = inr err
        /\ EasyDrv.gotDevices r.2 = EasyDrv.gotDevices st).
Proof.
  intros parentId inc st. cbv zeta. unfold EasyDrv.browse.
  destruct (EasyDrv.socket st) as [sk|] eqn:Hsk; cbn [negb orb];
    [| split; [apply easydrv_same_core_request, easydrv_request_refl |];
       split; [reflexivity |]; split; [reflexivity |];
       split; [intros nodes _; split; [reflexivity |];
               intros _ [x Hx]; discriminate
              | intros err E; discriminate]].
  rewrite bool_decide_eq_true_2 by eauto. cbn [negb orb].
  destruct (EasyDrv.connected st) eqn:Hcon; cbn [negb];
    [| split; [apply easydrv_same_core_request, easydrv_request_refl |];
       split; [reflexivity |]; split; [reflexivity |];
       split; [intros nodes _; split; [reflexivity |]; discriminate
              | intros err E; discriminate]].
  destruct (EasyDrv.needs_states st) eqn:Hneed.
  - pose proof (easydrv_request_getPACStates inc st) as Hreq.
    destruct (EasyDrv._getPACStates inc st) as [[answer | err] st1] eqn:Hget;
      cbn [fst snd] in *.
    + destruct (browse_nodes_total
                  (EasyDrv.luaState (EasyDrv.set_gotDevices true st1))
                  parentId) as [nodes Hnodes].
      rewrite Hnodes. cbn [fst snd].
      split.
      { destruct Hreq as [Hlink Htrace].
        unfold easydrv_link in Hlink. injection Hlink as ? ? ? ? ? ? ? ? ? ? ? ?.
        repeat split; cbn; try assumption. }
      split; [intros [E | E]; discriminate |].
      split; [discriminate |].
      split.
      * intros nodes' E. injection E as <-. split; [reflexivity |].
        intros _ _. split; [exact Hnodes | reflexivity].
      * intros err E. discriminate.
    + split; [apply easydrv_same_core_request, Hreq |].
      split; [intros [E | E]; discriminate |].
      split; [discriminate |].
      split; [intros nodes E; discriminate |].
      intros err' E. injection E as <-.
      split; [reflexivity |]. split; [reflexivity |].
      split; [reflexivity |].
      destruct Hreq as [Hlink _]. unfold easydrv_link in Hlink.
      injection Hlink as ? ? ? ? ? ? ? ? ? ? ? ?. assumption.
  - destruct (browse_nodes_total (EasyDrv.luaState st) parentId)
      as [nodes Hnodes].
    rewrite Hnodes. cbn [fst snd].
    split; [apply easydrv_same_core_request, easydrv_request_refl |].
    split; [intros [E | E]; discriminate |].
    split; [reflexivity |].
    split.
    + intros nodes' E. injection E as <-. split; [reflexivity |].
      intros _ _. split; [exact Hnodes |].
      unfold EasyDrv.needs_states in Hneed.
      apply orb_false_iff in Hneed as [Hneed _].
      apply orb_false_iff in Hneed as [Hneed _].
      apply negb_false_iff in Hneed. exact Hneed.
    + intros err E. discriminate.
Qed.

Lemma browse_answers_from_the_read_back_state_witness :
  @EasyDrv.browse zlib_plain codec_plain fengari_cyclic runtime_plain "t" MPS.silent
    (EasyDrv.initial [] "")
  = ((inl [], []), EasyDrv.initial [] "").
Proof.
  exact (proj1 (proj2 (@browse_answers_from_the_read_back_state
                         zlib_plain codec_plain fengari_cyclic runtime_plain
                         "t" MPS.silent (EasyDrv.initial [] "")))
           (or_introl eq_refl)).
Defined.

(* ===================================================================== *)
(** * MPSClient: one QueryAll per device *)
(* ===================================================================== *)

(** The first part of every tag address, in the order of the tags. *)
Definition address_heads (data_tags : list (string * Tag)) : list string :=
  (fun e : string * Tag => hd "" (split_dot (tag_addr e.2))) <$> data_tags.

(** A name polling() records as a device: not empty, and not [__proto__],
    whose assignment goes to the accessor and records nothing. *)
Definition recorded_name (dn : string) : Prop :=
  dn <> "" /\ dn <> "__proto__".

(** The recorded names, each once, in the order of first appearance. *)
Definition recorded_names (data_tags : list (string * Tag)) : list string :=
  dedup_keys [] (filter recorded_name (address_heads data_tags)).

Definition flags (names : list string) : list (string * JsVal) :=
  (fun dn => (dn, JBool true)) <$> names.

Lemma flags_keys (names : list string) : (flags names).*1 = names.
Proof.
  unfold flags. rewrite <- list_fmap_compose. apply list_fmap_id.
Qed.

Lemma assoc_flags_none (names : list string) (k : string) :
  k ∉ names -> assoc k (flags names) = None.
Proof.
  induction names as [|n names IH]; [reflexivity |].
  intros Hk. cbn. apply not_elem_of_cons in Hk as [Hne Hk].
  destruct (String.eqb_spec k n) as [-> | _]; [contradiction |].
  apply IH, Hk.
Qed.

Lemma assoc_set_flags (names : list string) (k : string) :
  assoc_set k (JBool true) (flags names)
  = flags (if bool_decide (k ∈ names) then names else names ++ [k]).
Proof.
  induction names as [|n names IH]; [reflexivity |].
  cbn [flags fmap list_fmap assoc_set].
  destruct (String.eqb_spec k n) as [-> | Hne].
  - rewrite bool_decide_eq_true_2 by left. reflexivity.
  - fold (flags names). rewrite IH.
    destruct (bool_decide_reflect (k ∈ names)) as [Hin | Hout].
    + rewrite bool_decide_eq_true_2 by (right; exact Hin). reflexivity.
    + rewrite bool_decide_eq_false_2; [reflexivity |].
      intros Hx. apply elem_of_cons in Hx as [-> | Hx]; contradiction.
Qed.

Lemma dedup_keys_seen (l seen seen' : list string) :
  (forall x, x ∈ seen <-> x ∈ seen') ->
  dedup_keys seen l = dedup_keys seen' l.
Proof.
  revert seen seen'. induction l as [|k l IH]; intros seen seen' Hs;
    [reflexivity |].
  cbn [dedup_keys].
  destruct (bool_decide_reflect (k ∈ seen)) as [Hin | Hout].
  - rewrite bool_decide_eq_true_2 by (apply Hs, Hin). apply IH, Hs.
  - rewrite bool_decide_eq_false_2 by (rewrite <- Hs; exact Hout).
    f_equal. apply IH. intros x. rewrite !elem_of_cons, Hs. reflexivity.
Qed.

Lemma dedup_keys_id (l seen : list string) :
  NoDup l -> (forall x, x ∈ l -> x ∉ seen) -> dedup_keys seen l = l.
Proof.
  intros Hl. revert seen. induction Hl as [|k l Hk Hl IH]; intros seen Hs;
    [reflexivity |].
  cbn [dedup_keys].
  rewrite bool_decide_eq_false_2 by (apply Hs; left).
  f_equal. apply IH. intros x Hx Hin.
  apply elem_of_cons in Hin as [-> | Hin]; [contradiction |].
  apply (Hs x); [right; exact Hx | exact Hin].
Qed.

(** The object the first loop fills, from any point of the loop on. *)
Lemma deviceNames_from (data_tags : list (string * Tag))
    (names : list string) :
  "__proto__" ∉ names ->
  fold_left
    (fun obj (e : string * Tag) =>
       let devName := hd "" (split_dot (tag_addr e.2)) in
       if negb (String.eqb devName "") then setProp devName (JBool true) obj
       else obj)
    data_tags (JObject (flags names))
  = JObject
      (flags (names
                ++ dedup_keys names
                     (filter recorded_name (address_heads data_tags)))).
Proof.
  revert names. induction data_tags as [|e rest IH]; intros names Hp.
  - cbn. rewrite app_nil_r. reflexivity.
  - cbn [fold_left address_heads fmap list_fmap]. cbv zeta.
    fold (address_heads rest).
    set (dn := hd "" (split_dot (tag_addr e.2))).
    destruct (String.eqb_spec dn "") as [E | Hne]; cbn [negb].
    { rewrite filter_cons_False by (intros [Hx _]; contradiction).
      apply IH, Hp. }
    destruct (String.eqb_spec dn "__proto__") as [E | Hnp].
    { rewrite filter_cons_False by (intros [_ Hx]; contradiction).
      rewrite E. unfold setProp, proto_accessor_applies. cbn [own_props].
      rewrite (assoc_flags_none names "__proto__" Hp). cbn.
      apply IH, Hp. }
    rewrite filter_cons_True by (split; assumption).
    assert (Hset : setProp dn (JBool true) (JObject (flags names))
                   = JObject (assoc_set dn (JBool true) (flags names))).
    { unfold setProp.
      destruct (String.eqb_spec dn "__proto__") as [E | _];
        [contradiction | reflexivity]. }
    rewrite Hset, assoc_set_flags. cbn [dedup_keys].
    destruct (bool_decide_reflect (dn ∈ names)) as [Hin | Hout].
    + apply IH, Hp.
    + rewrite IH.
      * rewrite <- app_assoc. cbn [app]. do 4 f_equal.
        apply dedup_keys_seen. intros x.
        rewrite elem_of_app, elem_of_cons, elem_of_cons.
        split; [intros [Hx | [Hx | Hx]] | intros [Hx | Hx]]; auto.
        inversion Hx.
      * intros Hx. apply elem_of_app in Hx as [Hx | Hx]; [contradiction |].
        apply list_elem_of_singleton in Hx. congruence.
Qed.

Lemma deviceNames_object (data_tags : list (string * Tag)) :
  MPS.deviceNames data_tags = JObject (flags (recorded_names data_tags)).
Proof.
  unfold MPS.deviceNames, recorded_names.
  change (JObject []) with (JObject (flags [])).
  rewrite deviceNames_from by apply not_elem_of_nil. reflexivity.
Qed.

(** ** The order of the integer-like names *)

Definition by_index (a b : N * string) : Prop := (a.1 <= b.1)%N.

Lemma insert_key_sorted (x : N * string) (l : list (N * string)) :
  StronglySorted by_index l -> StronglySorted by_index (insert_key x l).
Proof.
  induction 1 as [|y l Hl IH Hy]; cbn [insert_key].
  - repeat constructor.
  - destruct (x.1 <=? y.1)%N eqn:E.
    + apply N.leb_le in E. constructor; [constructor; assumption |].
      constructor; [exact E |].
      eapply Forall_impl; [exact Hy |]. intros z Hz.
      unfold by_index in *. lia.
    + apply N.leb_gt in E. constructor; [exact IH |].
      rewrite insert_key_perm. constructor; [| exact Hy].
      unfold by_index. lia.
Qed.

Lemma sorted_keys_sorted (l : list (N * string)) :
  StronglySorted by_index (foldr insert_key [] l).
Proof.
  induction l as [|x l IH]; cbn [foldr]; [constructor |].
  apply insert_key_sorted, IH.
Qed.

(** The names polling() visits: the recorded names that spell an array
    index first, in ascending order, then the others in the order of
    first appearance. *)
Lemma device_names_order (data_tags : list (string * Tag)) :
  exists indexed : list (N * string),
    MPS.device_names data_tags
    = indexed.*2
        ++ filter (fun k => index_key k = None) (recorded_names data_tags)
    /\ indexed ≡ₚ omap (fun k => (fun n => (n, k)) <$> index_key k)
                    (recorded_names data_tags)
    /\ StronglySorted by_index indexed.
Proof.
  unfold MPS.device_names. rewrite deviceNames_object.
  unfold own_keys. cbv zeta. rewrite flags_keys.
  assert (Hid : dedup_keys [] (recorded_names data_tags)
                = recorded_names data_tags).
  { apply dedup_keys_id; [apply dedup_keys_NoDup |].
    intros x _. apply not_elem_of_nil. }
  rewrite Hid.
  eexists. split; [reflexivity |].
  split; [apply sorted_keys_perm | apply sorted_keys_sorted].
Qed.

Lemma device_names_elem (data_tags : list (string * Tag)) (dn : string) :
  dn ∈ MPS.device_names data_tags
  <-> recorded_name dn
      /\ exists id tag,
           (id, tag) ∈ data_tags /\ hd "" (split_dot (tag_addr tag)) = dn.
Proof.
  unfold MPS.device_names. rewrite deviceNames_object, own_keys_object.
  rewrite flags_keys. unfold recorded_names, address_heads.
  rewrite dedup_keys_elem, list_elem_of_filter, list_elem_of_fmap. split.
  - intros [[Hr ([id tag] & -> & Hin)] _]. split; [exact Hr |].
    exists id, tag. split; [exact Hin | reflexivity].
  - intros [Hr (id & tag & Hin & <-)]. split; [| apply not_elem_of_nil].
    split; [exact Hr |]. exists (id, tag). split; [reflexivity | exact Hin].
Qed.

(** What polling() writes to the socket of a link that is up, whether the
    cycle runs to its end or its DAQ hand-off raises. *)
Lemma mps_polling_writes `{Codec} `{Json} `{DeviceUtils} `{RT : Runtime}
    (env : MPS.PollEnv) (now : Z) (st : MPS.State) (sk : Socket) :
  MPS.working st = false -> MPS.connected st = true ->
  MPS.socket st = Some sk -> destroyed sk = false ->
  throws_write sk = false ->
  sock_writes (MPS.trace (MPS.polling env now st))
  = rev ((fun dn => MPS._buildFrame (JSON_stringify_cmd dn "QueryAll" 0))
           <$> MPS.device_names (MPS.tags st))
      ++ sock_writes (MPS.trace st).
Proof.
  intros Hw Hc Hsk Hd Hwr.
  assert (Hup : socket_unusable (MPS.socket st) || negb (MPS.connected st)
                = false)
    by (rewrite Hsk, Hc; cbn; rewrite Hd; reflexivity).
  rewrite (mps_polling_effect env now st Hw), Hup.
  set (st3 := mps_queried (MPS.answers env) st).
  assert (Hq3 : sock_writes (MPS.trace st3)
                = rev ((fun dn =>
                          MPS._buildFrame (JSON_stringify_cmd dn "QueryAll" 0))
                         <$> MPS.device_names (MPS.tags st))
                    ++ sock_writes (MPS.trace st)).
  { subst st3. unfold mps_queried. cbv zeta.
    pose proof (mps_query_devices_writes (MPS.device_names (MPS.tags st))
                  (MPS.answers env) 0 (MPS.set_working true st) sk
                  Hsk Hd Hwr) as Hq.
    cbn [MPS.trace MPS.set_working] in Hq.
    assert (Hw2 : sock_writes
                    (MPS.trace
                       (MPS.query_devices (MPS.device_names (MPS.tags st))
                          (MPS.answers env) 0 (MPS.set_working true st)).2)
                  = rev ((fun dn =>
                            MPS._buildFrame
                              (JSON_stringify_cmd dn "QueryAll" 0))
                           <$> MPS.device_names (MPS.tags st))
                      ++ sock_writes (MPS.trace st)).
    { rewrite Hq, sock_writes_app. f_equal.
      rewrite <- sock_writes_rev_frames. f_equal. f_equal.
      rewrite <- list_fmap_compose. reflexivity. }
    destruct (0 <? _);
      [cbn [MPS.trace MPS.logger MPS.record MPS.set_trace] |]; exact Hw2. }
  clearbody st3.
  destruct (mps_released (MPS.poll_try (MPS.daq_raises env) now st3))
    as (_ & _ & _ & _ & _ & _ & _ & _ & _ & Rt & _).
  cbv zeta in Rt. rewrite Rt.
  destruct (daq_fails (MPS.daq_raises env) now st3) eqn:Ef.
  - destruct (mps_poll_try_caught _ now st3 Ef) as (err & _ & ->).
    destruct (mps_poll_caught_effect err now st3)
      as (_ & _ & _ & _ & _ & _ & _ & _ & _ & _ & _ & _ & Et).
    cbv zeta in Et. rewrite Et.
    match goal with
    | |- sock_writes (?a :: ?b :: ?c :: ?l) = _ =>
        change (sock_writes (a :: b :: c :: l)) with (sock_writes l)
    end.
    rewrite sock_writes_app.
    rewrite sock_writes_logs by (apply tag_loop_error_logs; constructor).
    exact Hq3.
  - rewrite (mps_poll_try_completes _ now st3 Ef).
    destruct (mps_poll_cycle_effect now st3) as (_ & Et & _).
    cbv zeta in Et. rewrite Et.
    rewrite !sock_writes_app, sock_writes_cycle.
    rewrite sock_writes_logs by (apply tag_loop_error_logs; constructor).
    exact Hq3.
Qed.

(** X6.  A polling cycle over a link that is up asks each device once: the
    frames it writes are the QueryAll commands of the device names that
    start the tag addresses -- every name that is not empty and not
    [__proto__], once each -- and nothing else is written to the socket,
    whether the cycle runs to its end or its DAQ hand-off raises.  The
    devices are asked in the order the language enumerates the names: those
    that spell an array index first, in ascending order, then the others
    in the order of first appearance. *)
Theorem polling_queries_each_device_once
    `{Codec} `{Json} `{DeviceUtils} `{RT : Runtime} :
  forall env now st sk,
    MPS.working st = false -> MPS.connected st = true ->
    MPS.socket st = Some sk -> destroyed sk = false ->
    throws_write sk = false ->
    sock_writes (MPS.trace (MPS.polling env now st))
    = rev ((fun dn => MPS._buildFrame (JSON_stringify_cmd dn "QueryAll" 0))
             <$> MPS.device_names (MPS.tags st))
        ++ sock_writes (MPS.trace st)
    /\ NoDup (MPS.device_names (MPS.tags st))
    /\ (forall dn,
          dn ∈ MPS.device_names (MPS.tags st)
          <-> (dn <> "" /\ dn <> "__proto__")
              /\ exists id tag,
                   (id, tag) ∈ MPS.tags st
                   /\ hd "" (split_dot (tag_addr tag)) = dn)
    /\ exists indexed : list (N * string),
         MPS.device_names (MPS.tags st)
         = indexed.*2
             ++ filter (fun k => index_key k = None)
                  (recorded_names (MPS.tags st))
         /\ indexed ≡ₚ omap (fun k => (fun n => (n, k)) <$> index_key k)
                         (recorded_names (MPS.tags st))
         /\ StronglySorted by_index indexed.
Proof.
  intros env now st sk Hw Hc Hsk Hd Hwr.
  split; [exact (mps_polling_writes env now st sk Hw Hc Hsk Hd Hwr) |].
  split; [apply own_keys_NoDup |].
  split; [intros dn; apply device_names_elem | apply device_names_order].
Qed.

Lemma polling_queries_each_device_once_witness :
  let st :=
    MPS.set_tags
      [("x", make_tag "X" "b.u.P" "string");
       ("y", make_tag "Y" "2.u.P" "string");
       ("z", make_tag "Z" "1.u.P" "string")] mps_online in
  sock_writes
    (MPS.trace
       (@MPS.polling codec_plain json_none utils_plain runtime_plain
          poll_silent 1000 st))
  = rev ((fun dn =>
            MPS._buildFrame (@JSON_stringify_cmd codec_plain dn "QueryAll" 0))
           <$> ["1"; "2"; "b"]).
Proof.
  cbv zeta.
  exact (proj1 (@polling_queries_each_device_once codec_plain json_none
                  utils_plain runtime_plain poll_silent 1000
                  (MPS.set_tags
                     [("x", make_tag "X" "b.u.P" "string");
                      ("y", make_tag "Y" "2.u.P" "string");
                      ("z", make_tag "Z" "1.u.P" "string")] mps_online)
                  good_socket eq_refl eq_refl eq_refl eq_refl eq_refl)).
Defined.

(* ===================================================================== *)
(** * MPSClient: the temporary connection of BrowseTags *)
(* ===================================================================== *)

(** When no 'data' event gave a response, the bytes received so far do not
    parse either: the buffer the 'close' listener looks at is the one the
    last 'data' event has already tried. *)
Lemma mps_onData_none (incoming : list (list byte)) :
  forall acc,
    MPS.onData acc incoming = None -> incoming <> [] ->
    MPS._tryParseFramedResponse (acc ++ concat incoming) = None.
Proof.
  induction incoming as [|chunk rest IH]; intros acc Hd Hne;
    [contradiction |].
  cbn [MPS.onData] in Hd. cbv zeta in Hd.
  destruct (MPS._tryParseFramedResponse (acc ++ chunk)) eqn:Hp;
    [discriminate |].
  destruct rest as [|chunk' rest'].
  - cbn [concat]. rewrite app_nil_r. exact Hp.
  - cbn [concat]. rewrite app_assoc.
    apply (IH (acc ++ chunk) Hd). discriminate.
Qed.

Lemma mps_close_parses_nothing (incoming : list (list byte)) :
  MPS.onData [] incoming = None ->
  (if 0 <? blen (concat incoming)
   then MPS._tryParseFramedResponse (concat incoming) else None) = None.
Proof.
  intros Hd. destruct incoming as [|chunk rest]; [reflexivity |].
  pose proof (mps_onData_none (chunk :: rest) [] Hd) as Hp.
  cbn [app] in Hp. rewrite Hp by discriminate.
  destruct (0 <? blen (concat (chunk :: rest))); reflexivity.
Qed.

(** The error the promise is rejected with when no response was parsed. *)
Definition temp_error (e : MPS.TempEnding) : string :=
  match e with
  | MPS.TempTimesOut => "timeout"
  | MPS.TempFails err => err
  | MPS.TempCloses => "connection closed before response"
  end.

Lemma mps_temp_socket_result (t : MPS.TempIncoming) :
  MPS._sendFramedOnTempSocket t
  = match MPS.onData [] (MPS.temp_chunks t) with
    | Some r => inl r
    | None => inr (temp_error (MPS.temp_ending t))
    end.
Proof.
  unfold MPS._sendFramedOnTempSocket.
  destruct (MPS.onData [] (MPS.temp_chunks t)) eqn:Hd; [reflexivity |].
  destruct (MPS.temp_ending t); try reflexivity.
  cbv zeta. rewrite (mps_close_parses_nothing _ Hd). reflexivity.
Qed.

(** X18.  BrowseTags needs a complete answer.  On the temporary socket a
    response is delivered only by a 'data' event: when the server closes
    the connection before one has parsed, the second look the 'close'
    listener takes at the received bytes finds nothing either, and the
    request is rejected with 'connection closed before response' (a
    timeout or a socket error reject with their own error).  A frame of the
    protocol is delivered whole however it is cut into chunks and however
    the connection ends afterwards.  _browseTags stores browseData
    only when the answer is a frame whose text parses as JSON; in every
    other case it raises and the driver is as it was; it never writes to
    the driver's own socket. *)
Theorem browse_tags_needs_a_complete_answer `{Json} :
  (forall t,
      MPS._sendFramedOnTempSocket t
      = match MPS.onData [] (MPS.temp_chunks t) with
        | Some r => inl r
        | None => inr (temp_error (MPS.temp_ending t))
        end)
  /\ (forall payload incoming how,
      blen payload <= MPS.MAX_PAYLOAD_SIZE ->
      concat incoming = MPS.frame payload ->
      MPS._sendFramedOnTempSocket
        {| MPS.temp_chunks := incoming; MPS.temp_ending := how |}
      = inl (MPS.FrameData (iconv_decode_win1251 payload)))
  /\ (forall t st,
      let r := MPS._browseTags t st in
      MPS.trace r.2 = MPS.trace st
      /\ MPS.deviceStates r.2 = MPS.deviceStates st
      /\ (forall v,
          r.1 = inl v ->
          r.2 = MPS.set_browseData v st
          /\ exists data,
               MPS.onData [] (MPS.temp_chunks t) = Some (MPS.FrameData data)
               /\ JSON_parse data = Some v)
      /\ (forall err, r.1 = inr err -> r.2 = st)).
Proof.
  split; [exact mps_temp_socket_result |]. split.
  - intros payload incoming how Hmax Hcat.
    rewrite mps_temp_socket_result. cbn [MPS.temp_chunks].
    rewrite (mps_onData_any_chunking payload incoming Hmax Hcat).
    reflexivity.
  - intros t st. cbv zeta. unfold MPS._browseTags.
    rewrite mps_temp_socket_result.
    destruct (MPS.onData [] (MPS.temp_chunks t)) as [[n | data]|];
      [| destruct (JSON_parse data) as [v|] eqn:Hj |]; cbn [fst snd];
      (split; [reflexivity |]; split; [reflexivity |];
       split; [intros v' E | intros err E]);
      try discriminate E; try reflexivity.
    injection E as <-. split; [reflexivity | eauto].
Qed.

Lemma browse_tags_needs_a_complete_answer_witness :
  MPS._sendFramedOnTempSocket
    {| MPS.temp_chunks := [[x50; x30; x30]; [x31; x00; x00; x00; x01; x41]];
       MPS.temp_ending := MPS.TempCloses |}
  = inl (MPS.FrameData (iconv_decode_win1251 [x41])).
Proof.
  exact (proj1 (proj2 (@browse_tags_needs_a_complete_answer
                         json_none))
           [x41] [[x50; x30; x30]; [x31; x00; x00; x00; x01; x41]]
           MPS.TempCloses ltac:(vm_compute; discriminate) eq_refl).
Defined.

(* ===================================================================== *)
(** * The value cache and getValue() *)
(* ===================================================================== *)





Section CacheFacts.
Context `{DeviceUtils}.
Variable resolve : Tag -> option JsVal.
Variable addDaq : bool.
Variable timestamp : Z.





End CacheFacts.

(** ** MPSClient *)









(** ** EasyDrvClient *)












(* ===================================================================== *)
(** * EasyDrvClient: the Lua text of an answer *)
(* ===================================================================== *)

(** A character _extractLuaString drops when nothing else surrounds it: a
    NUL or white space. *)
Definition is_blank (c : ascii) : bool :=
  Ascii.eqb c Ascii.zero || EasyDrv.is_space c.

Lemma all_chars_rev_app (p : ascii -> bool) (s acc : string) :
  all_chars p (String.rev_app s acc) = all_chars p s && all_chars p acc.
Proof.
  revert acc. induction s as [|c s IH]; intros acc; [reflexivity |].
  cbn [String.rev_app all_chars]. rewrite IH. cbn [all_chars].
  rewrite !andb_assoc. f_equal. apply andb_comm.
Qed.

Lemma all_chars_rev (p : ascii -> bool) (s : string) :
  all_chars p (String.rev s) = all_chars p s.
Proof. unfold String.rev. rewrite all_chars_rev_app. apply andb_true_r. Qed.

Lemma rev_app_empty (s acc : string) :
  String.rev_app s acc = "" -> s = "" /\ acc = "".
Proof.
  revert acc. induction s as [|c s IH]; intros acc; [auto |].
  cbn [String.rev_app]. intros E. apply IH in E as [_ E]. discriminate E.
Qed.

Lemma trim_start_empty (s : string) :
  EasyDrv.trim_start s = "" <-> all_chars EasyDrv.is_space s = true.
Proof.
  induction s as [|c s IH]; [split; reflexivity |].
  cbn [EasyDrv.trim_start all_chars].
  destruct (EasyDrv.is_space c); [exact IH |].
  split; discriminate.
Qed.

Lemma trim_start_all (p : ascii -> bool) (s : string) :
  all_chars p s = true -> all_chars p (EasyDrv.trim_start s) = true.
Proof.
  induction s as [|c s IH]; [reflexivity |].
  cbn [EasyDrv.trim_start]. intros Hs.
  destruct (EasyDrv.is_space c); [| exact Hs].
  cbn [all_chars] in Hs. apply andb_true_iff in Hs as [_ Hs]. exact (IH Hs).
Qed.

Lemma trim_empty (s : string) :
  EasyDrv.trim s = "" <-> all_chars EasyDrv.is_space s = true.
Proof.
  unfold EasyDrv.trim. split.
  - intros E. apply rev_app_empty in E as [E _].
    apply trim_start_empty in E. rewrite all_chars_rev in E.
    destruct (EasyDrv.trim_start s) as [|c t] eqn:Et.
    + apply trim_start_empty, Et.
    + exfalso.
      assert (Hc : EasyDrv.is_space c = false).
      { clear E. induction s as [|d s IH]; [discriminate Et |].
        cbn [EasyDrv.trim_start] in Et.
        destruct (EasyDrv.is_space d) eqn:Ed; [exact (IH Et) |].
        injection Et as -> _. exact Ed. }
      cbn [all_chars] in E. rewrite Hc in E. discriminate E.
  - intros Hs. apply trim_start_empty in Hs. rewrite Hs. reflexivity.
Qed.

Lemma strip_nul_blank (s : string) :
  all_chars EasyDrv.is_space (EasyDrv.strip_nul s) = all_chars is_blank s.
Proof.
  induction s as [|c s IH]; [reflexivity |].
  cbn [EasyDrv.strip_nul all_chars]. unfold is_blank at 1.
  destruct (Ascii.eqb_spec c Ascii.zero) as [-> | Hne].
  - exact IH.
  - cbn [all_chars orb]. rewrite IH. reflexivity.
Qed.

Lemma strip_nul_free (s : string) :
  all_chars (fun c => negb (Ascii.eqb c Ascii.zero)) (EasyDrv.strip_nul s)
  = true.
Proof.
  induction s as [|c s IH]; [reflexivity |].
  cbn [EasyDrv.strip_nul].
  destruct (Ascii.eqb c Ascii.zero) eqn:E; [exact IH |].
  cbn [all_chars]. rewrite E, IH. reflexivity.
Qed.

Lemma extractLuaString_empty `{Codec} (buf : list byte) :
  EasyDrv._extractLuaString buf = ""
  <-> buf = [] \/ all_chars is_blank (toString_utf8 buf) = true.
Proof.
  unfold EasyDrv._extractLuaString. destruct buf as [|b buf].
  - split; [left; reflexivity | reflexivity].
  - rewrite trim_empty, strip_nul_blank. split; [auto |].
    intros [E | E]; [discriminate E | exact E].
Qed.

(** X20.  An answer without text is no state.  _extractLuaString returns
    the empty string exactly when the buffer is empty or its text holds
    nothing but NUL characters and white space; what it returns never
    contains a NUL.  _getPACStates returns null exactly when the answer is
    shorter than the two bytes of the request id or the text after them is
    empty in that sense; the Lua engine is then not run and luaState stays
    as it was. *)
Theorem blank_answer_is_no_state `{Zlib} `{Codec} `{Fengari} `{Runtime} :
  (forall buf,
      (EasyDrv._extractLuaString buf = ""
       <-> buf = [] \/ all_chars is_blank (toString_utf8 buf) = true)
      /\ all_chars (fun c => negb (Ascii.eqb c Ascii.zero))
           (EasyDrv._extractLuaString buf) = true)
  /\ (forall inc st answer st1,
      EasyDrv._sendCommand EasyDrv.CMD_GET_STATES [] inc st
      = (inl answer, st1) ->
      ((EasyDrv._getPACStates inc st).1 = inl None
       <-> blen answer < 2 \/ drop 2 answer = []
           \/ all_chars is_blank (toString_utf8 (drop 2 answer)) = true)
      /\ ((EasyDrv._getPACStates inc st).1 = inl None ->
          (EasyDrv._getPACStates inc st).2 = st1
          /\ EasyDrv.luaState st1 = EasyDrv.luaState st
          /\ EasyDrv.luaEngine st1 = EasyDrv.luaEngine st)).
Proof.
  split.
  - intros buf. split; [apply extractLuaString_empty |].
    unfold EasyDrv._extractLuaString. destruct buf as [|b buf];
      [reflexivity |].
    unfold EasyDrv.trim. rewrite all_chars_rev.
    apply trim_start_all. rewrite all_chars_rev.
    apply trim_start_all, strip_nul_free.
  - intros inc st answer st1 Hs.
    pose proof (easydrv_luaState_sendCommand EasyDrv.CMD_GET_STATES [] inc st)
      as [Hls Hle].
    rewrite Hs in Hls, Hle. cbn [snd] in Hls, Hle.
    unfold EasyDrv._getPACStates. rewrite Hs.
    unfold EasyDrv.REQ_ID_SIZE. change (Z.to_nat 2) with 2%nat.
    destruct (blen answer <? 2) eqn:Hlen.
    + apply Z.ltb_lt in Hlen. cbn [fst snd].
      split; [split; [intros _; left; exact Hlen | reflexivity] |].
      intros _. auto.
    + apply Z.ltb_ge in Hlen. cbv zeta.
      pose proof (extractLuaString_empty (drop 2 answer)) as Hblank.
      destruct (String.eqb_spec (EasyDrv._extractLuaString (drop 2 answer))
                  "") as [E | Hne]; cbn [negb fst snd].
      * split; [split; [intros _; right; apply Hblank, E | reflexivity] |].
        intros _. auto.
      * split.
        -- split; [discriminate |].
           intros [Hlt | Hb]; [lia |]. exfalso. apply Hne, Hblank, Hb.
        -- discriminate.
Qed.

Lemma blank_answer_is_no_state_witness :
  (@EasyDrv._getPACStates zlib_plain codec_plain fengari_cyclic runtime_plain
     {| chunks := [EasyDrv.response_frame x0c x01 [x00; x00; x20; x00]];
        ending := TimesOut |} easydrv_online).1
  = inl None.
Proof.
  assert (Hs : exists st1,
             @EasyDrv._sendCommand zlib_plain EasyDrv.CMD_GET_STATES []
               {| chunks := [EasyDrv.response_frame x0c x01
                               [x00; x00; x20; x00]];
                  ending := TimesOut |} easydrv_online
             = (inl [x00; x00; x20; x00], st1))
    by (eexists; vm_compute; reflexivity).
  destruct Hs as [st1 Hs].
  exact (proj2 (proj1 (proj2 (@blank_answer_is_no_state
                                zlib_plain codec_plain fengari_cyclic runtime_plain)
                         _ _ _ _ Hs))
           (or_intror (or_intror eq_refl))).
Defined.

(* ===================================================================== *)
(** * What disconnect() forgets *)
(* ===================================================================== *)

(** The address of the tag does not begin with a name that
    Object.prototype answers to. *)
Definition plain_address (tag : Tag) : bool :=
  negb (inherited_entry (hd "" (split_dot (tag_addr tag)))).

Lemma not_inherited (k : string) (proto : JsVal) :
  inherited_entry k = false -> object_prototype_get k proto = JUndefined.
Proof.
  unfold inherited_entry, object_prototype_get.
  destruct (String.eqb k "__proto__"); [discriminate |].
  destruct (String.eqb k "constructor"); [discriminate |].
  destruct (bool_decide (k ∈ object_prototype_methods)); [discriminate |].
  reflexivity.
Qed.

Lemma getProp_empty `{Runtime} (k : string) :
  getProp (JObject []) k
  = Some (object_prototype_get k (JBuiltin ObjectPrototype)).
Proof. reflexivity. Qed.

Lemma getProp_object_prototype `{Runtime} (k : string) :
  getProp (JBuiltin ObjectPrototype) k = Some (object_prototype_get k JNull).
Proof. reflexivity. Qed.

Lemma mps_resolve_nothing `{Runtime} (tag : Tag) :
  plain_address tag = true ->
  MPS._resolveTagValue [] tag = Some JUndefined.
Proof.
  unfold plain_address, MPS._resolveTagValue. cbv zeta. intros Hp.
  apply negb_true_iff in Hp.
  destruct (split_dot (tag_addr tag)) as [|dev [|unit [|k rest]]];
    try reflexivity.
  cbn [hd] in Hp. rewrite (getProp_empty dev), (not_inherited dev _ Hp).
  reflexivity.
Qed.

Lemma easydrv_resolve_nothing `{Runtime} (tag : Tag) :
  plain_address tag = true ->
  EasyDrv._resolveTagValue (JObject []) tag = Some JUndefined.
Proof.
  unfold plain_address, EasyDrv._resolveTagValue. cbv zeta. intros Hp.
  apply negb_true_iff in Hp.
  assert (Hdirect : object_prototype_get (tag_addr tag)
                      (JBuiltin ObjectPrototype) = JUndefined).
  { destruct (index_of_dot (tag_addr tag)) eqn:Ed.
    - destruct (object_prototype_get (tag_addr tag)
                  (JBuiltin ObjectPrototype)) eqn:Eg; try reflexivity;
        (assert (Hn : index_of_dot (tag_addr tag) = None)
           by (apply (object_prototype_get_name _ (JBuiltin ObjectPrototype));
               rewrite Eg; discriminate);
         congruence).
    - rewrite (split_dot_no_dot _ Ed) in Hp. cbn [hd] in Hp.
      apply not_inherited, Hp. }
  rewrite (getProp_empty (tag_addr tag)), Hdirect.
  cbn [mbind option_bind is_undefined negb andb].
  destruct (dot_after_first (tag_addr tag)); [| reflexivity].
  unfold resolve_from.
  pose proof (split_dot_nonempty (tag_addr tag)) as Hne.
  destruct (split_dot (tag_addr tag)) as [|k rest]; [contradiction |].
  cbn [hd] in Hp. cbn [walk truthy is_object_type typeof andb].
  rewrite (getProp_empty k), (not_inherited k _ Hp). reflexivity.
Qed.

(** The read-back state [{}] answers a name of Object.prototype with the
    function held there, which passes for a value. *)
Lemma easydrv_resolve_inherited `{Runtime} (tag : Tag) :
  tag_addr tag ∈ object_prototype_methods ->
  EasyDrv._resolveTagValue (JObject []) tag
  = Some (JBuiltin (BuiltinFunction
                      (if String.eqb (tag_addr tag) "constructor"
                       then "Object" else tag_addr tag))).
Proof.
  intros Hin. unfold EasyDrv._resolveTagValue. cbv zeta.
  unfold object_prototype_methods in Hin.
  repeat (apply elem_of_cons in Hin as [-> | Hin]; [reflexivity |]).
  apply elem_of_nil in Hin. destruct Hin.
Qed.

Lemma walk_leaf `{Runtime} (v : JsVal) (parts : list string) :
  truthy v && is_object_type v = false ->
  walk v parts = Some (match parts with
                       | [] => Finished v
                       | _ :: _ => Returned JUndefined
                       end).
Proof.
  intros Hv. destruct parts as [|k rest]; [reflexivity |].
  cbn [walk]. rewrite Hv. reflexivity.
Qed.

Lemma browse_nothing `{Runtime} (parentId : string) :
  EasyDrv._buildBrowseNodes (JObject []) parentId = Some [].
Proof.
  unfold EasyDrv._buildBrowseNodes.
  destruct (negb (String.eqb parentId "")); [| reflexivity].
  pose proof (split_dot_nonempty parentId) as Hne.
  destruct (split_dot parentId) as [|k rest]; [contradiction |].
  cbn [walk truthy is_object_type typeof andb].
  rewrite (getProp_empty k).
  cbn [mbind option_bind]. unfold object_prototype_get.
  destruct (String.eqb k "__proto__").
  - cbn [is_undefined]. destruct rest as [|k2 rest2]; [reflexivity |].
    cbn [walk truthy is_object_type typeof andb].
    rewrite (getProp_object_prototype k2). cbn [mbind option_bind].
    unfold object_prototype_get.
    destruct (String.eqb k2 "__proto__");
      [| destruct (String.eqb k2 "constructor");
         [| destruct (bool_decide (k2 ∈ object_prototype_methods))]];
      cbn [is_undefined mbind option_bind]; try reflexivity;
      rewrite walk_leaf by reflexivity; destruct rest2; reflexivity.
  - destruct (String.eqb k "constructor");
      [| destruct (bool_decide (k ∈ object_prototype_methods))];
      cbn [is_undefined mbind option_bind]; try reflexivity;
      rewrite walk_leaf by reflexivity; destruct rest; reflexivity.
Qed.

(** A cycle in which no tag resolves leaves the cache, the set of changed
    ids and the log as they were. *)
Lemma tag_loop_nothing `{DeviceUtils} (resolve : Tag -> option JsVal)
    (addDaq : bool) (timestamp : Z) (tags : list (string * Tag)) (c : Cycle) :
  Forall (fun e => resolve e.2 = Some JUndefined) tags ->
  tag_loop resolve addDaq timestamp tags c = c.
Proof.
  intros Hu. unfold tag_loop. revert c.
  induction Hu as [|[id tag] rest Hhere _ IH]; intros c; [reflexivity |].
  cbn [fold_left]. unfold tag_step at 2. cbn [fst snd] in *.
  rewrite Hhere. cbn [is_undefined]. apply IH.
Qed.

(** X21.  disconnect() forgets what was read.  In MPSClient the cached
    device states and the browse data are dropped; in EasyDrvClient the
    read-back state is the empty object again and the devices count as not
    received; the Lua engine is closed, unless removeAllListeners raised,
    which skips the rest of the try block and leaves the engine open.
    From such a state browsing lists nothing and no tag resolves whose
    address begins with a name other than those of Object.prototype; a
    tag of EasyDrvClient addressed by the name of a function of
    Object.prototype resolves to that function.  A polling cycle over
    tags of the first kind, run before a new state
    has been read -- after a reconnect whose requests were not answered --
    leaves every cached entry as it is: the values disconnect() set to
    null stay null. *)
Theorem disconnect_forgets_what_was_read `{DeviceUtils} `{Runtime} :
  (forall st tag,
      let st' := (MPS.disconnect st).2 in
      MPS.deviceStates st' = [] /\ MPS.browseData st' = JNull
      /\ (plain_address tag = true ->
          MPS._resolveTagValue (MPS.deviceStates st') tag = Some JUndefined))
  /\ (forall st tag parentId,
      let st' := (EasyDrv.disconnect st).2 in
      EasyDrv.luaState st' = JObject []
      /\ EasyDrv.luaEngine st' = match EasyDrv.socket st with
                                | Some sk =>
                                    if throws_removeAllListeners sk
                                    then EasyDrv.luaEngine st else None
                                | None => None
                                end
      /\ EasyDrv.gotDevices st' = false
      /\ (plain_address tag = true ->
          EasyDrv._resolveTagValue (EasyDrv.luaState st') tag
          = Some JUndefined)
      /\ (tag_addr tag ∈ object_prototype_methods ->
          EasyDrv._resolveTagValue (EasyDrv.luaState st') tag
          = Some (JBuiltin (BuiltinFunction
                              (if String.eqb (tag_addr tag) "constructor"
                               then "Object" else tag_addr tag))))
      /\ EasyDrv._buildBrowseNodes (EasyDrv.luaState st') parentId
         = Some [])
  /\ (forall now st,
      MPS.deviceStates st = [] ->
      Forall (fun e => plain_address e.2 = true) (MPS.tags st) ->
      MPS.varsValue (MPS.poll_cycle now st) = MPS.varsValue st
      /\ forall changed,
           In (AddDaq changed) (MPS.trace (MPS.poll_cycle now st)) ->
           In (AddDaq changed) (MPS.trace st))
  /\ (forall now st,
      EasyDrv.luaState st = JObject [] ->
      Forall (fun e => plain_address e.2 = true) (EasyDrv.tags st) ->
      EasyDrv.varsValue (EasyDrv.poll_cycle now st) = EasyDrv.varsValue st
      /\ forall changed,
           In (AddDaq changed) (EasyDrv.trace (EasyDrv.poll_cycle now st)) ->
           In (AddDaq changed) (EasyDrv.trace st)).
Proof.
  split; [| split; [| split]].
  - intros st tag. cbv zeta.
    assert (Hd : MPS.deviceStates (MPS.disconnect st).2 = []
                 /\ MPS.browseData (MPS.disconnect st).2 = JNull).
    { unfold MPS.disconnect, MPS.disconnect_finally, MPS.disconnect_try.
      rewrite mps_checkWorking_false. cbn. auto. }
    destruct Hd as [Hd Hb]. rewrite Hd.
    split; [reflexivity |]. split; [exact Hb | apply mps_resolve_nothing].
  - intros st tag parentId. cbv zeta.
    assert (Hd : EasyDrv.luaState (EasyDrv.disconnect st).2 = JObject []
                 /\ EasyDrv.luaEngine (EasyDrv.disconnect st).2
                    = match EasyDrv.socket st with
                                | Some sk =>
                                    if throws_removeAllListeners sk
                                    then EasyDrv.luaEngine st else None
                                | None => None
                                end
                 /\ EasyDrv.gotDevices (EasyDrv.disconnect st).2 = false).
    { unfold EasyDrv.disconnect, EasyDrv.disconnect_finally,
        EasyDrv.disconnect_try.
      rewrite easydrv_checkWorking_false. cbn.
      destruct (EasyDrv.socket st) as [sk|]; cbn.
      - destruct (throws_removeAllListeners sk);
          [| destruct (throws_destroy sk)]; cbn;
          destruct (EasyDrv.luaEngine st) eqn:E; cbn; rewrite ?E; auto.
      - destruct (EasyDrv.luaEngine st) eqn:E; cbn; rewrite ?E; auto. }
    destruct Hd as (Hl & He & Hg). rewrite Hl.
    split; [reflexivity |]. split; [exact He |]. split; [exact Hg |].
    split; [apply easydrv_resolve_nothing |].
    split; [apply easydrv_resolve_inherited | apply browse_nothing].
  - intros now st Hd Hplain.
    destruct (mps_poll_cycle_effect now st) as (Evars & Etrace & _).
    cbv zeta in *. rewrite Hd in Evars, Etrace.
    assert (Hloop : forall c,
              tag_loop (MPS._resolveTagValue []) (MPS.addDaq st) now
                (MPS.tags st) c = c).
    { intros c. apply tag_loop_nothing.
      eapply Forall_impl; [exact Hplain |].
      intros e He. apply mps_resolve_nothing, He. }
    rewrite Hloop in Evars, Etrace.
    cbn [c_vars c_log] in Evars, Etrace.
    split; [exact Evars |]. intros changed. rewrite Etrace.
    unfold cycle_events. cbn [c_changed c_vars].
    rewrite andb_false_r.
    destruct (negb (String.eqb (MPS.lastStatus st) "connect-ok")); cbn;
      intros Hx;
      repeat (destruct Hx as [Hx | Hx]; [discriminate Hx |]);
      exact Hx.
  - intros now st Hd Hplain.
    destruct (easydrv_poll_cycle_effect now st) as (Evars & Etrace & _).
    cbv zeta in *. rewrite Hd in Evars, Etrace.
    assert (Hloop : forall c,
              tag_loop (EasyDrv._resolveTagValue (JObject []))
                (EasyDrv.addDaq st) now (EasyDrv.tags st) c = c).
    { intros c. apply tag_loop_nothing.
      eapply Forall_impl; [exact Hplain |].
      intros e He. apply easydrv_resolve_nothing, He. }
    rewrite Hloop in Evars, Etrace.
    cbn [c_vars c_log] in Evars, Etrace.
    split; [exact Evars |]. intros changed. rewrite Etrace.
    unfold cycle_events. cbn [c_changed c_vars].
    rewrite andb_false_r.
    destruct (negb (String.eqb (EasyDrv.lastStatus st) "connect-ok")); cbn;
      intros Hx;
      repeat (destruct Hx as [Hx | Hx]; [discriminate Hx |]);
      exact Hx.
Qed.

Lemma disconnect_forgets_what_was_read_witness :
  let st := (EasyDrv.disconnect easydrv_three_tags).2 in
  Forall (fun e => plain_address e.2 = true) (EasyDrv.tags st)
  /\ EasyDrv.varsValue
       (@EasyDrv.poll_cycle utils_plain runtime_plain 1000 st)
     = EasyDrv.varsValue st.
Proof.
  cbv zeta.
  assert (Hplain : Forall (fun e => plain_address e.2 = true)
                     (EasyDrv.tags (EasyDrv.disconnect easydrv_three_tags).2))
    by (repeat constructor).
  split; [exact Hplain |].
  exact (proj1 (proj2 (proj2 (proj2
           (@disconnect_forgets_what_was_read utils_plain runtime_plain)))
           1000 (EasyDrv.disconnect easydrv_three_tags).2 eq_refl Hplain)).
Defined.
